(* ===== verification/_CoqProject ===== *)
-Q . S2P
Prelude.v
GoStd.v
GoCodec.v
GoJson.v
Merkle.v
State.v
Codec.v
Stake.v
GoFloat.v
GoNum.v
Rewards.v
Supply.v
Types.v
Tx.v
RewardState.v
LegacyState.v
LegacyValidators.v
LegacyRewards.v
Crypto.v
Engine.v
Http.v
Node.v
RpcTx.v
R2P.v
RpcRead.v
R2PSpec.v
Router.v
RouterSpec.v
Concurrent.v
Events.v
LightRouter.v
Standalone.v
Docs.v
Main.v
Eternity.v
Binding.v
Client.v
Proxy.v
SignTools.v
