(* ===== verification/Prelude.v ===== *)
(** * thomasd: a verification development

    thomasd is the node of a small blockchain, written in Go.  A node keeps accounts, logs
    a receipt for every transfer submitted to it, commits the receipts in rounds under a
    Merkle root, mints a share for every round, chains signed headers, and serves all of
    this over HTTP together with "requests to pay" (R2P) and a wallet service.  The
    development models that server from the account database up to the handler that
    [main] listens with, requests in progress at the same time, the stub nodes for light
    clients, the parts behind the tag legacy_penalty, the client library and the signing
    tools, and proves what makes each part correct.

    ** Parts and files

    Each file models one part and requires the parts it calls.  Paths are below src/.

    The language and its library.
    - Prelude: machine integers as [Z] with their wrap-around written out ([+u], [i64], ...),
      the result and state notations, the hint database [go], shared lemmas.
    - GoStd, GoCodec, GoJson: strings, strconv, hexadecimal, base64, SHA-256, JSON trees with
      printer, parser and struct decoding.  GoFloat, GoNum: float64 as [spec_float] with
      53 bits, math.Pow for integral exponents, decimal literals to floats and back.
    - Http: requests, the buffering writer, the writer of net/http, [outcome] (a handler
      replies, panics, blocks on a lock, or the mux redirects).

    The ledger.
    - Merkle: internal/merkle.  One tree shape over two hashes.
    - State: internal/state/{state,merkle}.go.  [DB] is a heap of account cells and a map of
      addresses to cells, as the code holds pointers that may be equal.
    - Codec: internal/codec.  The wrapper that rejects floating point.
    - Stake: internal/{stake,consensus} and state/validators/stub_nolegacy.go.
    - Rewards, Supply, RewardState: internal/{rewards,params}, app/state_reward.go,
      internal/state/rewards and app/validator_state.go.
    - Types: internal/{types,light} and app/header_builder.go.  Tx: internal/tx.
      Crypto: internal/crypto.
    - Engine: app/engine.go, engine_alias_{file,stub}.go.  One state transformer per exported
      method.  Those that hold the engine's mutex are atomic; ApplyTransfer holds only the
      database's, for single accesses, and Concurrent takes it apart.  Files are their
      contents; clock, environment and the success of writing are arguments.

    Under the tag legacy_penalty, as the files are written.
    - LegacyState: internal/state/{reward,validator_events,validators_root}.go, three more
      maps of the database.  LegacyValidators: internal/state/validators/{score,penalty,
      root}.go and _quarantine/stake/validator.go, which penalty.go was written against
      (internal/stake has since replaced it, so the tag does not build).  LegacyRewards:
      internal/rewards/apply.go over its interface of a store, a class, with the adapter of
      internal/state/rewards as an instance.

    The server.
    - Node: the engine together with the package variables of internal/rpc: payment
      requests as cells behind a map of pointers, their file, the mutex [r2pMu] (only
      whether a panic left it locked), two counters; configuration; alias resolution.
    - RpcTx: the checks of POST /tx as functions from handlers to handlers, [txPostHandler].
    - R2P: the handlers of payment requests, r2p_persist.go, r2p_cursor.go.  Approve, decline
      and cancel hold the lock for single accesses only; they are programs of atomic steps
      ([approve_step], [close_step]) and the handlers run these without interruption.  A field
      read just after the unlock counts with the access before it.
    - RpcRead: every other handler.  Router: the mux and [root], the handler chain.
    - Eternity, Binding: the endpoints over a provider of signed headers; binding_config.go
      and the snapshot provider.
    - Docs: server/docs_routes.go.  Main: cmd/thomasd/main.go: CORS, rate limit, outer mux,
      start-up.
    - Concurrent: requests as programs of the accesses their handlers make under a lock, and
      a system of them that takes one step at a time, in any order.  A request that comes to
      the mutex [r2pMu] when a panic has left it locked has the outcome [Blocked]: in the
      program it hangs.
    - Events: the hub of server-sent events: subscriptions, a goroutine per broadcast, a loop
      per stream, channels of 32 messages.
    - LightRouter: rpc/router_lightclient.go, built in place of router.go under a tag.
      Standalone: tmp_light_router_standalone.go, the same stub in one file.

    Outside the server.
    - Client: pkg/r2pclient, cmd/r2p-list.  Proxy: tools/signedmsg_proxy.  SignTools:
      tools/ed25519sign, cmd/ed25519tool, sig_util.go, sig_once.go.

    Specifications: R2PSpec (payment requests, sequential and interleaved), RouterSpec (all
    that a request can do to a node); elsewhere they end the file of the part.

    ** What the theorems show

    - The account database implements a plain ledger, a map from addresses to accounts
      (State.ApplyTransfer_refines), keeps the sum of balances, and accepts a nonce once.
    - The engine keeps its invariant under all methods, commits exactly the pending receipts
      and nothing twice, only appends, and finds its state again after a restart.
    - Whatever a request does to the engine is a sequence of its atomic methods
      (RouterSpec.root_refines); a transaction reaches the ledger exactly when it passes all
      checks, whose types are exact but for a negative nonce or expiry height
      (RouterSpec.tx_typed); no sequence of requests creates or destroys money; requests
      other than POST leave receipts, rounds, requests, files, balances and nonces as they were; one POST
      /round/commit commits all that is pending.
    - A payment request is closed at most once and an approval is one exact transfer, when
      requests are served one at a time; two interleaved approvals can pay twice.  When the
      state file cannot be written the payer pays and the record stays open
      (R2PSpec.approve_correct).
    - Requests served at the same time: a request alone does what its handler does
      (Concurrent.alone_is_handler); every interleaving ends, with every request answered when
      the lock was free and no record nil at the start (Concurrent.concurrent_terminates), keeps
      the engine's invariant and the sum of balances, and changes the ledger by transfers that
      were asked for, in one order; but a file written late can lose a payment on disk, a paid
      request can end as declined, and a nil record makes requests hang
      (Concurrent.nil_record_blocks).
    - Events: every stream gets each broadcast at most once and no channel holds more than 32
      messages, whatever the interleaving; a broadcast on its own reaches every channel with
      room; a client that leaves at the wrong moment makes the node panic.
    - The tagged code: scores are listed once per address in one order, roots do not depend on
      the order of the records; applying rewards is a list of writes stopped at the first
      failure, and settles every validator when none fails; the two sets of penalties agree
      up to the fourth miss; the SHA-256 root of the scores can be ambiguous.
    - Roots, header hashes, commitments and light proofs bind what they are computed from,
      unless the hash function itself collides on inputs that the statement names.
    - Round trips: files, wallets, cursors, headers over HTTP, key files, and what the client
      library reads of the server, where an empty status selects the open records only.
    - Emission, mint split, payouts and supply counters stay within their bounds.
    - Error behaviour: aliases never resolve, the rate limit counts twice, a reload can stall
      commits, the proxy checks another message than the node signs, hexadecimal key files
      are refused, and further defects.

    ** Parameters

    Code that is not in the repository is an argument with the facts the code relies on:
    [Blake3] (digests of 32 bytes), [Cbor] (total and injective on plain data), [CborDec]
    (inverts it on arrays of scalars), [Ed25519] and [Ed25519Keys] (lengths, a signature
    verifies, layout of keys), [WalletKdf] (BIP-39 and HKDF: lengths, determinism).  What Go
    leaves open is an argument too: [GoRuntime] (case mapping beyond ASCII, iteration order
    of maps), [GoSort] (an unstable sort), [GoFloat] (conversions out of range), [NanBits]
    (the bits of a NaN).  Each class
    has a concrete instance ([blake3_0], [cbor0], [cbor_dec0], [ed0], [keys0], [kdf0],
    [runtime0], [gosort0], [float_amd64], [nan_go]) with which the witnesses evaluate the theorems.
    [other] is the handler of the two routes whose code the repository lacks (expvar and
    internal/health), assumed where needed to leave the node as it is.

    ** Bounds and fuel

    The JSON parser takes the length of its input plus one as fuel, and [weight_length] shows
    that no tree needs more.  The trees of Merkle take the number of leaves ([reduce_total]),
    the bisection of Stake the size of the interval ([findIndex_fuel]).  An approval has at
    most five steps ([approve_run_done]).  Trimming takes the length of the string; the
    search for the shortest decimal of a float at most twenty digits, one per power of ten.
    The hundred pages of the client are the code's own bound.  Round trips through JSON are
    stated for ASCII strings.  Heights are below 2^64 - 2 where a counter would wrap.  Any
    system of [n] concurrent requests ends within [7 n] steps, answered or, after a panic
    that left the lock taken, blocked.

    ** Not modelled

    Generated protobuf code, which nothing calls.  The decoders of the quarantined directory,
    version strings and hash helpers without callers.  The panic of CommitRound on a ledger
    file whose last committed height is 2^64 - 1.  Listening on sockets, logging, and the
    transaction generator, which no build includes.  White space of indented files other than
    the API document.  In Concurrent, writing a file is one access; handlers that read several
    things in a row (statistics, metrics) are not among its programs.  In Events, a broadcast's
    goroutine encodes its message when it is made.  A NaN of the tagged code has no payload.
    URL parsing: queries and paths are given decoded, and a path that path.Clean would change
    is answered with a redirect. *)
From Stdlib Require Export ZArith Lia.
From Stdlib Require Export Strings.Byte.
From stdpp Require Export base tactics option sorting strings fin_maps gmap numbers list.

Declare Scope go_scope.
Delimit Scope go_scope with go.
#[global] Open Scope Z_scope.

(** ** Machine integers.  A Go [uintN]/[intN] is a [Z] with its wrap-around written out. *)

Abbreviation M64 := 18446744073709551616.
Abbreviation M63 := 9223372036854775808.
Abbreviation M32 := 4294967296.
Abbreviation M8 := 256.

Definition u64 (z : Z) : Z := z mod M64.
Definition u32 (z : Z) : Z := z mod M32.
Definition u8 (z : Z) : Z := z mod M8.

(** The conversion [int64(x)]: two's complement reading of the low 64 bits. *)
Definition i64 (z : Z) : Z :=
  let u := z mod M64 in if u <? M63 then u else u - M64.

Definition in_u64 (z : Z) : Prop := 0 <= z < M64.
Definition in_u32 (z : Z) : Prop := 0 <= z < M32.
Definition in_i64 (z : Z) : Prop := - M63 <= z < M63.

Notation "a +u b" := (u64 (a + b)) (at level 50, left associativity) : go_scope.
Notation "a -u b" := (u64 (a - b)) (at level 50, left associativity) : go_scope.
Notation "a *u b" := (u64 (a * b)) (at level 40, left associativity) : go_scope.
#[global] Open Scope go_scope.

Lemma u64_range z : in_u64 (u64 z).
Proof. unfold in_u64, u64. apply Z.mod_pos_bound; lia. Qed.

Lemma u64_small z : in_u64 z -> u64 z = z.
Proof. unfold in_u64, u64. intros. apply Z.mod_small; lia. Qed.

Lemma u64_idemp z : u64 (u64 z) = u64 z.
Proof. apply u64_small, u64_range. Qed.

Lemma u64_add_l a b : u64 (u64 a + b) = u64 (a + b).
Proof. unfold u64. apply Zplus_mod_idemp_l. Qed.

Lemma u64_add_r a b : u64 (a + u64 b) = u64 (a + b).
Proof. unfold u64. apply Zplus_mod_idemp_r. Qed.

Lemma u64_sub_l a b : u64 (u64 a - b) = u64 (a - b).
Proof. unfold u64. apply Zminus_mod_idemp_l. Qed.

Lemma u32_range z : in_u32 (u32 z).
Proof. unfold in_u32, u32. apply Z.mod_pos_bound; lia. Qed.

Lemma u32_small z : in_u32 z -> u32 z = z.
Proof. unfold in_u32, u32. intros. apply Z.mod_small; lia. Qed.

Lemma i64_small z : in_i64 z -> i64 z = z.
Proof.
  unfold in_i64, i64. intros Hz. destruct (Z.ltb_spec (z mod M64) M63).
  - Z.div_mod_to_equations. lia.
  - Z.div_mod_to_equations. lia.
Qed.

Lemma i64_range z : in_i64 (i64 z).
Proof.
  unfold in_i64, i64. pose proof (Z.mod_pos_bound z M64 ltac:(lia)).
  destruct (Z.ltb_spec (z mod M64) M63); lia.
Qed.

Lemma i64_u64 z : in_i64 z -> i64 (u64 z) = z.
Proof.
  intros Hz. rewrite <- (i64_small z) at 2 by done.
  unfold i64, u64. by rewrite Z.mod_mod by lia.
Qed.

Create HintDb go.
Create Rewrite HintDb go_rw.
#[export] Hint Resolve u64_range u32_range i64_range : go.
#[export] Hint Rewrite u64_idemp u64_add_l u64_add_r u64_sub_l : go_rw.

(** [go_arith] closes linear goals about wrapped integers: it exposes [u64]/[u32]
    as remainders and hands the division equations to [lia]. *)
Ltac go_unfold :=
  unfold in_u64, in_u32, in_i64, u64, u32, u8 in *.
Ltac go_arith := go_unfold; Z.div_mod_to_equations; lia.
(** [go_small] removes wrap-arounds whose argument is visibly in range. *)
Ltac go_small :=
  repeat (rewrite u64_small in * by (unfold in_u64 in *; lia)).
(** [bool_cases] turns the boolean tests of a guard into (in)equalities. *)
Ltac bool_cases :=
  repeat match goal with
  | |- context [if (?a =? ?b) then _ else _] => destruct (Z.eqb_spec a b)
  | |- context [if (?a <? ?b) then _ else _] => destruct (Z.ltb_spec a b)
  | |- context [if (?a <=? ?b) then _ else _] => destruct (Z.leb_spec a b)
  | H : context [if (?a =? ?b) then _ else _] |- _ => destruct (Z.eqb_spec a b)
  | H : context [if (?a <? ?b) then _ else _] |- _ => destruct (Z.ltb_spec a b)
  | H : context [if (?a <=? ?b) then _ else _] |- _ => destruct (Z.leb_spec a b)
  end.

(** ** Errors.  A Go function returning [(T, error)] returns [result T]. *)

Inductive result (A : Type) :=
  | Ok (a : A)
  | Err (reason : string).
Arguments Ok {_} _.
Arguments Err {_} _.

#[global] Instance result_ret : MRet result := @Ok.
#[global] Instance result_bind : MBind result := fun A B f r =>
  match r with Ok a => f a | Err e => Err e end.
#[global] Instance result_eq_dec `{EqDecision A} : EqDecision (result A).
Proof. solve_decision. Defined.

Definition is_ok {A} (r : result A) : bool :=
  match r with Ok _ => true | Err _ => false end.

(** ** State passing.  [St S A]: a Go method on a receiver of state [S]. *)

Definition St (S A : Type) : Type := S -> A * S.
#[global] Instance St_ret S : MRet (St S) := fun A a s => (a, s).
#[global] Instance St_bind S : MBind (St S) := fun A B f m s =>
  let '(a, s') := m s in f a s'.
Definition st_get {S} : St S S := fun s => (s, s).
Definition st_put {S} (s : S) : St S unit := fun _ => (tt, s).
Definition st_run {S A} (m : St S A) (s : S) : A := (m s).1.
Definition st_exec {S A} (m : St S A) (s : S) : S := (m s).2.

Lemma st_exec_bind {S A B} (m : St S A) (f : A -> St S B) s :
  (m ≫= f) s = f (m s).1 (m s).2.
Proof. unfold mbind, St_bind. by destruct (m s). Qed.

(** ** Sums over finite maps (total balances). *)

Section msum.
Context `{Countable K} {A : Type} (f : A -> Z).
Implicit Types m : gmap K A.

Definition msum m : Z := map_fold (fun _ a s => f a + s) 0 m.

Lemma msum_empty : msum ∅ = 0.
Proof. apply map_fold_empty. Qed.

Lemma msum_insert_new m k v :
  m !! k = None -> msum (<[k:=v]> m) = f v + msum m.
Proof.
  intros Hk. unfold msum.
  rewrite (map_fold_insert_L (fun _ a s => f a + s)); [done| |done].
  intros. lia.
Qed.

Lemma msum_delete m k v : m !! k = Some v -> msum m = f v + msum (delete k m).
Proof.
  intros Hk. rewrite <- (insert_delete_id m k v Hk) at 1.
  apply msum_insert_new, lookup_delete_eq.
Qed.

Lemma msum_insert_old m k v0 v :
  m !! k = Some v0 -> msum (<[k:=v]> m) = msum m - f v0 + f v.
Proof.
  intros Hk. rewrite (msum_delete m k v0 Hk).
  rewrite <- insert_delete_eq, msum_insert_new by apply lookup_delete_eq. lia.
Qed.

Lemma msum_nonneg m : (forall k v, m !! k = Some v -> 0 <= f v) -> 0 <= msum m.
Proof.
  induction m as [|k v m Hk IH] using map_ind; intros Hf.
  - rewrite msum_empty. lia.
  - rewrite msum_insert_new by done.
    assert (0 <= f v) by (apply (Hf k); apply lookup_insert_eq).
    assert (0 <= msum m); [|lia]. apply IH. intros k' v' Hk'.
    apply (Hf k'). rewrite lookup_insert_ne; [done|]. naive_solver.
Qed.

Lemma msum_lookup_le m k v :
  (forall k v, m !! k = Some v -> 0 <= f v) -> m !! k = Some v -> f v <= msum m.
Proof.
  intros Hf Hk. rewrite (msum_delete m k v Hk).
  assert (0 <= msum (delete k m)); [|lia].
  apply msum_nonneg. intros k' v' [_ Hk']%lookup_delete_Some. eauto.
Qed.

Lemma msum_lookup2_le m j k u v :
  (forall k v, m !! k = Some v -> 0 <= f v) ->
  j <> k -> m !! j = Some u -> m !! k = Some v -> f u + f v <= msum m.
Proof.
  intros Hf Hjk Hj Hk. rewrite (msum_delete m j u Hj).
  assert (f v <= msum (delete j m)); [|lia].
  apply (msum_lookup_le _ k).
  - intros k' v' [_ Hk']%lookup_delete_Some. eauto.
  - by rewrite lookup_delete_ne.
Qed.
End msum.

Lemma msum_fmap `{Countable K} {A B} (f : B -> Z) (g : A -> B) (m : gmap K A) :
  msum f (g <$> m) = msum (f ∘ g) m.
Proof.
  induction m as [|k v m Hk IH] using map_ind.
  - by rewrite fmap_empty, !msum_empty.
  - rewrite fmap_insert, !msum_insert_new; [by rewrite IH|done|].
    by rewrite lookup_fmap, Hk.
Qed.

(** ** Sums over lists. *)

Definition zsum (l : list Z) : Z := foldr Z.add 0 l.

Lemma zsum_app l1 l2 : zsum (l1 ++ l2) = zsum l1 + zsum l2.
Proof. induction l1; simpl; lia. Qed.

Lemma zsum_nonneg l : Forall (fun x => 0 <= x) l -> 0 <= zsum l.
Proof. induction 1; simpl; lia. Qed.

(** Sums of a measure over a list: one element changes; every element is bounded. *)
Lemma sum_insert {A} (f : A -> nat) (l : list A) i x y : l !! i = Some x ->
  (sum_list_with f (<[i := y]> l) + f x = sum_list_with f l + f y)%nat.
Proof.
  revert i; induction l as [|z l IH]; intros [|i] Hi; try done.
  - injection Hi as ->. cbn. lia.
  - specialize (IH i Hi). change (<[S i := y]> (z :: l)) with (z :: <[i := y]> l).
    cbn [sum_list_with]. lia.
Qed.
Lemma sum_elem_le {A} (f : A -> nat) (l : list A) i x : l !! i = Some x -> (f x <= sum_list_with f l)%nat.
Proof.
  revert i; induction l as [|z l IH]; intros [|i] Hi; try done; cbn.
  - injection Hi as ->. lia.
  - specialize (IH i Hi). lia.
Qed.
Lemma sum_insert_lt {A} (f : A -> nat) (l : list A) i x y : l !! i = Some x -> (f y < f x)%nat ->
  (sum_list_with f (<[i := y]> l) < sum_list_with f l)%nat.
Proof. intros Hi Hlt. pose proof (sum_insert f l i x y Hi). lia. Qed.
Lemma sum_list_bound {A} (f : A -> nat) k (l : list A) : (forall x, f x <= k)%nat ->
  (sum_list_with f l <= k * length l)%nat.
Proof. intros Hf. induction l as [|x l IH]; cbn; [lia|]. specialize (Hf x). lia. Qed.

(** [cons_inj E] splits an equation of two literal lists into equations of their elements. *)
Ltac cons_inj E :=
  lazymatch type of E with
  | _ :: _ = _ :: _ => let H := fresh "E" in apply (inj2 cons) in E as [H E]; cons_inj E
  | _ => clear E
  end.
