(* ===== verification/GoStd.v ===== *)
(** * The Go standard library the program uses: byte slices, [strings], [strconv],
    [encoding/hex] and [encoding/base64].

    A Go [string] is a [String.string] (a byte sequence), a [[]byte] is a
    [list byte].  The one piece of data not written out is the Unicode case
    table: [strings.ToLower] of a string with a non-ASCII byte goes through the
    parameter [uni_to_lower] of the class [GoRuntime], which also carries the
    iteration order of Go maps. *)
From Stdlib Require Import Ascii DecimalString DecimalN.
From S2P Require Export Prelude.

Abbreviation bytes := (list Byte.byte).

#[global] Instance byte_eq_dec : EqDecision Byte.byte := Byte.byte_eq_dec.

Definition to_bytes (s : string) : bytes := String.list_byte_of_string s.
Definition of_bytes (b : bytes) : string := String.string_of_list_byte b.

Lemma of_to_bytes s : of_bytes (to_bytes s) = s.
Proof. apply String.string_of_list_byte_of_string. Qed.
Lemma to_of_bytes b : to_bytes (of_bytes b) = b.
Proof. apply String.list_byte_of_string_of_list_byte. Qed.
#[global] Instance to_bytes_inj : Inj (=) (=) to_bytes.
Proof. intros s t E. by rewrite <- (of_to_bytes s), E, of_to_bytes. Qed.

Lemma to_bytes_app s t : to_bytes (s +:+ t) = to_bytes s ++ to_bytes t.
Proof.
  induction s as [|c s IH]; [done|].
  change (to_bytes (String c s +:+ t)) with (byte_of_ascii c :: to_bytes (s +:+ t)).
  by rewrite IH.
Qed.

(** Bytes as numbers. *)
Definition b2z (b : Byte.byte) : Z := Z.of_N (Byte.to_N b).
Definition z2b (z : Z) : Byte.byte :=
  match Byte.of_N (Z.to_N (z mod 256)) with Some b => b | None => "000"%byte end.

Lemma b2z_range b : 0 <= b2z b < 256.
Proof. pose proof (Byte.to_N_bounded b). unfold b2z. lia. Qed.
Lemma z2b_b2z b : z2b (b2z b) = b.
Proof. destruct b; vm_compute; reflexivity. Qed.
Lemma b2z_z2b z : b2z (z2b z) = z mod 256.
Proof.
  unfold z2b. assert (Hb : (Z.to_N (z mod 256) <= 255)%N).
  { pose proof (Z.mod_pos_bound z 256 ltac:(lia)). lia. }
  destruct (Byte.of_N _) as [b|] eqn:E.
  - apply Byte.to_of_N in E. unfold b2z. rewrite E.
    pose proof (Z.mod_pos_bound z 256 ltac:(lia)). lia.
  - apply Byte.of_N_None_iff in E. lia.
Qed.
#[global] Instance b2z_inj : Inj (=) (=) b2z.
Proof. intros a b E. by rewrite <- (z2b_b2z a), E, z2b_b2z. Qed.

(** [bytes.Compare]: lexicographic order of byte slices. *)
Fixpoint bytes_compare (a b : bytes) : comparison :=
  match a, b with
  | [], [] => Eq
  | [], _ => Lt
  | _, [] => Gt
  | x :: a', y :: b' =>
      match b2z x ?= b2z y with Eq => bytes_compare a' b' | c => c end
  end.

Lemma bytes_compare_eq a b : bytes_compare a b = Eq <-> a = b.
Proof.
  revert b; induction a as [|x a IH]; intros [|y b]; simpl; try done.
  destruct (Z.compare_spec (b2z x) (b2z y)) as [E|E|E].
  - apply (inj b2z) in E as ->. rewrite IH. naive_solver.
  - split; [done|]. intros [= -> ->]. lia.
  - split; [done|]. intros [= -> ->]. lia.
Qed.

Lemma bytes_compare_antisym a b : bytes_compare b a = CompOpp (bytes_compare a b).
Proof.
  revert b; induction a as [|x a IH]; intros [|y b]; simpl; try done.
  rewrite Z.compare_antisym. destruct (b2z x ?= b2z y); simpl; [apply IH|done..].
Qed.

Lemma bytes_compare_lt_trans a b c :
  bytes_compare a b = Lt -> bytes_compare b c = Lt -> bytes_compare a c = Lt.
Proof.
  revert b c; induction a as [|x a IH]; intros [|y b] [|z c]; simpl; try done.
  destruct (Z.compare_spec (b2z x) (b2z y)) as [E1|E1|E1]; try done;
  destruct (Z.compare_spec (b2z y) (b2z z)) as [E2|E2|E2]; try done;
  destruct (Z.compare_spec (b2z x) (b2z z)) as [E3|E3|E3]; try done; try lia.
  apply IH.
Qed.

Definition bytes_lt (a b : bytes) : Prop := bytes_compare a b = Lt.
Definition bytes_le (a b : bytes) : Prop := bytes_compare a b <> Gt.
#[global] Instance bytes_lt_dec a b : Decision (bytes_lt a b).
Proof. unfold bytes_lt. apply _. Defined.
#[global] Instance bytes_le_dec a b : Decision (bytes_le a b).
Proof. unfold bytes_le. apply _. Defined.

#[global] Instance bytes_le_trans : Transitive bytes_le.
Proof.
  intros a b c Hab Hbc. unfold bytes_le in *.
  destruct (bytes_compare a b) eqn:E1; [apply bytes_compare_eq in E1 as ->; done| |done].
  destruct (bytes_compare b c) eqn:E2; [apply bytes_compare_eq in E2 as ->; congruence| |done].
  by rewrite (bytes_compare_lt_trans a b c E1 E2).
Qed.
#[global] Instance bytes_le_total : Total bytes_le.
Proof.
  intros a b. unfold bytes_le. rewrite (bytes_compare_antisym a b).
  destruct (bytes_compare a b); simpl; auto.
Qed.
#[global] Instance bytes_le_antisymm : AntiSymm (=) bytes_le.
Proof.
  intros a b H1 H2. unfold bytes_le in *. rewrite (bytes_compare_antisym a b) in H2.
  destruct (bytes_compare a b) eqn:E; [by apply bytes_compare_eq|done|done].
Qed.

(** ** [strings] *)

Definition has_prefix (s p : string) : bool := String.prefix p s.
Fixpoint str_drop (n : nat) (s : string) : string :=
  match n, s with
  | S n, String _ s => str_drop n s
  | _, _ => s
  end.
Definition trim_prefix (s p : string) : string :=
  if has_prefix s p then str_drop (String.length p) s else s.
Definition has_suffix (s p : string) : bool :=
  (String.length p <=? String.length s)%nat &&
  String.eqb (str_drop (String.length s - String.length p) s) p.
Definition trim_suffix (s p : string) : string :=
  if has_suffix s p then String.substring 0 (String.length s - String.length p) s else s.

Fixpoint str_map (f : ascii -> ascii) (s : string) : string :=
  match s with EmptyString => EmptyString | String c s => String (f c) (str_map f s) end.
Fixpoint str_forall (p : ascii -> bool) (s : string) : bool :=
  match s with EmptyString => true | String c s => p c && str_forall p s end.

Definition is_ascii (c : ascii) : bool := (N_of_ascii c <? 128)%N.
Definition lower_ascii (c : ascii) : ascii :=
  let n := N_of_ascii c in
  if ((65 <=? n) && (n <=? 90))%N then ascii_of_N (n + 32) else c.

(** What the Go runtime fixes and the source does not: the Unicode tables of
    [strings.ToLower] on non-ASCII strings, and the iteration order of maps. *)
Class GoRuntime := {
  uni_to_lower : string -> string;
  map_iter : forall A, gmap string A -> list (string * A);
  map_iter_perm : forall A (m : gmap string A), map_iter A m ≡ₚ map_to_list m
}.
Arguments map_iter {_ _} _.

Definition to_lower `{GoRuntime} (s : string) : string :=
  if str_forall is_ascii s then str_map lower_ascii s else uni_to_lower s.

(** A concrete runtime, used by the witnesses. *)
Definition runtime0 : GoRuntime := {|
  uni_to_lower s := s;
  map_iter A m := map_to_list m;
  map_iter_perm A m := reflexivity (map_to_list m)
|}.

(** [strings.TrimSpace]: strips the [unicode.IsSpace] runes, in UTF-8. *)
Definition spaces : list string :=
  (fun l => of_bytes (map z2b l)) <$>
  ([[9]; [10]; [11]; [12]; [13]; [32]; [194; 133]; [194; 160]; [225; 154; 128];
    [226; 128; 168]; [226; 128; 169]; [226; 128; 175]; [226; 129; 159]; [227; 128; 128]]
   ++ ((fun k => [226; 128; 128 + Z.of_nat k]) <$> seq 0 11)).
Definition space_at_front (s : string) : option string :=
  list_find (fun p => has_prefix s p = true) spaces ≫= fun r => Some r.2.
Definition space_at_back (s : string) : option string :=
  list_find (fun p => has_suffix s p = true) spaces ≫= fun r => Some r.2.
Fixpoint trim_left (fuel : nat) (s : string) : string :=
  match fuel with
  | O => s
  | S fuel => match space_at_front s with
              | Some p => trim_left fuel (trim_prefix s p) | None => s end
  end.
Fixpoint trim_right (fuel : nat) (s : string) : string :=
  match fuel with
  | O => s
  | S fuel => match space_at_back s with
              | Some p => trim_right fuel (trim_suffix s p) | None => s end
  end.
Definition trim_space (s : string) : string :=
  trim_right (String.length s) (trim_left (String.length s) s).

Example trim_space_ex : trim_space "  tho1alice " = "tho1alice".
Proof. vm_compute. reflexivity. Qed.

(** ** [strconv] and the decimal verbs of [fmt] *)

Definition fmt_uint (z : Z) : string := NilZero.string_of_uint (N.to_uint (Z.to_N z)).
Definition fmt_int (z : Z) : string :=
  if z <? 0 then "-" +:+ fmt_uint (- z) else fmt_uint z.
Definition parse_nat (s : string) : option Z :=
  d ← NilZero.uint_of_string s; Some (Z.of_N (N.of_uint d)).
(** [strconv.ParseUint(s, 10, 64)] *)
Definition parse_uint (s : string) : option Z :=
  n ← parse_nat s; if n <? M64 then Some n else None.
(** [strconv.ParseInt(s, 10, 64)] and [strconv.Atoi] on a 64-bit platform *)
Definition parse_int (s : string) : option Z :=
  match s with
  | String "-" s' => n ← parse_nat s'; if n <=? M63 then Some (- n) else None
  | String "+" s' => n ← parse_nat s'; if n <? M63 then Some n else None
  | _ => n ← parse_nat s; if n <? M63 then Some n else None
  end.

Lemma N_to_uint_nonnil n : N.to_uint n <> Decimal.Nil.
Proof.
  intros E. pose proof (DecimalN.Unsigned.of_to n) as H. rewrite E in H.
  assert (n = 0%N) as -> by (rewrite <- H; reflexivity). discriminate E.
Qed.

Lemma parse_nat_fmt z : 0 <= z -> parse_nat (fmt_uint z) = Some z.
Proof.
  intros Hz. unfold parse_nat, fmt_uint.
  rewrite NilZero.usu by apply N_to_uint_nonnil. simpl.
  rewrite DecimalN.Unsigned.of_to. f_equal. lia.
Qed.

Lemma parse_uint_fmt z : in_u64 z -> parse_uint (fmt_uint z) = Some z.
Proof.
  intros Hz. unfold parse_uint, in_u64 in *. rewrite parse_nat_fmt by lia. simpl.
  bool_cases; [done|lia].
Qed.

Lemma parse_nat_nonneg s z : parse_nat s = Some z -> 0 <= z.
Proof. unfold parse_nat. destruct (NilZero.uint_of_string s); [|done]. intros [= <-]. lia. Qed.
Lemma parse_uint_range s z : parse_uint s = Some z -> in_u64 z.
Proof.
  unfold parse_uint. intros (k & Hk%parse_nat_nonneg & Hz)%bind_Some.
  unfold in_u64. bool_cases; [injection Hz as <-; lia|done].
Qed.
Lemma parse_int_range s z : parse_int s = Some z -> in_i64 z.
Proof.
  assert (Hpos : forall t, (n ← parse_nat t; if n <? M63 then Some n else None) = Some z -> in_i64 z).
  { intros t (k & Hk%parse_nat_nonneg & Hz)%bind_Some. unfold in_i64.
    bool_cases; [injection Hz as <-; lia|done]. }
  assert (Hneg : forall t, (n ← parse_nat t; if n <=? M63 then Some (- n) else None) = Some z -> in_i64 z).
  { intros t (k & Hk%parse_nat_nonneg & Hz)%bind_Some. unfold in_i64.
    bool_cases; [injection Hz as <-; lia|done]. }
  destruct s as [|[[] [] [] [] [] [] [] []] s]; eauto.
Qed.

Lemma fmt_uint_inj a b : 0 <= a -> 0 <= b -> fmt_uint a = fmt_uint b -> a = b.
Proof.
  intros Ha Hb E. apply (f_equal parse_nat) in E.
  rewrite !parse_nat_fmt in E by done. by injection E.
Qed.

(** The decimal digits, and the shape of [fmt_uint]. *)
Definition is_digit (c : ascii) : bool :=
  ((48 <=? N_of_ascii c) && (N_of_ascii c <=? 57))%N.

Lemma str_of_uint_digits d : str_forall is_digit (NilEmpty.string_of_uint d) = true.
Proof. induction d; simpl; auto. Qed.

Lemma fmt_uint_digits z : str_forall is_digit (fmt_uint z) = true.
Proof.
  unfold fmt_uint, NilZero.string_of_uint.
  destruct (N.to_uint (Z.to_N z)) eqn:E; [done|..]; apply (str_of_uint_digits (_ _)).
Qed.

Lemma fmt_uint_nonempty z : fmt_uint z <> "".
Proof.
  unfold fmt_uint, NilZero.string_of_uint. by destruct (N.to_uint (Z.to_N z)).
Qed.

Lemma parse_int_fmt z : in_i64 z -> parse_int (fmt_int z) = Some z.
Proof.
  intros Hz. unfold in_i64 in Hz. unfold fmt_int. destruct (Z.ltb_spec z 0).
  - transitivity (n ← parse_nat (fmt_uint (- z)); if n <=? M63 then Some (- n) else None);
      [reflexivity|].
    rewrite parse_nat_fmt by lia. simpl. bool_cases; [f_equal; lia|lia].
  - pose proof (fmt_uint_digits z) as Hd. pose proof (fmt_uint_nonempty z) as Hn.
    pose proof (parse_nat_fmt z ltac:(lia)) as Hp.
    destruct (fmt_uint z) as [|c s]; [done|].
    assert (Hc : is_digit c = true) by (simpl in Hd; by apply andb_prop in Hd as [? _]).
    unfold parse_int.
    destruct c as [[] [] [] [] [] [] [] []]; try discriminate Hc;
      rewrite Hp; simpl; bool_cases; done || lia.
Qed.

(** [%020d] of a non-negative integer. *)
Fixpoint zeros (n : nat) : string :=
  match n with O => "" | S n => String "0" (zeros n) end.
Definition pad_left (w : nat) (s : string) : string :=
  zeros (w - String.length s) +:+ s.

(** Leading zeros do not change the number a decimal string denotes. *)
Lemma parse_nat_zero s z : parse_nat s = Some z -> parse_nat (String "0" s) = Some z.
Proof.
  unfold parse_nat. destruct s as [|c s]; [done|]. unfold NilZero.uint_of_string.
  change (NilEmpty.uint_of_string (String "0" (String c s)))
    with (uint_of_char "0" (NilEmpty.uint_of_string (String c s))).
  destruct (NilEmpty.uint_of_string (String c s)) as [d|]; [|done].
  cbn [uint_of_char mbind option_bind]. intros [= <-]. done.
Qed.
Lemma parse_nat_pad w z : 0 <= z -> parse_nat (pad_left w (fmt_uint z)) = Some z.
Proof.
  intros Hz. unfold pad_left. generalize (w - String.length (fmt_uint z))%nat. intros n.
  induction n as [|n IH]; [by apply parse_nat_fmt|]. by apply parse_nat_zero.
Qed.
Lemma pad_left_inj w a b : 0 <= a -> 0 <= b ->
  pad_left w (fmt_uint a) = pad_left w (fmt_uint b) -> a = b.
Proof.
  intros Ha Hb E. apply (f_equal parse_nat) in E. rewrite !parse_nat_pad in E by done. congruence.
Qed.

(** ** [sort.Slice], [sort.Strings] and [slices.SortFunc]

    The result is a sorted permutation; the algorithm is not stable, so the order of
    elements that compare equal is left open. *)
Class GoSort := {
  sort_slice : forall {A} (R : A -> A -> Prop) `{!RelDecision R}, list A -> list A;
  sort_slice_perm : forall {A} (R : A -> A -> Prop) `{!RelDecision R} l, sort_slice R l ≡ₚ l;
  sort_slice_sorted : forall {A} (R : A -> A -> Prop) `{!RelDecision R, !Total R} l,
    Sorted R (sort_slice R l)
}.
Definition gosort0 : GoSort := {|
  sort_slice := fun A R HR => merge_sort R;
  sort_slice_perm := fun A R HR => merge_sort_Permutation R;
  sort_slice_sorted := fun A R HR HT => Sorted_merge_sort R
|}.
(** Sorting lists without equal keys has one result. *)
Lemma sort_slice_unique (S1 S2 : GoSort) {A} (R : A -> A -> Prop)
    `{!RelDecision R, !Total R, !Transitive R} l1 l2 :
  (forall x y, x ∈ l1 -> y ∈ l1 -> R x y -> R y x -> x = y) -> l1 ≡ₚ l2 ->
  @sort_slice S1 A R _ l1 = @sort_slice S2 A R _ l2.
Proof.
  intros Hanti Hp.
  assert (H1 : StronglySorted R (@sort_slice S1 A R _ l1))
    by (apply Sorted_StronglySorted; [apply _|apply sort_slice_sorted; apply _]).
  assert (H2 : StronglySorted R (@sort_slice S2 A R _ l2))
    by (apply Sorted_StronglySorted; [apply _|apply sort_slice_sorted; apply _]).
  assert (Hpp : @sort_slice S1 A R _ l1 ≡ₚ @sort_slice S2 A R _ l2) by by rewrite !sort_slice_perm.
  assert (Ha : forall x y, x ∈ @sort_slice S1 A R _ l1 -> y ∈ @sort_slice S1 A R _ l1 -> R x y -> R y x -> x = y).
  { intros x y Hx Hy. rewrite sort_slice_perm in Hx, Hy. by apply Hanti. }
  clear Hanti Hp. revert H1 H2 Hpp Ha.
  generalize (@sort_slice S1 A R _ l1) (@sort_slice S2 A R _ l2). clear l1 l2.
  intros l1. induction l1 as [|x l1 IH]; intros l2 H1 H2 Hp Ha.
  { by apply Permutation_nil_l in Hp as ->. }
  destruct l2 as [|y l2]; [by symmetry in Hp; apply Permutation_nil_l in Hp|].
  apply StronglySorted_inv in H1 as [H1 Hx]. apply StronglySorted_inv in H2 as [H2 Hy].
  rewrite Forall_forall in Hx, Hy.
  assert (x = y) as ->.
  { assert (Hxin : x ∈ y :: l2) by (rewrite <- Hp; set_solver).
    assert (Hyin : y ∈ x :: l1) by (rewrite Hp; set_solver).
    apply elem_of_cons in Hxin as [->|Hxin]; [done|]. apply elem_of_cons in Hyin as [->|Hyin]; [done|].
    apply Ha; [set_solver..|by apply Hx|by apply Hy]. }
  f_equal. apply IH; [done|done|by apply Permutation_cons_inv in Hp|]. intros; apply Ha; set_solver.
Qed.

(** ** [TrimSpace] on strings of printable ASCII *)
Definition graph (c : ascii) : bool := ((33 <=? N_of_ascii c) && (N_of_ascii c <=? 126))%N.
Definition newline : string := String "010" "".
Definition starts_nongraph (p : string) : bool :=
  match p with String c _ => negb (graph c) | "" => false end.
Lemma spaces_nongraph p : p ∈ spaces -> starts_nongraph p = true.
Proof.
  intros Hp. assert (H : forallb starts_nongraph spaces = true) by (vm_compute; reflexivity).
  rewrite forallb_forall in H. apply H. by apply list_elem_of_In.
Qed.
Lemma has_prefix_head c s d p : has_prefix (String c s) (String d p) = true -> c = d.
Proof. unfold has_prefix. cbn. by destruct (ascii_dec d c). Qed.
Lemma str_forall_drop p n s : str_forall p s = true -> str_forall p (str_drop n s) = true.
Proof.
  revert s; induction n as [|n IH]; intros s Hs; [done|]. destruct s as [|c s]; [done|].
  cbn in *. apply IH. by apply andb_prop in Hs as [_ ?].
Qed.
Lemma front_graph s : str_forall graph s = true -> space_at_front s = None.
Proof.
  intros Hs. unfold space_at_front.
  assert (list_find (fun p => has_prefix s p = true) spaces = None) as ->; [|done].
  apply list_find_None, Forall_forall. intros p Hp Hpre. apply spaces_nongraph in Hp.
  destruct p as [|d p]; [done|]. destruct s as [|c s]; [done|].
  apply has_prefix_head in Hpre as ->. cbn in *. by destruct (graph d).
Qed.
Lemma suffix_nongraph s p : str_forall graph s = true -> starts_nongraph p = true -> has_suffix s p = false.
Proof.
  intros Hs Hp. unfold has_suffix. destruct (String.eqb_spec (str_drop (String.length s - String.length p) s) p) as [E|];
    [|by rewrite andb_false_r]. exfalso.
  apply (str_forall_drop graph (String.length s - String.length p)) in Hs. rewrite E in Hs.
  destruct p as [|c p]; [done|]. cbn in *. by destruct (graph c).
Qed.
Lemma back_graph s : str_forall graph s = true -> space_at_back s = None.
Proof.
  intros Hs. unfold space_at_back.
  assert (list_find (fun p => has_suffix s p = true) spaces = None) as ->; [|done].
  apply list_find_None, Forall_forall. intros p Hp. apply spaces_nongraph in Hp.
  by rewrite suffix_nongraph.
Qed.
Lemma trim_space_graph s : str_forall graph s = true -> trim_space s = s.
Proof.
  intros Hs. unfold trim_space. destruct s as [|c s]; [done|].
  cbn [String.length trim_left]. rewrite front_graph by done.
  cbn [trim_right]. by rewrite back_graph.
Qed.

Lemma str_drop_app a b : str_drop (String.length a) (a +:+ b) = b.
Proof. induction a as [|c a IH]; [done|]. exact IH. Qed.
Lemma substring_app a b : String.substring 0 (String.length a) (a +:+ b) = a.
Proof.
  induction a as [|c a IH]; [by destruct b|]. change (String c a +:+ b) with (String c (a +:+ b)).
  cbn [String.length String.substring]. by rewrite IH.
Qed.
Lemma length_app_string a b : String.length (a +:+ b) = (String.length a + String.length b)%nat.
Proof. induction a as [|c a IH]; [done|]. change (String c a +:+ b) with (String c (a +:+ b)). cbn. by rewrite IH. Qed.
Lemma suffix_app a b : has_suffix (a +:+ b) b = true.
Proof.
  unfold has_suffix. rewrite length_app_string.
  replace (String.length a + String.length b - String.length b)%nat with (String.length a) by lia.
  rewrite str_drop_app, String.eqb_refl, andb_true_r. apply Nat.leb_le. lia.
Qed.
Lemma trim_suffix_app a b : trim_suffix (a +:+ b) b = a.
Proof.
  unfold trim_suffix. rewrite suffix_app, length_app_string.
  replace (String.length a + String.length b - String.length b)%nat with (String.length a) by lia.
  apply substring_app.
Qed.
Lemma newline_suffix a : space_at_back (a +:+ newline) = Some newline.
Proof.
  unfold space_at_back.
  assert (Htab : has_suffix (a +:+ newline) (of_bytes [z2b 9]) = false).
  { unfold has_suffix. rewrite length_app_string. cbn [String.length newline of_bytes].
    replace (String.length a + 1 - String.length (of_bytes [z2b 9]))%nat with (String.length a) by (cbn; lia).
    rewrite str_drop_app. by rewrite andb_comm. }
  change spaces with (of_bytes [z2b 9] :: newline :: drop 2 spaces).
  cbn [list_find]. rewrite decide_False by (by rewrite Htab).
  by rewrite decide_True by apply suffix_app.
Qed.
Lemma trim_space_newline s : str_forall graph s = true -> s <> "" -> trim_space (s +:+ newline) = s.
Proof.
  intros Hs Hne. unfold trim_space.
  assert (Hfront : space_at_front (s +:+ newline) = None).
  { destruct s as [|c s]; [done|]. unfold space_at_front.
    assert (list_find (fun p => has_prefix (String c s +:+ newline) p = true) spaces = None) as ->; [|done].
    apply list_find_None, Forall_forall. intros p Hp Hpre. apply spaces_nongraph in Hp.
    destruct p as [|d p]; [done|]. change (String c s +:+ newline) with (String c (s +:+ newline)) in Hpre.
    apply has_prefix_head in Hpre as ->. cbn in *. by destruct (graph d). }
  rewrite length_app_string, Nat.add_1_r. cbn [trim_left]. rewrite Hfront.
  cbn [trim_right]. rewrite newline_suffix, trim_suffix_app.
  destruct s as [|c s]; [done|]. cbn [String.length trim_right]. by rewrite back_graph.
Qed.
