(* ===== verification/GoCodec.v ===== *)
(** * Go codecs: [encoding/hex], [encoding/base64] and [crypto/sha256].

    All three are executable; hexadecimal and base64 have their round trips. *)
From Stdlib Require Import Ascii.
From S2P Require Export GoStd.

(** ** [encoding/hex] *)

Definition hexchar (n : Z) : ascii :=
  default "0"%char (String.get (Z.to_nat n) "0123456789abcdef").
Definition hexval (c : ascii) : option Z :=
  let n := Z.of_N (N_of_ascii c) in
  if (48 <=? n) && (n <=? 57) then Some (n - 48)
  else if (97 <=? n) && (n <=? 102) then Some (n - 87)
  else if (65 <=? n) && (n <=? 70) then Some (n - 55) else None.

Fixpoint hex_encode (b : bytes) : string :=
  match b with
  | [] => ""
  | x :: b => String (hexchar (b2z x / 16)) (String (hexchar (b2z x mod 16)) (hex_encode b))
  end.
Fixpoint hex_decode (s : string) : option bytes :=
  match s with
  | "" => Some []
  | String c (String d s) =>
      h ← hexval c; l ← hexval d; b ← hex_decode s; Some (z2b (16 * h + l) :: b)
  | _ => None
  end.

Lemma hexval_hexchar n : 0 <= n < 16 -> hexval (hexchar n) = Some n.
Proof.
  intros Hn.
  assert (Hall : forallb (fun k => bool_decide (hexval (hexchar (Z.of_nat k)) = Some (Z.of_nat k)))
                   (seq 0 16) = true) by (vm_compute; reflexivity).
  rewrite forallb_forall in Hall.
  specialize (Hall (Z.to_nat n)). rewrite Z2Nat.id in Hall by lia.
  eapply bool_decide_eq_true_1, Hall, in_seq. lia.
Qed.

Lemma hex_roundtrip b : hex_decode (hex_encode b) = Some b.
Proof.
  induction b as [|x b IH]; [done|].
  pose proof (b2z_range x) as Hx.
  cbn [hex_encode hex_decode].
  rewrite !hexval_hexchar by (Z.div_mod_to_equations; lia). cbn.
  rewrite IH. cbn. rewrite <- Z.div_mod by lia. by rewrite z2b_b2z.
Qed.

Lemma hex_encode_inj : Inj (=) (=) hex_encode.
Proof.
  intros a b E. apply (f_equal hex_decode) in E. rewrite !hex_roundtrip in E. congruence.
Qed.

Lemma hex_encode_length b : String.length (hex_encode b) = (2 * length b)%nat.
Proof. induction b as [|x b IH]; [done|]. cbn [hex_encode String.length length]. lia. Qed.

(** ** [encoding/base64].  [url] selects the RawURL alphabet without padding,
    otherwise the standard alphabet with padding. *)

Definition b64_alphabet (url : bool) : string :=
  "ABCDEFGHIJKLMNOPQRSTUVWXYZabcdefghijklmnopqrstuvwxyz0123456789" +:+
  (if url then "-_" else "+/").
Definition b64_char (url : bool) (n : Z) : ascii :=
  default "A"%char (String.get (Z.to_nat n) (b64_alphabet url)).
Definition b64_val (url : bool) (c : ascii) : option Z :=
  let n := Z.of_N (N_of_ascii c) in
  if (65 <=? n) && (n <=? 90) then Some (n - 65)
  else if (97 <=? n) && (n <=? 122) then Some (n - 71)
  else if (48 <=? n) && (n <=? 57) then Some (n + 4)
  else if n =? (if url then 45 else 43) then Some 62
  else if n =? (if url then 95 else 47) then Some 63 else None.

Fixpoint b64_encode (url : bool) (b : bytes) : string :=
  match b with
  | [] => ""
  | [x] => let v := b2z x * 16 in
      String (b64_char url (v / 64)) (String (b64_char url (v mod 64)) (if url then "" else "=="))
  | [x; y] => let v := (b2z x * 256 + b2z y) * 4 in
      String (b64_char url (v / 4096)) (String (b64_char url (v / 64 mod 64))
        (String (b64_char url (v mod 64)) (if url then "" else "=")))
  | x :: y :: z :: b => let v := (b2z x * 256 + b2z y) * 256 + b2z z in
      String (b64_char url (v / 262144)) (String (b64_char url (v / 4096 mod 64))
        (String (b64_char url (v / 64 mod 64)) (String (b64_char url (v mod 64))
          (b64_encode url b))))
  end.

(** The decoder ignores carriage returns and newlines. *)
Fixpoint strip_newlines (s : string) : string :=
  match s with
  | "" => ""
  | String c s => if bool_decide (c = "010"%char) || bool_decide (c = "013"%char)
                  then strip_newlines s else String c (strip_newlines s)
  end.

Fixpoint b64_groups (url : bool) (s : string) : option bytes :=
  match s with
  | "" => Some []
  | String c (String d rest) =>
      a ← b64_val url c; b ← b64_val url d;
      match rest with
      | "" => if url then Some [z2b ((a * 64 + b) / 16)] else None
      | String e "" =>
          if url then k ← b64_val url e;
            let v := (a * 64 + b) * 64 + k in Some [z2b (v / 1024); z2b (v / 4)]
          else None
      | String e (String f rest') =>
          if bool_decide (f = "="%char) then
            if url || negb (bool_decide (rest' = "")) then None
            else if bool_decide (e = "="%char) then Some [z2b ((a * 64 + b) / 16)]
            else k ← b64_val url e;
              let v := (a * 64 + b) * 64 + k in Some [z2b (v / 1024); z2b (v / 4)]
          else
            k ← b64_val url e; l ← b64_val url f; t ← b64_groups url rest';
            let v := ((a * 64 + b) * 64 + k) * 64 + l in
            Some (z2b (v / 65536) :: z2b (v / 256) :: z2b v :: t)
      end
  | _ => None
  end.
Definition b64_decode (url : bool) (s : string) : option bytes :=
  b64_groups url (strip_newlines s).

Lemma b64_val_char url n : 0 <= n < 64 -> b64_val url (b64_char url n) = Some n.
Proof.
  intros Hn.
  assert (Hall : forallb (fun k =>
      bool_decide (b64_val url (b64_char url (Z.of_nat k)) = Some (Z.of_nat k)))
      (seq 0 64) = true) by (destruct url; vm_compute; reflexivity).
  rewrite forallb_forall in Hall.
  specialize (Hall (Z.to_nat n)). rewrite Z2Nat.id in Hall by lia.
  eapply bool_decide_eq_true_1, Hall, in_seq. lia.
Qed.

(** The characters of the alphabet are neither newlines nor the padding. *)
Lemma b64_val_special url c v :
  b64_val url c = Some v -> c <> "010"%char /\ c <> "013"%char /\ c <> "="%char.
Proof. intros H. repeat split; intros ->; destruct url; discriminate H. Qed.

Lemma strip_cons c s url v :
  b64_val url c = Some v -> strip_newlines (String c s) = String c (strip_newlines s).
Proof.
  intros (? & ? & _)%b64_val_special. cbn [strip_newlines].
  by rewrite !bool_decide_false.
Qed.

Lemma strip_b64_encode url b : strip_newlines (b64_encode url b) = b64_encode url b.
Proof.
  remember (length b) as n eqn:Hn.
  revert b Hn; induction (lt_wf n) as [n _ IH]; intros b ->.
  destruct b as [|x [|y [|z b]]]; [done|..];
    pose proof (b2z_range x); try pose proof (b2z_range y); try pose proof (b2z_range z);
    cbn [b64_encode];
    repeat (erewrite strip_cons by (apply b64_val_char; Z.div_mod_to_equations; lia)).
  - by destruct url.
  - by destruct url.
  - by rewrite (IH (length b)) by (simpl; lia).
Qed.

Lemma b64_groups_full url c d e f s a b k l t :
  b64_val url c = Some a -> b64_val url d = Some b ->
  b64_val url e = Some k -> b64_val url f = Some l ->
  b64_groups url s = Some t ->
  b64_groups url (String c (String d (String e (String f s)))) =
  Some (z2b ((((a * 64 + b) * 64 + k) * 64 + l) / 65536) ::
        z2b ((((a * 64 + b) * 64 + k) * 64 + l) / 256) ::
        z2b (((a * 64 + b) * 64 + k) * 64 + l) :: t).
Proof.
  intros Hc Hd He Hf Hs. cbn [b64_groups]. rewrite Hc, Hd. cbn.
  rewrite bool_decide_false by (apply b64_val_special in Hf; tauto).
  by rewrite He, Hf, Hs.
Qed.

(** Splitting a 24-bit group into four sextets and back. *)
Lemma sextets v : 0 <= v ->
  ((v / 262144 * 64 + v / 4096 mod 64) * 64 + v / 64 mod 64) * 64 + v mod 64 = v.
Proof. intros. Z.div_mod_to_equations. lia. Qed.

Lemma z2b_eq v x : v mod 256 = b2z x -> z2b v = x.
Proof. intros E. apply (inj b2z). by rewrite b2z_z2b. Qed.

Lemma b64_groups_encode url b : b64_groups url (b64_encode url b) = Some b.
Proof.
  remember (length b) as n eqn:Hn.
  revert b Hn; induction (lt_wf n) as [n _ IH]; intros b ->.
  destruct b as [|x [|y [|z b]]]; [done|..];
    pose proof (b2z_range x); try pose proof (b2z_range y); try pose proof (b2z_range z);
    cbn [b64_encode].
  - cbn [b64_groups]. rewrite !b64_val_char by (Z.div_mod_to_equations; lia). cbn.
    rewrite (z2b_eq _ x) by (Z.div_mod_to_equations; lia). by destruct url.
  - cbn [b64_groups]. rewrite !b64_val_char by (Z.div_mod_to_equations; lia). cbn.
    pose proof (b64_val_special url _ _ (b64_val_char url
      (((b2z x * 256 + b2z y) * 4) mod 64) ltac:(Z.div_mod_to_equations; lia))) as (_ & _ & Hne).
    destruct url; cbn.
    + rewrite (z2b_eq _ x), (z2b_eq _ y) by (Z.div_mod_to_equations; lia). done.
    + rewrite (bool_decide_false _ Hne). cbn.
      rewrite (z2b_eq _ x), (z2b_eq _ y) by (Z.div_mod_to_equations; lia). done.
  - erewrite b64_groups_full; [|apply b64_val_char; Z.div_mod_to_equations; lia..
      |apply (IH (length b)); [simpl; lia|done]].
    rewrite sextets by lia.
    rewrite (z2b_eq _ x), (z2b_eq _ y), (z2b_eq _ z) by (Z.div_mod_to_equations; lia). done.
Qed.

(** A character predicate that holds of the alphabet and of the padding holds of the text. *)
Lemma get_forall p s i c : str_forall p s = true -> String.get i s = Some c -> p c = true.
Proof.
  revert i; induction s as [|d s IH]; intros [|i] Hs Hi; try done;
    simpl in Hs; apply andb_prop in Hs as [Hd Hs]; cbn in Hi; [congruence|by eapply IH].
Qed.
Lemma b64_char_forall (p : ascii -> bool) url n :
  str_forall p (b64_alphabet url) = true -> p (b64_char url n) = true.
Proof.
  intros Hp. unfold b64_char. destruct (String.get _ _) as [c|] eqn:E.
  - by eapply get_forall.
  - apply (get_forall p (b64_alphabet url) 0); [done|]. by destruct url.
Qed.
Lemma b64_forall (p : ascii -> bool) url b :
  str_forall p (b64_alphabet url) = true -> p "="%char = true ->
  str_forall p (b64_encode url b) = true.
Proof.
  intros Hp He. remember (length b) as n eqn:Hn. revert b Hn.
  induction (lt_wf n) as [n _ IH]; intros [|x [|y [|z b]]] ->; cbn [b64_encode str_forall];
    rewrite ?(b64_char_forall p url) by done; try (destruct url; cbn; rewrite ?He; reflexivity).
  cbn [andb]. apply (IH (length b)); simpl; lia.
Qed.

Lemma b64_roundtrip url b : b64_decode url (b64_encode url b) = Some b.
Proof. unfold b64_decode. by rewrite strip_b64_encode, b64_groups_encode. Qed.

(** ** [crypto/sha256] (FIPS 180-4), on 32-bit words held in [Z]. *)

Definition rotr (n x : Z) : Z :=
  Z.lor (Z.shiftr x n) ((Z.shiftl x (32 - n)) mod M32).
Definition sha_k : list Z :=
  [1116352408; 1899447441; 3049323471; 3921009573; 961987163; 1508970993; 2453635748; 2870763221;
   3624381080; 310598401; 607225278; 1426881987; 1925078388; 2162078206; 2614888103; 3248222580;
   3835390401; 4022224774; 264347078; 604807628; 770255983; 1249150122; 1555081692; 1996064986;
   2554220882; 2821834349; 2952996808; 3210313671; 3336571891; 3584528711; 113926993; 338241895;
   666307205; 773529912; 1294757372; 1396182291; 1695183700; 1986661051; 2177026350; 2456956037;
   2730485921; 2820302411; 3259730800; 3345764771; 3516065817; 3600352804; 4094571909; 275423344;
   430227734; 506948616; 659060556; 883997877; 958139571; 1322822218; 1537002063; 1747873779;
   1955562222; 2024104815; 2227730452; 2361852424; 2428436474; 2756734187; 3204031479; 3329325298].
Definition sha_h0 : list Z :=
  [1779033703; 3144134277; 1013904242; 2773480762; 1359893119; 2600822924; 528734635; 1541459225].

Definition be_word (b : bytes) : Z := foldl (fun a x => a * 256 + b2z x) 0 b.
Fixpoint be_bytes (n : nat) (v : Z) : bytes :=
  match n with O => [] | S n => be_bytes n (v / 256) ++ [z2b v] end.
Fixpoint chunks (n k : nat) (b : bytes) : list bytes :=
  match k with O => [] | S k => take n b :: chunks n k (drop n b) end.

Definition sha_pad (b : bytes) : bytes :=
  let n := length b in
  let z := ((119 - n mod 64) mod 64)%nat in
  b ++ [z2b 128] ++ replicate z (z2b 0) ++ be_bytes 8 (8 * Z.of_nat n).

(** The message schedule, most recent word first. *)
Fixpoint sha_sched (n : nat) (w : list Z) : list Z :=
  match n with
  | O => w
  | S n =>
      let w2 := nth 1 w 0 in let w7 := nth 6 w 0 in
      let w15 := nth 14 w 0 in let w16 := nth 15 w 0 in
      let s0 := Z.lxor (Z.lxor (rotr 7 w15) (rotr 18 w15)) (Z.shiftr w15 3) in
      let s1 := Z.lxor (Z.lxor (rotr 17 w2) (rotr 19 w2)) (Z.shiftr w2 10) in
      sha_sched n (u32 (w16 + s0 + w7 + s1) :: w)
  end.
Definition sha_round (st : list Z) (kw : Z) : list Z :=
  match st with
  | [a; b; c; d; e; f; g; h] =>
      let s1 := Z.lxor (Z.lxor (rotr 6 e) (rotr 11 e)) (rotr 25 e) in
      let ch := Z.lxor (Z.land e f) (Z.land (Z.lxor e (M32 - 1)) g) in
      let t1 := h + s1 + ch + kw in
      let s0 := Z.lxor (Z.lxor (rotr 2 a) (rotr 13 a)) (rotr 22 a) in
      let mj := Z.lxor (Z.lxor (Z.land a b) (Z.land a c)) (Z.land b c) in
      [u32 (t1 + s0 + mj); a; b; c; u32 (d + t1); e; f; g]
  | _ => st
  end.
Definition sha_block (st : list Z) (blk : bytes) : list Z :=
  let w := reverse (sha_sched 48 (reverse (be_word <$> chunks 4 16 blk))) in
  zip_with (fun x y => u32 (x + y)) st (foldl sha_round st (zip_with Z.add sha_k w)).
Definition sha256 (b : bytes) : bytes :=
  let p := sha_pad b in
  let st := foldl sha_block sha_h0 (chunks 64 (length p / 64) p) in
  take 32 (concat (be_bytes 4 <$> st) ++ replicate 32 (z2b 0)).

Example sha256_abc :
  hex_encode (sha256 (to_bytes "abc")) =
  "ba7816bf8f01cfea414140de5dae2223b00361a396177a9cb410ff61f20015ad".
Proof. vm_compute. reflexivity. Qed.

Lemma sha256_length b : length (sha256 b) = 32%nat.
Proof.
  unfold sha256. rewrite length_take, length_app, length_replicate. lia.
Qed.
