(* ===== verification/GoJson.v ===== *)
(** * [encoding/json]: the value tree, [Marshal], [Unmarshal] and struct decoding.

    [json_print] is [json.Marshal] of the tree (with the HTML escaping Go applies),
    [json_parse] the parser, [dec_field] the field-by-field decoding of an object
    into a struct.  The round trip is proved for trees whose strings are ASCII. *)
From Stdlib Require Import Ascii DecimalString DecimalN.
From S2P Require Export GoCodec.

Inductive json :=
  | JNull
  | JBool (b : bool)
  | JNum (lit : string)
  | JStr (s : string)
  | JArr (l : list json)
  | JObj (l : list (string * json)).

Definition JUint (z : Z) : json := JNum (fmt_uint z).
Definition JInt (z : Z) : json := JNum (fmt_int z).

(** ** Marshal *)

Definition cn (c : ascii) : Z := Z.of_N (N_of_ascii c).
Definition is_cont (c : ascii) : bool := (128 <=? cn c) && (cn c <=? 191).
(** Length of the valid multi-byte UTF-8 sequence at the front, 0 when invalid. *)
Definition utf8_len (s : string) : nat :=
  match s with
  | String a (String b s1) =>
      let n := cn a in
      if (194 <=? n) && (n <=? 223) then if is_cont b then 2%nat else 0%nat
      else match s1 with
      | String c s2 =>
          let lo := if n =? 224 then 160 else 128 in
          let hi := if n =? 237 then 159 else 191 in
          if (224 <=? n) && (n <=? 239) then
            if (lo <=? cn b) && (cn b <=? hi) && is_cont c then 3%nat else 0%nat
          else match s2 with
          | String d _ =>
              let lo := if n =? 240 then 144 else 128 in
              let hi := if n =? 244 then 143 else 191 in
              if (240 <=? n) && (n <=? 244) then
                if (lo <=? cn b) && (cn b <=? hi) && is_cont c && is_cont d
                then 4%nat else 0%nat
              else 0%nat
          | _ => 0%nat
          end
      | _ => 0%nat
      end
  | _ => 0%nat
  end.

Definition bslash : ascii := "092"%char.
Definition dquote : ascii := "034"%char.
Definition esc_ascii (c : ascii) : string :=
  let n := cn c in
  if (n =? 34) || (n =? 92) then String bslash (String c "")
  else if n =? 8 then String bslash "b" else if n =? 12 then String bslash "f"
  else if n =? 10 then String bslash "n" else if n =? 13 then String bslash "r"
  else if n =? 9 then String bslash "t"
  else if (n <? 32) || (n =? 60) || (n =? 62) || (n =? 38) then
    String bslash (String "u" (String "0" (String "0"
      (String (hexchar (n / 16)) (String (hexchar (n mod 16)) "")))))
  else String c "".

(** [copy] bytes of the current rune are still to be written as they are, [skip]
    bytes are still to be dropped. *)
Fixpoint escape (copy skip : nat) (s : string) : string :=
  match s with
  | "" => ""
  | String c s' =>
      match copy, skip with
      | S k, _ => String c (escape k skip s')
      | O, S k => escape 0 k s'
      | O, O =>
          if is_ascii c then esc_ascii c +:+ escape 0 0 s'
          else match utf8_len s with
          | O => String bslash "ufffd" +:+ escape 0 0 s'
          | S k =>
              let sep := String.substring 0 3 s in
              if bool_decide (sep = of_bytes (map z2b [226; 128; 168])) then
                String bslash "u2028" +:+ escape 0 k s'
              else if bool_decide (sep = of_bytes (map z2b [226; 128; 169])) then
                String bslash "u2029" +:+ escape 0 k s'
              else String c (escape k 0 s')
          end
      end
  end.

Definition print_string (s : string) : string :=
  String dquote (escape 0 0 s +:+ String dquote "").

Fixpoint sep_concat (l : list string) : string :=
  match l with [] => "" | [x] => x | x :: l => x +:+ "," +:+ sep_concat l end.

Fixpoint json_print (j : json) : string :=
  match j with
  | JNull => "null"
  | JBool b => if b then "true" else "false"
  | JNum lit => lit
  | JStr s => print_string s
  | JArr l => "[" +:+ sep_concat (map json_print l) +:+ "]"
  | JObj l => "{" +:+ sep_concat (map (fun kv => print_string kv.1 +:+ ":" +:+ json_print kv.2) l) +:+ "}"
  end.

(** [json.Marshal] of a value whose encoding is the tree [j]. *)
Definition json_marshal (j : json) : bytes := to_bytes (json_print j).

Example print_ex :
  json_print (JObj [("balance", JUint 20000000); ("nonce", JUint 0)]) =
  "{" +:+ print_string "balance" +:+ ":20000000," +:+ print_string "nonce" +:+ ":0}".
Proof. vm_compute. reflexivity. Qed.

(** ** Unmarshal *)

Definition is_ws (c : ascii) : bool :=
  (cn c =? 32) || (cn c =? 9) || (cn c =? 10) || (cn c =? 13).
Fixpoint skip_ws (s : string) : string :=
  match s with String c s' => if is_ws c then skip_ws s' else s | "" => "" end.

Definition utf8_encode (r : Z) : string :=
  of_bytes (map z2b
    (if r <? 128 then [r]
     else if r <? 2048 then [192 + r / 64; 128 + r mod 64]
     else if r <? 65536 then [224 + r / 4096; 128 + r / 64 mod 64; 128 + r mod 64]
     else [240 + r / 262144; 128 + r / 4096 mod 64; 128 + r / 64 mod 64; 128 + r mod 64])).
Definition hex4 (a b c d : ascii) : option Z :=
  x ← hexval a; y ← hexval b; z ← hexval c; w ← hexval d;
  Some (((x * 16 + y) * 16 + z) * 16 + w).
Definition rune_error : string := of_bytes (map z2b [239; 191; 189]).
Definition unesc (c : ascii) : option ascii :=
  let n := cn c in
  if (n =? 34) || (n =? 92) || (n =? 47) then Some c
  else if n =? 98 then Some "008"%char else if n =? 102 then Some "012"%char
  else if n =? 110 then Some "010"%char else if n =? 114 then Some "013"%char
  else if n =? 116 then Some "009"%char else None.

(** The body of a string literal after its opening quote: contents and the rest. *)
Fixpoint unquote (copy : nat) (s : string) : option (string * string) :=
  match s with
  | "" => None
  | String c s1 =>
      match copy with
      | S k => r ← unquote k s1; Some (String c r.1, r.2)
      | O =>
          if cn c =? 34 then Some ("", s1)
          else if cn c <? 32 then None
          else if cn c =? 92 then
            match s1 with
            | String e s2 =>
                if cn e =? 117 then
                  match s2 with
                  | String a (String b (String x (String d s3))) =>
                      h ← hex4 a b x d;
                      if (55296 <=? h) && (h <=? 57343) then
                        match s3 with
                        | String e1 (String e2 (String a' (String b' (String x' (String d' s4))))) =>
                            let lo := if (cn e1 =? 92) && (cn e2 =? 117)
                                      then default 0 (hex4 a' b' x' d') else 0 in
                            if (h <=? 56319) && (56320 <=? lo) && (lo <=? 57343) then
                              r ← unquote 0 s4;
                              Some (utf8_encode (65536 + (h - 55296) * 1024 + (lo - 56320)) +:+ r.1, r.2)
                            else r ← unquote 0 s3; Some (rune_error +:+ r.1, r.2)
                        | _ => r ← unquote 0 s3; Some (rune_error +:+ r.1, r.2)
                        end
                      else r ← unquote 0 s3; Some (utf8_encode h +:+ r.1, r.2)
                  | _ => None
                  end
                else u ← unesc e; r ← unquote 0 s2; Some (String u r.1, r.2)
            | "" => None
            end
          else if is_ascii c then r ← unquote 0 s1; Some (String c r.1, r.2)
          else match utf8_len s with
          | O => r ← unquote 0 s1; Some (rune_error +:+ r.1, r.2)
          | S k => r ← unquote k s1; Some (String c r.1, r.2)
          end
      end
  end.

Definition is_numch (c : ascii) : bool :=
  is_digit c || (cn c =? 43) || (cn c =? 45) || (cn c =? 46) || (cn c =? 69) || (cn c =? 101).
Fixpoint span_num (s : string) : string * string :=
  match s with
  | String c s' => if is_numch c then let r := span_num s' in (String c r.1, r.2) else ("", s)
  | "" => ("", "")
  end.
Fixpoint span_digits (s : string) : string * string :=
  match s with
  | String c s' => if is_digit c then let r := span_digits s' in (String c r.1, r.2) else ("", s)
  | "" => ("", "")
  end.
(** The number grammar of RFC 8259: sign, integer part, fraction, exponent. *)
Definition valid_exp (s : string) : bool :=
  match s with
  | "" => true
  | String e s =>
      ((cn e =? 69) || (cn e =? 101)) &&
      let s := match s with
               | String c s' => if (cn c =? 43) || (cn c =? 45) then s' else s
               | "" => "" end in
      negb (bool_decide (s = "")) && str_forall is_digit s
  end.
Definition valid_frac (s : string) : bool :=
  match s with
  | String c s' => if cn c =? 46 then
      let r := span_digits s' in negb (bool_decide (r.1 = "")) && valid_exp r.2
      else valid_exp s
  | "" => true
  end.
Definition valid_number (s : string) : bool :=
  let s := match s with String c s' => if cn c =? 45 then s' else s | "" => "" end in
  match s with
  | "" => false
  | String c s' =>
      if cn c =? 48 then valid_frac s'
      else let r := span_digits s in negb (bool_decide (r.1 = "")) && valid_frac r.2
  end.

Fixpoint parse_value (fuel : nat) (s : string) : option (json * string) :=
  match fuel with
  | O => None
  | S f =>
      match skip_ws s with
      | "" => None
      | String c s1 as s0 =>
          if cn c =? 123 then
            match skip_ws s1 with
            | String d s2 => if cn d =? 125 then Some (JObj [], s2)
                             else r ← parse_members f s1; Some (JObj r.1, r.2)
            | "" => None end
          else if cn c =? 91 then
            match skip_ws s1 with
            | String d s2 => if cn d =? 93 then Some (JArr [], s2)
                             else r ← parse_elems f s1; Some (JArr r.1, r.2)
            | "" => None end
          else if cn c =? 34 then r ← unquote 0 s1; Some (JStr r.1, r.2)
          else if has_prefix s0 "null" then Some (JNull, str_drop 4 s0)
          else if has_prefix s0 "true" then Some (JBool true, str_drop 4 s0)
          else if has_prefix s0 "false" then Some (JBool false, str_drop 5 s0)
          else let r := span_num s0 in
               if valid_number r.1 then Some (JNum r.1, r.2) else None
      end
  end
with parse_elems (fuel : nat) (s : string) : option (list json * string) :=
  match fuel with
  | O => None
  | S f =>
      v ← parse_value f s;
      match skip_ws v.2 with
      | String c s1 =>
          if cn c =? 93 then Some ([v.1], s1)
          else if cn c =? 44 then r ← parse_elems f s1; Some (v.1 :: r.1, r.2)
          else None
      | "" => None
      end
  end
with parse_members (fuel : nat) (s : string) : option (list (string * json) * string) :=
  match fuel with
  | O => None
  | S f =>
      match skip_ws s with
      | String q s1 =>
          if cn q =? 34 then
            k ← unquote 0 s1;
            match skip_ws k.2 with
            | String c s2 =>
                if cn c =? 58 then
                  v ← parse_value f s2;
                  match skip_ws v.2 with
                  | String d s3 =>
                      if cn d =? 125 then Some ([(k.1, v.1)], s3)
                      else if cn d =? 44 then
                        r ← parse_members f s3; Some ((k.1, v.1) :: r.1, r.2)
                      else None
                  | "" => None
                  end
                else None
            | "" => None
            end
          else None
      | "" => None
      end
  end.

Definition json_parse (s : string) : option json :=
  r ← parse_value (S (String.length s)) s;
  if bool_decide (skip_ws r.2 = "") then Some r.1 else None.
(** The syntactic half of [json.Unmarshal(b, &v)]. *)
Definition json_unmarshal (b : bytes) : option json := json_parse (of_bytes b).

Example parse_ex :
  json_parse (json_print (JObj [("a<", JArr [JNum "1"; JNull; JStr (String dquote "x")])])) =
  Some (JObj [("a<", JArr [JNum "1"; JNull; JStr (String dquote "x")])]).
Proof. vm_compute. reflexivity. Qed.

(** ** Round trip *)

Definition num_ok (lit : string) : Prop :=
  valid_number lit = true /\ str_forall is_numch lit = true.
Fixpoint json_ok (j : json) : Prop :=
  match j with
  | JNum lit => num_ok lit
  | JStr s => str_forall is_ascii s = true
  | JArr l => foldr (fun x P => json_ok x /\ P) True l
  | JObj l => foldr (fun kv P => (str_forall is_ascii kv.1 = true /\ json_ok kv.2) /\ P) True l
  | _ => True
  end.
Fixpoint weight (j : json) : nat :=
  match j with
  | JArr l => S (foldr (fun x n => S (weight x) + n)%nat O l)
  | JObj l => S (foldr (fun kv n => S (weight kv.2) + n)%nat O l)
  | _ => 1
  end.

Section json_nested_ind.
Context (P : json -> Prop).
Hypothesis Hnull : P JNull.
Hypothesis Hbool : forall b, P (JBool b).
Hypothesis Hnum : forall n, P (JNum n).
Hypothesis Hstr : forall s, P (JStr s).
Hypothesis Harr : forall l, Forall P l -> P (JArr l).
Hypothesis Hobj : forall l, Forall (fun kv => P kv.2) l -> P (JObj l).
Fixpoint json_nested_ind (j : json) : P j :=
  match j with
  | JNull => Hnull | JBool b => Hbool b | JNum n => Hnum n | JStr s => Hstr s
  | JArr l => Harr l ((fix go l : Forall P l :=
      match l with [] => Forall_nil_2 _ | x :: l => Forall_cons_2 _ _ _ (json_nested_ind x) (go l) end) l)
  | JObj l => Hobj l ((fix go l : Forall (fun kv => P kv.2) l :=
      match l with [] => Forall_nil_2 _ | x :: l => Forall_cons_2 _ _ _ (json_nested_ind x.2) (go l) end) l)
  end.
End json_nested_ind.

Lemma str_cons_app c (s t : string) : String c s +:+ t = String c (s +:+ t).
Proof. reflexivity. Qed.
Lemma str_nil_app (t : string) : "" +:+ t = t.
Proof. reflexivity. Qed.
Ltac str_norm := rewrite ?str_cons_app, ?str_nil_app in *.

Lemma app_assoc_str (a b c : string) : (a +:+ b) +:+ c = a +:+ (b +:+ c).
Proof. induction a as [|x a IH]; [done|]. str_norm. by rewrite IH. Qed.
Lemma length_app_str (a b : string) :
  String.length (a +:+ b) = (String.length a + String.length b)%nat.
Proof. induction a as [|x a IH]; [done|]. str_norm. simpl. by rewrite IH. Qed.

Lemma unquote_esc_ascii c t :
  is_ascii c = true ->
  unquote 0 (esc_ascii c +:+ t) = r ← unquote 0 t; Some (String c r.1, r.2).
Proof.
  destruct c as [[] [] [] [] [] [] [] []]; intros H; try discriminate H; reflexivity.
Qed.

Lemma unquote_escape s rest :
  str_forall is_ascii s = true ->
  unquote 0 (escape 0 0 s +:+ String dquote rest) = Some (s, rest).
Proof.
  induction s as [|c s IH]; intros Hs; [done|].
  apply andb_prop in Hs as [Hc Hs]. cbn [escape]. rewrite Hc.
  rewrite app_assoc_str, unquote_esc_ascii by done. by rewrite (IH Hs).
Qed.

Definition num_end (rest : string) : Prop :=
  match rest with "" => True | String c _ => is_numch c = false end.

Lemma span_num_app lit rest :
  str_forall is_numch lit = true -> num_end rest ->
  span_num (lit +:+ rest) = (lit, rest).
Proof.
  intros Hl Hr. induction lit as [|c lit IH].
  - str_norm. destruct rest as [|c rest]; [done|]. simpl in *. by rewrite Hr.
  - apply andb_prop in Hl as [Hc Hl]. str_norm. simpl. by rewrite Hc, (IH Hl).
Qed.

(** The first character of a number is none of those that open another value. *)
Lemma valid_number_front c s :
  valid_number (String c s) = true -> is_ws c = false /\
  (cn c =? 123) = false /\ (cn c =? 91) = false /\ (cn c =? 34) = false /\
  c <> "n"%char /\ c <> "t"%char /\ c <> "f"%char.
Proof.
  destruct c as [[] [] [] [] [] [] [] []]; intros H;
    first [discriminate H | repeat split; try done].
Qed.

Lemma has_prefix_cons_ne a s b p : a <> b -> has_prefix (String a s) (String b p) = false.
Proof. intros H. cbn. destruct (ascii_dec b a); [by subst|done]. Qed.

Lemma parse_num f lit rest :
  num_ok lit -> num_end rest ->
  parse_value (S f) (lit +:+ rest) = Some (JNum lit, rest).
Proof.
  intros [Hv Hn] Hr. destruct lit as [|c lit]; [done|].
  pose proof (valid_number_front c lit Hv) as (Hw & H1 & H2 & H3 & Hn' & Ht & Hf).
  str_norm. cbn [parse_value skip_ws]. rewrite Hw, H1, H2, H3.
  rewrite !has_prefix_cons_ne by done.
  change (String c (lit +:+ rest)) with (String c lit +:+ rest).
  rewrite (span_num_app (String c lit) rest Hn Hr). cbn [fst snd]. by rewrite Hv.
Qed.

Lemma parse_str f s rest :
  str_forall is_ascii s = true ->
  parse_value (S f) (print_string s +:+ rest) = Some (JStr s, rest).
Proof.
  intros Hs. unfold print_string. str_norm. rewrite app_assoc_str.
  cbn [parse_value skip_ws].
  transitivity (r ← unquote 0 (escape 0 0 s +:+ String dquote rest); Some (JStr r.1, r.2)).
  { reflexivity. }
  by rewrite unquote_escape.
Qed.

Definition parses (j : json) : Prop := forall f rest,
  (weight j <= f)%nat -> num_end rest ->
  parse_value f (json_print j +:+ rest) = Some (j, rest).

Lemma weight_pos j : (1 <= weight j)%nat.
Proof. destruct j; simpl; lia. Qed.

Lemma sep_concat_map_cons {A} (g : A -> string) x y l :
  sep_concat (map g (x :: y :: l)) = g x +:+ "," +:+ sep_concat (map g (y :: l)).
Proof. reflexivity. Qed.

Lemma parse_elems_ok l : l <> [] -> Forall parses l -> forall f rest,
  (foldr (fun x n => S (weight x) + n) O l <= f)%nat ->
  parse_elems f (sep_concat (map json_print l) +:+ String "]" rest) = Some (l, rest).
Proof.
  induction l as [|x l IH]; [done|]. intros _ Hl f rest Hf.
  apply Forall_cons_1 in Hl as [Hx Hl]. destruct f as [|f]; [simpl in Hf; lia|].
  simpl in Hf. destruct l as [|y l].
  - cbn [map sep_concat parse_elems]. rewrite Hx by (simpl; lia || done). done.
  - rewrite sep_concat_map_cons. cbn [parse_elems]. rewrite !app_assoc_str.
    rewrite Hx by (simpl; lia || done).
    str_norm. cbn [mbind option_bind fst snd skip_ws].
    change (is_ws ",") with false. cbn iota.
    change (cn "," =? 93) with false. change (cn "," =? 44) with true. cbn iota.
    rewrite (IH ltac:(done) Hl f rest) by (simpl in *; lia). done.
Qed.

Lemma parse_members_ok l : l <> [] ->
  Forall (fun kv => str_forall is_ascii kv.1 = true /\ parses kv.2) l -> forall f rest,
  (foldr (fun kv n => S (weight kv.2) + n) O l <= f)%nat ->
  parse_members f (sep_concat (map (fun kv => print_string kv.1 +:+ ":" +:+ json_print kv.2) l)
                   +:+ String "}" rest) = Some (l, rest).
Proof.
  induction l as [|[k x] l IH]; [done|]. intros _ Hl f rest Hf.
  apply Forall_cons_1 in Hl as [[Hk Hx] Hl]. destruct f as [|f]; [simpl in Hf; lia|].
  simpl in Hf, Hk, Hx.
  assert (Hstep : forall t, num_end t -> parse_members (S f)
      ((print_string k +:+ ":" +:+ json_print x) +:+ t) =
    match skip_ws t with
    | String d s3 => if cn d =? 125 then Some ([(k, x)], s3)
        else if cn d =? 44 then r ← parse_members f s3; Some ((k, x) :: r.1, r.2) else None
    | "" => None end).
  { intros t Ht. rewrite !app_assoc_str. unfold print_string. str_norm.
    rewrite app_assoc_str. str_norm.
    transitivity (k0 ← unquote 0 (escape 0 0 k +:+ String dquote (String ":" (json_print x +:+ t)));
      match skip_ws k0.2 with
      | String c s2 => if cn c =? 58 then v ← parse_value f s2;
          match skip_ws v.2 with
          | String d s3 => if cn d =? 125 then Some ([(k0.1, v.1)], s3)
              else if cn d =? 44 then r ← parse_members f s3; Some ((k0.1, v.1) :: r.1, r.2)
              else None
          | "" => None end
        else None
      | "" => None end); [reflexivity|].
    rewrite unquote_escape by done. cbn [mbind option_bind fst snd skip_ws].
    change (is_ws ":") with false. cbn iota. change (cn ":" =? 58) with true. cbn iota.
    rewrite Hx by (simpl; lia || done). done. }
  destruct l as [|y l].
  - cbn [map sep_concat fst snd]. by rewrite Hstep.
  - rewrite sep_concat_map_cons. cbn [fst snd]. rewrite (app_assoc_str _ ("," +:+ _)), Hstep by done.
    rewrite app_assoc_str. str_norm. cbn [skip_ws].
    change (is_ws ",") with false. cbn iota.
    change (cn "," =? 125) with false. change (cn "," =? 44) with true. cbn iota.
    rewrite (IH ltac:(done) Hl f rest) by (simpl in *; lia). done.
Qed.

(** The parser inverts the printer, whatever follows the value. *)
Lemma json_ok_parses j : json_ok j -> parses j.
Proof.
  induction j as [|b|n|s|l IH|l IH] using json_nested_ind; intros Hj f rest Hf Hr;
    (destruct f as [|f]; [simpl in Hf; lia|]).
  - by destruct rest.
  - by destruct b, rest.
  - by apply parse_num.
  - by apply parse_str.
  - cbn [json_print]. rewrite !app_assoc_str. str_norm.
    assert (Hl : Forall parses l).
    { clear Hf. induction IH as [|x l Hx _ IHl]; [constructor|].
      destruct Hj as [H1 H2]. constructor; auto. }
    destruct l as [|x l]; [reflexivity|].
    cbn [parse_value skip_ws]. change (is_ws "[") with false. cbn iota.
    change (cn "[" =? 123) with false. change (cn "[" =? 91) with true. cbn iota.
    pose proof (parse_elems_ok (x :: l) ltac:(done) Hl f rest ltac:(simpl in *; lia)) as Hp.
    destruct (skip_ws _) as [|d s2] eqn:Es.
    { exfalso. revert Hp. destruct f; [done|]. cbn [parse_elems].
      destruct f; [done|]. cbn [parse_value]. by rewrite Es. }
    destruct (Z.eqb_spec (cn d) 93) as [Ed|Ed].
    { exfalso. revert Hp. destruct f; [done|]. cbn [parse_elems].
      destruct f; [done|]. cbn [parse_value]. rewrite Es.
      assert (d = "]"%char) as -> by (unfold cn in Ed; rewrite <- (ascii_N_embedding d);
        replace (N_of_ascii d) with 93%N by lia; reflexivity). done. }
    by rewrite Hp.
  - cbn [json_print]. rewrite !app_assoc_str. str_norm.
    assert (Hl : Forall (fun kv => str_forall is_ascii kv.1 = true /\ parses kv.2) l).
    { clear Hf. induction IH as [|x l Hx _ IHl]; [constructor|].
      destruct Hj as [[H1 H2] H3]. constructor; auto. }
    destruct l as [|x l]; [reflexivity|].
    cbn [parse_value skip_ws]. change (is_ws "{") with false. cbn iota.
    change (cn "{" =? 123) with true. cbn iota.
    pose proof (parse_members_ok (x :: l) ltac:(done) Hl f rest ltac:(simpl in *; lia)) as Hp.
    destruct (skip_ws _) as [|d s2] eqn:Es.
    { exfalso. revert Hp. destruct f; [done|]. cbn [parse_members]. by rewrite Es. }
    destruct (Z.eqb_spec (cn d) 125) as [Ed|Ed].
    { exfalso. revert Hp. destruct f; [done|]. cbn [parse_members]. rewrite Es.
      rewrite Ed. done. }
    by rewrite Hp.
Qed.

Lemma sep_concat_length (l : list string) (n : nat) :
  (foldr (fun s k => String.length s + k) O l + (length l - 1) <=
   String.length (sep_concat l))%nat.
Proof.
  clear n. induction l as [|x [|y l] IH]; [simpl; lia..|].
  change (sep_concat (x :: y :: l)) with (x +:+ "," +:+ sep_concat (y :: l)).
  rewrite !length_app_str. change (String.length ",") with 1%nat.
  cbn [foldr length] in *. lia.
Qed.

Lemma weight_length j : json_ok j -> (weight j <= String.length (json_print j))%nat.
Proof.
  induction j as [|b|n|s|l IH|l IH] using json_nested_ind; intros Hj.
  - simpl. lia.
  - by destruct b; simpl; lia.
  - destruct n as [|c n]; [by destruct Hj as [? _]|]. simpl. lia.
  - simpl. lia.
  - cbn [json_print weight]. str_norm. cbn [String.length]. rewrite length_app_str.
    pose proof (sep_concat_length (map json_print l) 0) as H.
    rewrite length_map in H. cbn [String.length].
    assert (foldr (fun x n => S (weight x) + n) O l <=
            foldr (fun s k => String.length s + k) O (map json_print l) + length l)%nat; [|lia].
    clear H. induction IH as [|x l Hx _ IHl]; [simpl; lia|].
    destruct Hj as [H1 H2]. specialize (Hx H1). specialize (IHl H2).
    cbn [map foldr length]. lia.
  - cbn [json_print weight]. str_norm. cbn [String.length]. rewrite length_app_str.
    set (g := fun kv => print_string kv.1 +:+ ":" +:+ json_print kv.2).
    pose proof (sep_concat_length (map g l) 0) as H.
    rewrite length_map in H. cbn [String.length].
    assert (foldr (fun kv n => S (weight kv.2) + n) O l <=
            foldr (fun s k => String.length s + k) O (map g l) + length l)%nat; [|lia].
    clear H. induction IH as [|x l Hx _ IHl]; [simpl; lia|].
    destruct Hj as [[H0 H1] H2]. specialize (Hx H1). specialize (IHl H2).
    cbn [map foldr length]. unfold g at 1. rewrite !length_app_str. lia.
Qed.

Lemma append_nil_r (s : string) : s +:+ "" = s.
Proof. induction s as [|c s IH]; [done|]. str_norm. by rewrite IH. Qed.

Lemma json_roundtrip j : json_ok j -> json_unmarshal (json_marshal j) = Some j.
Proof.
  intros Hj. unfold json_unmarshal, json_marshal. rewrite of_to_bytes. unfold json_parse.
  rewrite <- (append_nil_r (json_print j)) at 2.
  rewrite json_ok_parses; [done|done| |done].
  pose proof (weight_length j Hj). lia.
Qed.

(** Integers print as valid number literals. *)
Lemma digit_numch c : is_digit c = true -> is_numch c = true.
Proof. unfold is_numch. by intros ->. Qed.
Lemma str_forall_impl (p q : ascii -> bool) s :
  (forall c, p c = true -> q c = true) -> str_forall p s = true -> str_forall q s = true.
Proof.
  intros Hpq. induction s as [|c s IH]; [done|]. simpl. intros [Hc Hs]%andb_prop.
  by rewrite (Hpq c Hc), (IH Hs).
Qed.

Lemma nzhead_head d : forall e, Decimal.nzhead d <> Decimal.D0 e.
Proof. induction d; simpl; intros e; try done. Qed.

Lemma to_uint_shape n : N.to_uint n = Decimal.zero \/ forall e, N.to_uint n <> Decimal.D0 e.
Proof.
  pose proof (DecimalN.Unsigned.to_of (N.to_uint n)) as H.
  rewrite DecimalN.Unsigned.of_to in H. unfold Decimal.unorm in H.
  pose proof (nzhead_head (N.to_uint n)) as Hh.
  destruct (Decimal.nzhead (N.to_uint n)) eqn:E; rewrite H; first [by left | by right].
Qed.

Lemma span_digits_all s : str_forall is_digit s = true -> span_digits s = (s, "").
Proof.
  induction s as [|c s IH]; [done|]. simpl. intros [Hc Hs]%andb_prop.
  by rewrite Hc, (IH Hs).
Qed.

Lemma valid_number_digits c s :
  is_digit c = true -> c <> "0"%char -> str_forall is_digit s = true ->
  valid_number (String c s) = true.
Proof.
  intros Hc H0 Hs. unfold valid_number.
  destruct (Z.eqb_spec (cn c) 45) as [E|_].
  { unfold is_digit, cn in *. apply andb_prop in Hc as [Hc _]. apply N.leb_le in Hc. lia. }
  destruct (Z.eqb_spec (cn c) 48) as [E|_].
  { destruct H0. rewrite <- (ascii_N_embedding c). unfold cn in E.
    by replace (N_of_ascii c) with 48%N by lia. }
  rewrite span_digits_all; [done|]. simpl. by rewrite Hc.
Qed.

Lemma valid_number_uint z : valid_number (fmt_uint z) = true.
Proof.
  pose proof (fmt_uint_digits z) as Hd. revert Hd.
  unfold fmt_uint. generalize (Z.to_N z) as n. intros n.
  pose proof (to_uint_shape n) as Hs. pose proof (N_to_uint_nonnil n) as Hnil.
  unfold NilZero.string_of_uint.
  destruct (N.to_uint n) as [|u|u|u|u|u|u|u|u|u|u] eqn:E; [done|..].
  { intros _. destruct Hs as [[= ->]|Hs]; [done|by destruct (Hs u)]. }
  all: intros Hd; apply valid_number_digits; [reflexivity|done|exact Hd].
Qed.

Lemma num_ok_uint z : num_ok (fmt_uint z).
Proof.
  split; [apply valid_number_uint|].
  eapply str_forall_impl, fmt_uint_digits. apply digit_numch.
Qed.

Lemma num_ok_int z : num_ok (fmt_int z).
Proof.
  unfold fmt_int. destruct (z <? 0); [|apply num_ok_uint].
  pose proof (num_ok_uint (- z)) as [Hv Hn]. split.
  - str_norm. pose proof (fmt_uint_digits (- z)) as Hd.
    destruct (fmt_uint (- z)) as [|c s]; [done|].
    unfold valid_number in *. change (cn "-" =? 45) with true. cbn iota.
    apply andb_prop in Hd as [Hc _].
    destruct (Z.eqb_spec (cn c) 45) as [E|E]; [|done].
    exfalso. unfold is_digit, cn in *. apply andb_prop in Hc as [Hc _].
    apply N.leb_le in Hc. lia.
  - str_norm. simpl. by rewrite Hn.
Qed.
#[export] Hint Resolve num_ok_uint num_ok_int : go.

(** ** Decoding an object into a struct *)

(** Go matches a member to a field by case folding; besides ASCII letters, the
    long s and the Kelvin sign fold to [s] and [k]. *)
Fixpoint fold_key (s : string) : string :=
  match s with
  | "" => ""
  | String a s1 =>
      match s1 with
      | String b s2 =>
          if (cn a =? 197) && (cn b =? 191) then String "s" (fold_key s2)
          else match s2 with
          | String c s3 =>
              if (cn a =? 226) && (cn b =? 132) && (cn c =? 170) then String "k" (fold_key s3)
              else String (lower_ascii a) (fold_key s1)
          | "" => String (lower_ascii a) (fold_key s1)
          end
      | "" => String (lower_ascii a) ""
      end
  end.

(** One field: later members override, [null] leaves the field as it is, a member
    of the wrong type is an error. *)
Definition dec_field {A} (dec : json -> option A) (name : string) (def : A)
    (l : list (string * json)) : option A :=
  foldl (fun acc kv => a ← acc;
    if bool_decide (fold_key kv.1 = fold_key name)
    then match kv.2 with JNull => Some a | v => dec v end else Some a) (Some def) l.

Definition dec_string (j : json) : option string :=
  match j with JStr s => Some s | _ => None end.
Definition dec_bool (j : json) : option bool :=
  match j with JBool b => Some b | _ => None end.
Definition dec_int64 (j : json) : option Z :=
  match j with JNum lit => parse_int lit | _ => None end.
Definition dec_uint64 (j : json) : option Z :=
  match j with JNum lit => parse_uint lit | _ => None end.

(** A JSON object is decoded member by member; a top-level [null] leaves the
    target at its zero value; anything else is a type error. *)
Definition dec_struct {A} (zero : A) (dec : list (string * json) -> option A)
    (j : json) : option A :=
  match j with JObj l => dec l | JNull => Some zero | _ => None end.

Lemma dec_uint64_JUint z : in_u64 z -> dec_uint64 (JUint z) = Some z.
Proof. apply parse_uint_fmt. Qed.
Lemma dec_int64_JInt z : in_i64 z -> dec_int64 (JInt z) = Some z.
Proof. apply parse_int_fmt. Qed.

Lemma dec_field_none {A} (dec : json -> option A) name (l : list (string * json)) :
  foldl (fun acc kv => a ← acc;
    if bool_decide (fold_key kv.1 = fold_key name)
    then match kv.2 with JNull => Some a | v => dec v end else Some a) None l = None.
Proof. by induction l. Qed.
Lemma dec_field_cons {A} (dec : json -> option A) name def k v l :
  dec_field dec name def ((k, v) :: l) =
    if bool_decide (fold_key k = fold_key name)
    then match v with
         | JNull => dec_field dec name def l
         | _ => a ← dec v; dec_field dec name a l
         end
    else dec_field dec name def l.
Proof.
  unfold dec_field. cbn [foldl mbind option_bind fst snd]. case_bool_decide; [|done].
  destruct v; try done; (destruct (dec _); [done|apply dec_field_none]).
Qed.
Lemma dec_field_nil {A} (dec : json -> option A) name def : dec_field dec name def [] = Some def.
Proof. done. Qed.

Lemma dec_field_hit {A} (dec : json -> option A) name def k v x l :
  bool_decide (fold_key k = fold_key name) = true -> v <> JNull -> dec v = Some x ->
  dec_field dec name def ((k, v) :: l) = dec_field dec name x l.
Proof. intros Hk Hv Hd. rewrite dec_field_cons, Hk. destruct v; try done; by rewrite Hd. Qed.
Lemma dec_field_miss {A} (dec : json -> option A) name def k v l :
  bool_decide (fold_key k = fold_key name) = false ->
  dec_field dec name def ((k, v) :: l) = dec_field dec name def l.
Proof. intros Hk. by rewrite dec_field_cons, Hk. Qed.
Lemma dec_field_null {A} (dec : json -> option A) name def k l :
  dec_field dec name def ((k, JNull) :: l) = dec_field dec name def l.
Proof. rewrite dec_field_cons. by case_bool_decide. Qed.
(** What every decoded member has, a decoded field has. *)
Lemma dec_field_inv {A} (P : A -> Prop) (dec : json -> option A) name def l x :
  P def -> (forall j y, dec j = Some y -> P y) -> dec_field dec name def l = Some x -> P x.
Proof.
  intros Hdef Hdec. revert def Hdef. induction l as [|[k v] l IH]; intros def Hdef.
  - rewrite dec_field_nil. by intros [= <-].
  - rewrite dec_field_cons. case_bool_decide; [|by apply IH].
    destruct v; [by apply IH|..]; intros Hx; apply bind_Some in Hx as (a & Ha & Hx); eauto.
Qed.
Lemma dec_int64_range j z : dec_int64 j = Some z -> in_i64 z.
Proof. destruct j; try done. apply parse_int_range. Qed.
Lemma dec_uint64_range j z : dec_uint64 j = Some z -> in_u64 z.
Proof. destruct j; try done. apply parse_uint_range. Qed.
Lemma dec_string_JStr s : dec_string (JStr s) = Some s.
Proof. done. Qed.
Lemma dec_bool_JBool b : dec_bool (JBool b) = Some b.
Proof. done. Qed.
#[export] Hint Resolve dec_uint64_JUint dec_int64_JInt dec_string_JStr dec_bool_JBool : go.

(** [json_fields] decodes the members of a literal object one after the other; the
    numeric ranges are closed by the hint database. *)
Ltac json_field :=
  match goal with
  | |- mbind ?f (dec_field ?d ?n ?def []) = _ =>
      change (mbind f (dec_field d n def [])) with (f def); cbv beta
  | |- mbind _ (dec_field ?d ?n ?def ((?k, JNull) :: ?l)) = _ =>
      rewrite (dec_field_null d n def k l)
  | |- mbind _ (dec_field ?d ?n ?def ((?k, ?v) :: ?l)) = _ =>
      rewrite (dec_field_miss d n def k v l) by (vm_compute; reflexivity)
  | |- mbind _ (dec_field ?d ?n ?def ((?k, ?v) :: ?l)) = _ =>
      erewrite (dec_field_hit d n def k v _ l);
        [|vm_compute; reflexivity|discriminate|solve [eauto with go]]
  end.
Ltac json_fields := repeat json_field.

(** [json_inj E] splits an equation of two literal objects into equations of their members. *)
Lemma JObj_inj l k : JObj l = JObj k -> l = k.
Proof. congruence. Qed.
Lemma JStr_inj a b : JStr a = JStr b -> a = b.
Proof. congruence. Qed.
Lemma JUint_inj a b : in_u64 a -> in_u64 b -> JUint a = JUint b -> a = b.
Proof. unfold JUint, in_u64. intros ? ? E. injection E as E. apply fmt_uint_inj in E; lia. Qed.
Lemma JInt_inj a b : in_i64 a -> in_i64 b -> JInt a = JInt b -> a = b.
Proof.
  unfold JInt. intros Ha Hb E. injection E as E.
  apply (f_equal parse_int) in E. rewrite !parse_int_fmt in E by done. congruence.
Qed.
Ltac json_inj E :=
  apply JObj_inj in E; cons_inj E;
  repeat match goal with
  | H : (?k, _) = (?k, _) |- _ => apply (f_equal snd) in H; cbn [snd] in H
  | H : JStr _ = JStr _ |- _ => apply JStr_inj in H
  | H : JUint _ = JUint _ |- _ => apply JUint_inj in H; [|solve [auto with go]..]
  | H : JInt _ = JInt _ |- _ => apply JInt_inj in H; [|solve [auto with go]..]
  end.
