(* ===== verification/Merkle.v ===== *)
(** * internal/merkle: the SHA-256 receipt tree and the BLAKE3 header tree.

    [merkle.go] and [blake3tree.go] build the same shape of tree over two hash
    functions.  The section [Tree] holds the shape (levels, padding with the last
    node, pairing) and its lemmas for any 32-byte hash; [Sha256Tree] and
    [Blake3Tree] are the two files.  SHA-256 is computed; BLAKE3 is third-party
    code and is a parameter (class [Blake3]). *)
From S2P Require Export GoCodec.

(** github.com/zeebo/blake3: a function to 32-byte digests. *)
Class Blake3 := {
  blake3_sum256 : bytes -> bytes;
  blake3_length : forall b, length (blake3_sum256 b) = 32%nat
}.

(** A concrete instance for the witnesses: SHA-256 under another name. *)
Definition blake3_0 : Blake3 := {| blake3_sum256 := sha256; blake3_length := sha256_length |}.

Definition leafTag : Byte.byte := z2b 0.
Definition innerTag : Byte.byte := z2b 1.

(** ** The shape of a tree over a hash function *)
Section Tree.
Context (hash : bytes -> bytes).

Definition leaf_pre (b : bytes) : bytes := leafTag :: b.
Definition node_pre (l r : bytes) : bytes := innerTag :: l ++ r.
Definition tree_leaf (b : bytes) : bytes := hash (leaf_pre b).
Definition tree_node (l r : bytes) : bytes := hash (node_pre l r).

(** [if len(level)%2 == 1 { level = append(level, level[len(level)-1]) }] *)
Definition pad (level : list bytes) : list bytes :=
  match last level with
  | Some x => if Nat.odd (length level) then level ++ [x] else level
  | None => level
  end.
(** [for i := 0; i < len(level); i += 2 { next[i/2] = node(level[i], level[i+1]) }] *)
Fixpoint pairs (level : list bytes) : list bytes :=
  match level with l :: r :: rest => tree_node l r :: pairs rest | _ => [] end.
(** [for len(level) > 1 { .. }; return level[0]]; [None] is an index panic or
    an exhausted fuel. *)
Fixpoint reduce (fuel : nat) (level : list bytes) : option bytes :=
  match level with
  | [] => None
  | [x] => Some x
  | _ => match fuel with O => None | S f => reduce f (pairs (pad level)) end
  end.

Definition tree_root (leaves : list bytes) : bytes :=
  match leaves with
  | [] => hash [leafTag]
  | _ => default [] (reduce (length leaves) (tree_leaf <$> leaves))
  end.

(** *** Lengths *)
Lemma length_pad level : length (pad level) = (2 * ((length level + 1) / 2))%nat.
Proof.
  unfold pad. destruct level as [|a l]; [done|].
  destruct (last (a :: l)) eqn:E; [|by apply last_None in E].
  pose proof (Nat.div_mod_eq (length (a :: l)) 2) as Hd.
  pose proof (Nat.div_mod_eq (length (a :: l) + 1) 2) as Hd'.
  pose proof (Nat.mod_upper_bound (length (a :: l)) 2 ltac:(lia)).
  pose proof (Nat.mod_upper_bound (length (a :: l) + 1) 2 ltac:(lia)).
  destruct (Nat.odd _) eqn:Ho.
  - apply Nat.odd_spec in Ho as [k Hk]. rewrite length_app. cbn [length] in *. lia.
  - rewrite <- Nat.negb_even in Ho. apply negb_false_iff, Nat.even_spec in Ho as [k Hk]. lia.
Qed.

Lemma length_pairs level n : length level = (2 * n)%nat -> length (pairs level) = n.
Proof.
  revert level; induction n as [|n IH]; intros level Hn.
  - apply nil_length_inv in Hn as ->. done.
  - destruct level as [|a [|b level]]; simpl in Hn; [lia..|].
    cbn [pairs length]. f_equal. apply IH. lia.
Qed.

Lemma length_step level : length (pairs (pad level)) = ((length level + 1) / 2)%nat.
Proof. apply length_pairs, length_pad. Qed.

(** The loop ends: each pass at least halves a level of two or more nodes. *)
Lemma reduce_total fuel level :
  level <> [] -> (length level <= S fuel)%nat -> is_Some (reduce fuel level).
Proof.
  revert level; induction fuel as [|f IH]; intros level Hne Hlen.
  - destruct level as [|a [|b level]]; simpl in *; [done|eauto|lia].
  - destruct level as [|a [|b level]]; [done|simpl; eauto|].
    cbn [reduce]. pose proof (length_step (a :: b :: level)) as Hs.
    assert ((length (a :: b :: level) + 1) / 2 <= S f /\
            1 <= (length (a :: b :: level) + 1) / 2)%nat as [Hle Hge].
    { cbn [length] in *. split.
      - apply Nat.lt_succ_r, Nat.Div0.div_lt_upper_bound. lia.
      - apply Nat.div_le_lower_bound; lia. }
    apply IH; [|lia]. intros E. rewrite E in Hs. cbn [length] in *. lia.
Qed.

(** *** Preimages, and what an equality of roots gives *)
Fixpoint pairs_pre (level : list bytes) : list bytes :=
  match level with l :: r :: rest => node_pre l r :: pairs_pre rest | _ => [] end.
Fixpoint reduce_pre (fuel : nat) (level : list bytes) : list bytes :=
  match level with
  | [] | [_] => []
  | _ => match fuel with
         | O => []
         | S f => pairs_pre (pad level) ++ reduce_pre f (pairs (pad level))
         end
  end.
(** Every string hashed while the root of [leaves] is computed. *)
Definition preimages (leaves : list bytes) : list bytes :=
  (leaf_pre <$> leaves) ++ reduce_pre (length leaves) (tree_leaf <$> leaves).

Definition collision (P Q : list bytes) : Prop :=
  exists x y, x ∈ P /\ y ∈ Q /\ x <> y /\ hash x = hash y.

Lemma collision_mono P Q P' Q' :
  collision P Q -> P ⊆ P' -> Q ⊆ Q' -> collision P' Q'.
Proof. intros (x & y & Hx & Hy & Hne & He) HP HQ. exists x, y. naive_solver. Qed.

(** Either two strings are equal or hashing them alike is a collision. *)
Lemma hash_eq_cases P Q x y : x ∈ P -> y ∈ Q -> hash x = hash y -> x = y \/ collision P Q.
Proof.
  intros Hx Hy He. destruct (decide (x = y)); [by left|right]. by exists x, y.
Qed.

Definition digests (l : list bytes) : Prop := Forall (fun d => length d = 32%nat) l.
Context (hash_length : forall b, length (hash b) = 32%nat).

Lemma digests_pad l : digests l -> digests (pad l).
Proof.
  intros Hl. unfold pad. destruct (last l) as [x|] eqn:E; [|done].
  destruct (Nat.odd _); [|done]. apply Forall_app. split; [done|].
  constructor; [|constructor]. eapply (proj1 (Forall_forall _ _) Hl).
  apply last_Some in E as [l' ->]. set_solver.
Qed.
Lemma digests_pairs l : digests (pairs l).
Proof.
  remember (length l) as n eqn:Hn. revert l Hn.
  induction (lt_wf n) as [n _ IH]; intros [|a [|b l]] ->; [constructor..|].
  cbn [pairs]. constructor; [apply hash_length|]. apply (IH (length l)); simpl; lia.
Qed.
Lemma digests_leaves l : digests (tree_leaf <$> l).
Proof. apply Forall_fmap, Forall_true. intros b. apply hash_length. Qed.

Lemma pairs_inj n l1 l2 :
  length l1 = (2 * n)%nat -> length l2 = (2 * n)%nat -> digests l1 -> digests l2 ->
  pairs l1 = pairs l2 -> l1 = l2 \/ collision (pairs_pre l1) (pairs_pre l2).
Proof.
  revert l1 l2; induction n as [|n IH]; intros l1 l2 H1 H2 D1 D2 E.
  { apply nil_length_inv in H1 as ->, H2 as ->. by left. }
  destruct l1 as [|a [|b l1]], l2 as [|c [|d l2]]; simpl in H1, H2; try lia.
  cbn [pairs pairs_pre] in *. injection E as Eh Et.
  apply Forall_cons_1 in D1 as [Da D1], D2 as [Dc D2].
  apply Forall_cons_1 in D1 as [Db D1], D2 as [Dd D2].
  destruct (hash_eq_cases (node_pre a b :: pairs_pre l1) (node_pre c d :: pairs_pre l2)
    (node_pre a b) (node_pre c d)) as [Ep|Hc]; [set_solver..|exact Eh| |by right].
  unfold node_pre in Ep. injection Ep as Ep.
  apply app_inj_1 in Ep as [-> ->]; [|congruence].
  destruct (IH l1 l2) as [->|Hc]; [lia|lia|done..|by left|].
  right. eapply collision_mono; [exact Hc|set_solver..].
Qed.

Lemma pad_inj l1 l2 : length l1 = length l2 -> pad l1 = pad l2 -> l1 = l2.
Proof.
  intros Hlen E. apply (f_equal (take (length l1))) in E.
  assert (Hp : forall l, take (length l) (pad l) = l).
  { intros l. unfold pad. destruct (last l); [destruct (Nat.odd _)|];
      rewrite ?take_app_length, ?firstn_all; done. }
  rewrite Hp in E. rewrite Hlen, Hp in E. done.
Qed.

Lemma reduce_inj fuel l1 l2 r :
  length l1 = length l2 -> digests l1 -> digests l2 ->
  reduce fuel l1 = Some r -> reduce fuel l2 = Some r ->
  l1 = l2 \/ collision (reduce_pre fuel l1) (reduce_pre fuel l2).
Proof.
  revert l1 l2; induction fuel as [|f IH]; intros l1 l2 Hlen D1 D2 E1 E2;
    destruct l1 as [|a [|b l1]], l2 as [|c [|d l2]]; try discriminate;
    try (simpl in *; left; congruence).
  cbn [reduce reduce_pre] in *.
  set (L1 := a :: b :: l1) in *. set (L2 := c :: d :: l2) in *.
  destruct (IH (pairs (pad L1)) (pairs (pad L2))) as [E|Hc];
    [by rewrite !length_step, Hlen | apply digests_pairs.. | done | done | |].
  - destruct (pairs_inj ((length L1 + 1) / 2) (pad L1) (pad L2)) as [Ep|Hc];
      [apply length_pad|rewrite Hlen; apply length_pad|by apply digests_pad..|done| |].
    + left. by apply pad_inj.
    + right. eapply collision_mono; [exact Hc|set_solver..].
  - right. eapply collision_mono; [exact Hc|set_solver..].
Qed.

Lemma leaves_inj xs ys :
  tree_leaf <$> xs = tree_leaf <$> ys ->
  xs = ys \/ collision (leaf_pre <$> xs) (leaf_pre <$> ys).
Proof.
  revert ys; induction xs as [|x xs IH]; intros [|y ys] E; [by left|done..|].
  cbn in E. injection E as Eh Et.
  destruct (hash_eq_cases (leaf_pre <$> (x :: xs)) (leaf_pre <$> (y :: ys))
    (leaf_pre x) (leaf_pre y)) as [Ep|Hc]; [set_solver..|exact Eh| |by right].
  injection Ep as ->. destruct (IH ys Et) as [->|Hc]; [by left|right].
  eapply collision_mono; [exact Hc|set_solver..].
Qed.

Lemma tree_root_reduce xs : xs <> [] ->
  reduce (length xs) (tree_leaf <$> xs) = Some (tree_root xs).
Proof.
  intros Hne. destruct xs as [|x xs]; [done|]. unfold tree_root.
  destruct (reduce_total (length (x :: xs)) (tree_leaf <$> (x :: xs))) as [r ->];
    [done|rewrite length_fmap; lia|done].
Qed.

(** The root determines an equally long list of leaves, up to a collision that
    the two computations exhibit. *)
Lemma tree_root_inj xs ys :
  length xs = length ys -> tree_root xs = tree_root ys ->
  xs = ys \/ collision (preimages xs) (preimages ys).
Proof.
  intros Hlen E. destruct (decide (xs = [])) as [->|Hne].
  { by destruct ys; [left|]. }
  assert (Hne' : ys <> []) by (intros ->; destruct xs; done).
  pose proof (tree_root_reduce xs Hne) as Hx. pose proof (tree_root_reduce ys Hne') as Hy.
  rewrite <- E, <- Hlen in Hy.
  destruct (reduce_inj (length xs) (tree_leaf <$> xs) (tree_leaf <$> ys) (tree_root xs))
    as [El|Hc]; [by rewrite !length_fmap|apply digests_leaves..|done|done| |].
  - destruct (leaves_inj xs ys El) as [->|Hc]; [by left|right].
    eapply collision_mono; [exact Hc|unfold preimages; set_solver..].
  - right. eapply collision_mono; [exact Hc|unfold preimages; rewrite ?Hlen; set_solver..].
Qed.

(** *** Inclusion proofs *)

(** The sibling hashes and directions of node [i], from the leaf level up. *)
Fixpoint path (fuel i : nat) (level : list bytes) : list (bytes * Z) :=
  match level with
  | [] | [_] => []
  | _ => match fuel with
         | O => []
         | S f =>
             let l := pad level in
             (if Nat.even i then (default [] (l !! S i), 0)
              else (default [] (l !! Nat.pred i), 1)) :: path f (Nat.div2 i) (pairs l)
         end
  end.
Fixpoint climb (node : bytes) (p : list (bytes * Z)) : bytes :=
  match p with
  | [] => node
  | (s, d) :: p => climb (if d =? 0 then tree_node node s else tree_node s node) p
  end.

Lemma pairs_lookup l j a b :
  l !! (2 * j)%nat = Some a -> l !! S (2 * j) = Some b ->
  pairs l !! j = Some (tree_node a b).
Proof.
  revert l; induction j as [|j IH]; intros l Ha Hb.
  - destruct l as [|x [|y l]]; simpl in *; congruence.
  - replace (2 * S j)%nat with (S (S (2 * j))) in * by lia.
    destruct l as [|x [|y l]]; cbn in Ha, Hb; [done..|]. cbn [pairs lookup list_lookup].
    by apply IH.
Qed.

Lemma pad_lookup l i x : l !! i = Some x -> pad l !! i = Some x.
Proof.
  intros Hi. unfold pad. destruct (last l); [|done]. destruct (Nat.odd _); [|done].
  by apply lookup_app_l_Some.
Qed.

Lemma climb_path fuel level i x r :
  level !! i = Some x -> reduce fuel level = Some r -> climb x (path fuel i level) = r.
Proof.
  revert level i x; induction fuel as [|f IH]; intros level i x Hi Hr.
  - destruct level as [|a [|b level]]; [done| |done].
    apply list_lookup_singleton_Some in Hi as [-> <-]. simpl in *. congruence.
  - destruct level as [|a [|b level]]; [done| |].
    { apply list_lookup_singleton_Some in Hi as [-> <-]. simpl in *. congruence. }
    cbn [reduce path climb] in *. set (L := a :: b :: level) in *.
    apply pad_lookup in Hi as Hx.
    pose proof (length_pad L) as Hlen. apply lookup_lt_Some in Hx as Hlt.
    pose proof (Nat.div2_odd i) as Hodd. rewrite <- Nat.negb_even in Hodd.
    destruct (Nat.even i) eqn:He; cbn [negb Nat.b2n] in Hodd.
    + destruct (lookup_lt_is_Some_2 (pad L) (S i)) as [y Hy]; [lia|].
      rewrite Hy. cbn [default climb]. change (0 =? 0) with true. cbn iota.
      apply IH; [|done]. apply pairs_lookup; replace (2 * Nat.div2 i)%nat with i by lia; done.
    + destruct (lookup_lt_is_Some_2 (pad L) (Nat.pred i)) as [y Hy]; [lia|].
      rewrite Hy. cbn [default climb]. change (1 =? 0) with false. cbn iota.
      apply IH; [|done]. apply pairs_lookup.
      * by replace (2 * Nat.div2 i)%nat with (Nat.pred i) by lia.
      * by replace (S (2 * Nat.div2 i)) with i by lia.
Qed.

Lemma reduce_digest fuel level r : digests level -> reduce fuel level = Some r -> length r = 32%nat.
Proof.
  revert level; induction fuel as [|f IH]; intros level D Hr;
    destruct level as [|a [|b level]]; try discriminate.
  - injection Hr as ->. by apply Forall_cons_1 in D as [].
  - injection Hr as ->. by apply Forall_cons_1 in D as [].
  - cbn [reduce] in Hr. eapply IH; [|exact Hr]. apply digests_pairs.
Qed.

Lemma path_ok fuel i level : digests level -> (i < length level)%nat ->
  Forall (fun sd => length sd.1 = 32%nat /\ (sd.2 = 0 \/ sd.2 = 1)) (path fuel i level).
Proof.
  revert level i; induction fuel as [|f IH]; intros level i D Hi;
    destruct level as [|a [|b level]]; try constructor.
  - set (L := a :: b :: level) in *. pose proof (length_pad L) as Hlen.
    apply digests_pad in D. assert (Hp : (i < length (pad L))%nat).
    { pose proof (Nat.div_mod_eq (length L + 1) 2).
      pose proof (Nat.mod_upper_bound (length L + 1) 2 ltac:(lia)). lia. }
    pose proof (Nat.div2_odd i) as Hodd. rewrite <- Nat.negb_even in Hodd.
    destruct (Nat.even i) eqn:He; cbn [negb Nat.b2n] in Hodd; cbn [fst snd].
    + destruct (lookup_lt_is_Some_2 (pad L) (S i)) as [y Hy]; [lia|]. rewrite Hy.
      split; [by eapply (Forall_lookup_1 _ _ _ _ D) in Hy|by left].
    + destruct (lookup_lt_is_Some_2 (pad L) (Nat.pred i)) as [y Hy]; [lia|]. rewrite Hy.
      split; [by eapply (Forall_lookup_1 _ _ _ _ D) in Hy|by right].
  - apply IH; [apply digests_pairs|]. rewrite length_step.
    rewrite Nat.div2_div. set (L := a :: b :: level) in *.
    pose proof (Nat.div_mod_eq (length L + 1) 2).
    pose proof (Nat.mod_upper_bound (length L + 1) 2 ltac:(lia)).
    pose proof (Nat.div_mod_eq i 2). pose proof (Nat.mod_upper_bound i 2 ltac:(lia)). lia.
Qed.

(** The strings hashed while a proof is checked. *)
Fixpoint climb_pre (node : bytes) (p : list (bytes * Z)) : list bytes :=
  match p with
  | [] => []
  | (s, d) :: p =>
      (if d =? 0 then node_pre node s else node_pre s node) ::
      climb_pre (if d =? 0 then tree_node node s else tree_node s node) p
  end.

Lemma pairs_pre_lookup l j a b :
  l !! (2 * j)%nat = Some a -> l !! S (2 * j) = Some b -> node_pre a b ∈ pairs_pre l.
Proof.
  revert l; induction j as [|j IH]; intros l Ha Hb.
  - destruct l as [|x [|y l]]; simpl in *; [congruence..|].
    injection Ha as ->. injection Hb as ->. set_solver.
  - replace (2 * S j)%nat with (S (S (2 * j))) in * by lia.
    destruct l as [|x [|y l]]; cbn in Ha, Hb; [done..|]. cbn [pairs_pre].
    apply elem_of_cons. right. by apply IH.
Qed.

(** The two children of the parent of node [i], whatever its parity. *)
Lemma parent_children L i x : pad L !! i = Some x -> exists a b,
  pad L !! (2 * Nat.div2 i)%nat = Some a /\ pad L !! S (2 * Nat.div2 i) = Some b /\
  x = (if Nat.even i then a else b).
Proof.
  intros Hx. pose proof (length_pad L) as Hlen. apply lookup_lt_Some in Hx as Hlt.
  pose proof (Nat.div2_odd i) as Hodd. rewrite <- Nat.negb_even in Hodd.
  destruct (Nat.even i); cbn [negb Nat.b2n] in Hodd.
  - destruct (lookup_lt_is_Some_2 (pad L) (S (2 * Nat.div2 i))) as [y Hy]; [lia|].
    exists x, y. by replace (2 * Nat.div2 i)%nat with i in * by lia.
  - destruct (lookup_lt_is_Some_2 (pad L) (2 * Nat.div2 i)%nat) as [y Hy]; [lia|].
    exists y, x. by replace (S (2 * Nat.div2 i)) with i by lia.
Qed.

Lemma climb_sound fuel level i x y p r :
  digests level -> length y = 32%nat ->
  level !! i = Some x -> reduce fuel level = Some r ->
  Forall (fun sd => length sd.1 = 32%nat) p -> p.*2 = (path fuel i level).*2 ->
  climb y p = r -> y = x \/ collision (climb_pre y p) (reduce_pre fuel level).
Proof.
  revert level i x y p; induction fuel as [|f IH]; intros level i x y p D Hy Hi Hr Hp Hd Hc;
    (destruct level as [|a [|b level]]; [done| |]).
  1, 3: apply list_lookup_singleton_Some in Hi as [-> <-]; simpl in *;
    apply fmap_nil_inv in Hd as ->; left; simpl in *; congruence.
  { done. }
  cbn [reduce path reduce_pre] in *. set (L := a :: b :: level) in *.
  destruct p as [|[s d] p]; [done|]. cbn [fmap list_fmap fst snd] in Hd.
  injection Hd as Hd0 Hd. apply Forall_cons_1 in Hp as [Hs Hp]. cbn [fst] in Hs.
  apply pad_lookup in Hi. destruct (parent_children L i x Hi) as (u & v & Hu & Hv & ->).
  pose proof (digests_pad L D) as DP.
  pose proof (Forall_lookup_1 _ _ _ _ DP Hu) as Lu.
  pose proof (Forall_lookup_1 _ _ _ _ DP Hv) as Lv. cbn beta in Lu, Lv.
  pose proof (pairs_pre_lookup _ _ _ _ Hu Hv) as Hin.
  assert (Hd' : d = if Nat.even i then 0 else 1) by (rewrite Hd0; by destruct (Nat.even i)).
  cbn [climb climb_pre] in *.
  destruct (IH (pairs (pad L)) (Nat.div2 i) (tree_node u v)
    (if d =? 0 then tree_node y s else tree_node s y) p) as [E|Hcol];
    [apply digests_pairs|by destruct (d =? 0); apply hash_length|by apply pairs_lookup
    |done..| |].
  - destruct (hash_eq_cases (climb_pre y ((s, d) :: p)) (pairs_pre (pad L) ++ reduce_pre f (pairs (pad L)))
      (if d =? 0 then node_pre y s else node_pre s y) (node_pre u v)) as [Ep|Hcol];
      [cbn [climb_pre]; set_solver|set_solver|by destruct (d =? 0)| |by right].
    left. subst d. destruct (Nat.even i); cbn in Ep; injection Ep as Ep;
      apply app_inj_1 in Ep as [-> ->]; congruence.
  - right. eapply collision_mono; [exact Hcol|set_solver..].
Qed.
End Tree.

(** ** internal/merkle/merkle.go *)
Module Sha256Tree.
Definition leafHash (b : bytes) : bytes := sha256 (leafTag :: b).
Definition innerHash (l r : bytes) : bytes := sha256 (innerTag :: l ++ r).
Definition Root (leaves : list bytes) : bytes :=
  match leaves with
  | [] => sha256 [leafTag]
  | _ => default [] (reduce sha256 (length leaves) (leafHash <$> leaves))
  end.

Lemma Root_tree leaves : Root leaves = tree_root sha256 leaves.
Proof. reflexivity. Qed.
End Sha256Tree.

(** ** internal/merkle/blake3tree.go *)
Section Blake3Tree.
Context `{Blake3}.

Definition Blake3Leaf (data : bytes) : bytes := blake3_sum256 (leafTag :: data).
Definition Blake3Node (left right : bytes) : bytes :=
  blake3_sum256 (innerTag :: left ++ right).

(** [BytesTo32]: a 32-byte array, or an error. *)
Definition BytesTo32 (b : bytes) : result bytes :=
  if bool_decide (length b = 32%nat) then Ok b else Err "expected 32 byte input".

Fixpoint ComputeBlake3Root_loop (node : bytes) (siblings : list bytes) (directions : list Z)
    : result bytes :=
  match siblings, directions with
  | s :: siblings, d :: directions =>
      sib ← BytesTo32 s;
      if d =? 0 then ComputeBlake3Root_loop (Blake3Node node sib) siblings directions
      else if d =? 1 then ComputeBlake3Root_loop (Blake3Node sib node) siblings directions
      else Err "merkle: invalid direction value"
  | _, _ => Ok node
  end.
Definition ComputeBlake3Root (leaf : bytes) (siblings : list bytes) (directions : list Z)
    : result bytes :=
  if bool_decide (length siblings = length directions)
  then ComputeBlake3Root_loop leaf siblings directions
  else Err "merkle: mismatched siblings/directions length".

Definition Blake3RootFromRaw (rawLeaves : list bytes) : bytes :=
  match rawLeaves with
  | [] => blake3_sum256 [leafTag]
  | _ => default [] (reduce blake3_sum256 (length rawLeaves) (Blake3Leaf <$> rawLeaves))
  end.

(** The proof of leaf [i] a prover reads off the tree. *)
Definition inclusion_path (rawLeaves : list bytes) (i : nat) : list (bytes * Z) :=
  path blake3_sum256 (length rawLeaves) i (Blake3Leaf <$> rawLeaves).

Lemma loop_climb node p :
  Forall (fun sd => length sd.1 = 32%nat /\ (sd.2 = 0 \/ sd.2 = 1)) p ->
  ComputeBlake3Root_loop node p.*1 p.*2 = Ok (climb blake3_sum256 node p).
Proof.
  intros Hp. revert node. induction Hp as [|[s d] p [Hs Hd] _ IH]; intros node; [done|].
  cbn [fmap list_fmap fst snd ComputeBlake3Root_loop climb] in *.
  unfold BytesTo32. rewrite bool_decide_true by done. cbn.
  by destruct Hd as [->| ->]; apply IH.
Qed.

Lemma loop_ok_climb node p r :
  ComputeBlake3Root_loop node p.*1 p.*2 = Ok r ->
  Forall (fun sd => length sd.1 = 32%nat) p /\ climb blake3_sum256 node p = r.
Proof.
  revert node; induction p as [|[s d] p IH]; intros node Hr; [by injection Hr as ->|].
  cbn [fmap list_fmap fst snd ComputeBlake3Root_loop climb] in *. unfold BytesTo32 in Hr.
  case_bool_decide as Hs; [|done]. cbn in Hr.
  destruct (d =? 0); [|destruct (d =? 1); [|done]];
    destruct (IH _ Hr) as [Hp Hc]; (split; [by constructor|exact Hc]).
Qed.
End Blake3Tree.

(** ** Properties *)

Lemma reduce_fuel hash f level r : reduce hash f level = Some r -> reduce hash (S f) level = Some r.
Proof.
  revert level; induction f as [|f IH]; intros level Hr;
    destruct level as [|a [|b level]]; try done.
  cbn [reduce] in *. by apply IH.
Qed.

Lemma pad_even level : Nat.odd (length level) = false -> pad level = level.
Proof. intros H. unfold pad. rewrite H. by destruct (last level). Qed.
Lemma pad_odd level x : Nat.odd (length level) = true -> last level = Some x -> pad level = level ++ [x].
Proof. intros H Hx. unfold pad. by rewrite H, Hx. Qed.

Section Properties.
Context `{Blake3}.

Lemma root_reduce leaves : leaves <> [] ->
  reduce blake3_sum256 (length leaves) (Blake3Leaf <$> leaves) = Some (Blake3RootFromRaw leaves).
Proof. apply (tree_root_reduce blake3_sum256). Qed.

Lemma root_length leaves : length (Blake3RootFromRaw leaves) = 32%nat.
Proof.
  destruct (decide (leaves = [])) as [->|Hne]; [apply blake3_length|].
  eapply (reduce_digest blake3_sum256 blake3_length), (root_reduce leaves Hne).
  apply digests_leaves, blake3_length.
Qed.

Lemma compute_inclusion (rawLeaves : list bytes) (i : nat) (leaf : bytes) :
  rawLeaves !! i = Some leaf ->
  ComputeBlake3Root (Blake3Leaf leaf) (inclusion_path rawLeaves i).*1
    (inclusion_path rawLeaves i).*2 = Ok (Blake3RootFromRaw rawLeaves).
Proof.
  intros Hi. unfold ComputeBlake3Root. rewrite bool_decide_true by by rewrite !length_fmap.
  assert (Hi' : (Blake3Leaf <$> rawLeaves) !! i = Some (Blake3Leaf leaf))
    by by rewrite list_lookup_fmap, Hi.
  assert (Hne : rawLeaves <> []) by by intros ->.
  rewrite loop_climb.
  - f_equal. eapply climb_path; [exact Hi'|]. by apply root_reduce.
  - apply path_ok; [apply blake3_length| |by apply lookup_lt_Some in Hi'].
    apply digests_leaves, blake3_length.
Qed.

(** completeness of inclusion proofs: for every leaf of a batch, folding the
    sibling hashes along its path with [ComputeBlake3Root] succeeds and gives the
    root [Blake3RootFromRaw] computes for the batch. *)
Theorem inclusion_proof_complete (rawLeaves : list bytes) (i : nat) (leaf : bytes) :
  rawLeaves !! i = Some leaf ->
  ComputeBlake3Root (Blake3Leaf leaf) (inclusion_path rawLeaves i).*1
    (inclusion_path rawLeaves i).*2 = Ok (Blake3RootFromRaw rawLeaves).
Proof. apply compute_inclusion. Qed.

Lemma compute_sound (rawLeaves : list bytes) (i : nat) (leaf claimed : bytes)
    (proof : list (bytes * Z)) :
  rawLeaves !! i = Some leaf -> length claimed = 32%nat ->
  proof.*2 = (inclusion_path rawLeaves i).*2 ->
  ComputeBlake3Root claimed proof.*1 proof.*2 = Ok (Blake3RootFromRaw rawLeaves) ->
  claimed = Blake3Leaf leaf \/
  collision blake3_sum256 (climb_pre blake3_sum256 claimed proof)
                          (preimages blake3_sum256 rawLeaves).
Proof.
  intros Hi Hlen Hd Hv. unfold ComputeBlake3Root in Hv. case_bool_decide; [|done].
  apply loop_ok_climb in Hv as [Hp Hc].
  assert (Hne : rawLeaves <> []) by by intros ->.
  destruct (climb_sound blake3_sum256 blake3_length (length rawLeaves)
    (Blake3Leaf <$> rawLeaves) i (Blake3Leaf leaf) claimed proof (Blake3RootFromRaw rawLeaves))
    as [->|Hcol]; [apply digests_leaves, blake3_length|done| |by apply root_reduce
    |done..|by left|right].
  - by rewrite list_lookup_fmap, Hi.
  - eapply collision_mono; [exact Hcol|done|]. unfold preimages. set_solver.
Qed.

(** C27: soundness of inclusion proofs: a proof with the directions of leaf [i] that
    [ComputeBlake3Root] folds to the batch root starts from the hash of leaf [i], or
    the strings hashed by the verifier and by the tree contain a BLAKE3 collision. *)
Theorem inclusion_proof_sound (rawLeaves : list bytes) (i : nat) (leaf claimed : bytes)
    (proof : list (bytes * Z)) :
  rawLeaves !! i = Some leaf -> length claimed = 32%nat ->
  proof.*2 = (inclusion_path rawLeaves i).*2 ->
  ComputeBlake3Root claimed proof.*1 proof.*2 = Ok (Blake3RootFromRaw rawLeaves) ->
  claimed = Blake3Leaf leaf \/
  collision blake3_sum256 (climb_pre blake3_sum256 claimed proof)
                          (preimages blake3_sum256 rawLeaves).
Proof. apply compute_sound. Qed.

(** the header root commits to the batch: two equally long batches with the same
    [Blake3RootFromRaw] are equal, or the strings hashed for the two roots contain a
    BLAKE3 collision. *)
Theorem blake3_root_binding (xs ys : list bytes) :
  length xs = length ys -> Blake3RootFromRaw xs = Blake3RootFromRaw ys ->
  xs = ys \/ collision blake3_sum256 (preimages blake3_sum256 xs) (preimages blake3_sum256 ys).
Proof. apply (tree_root_inj blake3_sum256 blake3_length). Qed.

(** without the length the root is ambiguous: appending a copy of the last leaf to
    a batch of odd size three or more leaves the root unchanged, because an odd level is
    completed with its own last node. *)
Theorem blake3_root_duplicate_last (xs : list bytes) (x : bytes) :
  last xs = Some x -> Nat.odd (length xs) = true -> length xs <> 1%nat ->
  Blake3RootFromRaw (xs ++ [x]) = Blake3RootFromRaw xs.
Proof.
  intros Hlast Hodd H1. assert (Hne : xs <> []) by by intros ->.
  pose proof (root_reduce xs Hne) as Hr.
  pose proof (root_reduce (xs ++ [x]) ltac:(by destruct xs)) as Hr'.
  enough (Hs : reduce blake3_sum256 (length (xs ++ [x])) (Blake3Leaf <$> xs ++ [x]) =
               Some (Blake3RootFromRaw xs)) by congruence.
  rewrite length_app, fmap_app, Nat.add_1_r. cbn [fmap list_fmap].
  set (L := Blake3Leaf <$> xs) in *.
  assert (HL : pad L = L ++ [Blake3Leaf x]).
  { apply pad_odd; [by unfold L; rewrite length_fmap|]. unfold L. by rewrite fmap_last, Hlast. }
  assert (HL' : pad (L ++ [Blake3Leaf x]) = L ++ [Blake3Leaf x]).
  { apply pad_even. unfold L. rewrite length_app, length_fmap, Nat.add_1_r.
    rewrite Nat.odd_succ. by rewrite <- Nat.negb_odd, Hodd. }
  assert (Hlen : length L = length xs) by (unfold L; by rewrite length_fmap).
  clearbody L. destruct L as [|a [|b l]]; [by destruct xs|simpl in Hlen; lia|].
  apply reduce_fuel in Hr. cbn [reduce] in Hr. rewrite HL in Hr.
  cbn [app reduce] in *. rewrite HL'. exact Hr.
Qed.
End Properties.

Definition leaves3 : list bytes := [to_bytes "a"; to_bytes "b"; to_bytes "c"].

Lemma inclusion_proof_complete_witness :
  @ComputeBlake3Root blake3_0 (@Blake3Leaf blake3_0 (to_bytes "c"))
    (@inclusion_path blake3_0 leaves3 2).*1 (@inclusion_path blake3_0 leaves3 2).*2 =
  Ok (@Blake3RootFromRaw blake3_0 leaves3).
Proof. apply (@inclusion_proof_complete blake3_0 leaves3 2 (to_bytes "c")). reflexivity. Defined.

Lemma inclusion_proof_sound_witness :
  let claimed := @Blake3Leaf blake3_0 (to_bytes "b") in
  let proof := @inclusion_path blake3_0 leaves3 1 in
  claimed = @Blake3Leaf blake3_0 (to_bytes "b") \/
  collision sha256 (climb_pre sha256 claimed proof) (preimages sha256 leaves3).
Proof.
  intros claimed proof.
  apply (@inclusion_proof_sound blake3_0 leaves3 1 (to_bytes "b") claimed proof).
  - reflexivity.
  - apply sha256_length.
  - reflexivity.
  - vm_compute. reflexivity.
Defined.

Lemma blake3_root_binding_witness :
  leaves3 = leaves3 \/ collision sha256 (preimages sha256 leaves3) (preimages sha256 leaves3).
Proof. apply (@blake3_root_binding blake3_0 leaves3 leaves3); reflexivity. Defined.

Lemma blake3_root_duplicate_last_witness :
  @Blake3RootFromRaw blake3_0 (leaves3 ++ [to_bytes "c"]) = @Blake3RootFromRaw blake3_0 leaves3.
Proof.
  apply (@blake3_root_duplicate_last blake3_0 leaves3 (to_bytes "c")); [reflexivity..|].
  intros E; discriminate E.
Defined.
