(* ===== verification/State.v ===== *)
(** * internal/state: the account database.

    [state.go] keeps a map of account *pointers*; [ApplyTransfer] holds two or three
    of them at once, and they may be the same account.  [DB] models the pointers: a
    heap of accounts and a map from addresses to heap cells.  The specification is
    the plain ledger [gmap string Account]; [ApplyTransfer_refines] shows that the
    pointer code implements it, aliasing included. *)
From S2P Require Export GoJson Merkle.

Record Account := mkAccount { Balance : Z; Nonce : Z }.
#[global] Instance Account_eq_dec : EqDecision Account.
Proof. solve_decision. Defined.
Definition zeroAccount : Account := mkAccount 0 0.
Definition account_ok (a : Account) : Prop := in_u64 (Balance a) /\ in_u64 (Nonce a).

Abbreviation loc := nat.
Record DB := mkDB {
  heap : list Account;
  accts : gmap string loc;
  feeReceiver : string;
  kv : gmap string bytes
}.

Definition NewDB : DB := mkDB [] ∅ "" ∅.
Definition SetFeeReceiver (addr : string) : St DB unit := fun db =>
  (tt, mkDB (heap db) (accts db) addr (kv db)).

(** Reading and writing through an account pointer. *)
Definition deref (l : loc) : St DB Account := fun db => (default zeroAccount (heap db !! l), db).
Definition store (l : loc) (a : Account) : St DB unit := fun db =>
  (tt, mkDB (<[l := a]> (heap db)) (accts db) (feeReceiver db) (kv db)).

(** [func (db *DB) get(addr string) *Account]: allocates a zero account for an
    address it has not seen. *)
Definition get (addr : string) : St DB loc := fun db =>
  match accts db !! addr with
  | Some l => (l, db)
  | None => (length (heap db),
             mkDB (heap db ++ [zeroAccount]) (<[addr := length (heap db)]> (accts db))
                  (feeReceiver db) (kv db))
  end.

(** [p.Balance += amt] *)
Definition addTo (l : loc) (amt : Z) : St DB unit :=
  a ← deref l; store l (mkAccount (Balance a +u amt) (Nonce a)).

Definition AddBalance (addr : string) (amount : Z) : St DB unit :=
  if amount =? 0 then mret tt else l ← get addr; addTo l amount.

Fixpoint InitGenesis (balances : list (string * Z)) : St DB unit :=
  match balances with
  | [] => mret tt
  | (addr, amt) :: rest => l ← get addr; addTo l amt;; InitGenesis rest
  end.

Definition ApplyTransfer (from to : string) (amount fee nonce : Z) : St DB (result unit) :=
  fa ← get from;
  a ← deref fa;
  if negb (Nonce a +u 1 =? nonce) then mret (Err "bad_nonce") else
  let need := amount +u fee in
  if Balance a <? need then mret (Err "insufficient_funds") else
  store fa (mkAccount (Balance a -u need) (Nonce a));;
  a ← deref fa;
  store fa (mkAccount (Balance a) (Nonce a +u 1));;
  ta ← get to;
  addTo ta amount;;
  db ← st_get;
  (if bool_decide (feeReceiver db = "") then mret tt
   else fr ← get (feeReceiver db); addTo fr fee);;
  mret (Ok tt).

Definition GetAccount (addr : string) : St DB Account := l ← get addr; deref l.

Definition Snapshot (db : DB) : gmap string Account :=
  (fun l => default zeroAccount (heap db !! l)) <$> accts db.

(** [Restore] allocates a fresh copy of every account, in map order. *)
Fixpoint restore_loop (m : list (string * Account)) : St DB unit :=
  match m with
  | [] => mret tt
  | (k, v) :: rest =>
      (fun db => (tt, mkDB (heap db ++ [v]) (<[k := length (heap db)]> (accts db))
                           (feeReceiver db) (kv db)));; restore_loop rest
  end.
Definition Restore `{GoRuntime} (m : gmap string Account) : St DB unit :=
  (fun db => (tt, mkDB (heap db) ∅ (feeReceiver db) (kv db)));; restore_loop (map_iter m).

(** Key/value storage; a [[]byte] value is immutable here, as the copies the code
    makes guarantee. *)
Definition SetKey (key : string) (value : bytes) : St DB unit := fun db =>
  (tt, mkDB (heap db) (accts db) (feeReceiver db) (<[key := value]> (kv db))).
Definition GetKey (key : string) (db : DB) : option bytes := kv db !! key.
Definition DeleteKey (key : string) : St DB unit := fun db =>
  (tt, mkDB (heap db) (accts db) (feeReceiver db) (delete key (kv db))).
(** [RangePrefix(prefix, fn)]: [fn] folds over the entries in map order until it
    answers [false]. *)
Fixpoint range_loop {S} (prefix : string) (fn : string -> bytes -> S -> S * bool)
    (entries : list (string * bytes)) (s : S) : S :=
  match entries with
  | [] => s
  | (k, v) :: rest =>
      if has_prefix k prefix then
        let '(s', continue) := fn k v s in
        if continue : bool then range_loop prefix fn rest s' else s'
      else range_loop prefix fn rest s
  end.
Definition RangePrefix `{GoRuntime} {S} (prefix : string) (fn : string -> bytes -> S -> S * bool)
    (db : DB) (s : S) : S := range_loop prefix fn (map_iter (kv db)) s.

(** ** internal/state/merkle.go *)
Definition account_json (a : Account) : json :=
  JObj [("balance", JUint (Balance a)); ("nonce", JUint (Nonce a))].
Definition account_leaf (addr : string) (a : Account) : bytes :=
  to_bytes "account/" ++ to_bytes addr ++ [z2b 0] ++ json_marshal (account_json a).
#[global] Arguments account_leaf : simpl never.
Definition str_le (a b : string) : Prop := bytes_le (to_bytes a) (to_bytes b).
#[global] Instance str_le_dec : RelDecision str_le.
Proof. intros a b. unfold str_le. apply _. Defined.
#[global] Instance str_le_trans : Transitive str_le.
Proof. intros a b c. unfold str_le. apply bytes_le_trans. Qed.
#[global] Instance str_le_total : Total str_le.
Proof. intros a b. apply bytes_le_total. Qed.
#[global] Instance str_le_antisymm : AntiSymm (=) str_le.
Proof. intros a b H1 H2. apply (inj to_bytes). by apply (anti_symm bytes_le). Qed.

Definition StateRoot_leaves `{GoRuntime} (snapshot : gmap string Account) : list bytes :=
  let keys := merge_sort str_le (map_iter snapshot).*1 in
  (fun addr => account_leaf addr (default zeroAccount (snapshot !! addr))) <$> keys.
Definition StateRoot `{GoRuntime, Blake3} (db : DB) : bytes :=
  let snapshot := Snapshot db in
  if bool_decide (snapshot = ∅) then Blake3RootFromRaw []
  else Blake3RootFromRaw (StateRoot_leaves snapshot).

(** ** The specification: a ledger of accounts *)
Section Ledger.
Implicit Types m : gmap string Account.

Definition acct m (a : string) : Account := default zeroAccount (m !! a).
Definition touch m (a : string) : gmap string Account := <[a := acct m a]> m.
Definition credit m (a : string) (amt : Z) : gmap string Account :=
  <[a := mkAccount (Balance (acct m a) +u amt) (Nonce (acct m a))]> m.
Definition debit m (a : string) (need : Z) : gmap string Account :=
  <[a := mkAccount (Balance (acct m a) -u need) (Nonce (acct m a) +u 1)]> m.

(** The three outcomes of a transfer, in the order of the code's checks. *)
Definition transfer_spec (receiver : string) m (from to : string) (amount fee nonce : Z)
    : result unit * gmap string Account :=
  if negb (Nonce (acct m from) +u 1 =? nonce) then (Err "bad_nonce", touch m from)
  else if Balance (acct m from) <? amount +u fee then (Err "insufficient_funds", touch m from)
  else
    let m1 := debit m from (amount +u fee) in
    let m2 := credit m1 to amount in
    (Ok tt, if bool_decide (receiver = "") then m2 else credit m2 receiver fee).

Definition total m : Z := msum Balance m.
Definition ledger_ok m : Prop := map_Forall (fun _ a => account_ok a) m.
End Ledger.

(** ** The pointer structure *)
Record db_wf (db : DB) : Prop := {
  wf_bound : forall a l, accts db !! a = Some l -> (l < length (heap db))%nat;
  wf_inj : forall a b l, accts db !! a = Some l -> accts db !! b = Some l -> a = b
}.

Lemma Snapshot_lookup db a :
  Snapshot db !! a = (fun l => default zeroAccount (heap db !! l)) <$> accts db !! a.
Proof. apply lookup_fmap. Qed.

Lemma NewDB_wf : db_wf NewDB.
Proof. split; cbn; intros *; by rewrite lookup_empty. Qed.

(** What [get] returns: a cell that holds exactly this address's account. *)
Record points (db : DB) (a : string) (l : loc) (m : gmap string Account) : Prop := {
  pt_wf : db_wf db;
  pt_acct : accts db !! a = Some l;
  pt_view : Snapshot db = m
}.

Lemma get_spec db a : db_wf db ->
  points (get a db).2 a (get a db).1 (touch (Snapshot db) a) /\
  feeReceiver (get a db).2 = feeReceiver db /\ kv (get a db).2 = kv db.
Proof.
  intros [Hb Hi]. unfold get. destruct (accts db !! a) as [l|] eqn:Ha; cbn.
  - split; [|done]. split; [by split|done|]. unfold touch, acct.
    rewrite insert_id; [done|]. by rewrite Snapshot_lookup, Ha.
  - split; [|done]. split.
    + split; cbn.
      * intros b l. rewrite lookup_insert_Some, length_app. cbn.
        intros [[_ <-]|[_ Hl]]; [lia|]. apply Hb in Hl. lia.
      * intros b c l. rewrite !lookup_insert_Some.
        intros [[<- <-]|[Hne Hl]] [[<- E]|[Hne' Hl']]; [done|apply Hb in Hl'; lia| |by eapply Hi].
        subst l. apply Hb in Hl. lia.
    + cbn. apply lookup_insert_eq.
    + apply map_eq. intros b. unfold touch, acct. rewrite Snapshot_lookup. cbn.
      destruct (decide (a = b)) as [<-|Hne].
      * rewrite !lookup_insert_eq, Snapshot_lookup, Ha. cbn.
        by rewrite lookup_app_r, Nat.sub_diag by lia.
      * rewrite !lookup_insert_ne, Snapshot_lookup by done.
        destruct (accts db !! b) as [l|] eqn:Hl; [|done]. cbn.
        rewrite lookup_app_l by by apply Hb in Hl. done.
Qed.

Lemma deref_spec db a l m : points db a l m -> deref l db = (acct m a, db).
Proof.
  intros [_ Ha <-]. unfold deref, acct. by rewrite Snapshot_lookup, Ha.
Qed.

Lemma store_spec db a l m x : points db a l m ->
  points (store l x db).2 a l (<[a := x]> m) /\
  feeReceiver (store l x db).2 = feeReceiver db /\ kv (store l x db).2 = kv db.
Proof.
  intros [[Hb Hi] Ha <-]. split; [|done]. split; [|done|].
  - split; cbn; intros *; [rewrite length_insert; apply Hb|apply Hi].
  - apply map_eq. intros b.
    destruct (decide (a = b)) as [<-|Hne].
    + rewrite lookup_insert_eq, Snapshot_lookup. cbn. rewrite Ha. cbn.
      rewrite list_lookup_insert_eq; [done|by eapply Hb].
    + rewrite lookup_insert_ne, !Snapshot_lookup by done. cbn.
      destruct (accts db !! b) as [l'|] eqn:Hl; [|done]. cbn.
      rewrite list_lookup_insert_ne; [done|]. intros ->. apply Hne. by eapply Hi.
Qed.

Lemma addTo_spec db a l m amt : points db a l m ->
  points (addTo l amt db).2 a l (credit m a amt) /\
  feeReceiver (addTo l amt db).2 = feeReceiver db /\ kv (addTo l amt db).2 = kv db.
Proof.
  intros Hp. unfold addTo. rewrite st_exec_bind, (deref_spec _ _ _ _ Hp). cbn.
  by apply store_spec.
Qed.

Lemma credit_touch m a amt : credit (touch m a) a amt = credit m a amt.
Proof.
  unfold credit, touch, acct. rewrite lookup_insert_eq. cbn. apply insert_insert_eq.
Qed.

(** [touch] is what remains of a [get] whose account is then overwritten. *)
Lemma debit_touch m a need :
  <[a := mkAccount (Balance (acct m a) -u need) (Nonce (acct m a) +u 1)]> (touch m a) = debit m a need.
Proof. unfold debit, touch. apply insert_insert_eq. Qed.
Lemma acct_touch m a b : acct (touch m a) b = acct m b.
Proof.
  unfold touch, acct at 1. destruct (decide (a = b)) as [<-|Hne].
  - by rewrite lookup_insert_eq.
  - by rewrite lookup_insert_ne.
Qed.
Lemma acct_insert_eq m a x : acct (<[a := x]> m) a = x.
Proof. unfold acct. by rewrite lookup_insert_eq. Qed.
Lemma acct_insert_ne m a b x : a <> b -> acct (<[a := x]> m) b = acct m b.
Proof. intros. unfold acct. by rewrite lookup_insert_ne. Qed.

(** [get a; p.Balance += amt] on the pointer structure is [credit] on the ledger. *)
Lemma get_addTo_spec db a amt : db_wf db ->
  let db' := ((l ← get a; addTo l amt) db).2 in
  db_wf db' /\ Snapshot db' = credit (Snapshot db) a amt /\
  feeReceiver db' = feeReceiver db /\ kv db' = kv db.
Proof.
  intros Hwf. rewrite st_exec_bind. destruct (get_spec db a Hwf) as (Hp & Hf & Hk).
  destruct (addTo_spec _ _ _ _ amt Hp) as ([Hwf' _ Hv] & Hf' & Hk').
  cbn zeta. rewrite credit_touch in Hv. split; [done|]. split; [done|]. split; congruence.
Qed.

(** The transfer on the pointer structure, as one specification lemma: result, ledger,
    well-formedness and frame. *)
Lemma ApplyTransfer_spec db from to amount fee nonce : db_wf db ->
  let r := ApplyTransfer from to amount fee nonce db in
  db_wf r.2 /\
  (r.1, Snapshot r.2) = transfer_spec (feeReceiver db) (Snapshot db) from to amount fee nonce /\
  feeReceiver r.2 = feeReceiver db /\ kv r.2 = kv db.
Proof.
  intros Hwf. unfold ApplyTransfer, transfer_spec. rewrite st_exec_bind.
  destruct (get_spec db from Hwf) as (Hp & Hf & Hk).
  set (fa := (get from db).1) in *. set (db1 := (get from db).2) in *.
  rewrite st_exec_bind, (deref_spec _ _ _ _ Hp), acct_touch. cbn [fst snd].
  destruct (negb _).
  { cbn. destruct Hp as [? _ <-]. auto. }
  destruct (_ <? _).
  { cbn. destruct Hp as [? _ <-]. auto. }
  rewrite st_exec_bind.
  destruct (store_spec _ _ _ _ (mkAccount (Balance (acct (Snapshot db) from) -u (amount +u fee))
    (Nonce (acct (Snapshot db) from))) Hp) as (Hp2 & Hf2 & Hk2).
  set (db2 := (store _ _ db1).2) in *.
  rewrite st_exec_bind, (deref_spec _ _ _ _ Hp2), acct_insert_eq. cbn [fst snd Balance Nonce].
  rewrite st_exec_bind.
  destruct (store_spec _ _ _ _ (mkAccount (Balance (acct (Snapshot db) from) -u (amount +u fee))
    (Nonce (acct (Snapshot db) from) +u 1)) Hp2) as ([Hwf3 _ Hv3] & Hf3 & Hk3).
  set (db3 := (store _ _ db2).2) in *.
  rewrite insert_insert_eq, debit_touch in Hv3.
  destruct (get_addTo_spec db3 to amount Hwf3) as (Hwf4 & Hv4 & Hf4 & Hk4).
  rewrite st_exec_bind, st_exec_bind.
  rewrite st_exec_bind in Hwf4, Hv4, Hf4, Hk4.
  set (db4 := (addTo _ _ _).2) in *. rewrite Hv3 in Hv4.
  rewrite st_exec_bind. cbn [st_get fst snd].
  assert (Hfr : feeReceiver db4 = feeReceiver db) by congruence. rewrite Hfr.
  rewrite st_exec_bind. case_bool_decide as Hempty.
  - cbn. rewrite Hv4. split; [done|]. split; [done|]. split; congruence.
  - destruct (get_addTo_spec db4 (feeReceiver db) fee Hwf4) as (Hwf5 & Hv5 & Hf5 & Hk5).
    cbn [fst snd mret St_ret]. rewrite Hv5, Hv4.
    split; [done|]. split; [done|]. split; congruence.
Qed.

(** ** Lemmas on the ledger *)

Lemma total_insert m a x : total (<[a := x]> m) = total m - Balance (acct m a) + Balance x.
Proof.
  unfold total, acct. destruct (m !! a) as [y|] eqn:Ha.
  - by rewrite (msum_insert_old _ _ _ y x Ha).
  - rewrite msum_insert_new by done. cbn. lia.
Qed.

Lemma ledger_acct m a : ledger_ok m -> account_ok (acct m a).
Proof.
  intros Hm. unfold acct. destruct (m !! a) as [x|] eqn:Ha.
  - by apply Hm in Ha.
  - split; unfold in_u64; cbn; lia.
Qed.
Lemma ledger_ok_insert m a x : ledger_ok m -> account_ok x -> ledger_ok (<[a := x]> m).
Proof. intros. by apply map_Forall_insert_2. Qed.
Lemma ledger_ok_touch m a : ledger_ok m -> ledger_ok (touch m a).
Proof. intros. apply ledger_ok_insert; [done|by apply ledger_acct]. Qed.
Lemma ledger_ok_credit m a amt : ledger_ok m -> ledger_ok (credit m a amt).
Proof.
  intros Hm. apply ledger_ok_insert; [done|]. pose proof (ledger_acct m a Hm) as [].
  split; cbn; auto with go.
Qed.
Lemma ledger_ok_debit m a need : ledger_ok m -> ledger_ok (debit m a need).
Proof. intros Hm. apply ledger_ok_insert; [done|]. split; cbn; auto with go. Qed.
#[export] Hint Resolve ledger_ok_touch ledger_ok_credit ledger_ok_debit ledger_acct : go.

Lemma total_touch m a : total (touch m a) = total m.
Proof. unfold touch. rewrite total_insert. lia. Qed.

(** A single account holds at most the total. *)
Lemma balance_le_total m a : ledger_ok m -> 0 <= Balance (acct m a) <= total m.
Proof.
  intros Hm. pose proof (ledger_acct m a Hm) as [Hb _]. unfold in_u64 in Hb.
  assert (Hpos : forall k v, m !! k = Some v -> 0 <= Balance v).
  { intros k v Hk. apply Hm in Hk as [Hk _]. unfold in_u64 in Hk. lia. }
  split; [lia|]. unfold acct. destruct (m !! a) as [x|] eqn:Ha.
  - by apply (msum_lookup_le Balance m a).
  - cbn. by apply msum_nonneg.
Qed.

(** A credit that fits under the cap on the total adds exactly its amount. *)
Lemma total_credit m a amt :
  ledger_ok m -> 0 <= amt -> total m + amt < M64 -> total (credit m a amt) = total m + amt.
Proof.
  intros Hm Ha Hcap. unfold credit. rewrite total_insert. cbn [Balance].
  pose proof (balance_le_total m a Hm). rewrite u64_small; [lia|unfold in_u64; lia].
Qed.
Lemma total_debit m a need :
  ledger_ok m -> 0 <= need <= Balance (acct m a) -> total (debit m a need) = total m - need.
Proof.
  intros Hm Hn. unfold debit. rewrite total_insert. cbn [Balance].
  pose proof (ledger_acct m a Hm) as [Hb _]. unfold in_u64 in Hb.
  rewrite u64_small; [lia|unfold in_u64; lia].
Qed.

Lemma transfer_spec_ok_inv receiver m from to amount fee nonce m' :
  transfer_spec receiver m from to amount fee nonce = (Ok tt, m') ->
  Nonce (acct m from) +u 1 = nonce /\ amount +u fee <= Balance (acct m from) /\
  m' = (let m2 := credit (debit m from (amount +u fee)) to amount in
        if bool_decide (receiver = "") then m2 else credit m2 receiver fee).
Proof.
  unfold transfer_spec. destruct (Z.eqb_spec (Nonce (acct m from) +u 1) nonce); [|done].
  cbn [negb]. destruct (Z.ltb_spec (Balance (acct m from)) (amount +u fee)); [done|].
  intros [= <-]. auto.
Qed.

Lemma transfer_spec_ledger_ok receiver m from to amount fee nonce :
  ledger_ok m -> ledger_ok (transfer_spec receiver m from to amount fee nonce).2.
Proof.
  intros Hm. unfold transfer_spec.
  destruct (negb _); [cbn; auto with go|]. destruct (_ <? _); [cbn; auto with go|].
  cbn. case_bool_decide; auto with go.
Qed.

(** The conservation law of the ledger, fee burnt or not. *)
Lemma transfer_spec_total receiver m from to amount fee nonce m' :
  ledger_ok m -> total m < M64 -> 0 <= amount -> 0 <= fee -> amount + fee < M64 ->
  transfer_spec receiver m from to amount fee nonce = (Ok tt, m') ->
  total m' = total m - (if bool_decide (receiver = "") then fee else 0).
Proof.
  intros Hm Hcap Ha Hf Hneed (_ & Hbal & ->)%transfer_spec_ok_inv.
  rewrite u64_small in * by (unfold in_u64; lia).
  pose proof (balance_le_total m from Hm).
  pose proof (total_debit m from (amount + fee) Hm ltac:(lia)) as H1.
  pose proof (total_credit (debit m from (amount + fee)) to amount
    (ledger_ok_debit _ _ _ Hm) Ha ltac:(lia)) as H2.
  cbn zeta. case_bool_decide; [lia|].
  rewrite total_credit; [lia|auto with go|lia|lia].
Qed.

(** ** Restoring a snapshot *)
Lemma restore_loop_spec es db : NoDup es.*1 -> db_wf db ->
  (forall a, a ∈ es.*1 -> accts db !! a = None) ->
  let db' := (restore_loop es db).2 in
  db_wf db' /\ Snapshot db' = list_to_map es ∪ Snapshot db /\
  feeReceiver db' = feeReceiver db /\ kv db' = kv db.
Proof.
  revert db; induction es as [|[k v] es IH]; intros db Hnd Hwf Hfresh.
  { cbn. by rewrite map_empty_union. }
  cbn [fmap list_fmap fst] in *. apply NoDup_cons in Hnd as [Hk Hnd].
  cbn [restore_loop]. rewrite st_exec_bind. cbn [fst snd].
  set (db1 := mkDB _ _ _ _).
  assert (Hwf1 : db_wf db1).
  { destruct Hwf as [Hb Hi]. split; cbn.
    - intros a l. rewrite lookup_insert_Some, length_app. cbn.
      intros [[_ <-]|[_ Hl]]; [lia|apply Hb in Hl; lia].
    - intros a b l. rewrite !lookup_insert_Some.
      intros [[<- <-]|[Hne Hl]] [[<- E]|[Hne' Hl']]; [done|apply Hb in Hl'; lia| |by eapply Hi].
      subst l. apply Hb in Hl. lia. }
  assert (Hv1 : Snapshot db1 = <[k := v]> (Snapshot db)).
  { apply map_eq. intros a. rewrite Snapshot_lookup. cbn.
    destruct (decide (k = a)) as [<-|Hne].
    - rewrite !lookup_insert_eq. cbn. by rewrite lookup_app_r, Nat.sub_diag by lia.
    - rewrite !lookup_insert_ne, Snapshot_lookup by done.
      destruct (accts db !! a) as [l|] eqn:Hl; [|done]. cbn.
      rewrite lookup_app_l by by eapply wf_bound. done. }
  destruct (IH db1 Hnd Hwf1) as (Hwf' & Hv' & Hf' & Hk').
  { intros a Ha. cbn. rewrite lookup_insert_ne by (intros ->; done).
    apply Hfresh. set_solver. }
  cbn zeta in *. split; [done|]. split; [|by rewrite Hf', Hk'].
  rewrite Hv', Hv1. cbn [list_to_map foldr curry]. rewrite <- insert_union_l.
  rewrite <- insert_union_r; [done|]. by apply not_elem_of_list_to_map_1.
Qed.

(** ** The leaves of the state root *)

Lemma str_forall_app p (s t : string) : str_forall p (s +:+ t) = str_forall p s && str_forall p t.
Proof.
  induction s as [|c s IH]; [done|]. str_norm. simpl. by rewrite IH, andb_assoc.
Qed.
Definition nonzero_char (c : Ascii.ascii) : bool := negb (cn c =? 0).
Lemma digit_nonzero c : is_digit c = true -> nonzero_char c = true.
Proof.
  unfold is_digit, nonzero_char, cn. intros [H _]%andb_prop. apply N.leb_le in H.
  destruct (Z.eqb_spec (Z.of_N (Ascii.N_of_ascii c)) 0); [lia|done].
Qed.

Lemma nonzero_to_bytes s : str_forall nonzero_char s = true -> z2b 0 ∉ to_bytes s.
Proof.
  induction s as [|c s IH]; [set_solver|]. simpl. intros [Hc Hs]%andb_prop.
  change (to_bytes (String c s)) with (Ascii.byte_of_ascii c :: to_bytes s).
  apply not_elem_of_cons. split; [|by apply IH]. intros E.
  revert Hc. unfold nonzero_char, cn.
  rewrite <- (Ascii.ascii_of_byte_of_ascii c), <- E. done.
Qed.

Lemma account_json_nonzero a : z2b 0 ∉ json_marshal (account_json a).
Proof.
  apply nonzero_to_bytes. cbn [json_print account_json map sep_concat fst snd].
  rewrite !str_forall_app.
  repeat (apply andb_true_intro; split); try reflexivity;
    (eapply str_forall_impl; [apply digit_nonzero|apply fmt_uint_digits]).
Qed.

Lemma account_json_ok a : json_ok (account_json a).
Proof. cbn. auto with go. Qed.

Lemma json_marshal_inj i j : json_ok i -> json_ok j -> json_marshal i = json_marshal j -> i = j.
Proof.
  intros Hi Hj E. apply (f_equal json_unmarshal) in E.
  rewrite !json_roundtrip in E by done. congruence.
Qed.

Lemma account_json_inj a b : account_ok a -> account_ok b ->
  account_json a = account_json b -> a = b.
Proof.
  intros [? ?] [? ?] E. unfold account_json, JUint, in_u64 in *. injection E as E1 E2.
  apply fmt_uint_inj in E1, E2; [|lia..]. destruct a, b; cbn in *; congruence.
Qed.

(** The last zero byte separates the address from the value. *)
Lemma split_last_inj {A} (x : A) l1 r1 l2 r2 :
  x ∉ r1 -> x ∉ r2 -> l1 ++ x :: r1 = l2 ++ x :: r2 -> l1 = l2 /\ r1 = r2.
Proof.
  intros H1 H2 E.
  enough (length r1 = length r2) as Hl.
  { apply app_inj_2 in E as [-> [= ->]]; [done|simpl; lia]. }
  assert (Hlt : forall l1 r1 l2 r2 : list A, x ∉ r2 -> l1 ++ x :: r1 = l2 ++ x :: r2 ->
    ~ (length r1 < length r2)%nat).
  { clear. intros l1 r1 l2 r2 H2 E Hlt. apply H2.
    pose proof (f_equal length E) as Hlen. rewrite !length_app in Hlen. cbn in Hlen.
    apply list_elem_of_lookup. exists (length l1 - length l2 - 1)%nat.
    assert (Hx : (l1 ++ x :: r1) !! length l1 = Some x) by by rewrite list_lookup_middle.
    rewrite E, lookup_app_r in Hx by lia.
    destruct (length l1 - length l2)%nat as [|k] eqn:Ek; [lia|].
    replace (S k - 1)%nat with k by lia. exact Hx. }
  pose proof (Hlt _ _ _ _ H2 E). pose proof (Hlt _ _ _ _ H1 (eq_sym E)). lia.
Qed.

Lemma account_leaf_inj a b x y : account_ok x -> account_ok y ->
  account_leaf a x = account_leaf b y -> a = b /\ x = y.
Proof.
  intros Hx Hy E. unfold account_leaf in E.
  pose proof (app_inv_head (to_bytes "account/") _ _ E) as E1. clear E.
  destruct (split_last_inj (z2b 0) _ _ _ _ (account_json_nonzero x) (account_json_nonzero y) E1)
    as [Ea Ej].
  apply (inj to_bytes) in Ea as ->. split; [done|].
  apply account_json_inj; [done..|]. apply json_marshal_inj; [apply account_json_ok..|done].
Qed.

(** The leaves are those of the keys in byte order, whatever the map order. *)
Lemma sorted_keys_unique (R1 R2 : GoRuntime) (m : gmap string Account) :
  merge_sort str_le (@map_iter R1 _ m).*1 = merge_sort str_le (@map_iter R2 _ m).*1.
Proof.
  apply (Sorted_unique str_le); [apply Sorted_merge_sort; apply _..|].
  rewrite !merge_sort_Permutation. by rewrite (@map_iter_perm R1), (@map_iter_perm R2).
Qed.

Lemma sorted_keys_elem `{R : GoRuntime} (m : gmap string Account) a :
  a ∈ merge_sort str_le (map_iter m).*1 <-> is_Some (m !! a).
Proof.
  rewrite merge_sort_Permutation, (map_iter_perm _ m), list_elem_of_fmap. split.
  - intros ([k v] & -> & Hk%elem_of_map_to_list). by exists v.
  - intros [v Hv]. exists (a, v). split; [done|by apply elem_of_map_to_list].
Qed.

Lemma StateRoot_leaves_length `{R : GoRuntime} (m : gmap string Account) :
  length (StateRoot_leaves m) = size m.
Proof.
  unfold StateRoot_leaves. rewrite length_fmap, merge_sort_Permutation, length_fmap.
  rewrite (map_iter_perm _ m). apply length_map_to_list.
Qed.

Lemma list_fmap_inj_pair {A B} (f g : A -> B) (l1 l2 : list A) :
  (forall a b, a ∈ l1 -> b ∈ l2 -> f a = g b -> a = b) -> f <$> l1 = g <$> l2 -> l1 = l2.
Proof.
  revert l2; induction l1 as [|a l1 IH]; intros [|b l2] Hf E; try done.
  cbn in E. apply (inj2 cons) in E as [Eh Et].
  rewrite (Hf a b ltac:(set_solver) ltac:(set_solver) Eh).
  f_equal. apply IH; [|done]. intros; apply Hf; set_solver.
Qed.

Lemma StateRoot_leaves_inj `{R : GoRuntime} (m1 m2 : gmap string Account) :
  ledger_ok m1 -> ledger_ok m2 -> StateRoot_leaves m1 = StateRoot_leaves m2 -> m1 = m2.
Proof.
  intros H1 H2 E. unfold StateRoot_leaves in E.
  assert (Hk : merge_sort str_le (map_iter m1).*1 = merge_sort str_le (map_iter m2).*1).
  { eapply list_fmap_inj_pair; [|exact E]. intros a b Ha Hb Eab.
    apply account_leaf_inj in Eab as [-> _]; [done|by apply ledger_acct..]. }
  rewrite <- Hk in E. apply map_eq. intros a.
  destruct (m1 !! a) as [x|] eqn:Hx, (m2 !! a) as [y|] eqn:Hy; try done.
  - assert (Ha : a ∈ merge_sort str_le (map_iter m1).*1) by (apply sorted_keys_elem; eauto).
    apply list_elem_of_lookup in Ha as [i Hi].
    apply (f_equal (fun l => l !! i)) in E. rewrite !list_lookup_fmap, Hi in E.
    cbn in E. apply (inj Some) in E. rewrite Hx, Hy in E. cbn in E.
    apply account_leaf_inj in E as [_ ->]; [done|by eapply H1|by eapply H2].
  - assert (Ha : a ∈ merge_sort str_le (map_iter m1).*1) by (apply sorted_keys_elem; eauto).
    rewrite Hk in Ha. apply sorted_keys_elem in Ha as [? ?]. congruence.
  - assert (Ha : a ∈ merge_sort str_le (map_iter m2).*1) by (apply sorted_keys_elem; eauto).
    rewrite <- Hk in Ha. apply sorted_keys_elem in Ha as [? ?]. congruence.
Qed.

(** ** Properties *)

(** C10: refinement: on a well-formed account store, [ApplyTransfer] working through
    account pointers gives the result and the ledger of the specification
    [transfer_spec], also when sender, recipient and fee receiver coincide; it keeps the
    store well formed and leaves the fee receiver and the key/value data alone. *)
Theorem ApplyTransfer_refines (db : DB) (from to : string) (amount fee nonce : Z) :
  db_wf db ->
  let r := ApplyTransfer from to amount fee nonce db in
  db_wf r.2 /\
  (r.1, Snapshot r.2) = transfer_spec (feeReceiver db) (Snapshot db) from to amount fee nonce /\
  feeReceiver r.2 = feeReceiver db /\ kv r.2 = kv db.
Proof. apply ApplyTransfer_spec. Qed.

(** C11: conservation: a transfer that is applied, with amount and fee that do not
    overflow together and a total supply below 2^64, keeps the sum of all balances
    when a fee receiver is set, and burns exactly the fee when none is. *)
Theorem ApplyTransfer_conserves (db : DB) (from to : string) (amount fee nonce : Z) (db' : DB) :
  db_wf db -> ledger_ok (Snapshot db) -> total (Snapshot db) < M64 ->
  0 <= amount -> 0 <= fee -> amount + fee < M64 ->
  ApplyTransfer from to amount fee nonce db = (Ok tt, db') ->
  ledger_ok (Snapshot db') /\
  total (Snapshot db') =
    total (Snapshot db) - (if bool_decide (feeReceiver db = "") then fee else 0).
Proof.
  intros Hwf Hm Hcap Ha Hf Hneed E.
  pose proof (ApplyTransfer_spec db from to amount fee nonce Hwf) as (_ & Hs & _).
  rewrite E in Hs. cbn [fst snd] in Hs. split.
  - replace (Snapshot db') with
      (transfer_spec (feeReceiver db) (Snapshot db) from to amount fee nonce).2 by by rewrite <- Hs.
    by apply transfer_spec_ledger_ok.
  - symmetry in Hs. by apply transfer_spec_total in Hs.
Qed.

(** replay protection: a transfer is applied only with the sender's next nonce, it
    advances that nonce, and submitting the same transfer again is rejected with
    [bad_nonce]. *)
Theorem ApplyTransfer_no_replay (db : DB) (from to : string) (amount fee nonce : Z) (db' : DB) :
  db_wf db -> ApplyTransfer from to amount fee nonce db = (Ok tt, db') ->
  nonce = Nonce (acct (Snapshot db) from) +u 1 /\
  Nonce (acct (Snapshot db') from) = nonce /\
  (ApplyTransfer from to amount fee nonce db').1 = Err "bad_nonce".
Proof.
  intros Hwf E. pose proof (ApplyTransfer_spec db from to amount fee nonce Hwf) as (Hwf' & Hs & _).
  rewrite E in Hs, Hwf'. cbn [fst snd] in Hs, Hwf'. symmetry in Hs.
  apply transfer_spec_ok_inv in Hs as (Hn & _ & Hm).
  assert (Hn' : Nonce (acct (Snapshot db') from) = nonce).
  { assert (Hc : forall m a b amt, Nonce (acct (credit m a amt) b) = Nonce (acct m b)).
    { intros. unfold credit. destruct (decide (a = b)) as [<-|Hne];
        [by rewrite acct_insert_eq|by rewrite acct_insert_ne]. }
    rewrite Hm. cbn zeta. case_bool_decide; rewrite !Hc; unfold debit; by rewrite acct_insert_eq. }
  split; [done|]. split; [done|].
  pose proof (ApplyTransfer_spec db' from to amount fee nonce Hwf') as (_ & Hs' & _).
  apply (f_equal fst) in Hs'. cbn [fst] in Hs'. rewrite Hs'. unfold transfer_spec.
  rewrite Hn'. destruct (Z.eqb_spec (nonce +u 1) nonce) as [Hw|]; [|done].
  exfalso. clear -Hw. go_arith.
Qed.

(** a rejected transfer changes no balance and no nonce; the only trace it leaves is
    a zero account for a sender the store had not seen. *)
Theorem ApplyTransfer_rejected (db : DB) (from to : string) (amount fee nonce : Z)
    (reason : string) (db' : DB) :
  db_wf db -> ApplyTransfer from to amount fee nonce db = (Err reason, db') ->
  (reason = "bad_nonce" \/ reason = "insufficient_funds") /\
  (forall a, acct (Snapshot db') a = acct (Snapshot db) a) /\
  dom (Snapshot db') = {[from]} ∪ dom (Snapshot db).
Proof.
  intros Hwf E. pose proof (ApplyTransfer_spec db from to amount fee nonce Hwf) as (_ & Hs & _).
  rewrite E in Hs. cbn [fst snd] in Hs. unfold transfer_spec in Hs.
  assert (Ht : (reason = "bad_nonce" \/ reason = "insufficient_funds") /\
               Snapshot db' = touch (Snapshot db) from).
  { destruct (negb _); [by injection Hs as -> ->; auto|].
    destruct (_ <? _); [by injection Hs as -> ->; auto|done]. }
  destruct Ht as [Hr ->]. split; [done|]. split; [intros; apply acct_touch|].
  unfold touch. apply dom_insert_L.
Qed.

(** the sum [amount + fee] is computed modulo 2^64: when it wraps to zero, a sender
    with nothing pays nothing and the recipient is credited the full amount. *)
Theorem ApplyTransfer_wrap_mints (db : DB) (from to : string) (amount fee nonce : Z) :
  db_wf db -> in_u64 amount -> in_u64 fee -> amount + fee = M64 -> from <> to ->
  feeReceiver db = "" -> nonce = Nonce (acct (Snapshot db) from) +u 1 ->
  ledger_ok (Snapshot db) ->
  exists db', ApplyTransfer from to amount fee nonce db = (Ok tt, db') /\
    Balance (acct (Snapshot db') from) = Balance (acct (Snapshot db) from) /\
    Balance (acct (Snapshot db') to) = Balance (acct (Snapshot db) to) +u amount.
Proof.
  intros Hwf Ha Hf Hsum Hne Hfr Hn Hm.
  pose proof (ApplyTransfer_spec db from to amount fee nonce Hwf) as (_ & Hs & _).
  destruct (ApplyTransfer from to amount fee nonce db) as [r db'] eqn:E. exists db'.
  cbn [fst snd] in Hs. unfold transfer_spec in Hs. rewrite <- Hn, Z.eqb_refl in Hs.
  cbn [negb] in Hs. pose proof (ledger_acct _ from Hm) as [Hb _].
  assert (H0 : amount +u fee = 0) by (rewrite Hsum; reflexivity).
  rewrite H0 in Hs. destruct (Z.ltb_spec (Balance (acct (Snapshot db) from)) 0) as [Hlt|_].
  { unfold in_u64 in Hb. lia. }
  rewrite Hfr in Hs. cbn zeta in Hs. rewrite bool_decide_true in Hs by done.
  injection Hs as -> ->. split; [done|]. split.
  - unfold credit, debit. rewrite acct_insert_ne, acct_insert_eq by done. cbn.
    rewrite Z.sub_0_r. by apply u64_small.
  - unfold credit, debit. rewrite acct_insert_eq. cbn. by rewrite acct_insert_ne by done.
Qed.

(** reading is not free of effects: [GetAccount] of an unknown address answers the
    zero account and adds it to the store, so the set of accounts hashed into
    the state root grows by one leaf. *)
Theorem GetAccount_unknown_grows `{GoRuntime} (db : DB) (addr : string) :
  db_wf db -> Snapshot db !! addr = None ->
  let r := GetAccount addr db in
  r.1 = zeroAccount /\ Snapshot r.2 = <[addr := zeroAccount]> (Snapshot db) /\
  length (StateRoot_leaves (Snapshot r.2)) = S (length (StateRoot_leaves (Snapshot db))).
Proof.
  intros Hwf Hnone. cbn zeta. unfold GetAccount. rewrite st_exec_bind.
  destruct (get_spec db addr Hwf) as (Hp & _).
  rewrite (deref_spec _ _ _ _ Hp), acct_touch. cbn [fst snd].
  rewrite (pt_view _ _ _ _ Hp). unfold touch, acct. rewrite Hnone. cbn.
  split; [done|]. split; [done|].
  rewrite !StateRoot_leaves_length. by apply map_size_insert_None.
Qed.

Lemma Restore_view `{GoRuntime} (m : gmap string Account) (db : DB) :
  db_wf (Restore m db).2 /\ Snapshot (Restore m db).2 = m /\ kv (Restore m db).2 = kv db.
Proof.
  unfold Restore. rewrite st_exec_bind. cbn [fst snd].
  destruct (restore_loop_spec (map_iter m) (mkDB (heap db) ∅ (feeReceiver db) (kv db)))
    as (Hwf & Hv & _ & Hk).
  - rewrite (map_iter_perm _ m). apply NoDup_fst_map_to_list.
  - split; cbn; intros *; by rewrite lookup_empty.
  - intros. apply lookup_empty.
  - cbn zeta in *. split; [done|]. split; [|done]. rewrite Hv.
    rewrite (list_to_map_proper (map_iter m) (map_to_list m)).
    + rewrite list_to_map_to_list. unfold Snapshot at 1. cbn. by rewrite fmap_empty, map_union_empty.
    + rewrite (map_iter_perm _ m). apply NoDup_fst_map_to_list.
    + apply map_iter_perm.
Qed.

(** restoring a snapshot and taking it again gives the same accounts, and keeps the
    store well formed. *)
Theorem Snapshot_Restore `{GoRuntime} (m : gmap string Account) (db : DB) :
  db_wf (Restore m db).2 /\ Snapshot (Restore m db).2 = m /\ kv (Restore m db).2 = kv db.
Proof. apply Restore_view. Qed.

(** the state root does not depend on the order in which the Go runtime iterates
    over the account map. *)
Theorem StateRoot_order_independent `{Blake3} (R1 R2 : GoRuntime) (db : DB) :
  @StateRoot R1 _ db = @StateRoot R2 _ db.
Proof.
  unfold StateRoot, StateRoot_leaves. case_bool_decide; [done|].
  by rewrite (sorted_keys_unique R1 R2).
Qed.

(** C20: the state root commits to the accounts: two stores with equally many accounts and
    the same state root hold the same accounts with the same balances and nonces, or
    the strings hashed for the two roots contain a BLAKE3 collision. *)
Theorem StateRoot_binding `{GoRuntime, Blake3} (db1 db2 : DB) :
  ledger_ok (Snapshot db1) -> ledger_ok (Snapshot db2) ->
  size (Snapshot db1) = size (Snapshot db2) -> StateRoot db1 = StateRoot db2 ->
  Snapshot db1 = Snapshot db2 \/
  collision blake3_sum256 (preimages blake3_sum256 (StateRoot_leaves (Snapshot db1)))
                          (preimages blake3_sum256 (StateRoot_leaves (Snapshot db2))).
Proof.
  intros H1 H2 Hsize E. unfold StateRoot in E.
  case_bool_decide as He1.
  { rewrite He1, map_size_empty in Hsize. symmetry in Hsize.
    apply map_size_empty_inv in Hsize. left. congruence. }
  case_bool_decide as He2.
  { rewrite He2, map_size_empty in Hsize. apply map_size_empty_inv in Hsize. done. }
  destruct (tree_root_inj blake3_sum256 blake3_length _ _
    (eq_trans (StateRoot_leaves_length _) (eq_trans Hsize (eq_sym (StateRoot_leaves_length _)))) E)
    as [El|Hc]; [left|by right].
  by apply StateRoot_leaves_inj in El.
Qed.

(** ** Concrete instances *)
Definition db0 : DB :=
  ((SetFeeReceiver "tho1foundation";; InitGenesis [("tho1alice", 20000000); ("tho1bob", 5)]) NewDB).2.

Lemma InitGenesis_wf bs db : db_wf db -> db_wf (InitGenesis bs db).2.
Proof.
  revert db; induction bs as [|[a amt] bs IH]; intros db Hwf; [done|].
  cbn [InitGenesis]. rewrite st_exec_bind.
  destruct (get_addTo_spec db a amt Hwf) as [Hwf' _]. rewrite st_exec_bind in Hwf'.
  rewrite st_exec_bind. by apply IH.
Qed.
Lemma SetFeeReceiver_wf r db : db_wf db -> db_wf (SetFeeReceiver r db).2.
Proof. intros [Hb Hi]. by split. Qed.
Lemma db0_wf : db_wf db0.
Proof. unfold db0. rewrite st_exec_bind. apply InitGenesis_wf, SetFeeReceiver_wf, NewDB_wf. Qed.
#[global] Instance account_ok_dec a : Decision (account_ok a).
Proof. unfold account_ok, in_u64. apply _. Defined.
#[global] Instance ledger_ok_dec m : Decision (ledger_ok m).
Proof. unfold ledger_ok. apply _. Defined.
Lemma db0_ok : ledger_ok (Snapshot db0).
Proof. apply (bool_decide_eq_true_1 (ledger_ok _)). vm_compute. reflexivity. Qed.

Lemma ApplyTransfer_refines_witness : db_wf db0 /\
  transfer_spec "tho1foundation" (Snapshot db0) "tho1alice" "tho1alice" 100 7 1 =
    (Ok tt, Snapshot (ApplyTransfer "tho1alice" "tho1alice" 100 7 1 db0).2).
Proof.
  split; [apply db0_wf|].
  destruct (ApplyTransfer_refines db0 "tho1alice" "tho1alice" 100 7 1 db0_wf) as (_ & E & _).
  symmetry. etransitivity; [|exact E]. f_equal.
Defined.

Lemma ApplyTransfer_conserves_witness :
  total (Snapshot (ApplyTransfer "tho1alice" "tho1bob" 100 7 1 db0).2) = 20000005.
Proof.
  destruct (ApplyTransfer_conserves db0 "tho1alice" "tho1bob" 100 7 1
    (ApplyTransfer "tho1alice" "tho1bob" 100 7 1 db0).2) as [_ E];
    [apply db0_wf|apply db0_ok|vm_compute; reflexivity|lia|lia|lia| |].
  - vm_compute. reflexivity.
  - etransitivity; [exact E|]. vm_compute. reflexivity.
Defined.

Lemma ApplyTransfer_no_replay_witness :
  (ApplyTransfer "tho1alice" "tho1bob" 100 7 1
    (ApplyTransfer "tho1alice" "tho1bob" 100 7 1 db0).2).1 = Err "bad_nonce".
Proof.
  destruct (ApplyTransfer_no_replay db0 "tho1alice" "tho1bob" 100 7 1
    (ApplyTransfer "tho1alice" "tho1bob" 100 7 1 db0).2 db0_wf) as (_ & _ & E); [|exact E].
  vm_compute. reflexivity.
Defined.

Lemma ApplyTransfer_rejected_witness :
  dom (Snapshot (ApplyTransfer "tho1eve" "tho1bob" 100 7 1 db0).2) =
    {["tho1eve"]} ∪ dom (Snapshot db0).
Proof.
  destruct (ApplyTransfer_rejected db0 "tho1eve" "tho1bob" 100 7 1 "insufficient_funds"
    (ApplyTransfer "tho1eve" "tho1bob" 100 7 1 db0).2 db0_wf) as (_ & _ & E); [|exact E].
  vm_compute. reflexivity.
Defined.

(** Without a fee receiver: an account that does not exist pays 2^64 - 1 plus a fee of 1. *)
Definition db1 : DB := (InitGenesis [("tho1alice", 20000000)] NewDB).2.
Lemma db1_wf : db_wf db1.
Proof. apply InitGenesis_wf, NewDB_wf. Qed.
Lemma db1_ok : ledger_ok (Snapshot db1).
Proof. apply (bool_decide_eq_true_1 (ledger_ok _)). vm_compute. reflexivity. Qed.
Lemma ApplyTransfer_wrap_mints_witness : exists db',
  ApplyTransfer "tho1eve" "tho1bob" (M64 - 1) 1 1 db1 = (Ok tt, db') /\
  Balance (acct (Snapshot db') "tho1bob") = M64 - 1.
Proof.
  destruct (ApplyTransfer_wrap_mints db1 "tho1eve" "tho1bob" (M64 - 1) 1 1) as (db' & E & _ & Hb);
    [apply db1_wf|unfold in_u64; lia|unfold in_u64; lia|lia|done|done|vm_compute; reflexivity
    |apply db1_ok|].
  exists db'. split; [exact E|]. etransitivity; [exact Hb|]. vm_compute. reflexivity.
Defined.

Lemma GetAccount_unknown_grows_witness :
  length (@StateRoot_leaves runtime0 (Snapshot (GetAccount "tho1eve" db0).2)) = 3%nat.
Proof.
  destruct (@GetAccount_unknown_grows runtime0 db0 "tho1eve" db0_wf) as (_ & _ & E).
  - vm_compute. reflexivity.
  - etransitivity; [exact E|]. vm_compute. reflexivity.
Defined.

Lemma StateRoot_binding_witness :
  Snapshot db0 = Snapshot db0 \/
  @collision (blake3_0.(@blake3_sum256))
    (preimages (blake3_0.(@blake3_sum256)) (@StateRoot_leaves runtime0 (Snapshot db0)))
    (preimages (blake3_0.(@blake3_sum256)) (@StateRoot_leaves runtime0 (Snapshot db0))).
Proof.
  apply (@StateRoot_binding runtime0 blake3_0 db0 db0);
    [apply db0_ok|apply db0_ok|reflexivity|reflexivity].
Defined.
