(* ===== verification/Codec.v ===== *)
(** * internal/codec: canonical CBOR without floating point.

    [gval] is what the [reflect] walk of [hasFloat] sees.  The CBOR encoder itself
    (github.com/fxamacker/cbor) is a parameter, the class [Cbor], with the two facts the
    code relies on: plain data encodes without error, and injectively.  [cbor0] is a
    concrete RFC 8949 encoder of plain data that satisfies them. *)
From S2P Require Export GoCodec Merkle.

Inductive gval :=
  | GNil
  | GBool (b : bool)
  | GNum (z : Z)                   (** any integer kind *)
  | GFloat (bits : Z)
  | GStr (s : string)
  | GBytes (b : bytes)             (** a non-nil [[]byte] *)
  | GPtr (p : option gval)         (** pointer or interface *)
  | GStruct (fs : list (string * gval))
  | GSlice (l : list gval)
  | GMap (m : list (gval * gval)).

Fixpoint hasFloat (v : gval) : bool :=
  match v with
  | GFloat _ => true
  | GPtr p => match p with None => false | Some w => hasFloat w end
  | GStruct fs => existsb (fun f => hasFloat f.2) fs
  | GSlice l => existsb hasFloat l
  | GMap m => existsb (fun kv => hasFloat kv.1 || hasFloat kv.2) m
  | _ => false
  end.

(** Plain data: what the callers of this repository encode. *)
Fixpoint plain (v : gval) : Prop :=
  match v with
  | GNil | GBool _ => True
  | GNum z => - M63 <= z < M64
  | GStr s => Z.of_nat (String.length s) < M64
  | GBytes b => Z.of_nat (length b) < M64
  | GSlice l => Z.of_nat (length l) < M64 /\ foldr (fun v P => plain v /\ P) True l
  | _ => False
  end.

Class Cbor := {
  cbor_marshal : gval -> result bytes;
  cbor_total : forall v, plain v -> exists b, cbor_marshal v = Ok b;
  cbor_inj : forall v w, plain v -> plain w -> cbor_marshal v = cbor_marshal w -> v = w
}.

Definition ErrFloatDetected : string := "float values are not allowed in canonical CBOR".
Definition EncodeCBORCanonical `{Cbor} (v : gval) : result bytes :=
  if hasFloat v then Err ErrFloatDetected else cbor_marshal v.

Lemma plain_no_float v : plain v -> hasFloat v = false.
Proof.
  revert v. fix IH 1. intros [| | | | | |p|fs|l|m]; try done. intros [_ Hl]. cbn.
  induction l as [|v l IHl]; [done|]. cbn in Hl |- *. destruct Hl as [Hv Hl].
  rewrite IH by done. by apply IHl.
Qed.
Lemma encode_plain `{Cbor} v : plain v -> exists b, EncodeCBORCanonical v = Ok b.
Proof. intros Hv. unfold EncodeCBORCanonical. rewrite plain_no_float by done. by apply cbor_total. Qed.
Lemma encode_plain_inj `{Cbor} v w : plain v -> plain w ->
  EncodeCBORCanonical v = EncodeCBORCanonical w -> v = w.
Proof.
  intros Hv Hw. unfold EncodeCBORCanonical. rewrite !plain_no_float by done. by apply cbor_inj.
Qed.

(** A Go array slice [x[:]] of a 32-byte array, and [append([]byte(nil), b...)], which is
    [nil] (encoded as null) when [b] is empty. *)
Definition g_copy (b : bytes) : gval := match b with [] => GNil | _ => GBytes b end.
Lemma g_copy_inj : Inj (=) (=) g_copy.
Proof. intros [|a b] [|c d]; cbn; congruence. Qed.

(** ** A concrete encoder *)
Definition cbor_head (major n : Z) : bytes :=
  if n <? 24 then [z2b (major * 32 + n)]
  else if n <? 256 then z2b (major * 32 + 24) :: be_bytes 1 n
  else if n <? 65536 then z2b (major * 32 + 25) :: be_bytes 2 n
  else if n <? M32 then z2b (major * 32 + 26) :: be_bytes 4 n
  else z2b (major * 32 + 27) :: be_bytes 8 n.
Definition cbor_tag (v : gval) : Z * Z :=
  match v with
  | GBool b => (7, if b then 21 else 20)
  | GNum z => if z <? 0 then (1, - z - 1) else (0, z)
  | GBytes b => (2, Z.of_nat (length b))
  | GStr s => (3, Z.of_nat (length (to_bytes s)))
  | GSlice l => (4, Z.of_nat (length l))
  | _ => (7, 22)
  end.
Fixpoint cbor_enc (v : gval) : bytes :=
  cbor_head (cbor_tag v).1 (cbor_tag v).2 ++
  match v with
  | GBytes b => b
  | GStr s => to_bytes s
  | GSlice l => concat (map cbor_enc l)
  | _ => []
  end.

Lemma be_word_app a b : be_word (a ++ b) = be_word a * 256 ^ Z.of_nat (length b) + be_word b.
Proof.
  unfold be_word. rewrite foldl_app. generalize (foldl (fun a x => a * 256 + b2z x) 0 a).
  induction b as [|x b IH] using rev_ind; intros z; [cbn; lia|].
  rewrite !foldl_app, length_app, IH. cbn [foldl length].
  rewrite Nat.add_1_r, Nat2Z.inj_succ, Z.pow_succ_r by lia. lia.
Qed.
Lemma be_bytes_length n v : length (be_bytes n v) = n.
Proof. revert v; induction n; intros v; cbn; [done|]. rewrite length_app, IHn. cbn. lia. Qed.
Lemma be_word_bytes n v : 0 <= v < 256 ^ Z.of_nat n -> be_word (be_bytes n v) = v.
Proof.
  revert v; induction n as [|n IH]; intros v Hv; [cbn in *; lia|].
  rewrite Nat2Z.inj_succ, Z.pow_succ_r in Hv by lia.
  cbn [be_bytes]. rewrite be_word_app, IH.
  - cbn [length]. change (256 ^ Z.of_nat 1) with 256. unfold be_word. cbn [foldl].
    rewrite b2z_z2b. pose proof (Z.div_mod v 256). lia.
  - split; [apply Z.div_pos; lia|]. apply Z.div_lt_upper_bound; lia.
Qed.

(** The number of argument bytes after an initial byte. *)
Definition arg_bytes (k : Z) : nat :=
  if k <? 24 then 0 else if k =? 24 then 1 else if k =? 25 then 2 else if k =? 26 then 4 else 8.
Definition dec_head (b : bytes) : option (Z * Z * bytes) :=
  match b with
  | [] => None
  | x :: r =>
      let k := b2z x mod 32 in
      let n := arg_bytes k in
      Some (b2z x / 32, if k <? 24 then k else be_word (take n r), drop n r)
  end.
Lemma dec_head_enc m n r : 0 <= m < 8 -> in_u64 n -> dec_head (cbor_head m n ++ r) = Some (m, n, r).
Proof.
  intros Hm Hn. unfold in_u64 in Hn.
  assert (Hb : forall k, 0 <= k < 32 -> b2z (z2b (m * 32 + k)) / 32 = m /\
                                  b2z (z2b (m * 32 + k)) mod 32 = k).
  { intros k Hk. rewrite b2z_z2b, (Z.mod_small (m * 32 + k)) by lia.
    split; Z.div_mod_to_equations; lia. }
  assert (Harg : forall k w, 24 <= k < 28 -> w = arg_bytes k -> n < 256 ^ Z.of_nat w ->
    dec_head ((z2b (m * 32 + k) :: be_bytes w n) ++ r) = Some (m, n, r)).
  { intros k w Hk -> Hw. cbn [app]. unfold dec_head. destruct (Hb k ltac:(lia)) as [-> ->].
    destruct (Z.ltb_spec k 24); [lia|].
    rewrite take_app_length', drop_app_length', be_word_bytes; rewrite ?be_bytes_length; done || lia. }
  unfold cbor_head. repeat match goal with |- context [if ?c then _ else _] =>
    match c with (?a <? ?b) => destruct (Z.ltb_spec a b) end end;
    [|apply Harg; [lia|reflexivity|cbn; lia]..].
  cbn [app]. unfold dec_head. destruct (Hb n ltac:(lia)) as [-> ->]. unfold arg_bytes.
  destruct (Z.ltb_spec n 24); [done|lia].
Qed.
Lemma cbor_head_inj m n r m' n' r' : 0 <= m < 8 -> 0 <= m' < 8 -> in_u64 n -> in_u64 n' ->
  cbor_head m n ++ r = cbor_head m' n' ++ r' -> m = m' /\ n = n' /\ r = r'.
Proof.
  intros Hm Hm' Hn Hn' E. apply (f_equal dec_head) in E. rewrite !dec_head_enc in E by done.
  injection E. auto.
Qed.

Lemma to_bytes_length s : length (to_bytes s) = String.length s.
Proof. unfold to_bytes. induction s; cbn; [done|]. by f_equal. Qed.
Lemma cbor_tag_ok v : plain v -> 0 <= (cbor_tag v).1 < 8 /\ in_u64 (cbor_tag v).2.
Proof.
  unfold in_u64. destruct v as [|b|z| |s|b| | |l|]; cbn; intros Hp; try done; try lia.
  - destruct b; cbn; lia.
  - destruct (Z.ltb_spec z 0); cbn; lia.
  - rewrite to_bytes_length. lia.
Qed.

(** Encodings are prefix-free. *)
Lemma cbor_enc_inj v : forall w r r', plain v -> plain w ->
  cbor_enc v ++ r = cbor_enc w ++ r' -> v = w /\ r = r'.
Proof.
  revert v. fix IH 1. intros v w r r' Hv Hw E.
  assert (H : exists bv bw, cbor_head (cbor_tag v).1 (cbor_tag v).2 ++ bv ++ r =
                       cbor_head (cbor_tag w).1 (cbor_tag w).2 ++ bw ++ r' /\
    bv = (match v with GBytes b => b | GStr s => to_bytes s
          | GSlice l => concat (map cbor_enc l) | _ => [] end) /\
    bw = (match w with GBytes b => b | GStr s => to_bytes s
          | GSlice l => concat (map cbor_enc l) | _ => [] end)).
  { do 2 eexists. split; [|split; reflexivity]. rewrite !app_assoc. by destruct v, w. }
  clear E. destruct H as (bv & bw & E & Hbv & Hbw).
  apply cbor_head_inj in E as (Em & En & E); [|by apply cbor_tag_ok..].
  destruct v as [|b|z| |s|b| | |l|], w as [|b'|z'| |s'|b'| | |l'|]; try done;
    cbn in Em, En, Hv, Hw; subst bv bw; 
    repeat match goal with x : bool |- _ => destruct x end; try done;
    try (destruct (z <? 0); discriminate); try (destruct (z' <? 0); discriminate).
  - split; [|done]. f_equal. revert Em En.
    destruct (Z.ltb_spec z 0), (Z.ltb_spec z' 0); cbn; lia.
  - apply app_inj_1 in E as [Es ->]; [|lia]. apply (inj to_bytes) in Es as ->. done.
  - apply app_inj_1 in E as [-> ->]; [|lia]. done.
  - destruct Hv as [_ Hv], Hw as [_ Hw]. apply Nat2Z.inj in En.
    enough (l = l' /\ r = r') as [-> ->] by done.
    revert l' En Hw E. induction l as [|v l IHl]; intros [|w l'] En Hw E; try done.
    cbn in Hv, Hw, E, En. destruct Hv as [Hv Hvl], Hw as [Hw Hwl].
    rewrite <- !app_assoc in E. apply IH in E as [-> E]; [|done..].
    destruct (IHl Hvl l' ltac:(congruence) Hwl E) as [-> ->]. done.
Qed.

Definition cbor0 : Cbor := {|
  cbor_marshal := fun v => Ok (cbor_enc v);
  cbor_total := fun v _ => ex_intro _ (cbor_enc v) eq_refl;
  cbor_inj := fun v w Hv Hw E => proj1 (cbor_enc_inj v w [] [] Hv Hw
    (f_equal (fun r => match r with Ok b => b ++ [] | Err _ => [] end) E))
|}.
