(* ===== verification/Stake.v ===== *)
(** * internal/stake, internal/consensus, internal/state/validators: the validator set.

    [ValSet] is a list kept in ascending public-key order; [findIndex] searches it by
    bisection and [ApplyOps] edits it.  The specification is a finite map from public
    keys to validators.  Scores are Q16.16 numbers in [0..65536]. *)
From S2P Require Export Codec.

Record Validator := mkValidator {
  PubKey : bytes; StakeMas : Z; NodeType : Z; ScoreQ : Z; Jailed : bool
}.
#[global] Instance Validator_eq_dec : EqDecision Validator.
Proof. solve_decision. Defined.
Abbreviation ValSet := (list Validator).

(** ** internal/stake/weights.go *)
Definition ScoreQ_One : Z := 65536.
Definition ScoreQ_Max : Z := 65536.
Definition NodeLight : Z := 1.
Definition NodePool : Z := 2.
Definition NodeFull : Z := 3.

Definition NormalizeNodeType (nt : Z) : Z :=
  if nt =? 0 then NodeLight
  else if nt =? 1 then NodeFull
  else if (nt =? 2) || (nt =? 3) then nt
  else NodeLight.
Definition GetNodeTypeWeight (nodeType : Z) : Z :=
  let t := NormalizeNodeType nodeType in
  if t =? NodeLight then 1000 else if t =? NodePool then 2000
  else if t =? NodeFull then 1500 else 1000.
Definition ClampScoreQ (q : Z) : Z := if ScoreQ_Max <? q then ScoreQ_Max else q.

(** [num] and [denom] are [int64]: [-num] and [100 * denom] wrap around; [Quo] truncates
    and [n.Uint64()] takes the low 64 bits of the absolute value.  A divisor that wraps
    to zero makes [Quo] panic ([None]). *)
Definition AddPointsQ (q num denom : Z) : option Z :=
  if denom =? 0 then Some q else
  let neg := num <? 0 in
  let num := if neg then i64 (- num) else num in
  let d := i64 (100 * denom) in
  if d =? 0 then None else
  let n := Z.quot (ScoreQ_One * num) d in
  let delta := u32 (u64 (Z.abs n)) in
  Some (if neg then (if q <=? delta then 0 else u32 (q - delta))
        else ClampScoreQ (u32 (q + delta))).

Definition EffectivePower (v : Validator) : Z :=
  let w := GetNodeTypeWeight (NodeType v) in
  u64 (Z.quot (StakeMas v * w * ScoreQ v) (u64 (ScoreQ_One * 1000))).

(** ** internal/consensus/participation.go and validators.ApplyEvent *)
Definition set_score (v : Validator) (q : Z) : Validator :=
  mkValidator (PubKey v) (StakeMas v) (NodeType v) q (Jailed v).
Definition add_points (v : Validator) (num denom : Z) : option Validator :=
  set_score v <$> AddPointsQ (ScoreQ v) num denom.

Definition UpdateScoreOnSuccess (v : Validator) (missCount : Z) : option (Validator * Z) :=
  (fun v => (v, 0)) <$> add_points v 10 1.
Definition UpdateScoreOnMiss (v : Validator) (missCount : Z) : option (Validator * Z) :=
  let missCount := if missCount <? M32 - 1 then u32 (missCount + 1) else missCount in
  (fun v => (v, missCount)) <$>
    (if missCount =? 1 then Some v
     else if missCount =? 2 then add_points v (-1) 2
     else if missCount =? 3 then add_points v (-2) 1
     else add_points v (-100) 1).
Definition UpdateScoreOnRefusedAsBackup (v : Validator) : option Validator := add_points v (-10) 1.
Definition UpdateEpochBonus (v : Validator) : option Validator := add_points v 1 1000.

Inductive ValidatorEvent :=
  | EventProposalSuccess | EventMissPrevote | EventMissPrecommit | EventRefusedAsBackup
  | EventOther (code : Z).
Definition ApplyEvent (v : Validator) (ev : ValidatorEvent) (missCount : Z)
    : option (Validator * Z) :=
  match ev with
  | EventProposalSuccess => UpdateScoreOnSuccess v missCount
  | EventMissPrevote | EventMissPrecommit => UpdateScoreOnMiss v missCount
  | EventRefusedAsBackup => (fun v => (v, missCount)) <$> UpdateScoreOnRefusedAsBackup v
  | EventOther _ => Some (v, missCount)
  end.
Fixpoint run_events (evs : list ValidatorEvent) (v : Validator) (missCount : Z)
    : option (Validator * Z) :=
  match evs with
  | [] => Some (v, missCount)
  | ev :: evs => '(v, m) ← ApplyEvent v ev missCount; run_events evs v m
  end.

(** ** internal/stake/types.go *)
Definition Clone (vs : ValSet) : ValSet := vs.
Definition lessByPubKey (a b : Validator) : bool :=
  match bytes_compare (PubKey a) (PubKey b) with Lt => true | _ => false end.
Definition pk_le (a b : Validator) : Prop := bytes_le (PubKey a) (PubKey b).
#[global] Instance pk_le_dec : RelDecision pk_le.
Proof. intros a b. unfold pk_le. apply _. Defined.
#[global] Instance pk_le_total : Total pk_le.
Proof. intros a b. apply bytes_le_total. Qed.
#[global] Instance pk_le_trans : Transitive pk_le.
Proof. intros a b c. apply bytes_le_trans. Qed.

Abbreviation SortFunc := GoSort.
Definition sort_func `{SortFunc} : list Validator -> list Validator := sort_slice pk_le.
Lemma sort_func_perm `{SortFunc} l : sort_func l ≡ₚ l.
Proof. apply sort_slice_perm. Qed.
Lemma sort_func_sorted `{SortFunc} l : Sorted pk_le (sort_func l).
Proof. apply sort_slice_sorted. apply _. Qed.
Definition SortPubKeyAsc `{SortFunc} (vs : ValSet) : ValSet := sort_func vs.
Definition SortValidators `{SortFunc} (vals : list Validator) : list Validator := sort_func vals.

(** The bisection loop; [fuel] bounds the iterations ([findIndex_fuel] shows that
    [hi - lo] is enough). *)
Fixpoint findIndex_loop (fuel : nat) (vs : ValSet) (pk : bytes) (lo hi : nat) : nat * bool :=
  if (lo <? hi)%nat then
    match fuel with
    | O => (lo, false)
    | S fuel =>
        let m := Nat.div2 (lo + hi) in
        match bytes_compare (from_option PubKey [] (vs !! m)) pk with
        | Eq => (m, true)
        | Lt => findIndex_loop fuel vs pk (m + 1) hi
        | Gt => findIndex_loop fuel vs pk lo m
        end
    end
  else (lo, false).
Definition findIndex (vs : ValSet) (pk : bytes) : nat * bool :=
  findIndex_loop (length vs) vs pk 0 (length vs).

(** ** internal/stake/ops.go *)
Definition OpAdd : Z := 0.
Definition OpUpdate : Z := 1.
Definition OpRemove : Z := 2.
Record Op := mkOp {
  op_Type : Z; op_PubKey : bytes; op_StakeMas : option Z; op_NodeType : option Z;
  op_ScoreQ : option Z; op_Jailed : option bool
}.
Definition set_fields (op : Op) (v : Validator) : Validator :=
  mkValidator (PubKey v)
    (default (StakeMas v) (op_StakeMas op))
    (from_option NormalizeNodeType (NodeType v) (op_NodeType op))
    (from_option ClampScoreQ (ScoreQ v) (op_ScoreQ op))
    (default (Jailed v) (op_Jailed op)).
Definition fresh (pk : bytes) : Validator := mkValidator pk 0 NodeLight ScoreQ_Max false.

Definition apply_op (out : ValSet) (op : Op) : ValSet :=
  if op_Type op =? OpAdd then
    let '(pos, ok) := findIndex out (op_PubKey op) in
    if ok : bool then alter (set_fields op) pos out
    else out ++ [set_fields op (fresh (op_PubKey op))]
  else if op_Type op =? OpUpdate then
    let '(pos, ok) := findIndex out (op_PubKey op) in
    if negb ok then out else alter (set_fields op) pos out
  else if op_Type op =? OpRemove then
    let '(pos, ok) := findIndex out (op_PubKey op) in
    if ok : bool then take pos out ++ drop (pos + 1) out else out
  else out.
Definition ApplyOps `{SortFunc} (vs : ValSet) (ops : list Op) : ValSet :=
  SortPubKeyAsc (foldl apply_op (Clone vs) ops).

(** ** internal/stake/root.go *)
Definition leaf_entry (v : Validator) : gval :=
  GSlice [GBytes (PubKey v); GNum (StakeMas v); GNum (NormalizeNodeType (NodeType v));
          GNum (ScoreQ v); GBool (Jailed v)].
Definition leafFor `{Blake3, Cbor} (v : Validator) : bytes :=
  blake3_sum256 (match EncodeCBORCanonical (leaf_entry v) with Ok b => b | Err _ => [] end).
Definition node_entry (l r : bytes) : gval := GSlice [GBytes l; GBytes r].
Definition node_hash `{Blake3, Cbor} (l r : bytes) : bytes :=
  blake3_sum256 (match EncodeCBORCanonical (node_entry l r) with Ok b => b | Err _ => [] end).
Fixpoint next_level `{Blake3, Cbor} (level : list bytes) : list bytes :=
  match level with
  | l :: r :: rest => node_hash l r :: next_level rest
  | [l] => [node_hash l l]
  | [] => []
  end.
Fixpoint root_loop `{Blake3, Cbor} (fuel : nat) (level : list bytes) : option bytes :=
  match level with
  | [] => None
  | [x] => Some x
  | _ => match fuel with O => None | S fuel => root_loop fuel (next_level level) end
  end.
Definition zero32 : bytes := replicate 32 (z2b 0).
Definition merkleRoot `{Blake3, Cbor} (leaves : list bytes) : bytes :=
  if bool_decide (leaves = []) then zero32 else default [] (root_loop (length leaves) leaves).
Definition ComputeValidatorsRoot `{SortFunc, Blake3, Cbor} (vals : list Validator) : bytes :=
  merkleRoot (leafFor <$> SortValidators vals).
Definition DeterministicHash `{SortFunc, Blake3, Cbor} (vs : ValSet) : bytes :=
  let cp := SortPubKeyAsc (Clone vs) in
  blake3_sum256 (match EncodeCBORCanonical (GSlice ((fun v => GBytes (PubKey v)) <$> cp)) with
                 | Ok b => b | Err _ => [] end).

(** ** internal/state/validators/stub_nolegacy.go *)
Record ScoreRecord := mkScoreRecord { Address : string }.
Inductive root_arg :=
  | ArgValSet (vs : ValSet) | ArgSlice (vs : list Validator)
  | ArgRecords (rs : list ScoreRecord) | ArgOther.
Definition validators_ComputeValidatorsRoot `{SortFunc, Blake3, Cbor} (x : root_arg) : bytes :=
  match x with
  | ArgValSet v | ArgSlice v => ComputeValidatorsRoot v
  | ArgRecords _ | ArgOther => zero32
  end.
Definition ValidatorsRootFromSlice `{SortFunc, Blake3, Cbor} (vals : list Validator) : bytes :=
  ComputeValidatorsRoot vals.
Definition ValidatorsRootFromSet `{SortFunc, Blake3, Cbor} (vs : ValSet) : bytes :=
  ComputeValidatorsRoot vs.
Definition NextValidatorsRoot `{SortFunc, Blake3, Cbor} (vs : ValSet) (ops : list Op) : bytes :=
  ComputeValidatorsRoot (ApplyOps vs ops).

(** ** Scores *)
Definition score_ok (q : Z) : Prop := 0 <= q <= ScoreQ_Max.
Definition clamp_score (q : Z) : Z := Z.max 0 (Z.min ScoreQ_Max q).

(** The range in which no intermediate value of [AddPointsQ] wraps around. *)
Definition points_ok (num denom : Z) : Prop :=
  0 < denom /\ 100 * denom < M63 /\ Z.abs num < M32 /\
  Z.quot (ScoreQ_One * Z.abs num) (100 * denom) < M32 - ScoreQ_Max.

Lemma AddPointsQ_spec q num denom : score_ok q -> points_ok num denom ->
  AddPointsQ q num denom = Some (clamp_score (q + Z.quot (ScoreQ_One * num) (100 * denom))).
Proof.
  unfold score_ok, points_ok, AddPointsQ, clamp_score, ClampScoreQ, ScoreQ_Max, ScoreQ_One.
  intros Hq (Hd & Hd100 & Hn & Hdelta).
  destruct (Z.eqb_spec denom 0); [lia|].
  rewrite (i64_small (100 * denom)) by (unfold in_i64; lia).
  destruct (Z.eqb_spec (100 * denom) 0); [lia|].
  assert (Hquot : 0 <= Z.quot (65536 * Z.abs num) (100 * denom)) by (apply Z.quot_pos; lia).
  destruct (Z.ltb_spec num 0) as [Hneg|Hpos].
  - rewrite i64_small by (unfold in_i64; lia). rewrite Z.abs_neq in * by lia.
    replace (65536 * num) with (- (65536 * - num)) by lia. rewrite Z.quot_opp_l by lia.
    set (d := Z.quot _ _) in *. rewrite (Z.abs_eq d), (u64_small d), (u32_small d) by (unfold in_u64, in_u32; lia).
    f_equal. destruct (Z.leb_spec q d); [lia|]. rewrite u32_small by (unfold in_u32; lia). lia.
  - rewrite (Z.abs_eq num) in * by lia. set (d := Z.quot _ _) in *.
    rewrite (Z.abs_eq d), (u64_small d), (u32_small d), u32_small by (unfold in_u64, in_u32; lia).
    f_equal. destruct (Z.ltb_spec 65536 (q + d)); lia.
Qed.

Lemma clamp_score_ok q : score_ok (clamp_score q).
Proof. unfold score_ok, clamp_score, ScoreQ_Max. lia. Qed.

Definition same_identity (v v' : Validator) : Prop :=
  PubKey v' = PubKey v /\ StakeMas v' = StakeMas v /\ NodeType v' = NodeType v /\ Jailed v' = Jailed v.
Lemma add_points_spec v num denom : score_ok (ScoreQ v) -> points_ok num denom ->
  add_points v num denom =
    Some (set_score v (clamp_score (ScoreQ v + Z.quot (ScoreQ_One * num) (100 * denom)))).
Proof. intros Hv Hp. unfold add_points. by rewrite AddPointsQ_spec. Qed.

(** The score change of one event, given the number of misses before it. *)
Definition event_points (ev : ValidatorEvent) (misses : Z) : Z :=
  match ev with
  | EventProposalSuccess => 6553           (* +10 points *)
  | EventMissPrevote | EventMissPrecommit =>
      if misses =? 0 then 0 else if misses =? 1 then -327 else if misses =? 2 then -1310
      else -65536
  | EventRefusedAsBackup => -6553
  | EventOther _ => 0
  end.
Definition event_misses (ev : ValidatorEvent) (misses : Z) : Z :=
  match ev with
  | EventProposalSuccess => 0
  | EventMissPrevote | EventMissPrecommit => Z.min (misses + 1) (M32 - 1)
  | _ => misses
  end.

Lemma clamp_id q : score_ok q -> clamp_score q = q.
Proof. unfold score_ok, clamp_score. lia. Qed.
Lemma set_score_id v : set_score v (ScoreQ v) = v.
Proof. by destruct v. Qed.

Ltac points_tac :=
  rewrite add_points_spec by (done || (unfold points_ok; repeat split; vm_compute; congruence || done)).

Lemma ApplyEvent_spec v ev misses : score_ok (ScoreQ v) -> in_u32 misses ->
  ApplyEvent v ev misses =
    Some (set_score v (clamp_score (ScoreQ v + event_points ev misses)), event_misses ev misses).
Proof.
  intros Hv Hm. unfold in_u32 in Hm.
  assert (Hmiss : UpdateScoreOnMiss v misses =
    Some (set_score v (clamp_score (ScoreQ v + event_points EventMissPrevote misses)),
          event_misses EventMissPrevote misses)).
  { unfold UpdateScoreOnMiss, event_misses, event_points.
    assert ((if misses <? M32 - 1 then u32 (misses + 1) else misses) = Z.min (misses + 1) (M32 - 1)) as ->.
    { destruct (Z.ltb_spec misses (M32 - 1)); [rewrite u32_small by (unfold in_u32; lia)|]; lia. }
    destruct (Z.eqb_spec misses 0) as [->|H0].
    { cbn [Z.eqb]. change (Z.min (0 + 1) (M32 - 1)) with 1. cbn.
      by rewrite Z.add_0_r, clamp_id, set_score_id. }
    destruct (Z.eqb_spec (Z.min (misses + 1) (M32 - 1)) 1); [lia|].
    destruct (Z.eqb_spec misses 1) as [->|H1].
    { change (Z.min (1 + 1) (M32 - 1)) with 2. cbn [Z.eqb Pos.eqb]. by points_tac. }
    destruct (Z.eqb_spec (Z.min (misses + 1) (M32 - 1)) 2); [lia|].
    destruct (Z.eqb_spec misses 2) as [->|H2].
    { change (Z.min (2 + 1) (M32 - 1)) with 3. cbn [Z.eqb Pos.eqb]. by points_tac. }
    destruct (Z.eqb_spec (Z.min (misses + 1) (M32 - 1)) 3); [lia|]. by points_tac. }
  destruct ev; cbn [ApplyEvent]; try exact Hmiss.
  - unfold UpdateScoreOnSuccess. by points_tac.
  - unfold UpdateScoreOnRefusedAsBackup. by points_tac.
  - cbn. by rewrite Z.add_0_r, clamp_id, set_score_id.
Qed.

Lemma event_misses_range ev misses : in_u32 misses -> in_u32 (event_misses ev misses).
Proof. unfold in_u32. destruct ev; cbn; lia. Qed.

Lemma run_events_app evs1 evs2 v m :
  run_events (evs1 ++ evs2) v m = '(v', m') ← run_events evs1 v m; run_events evs2 v' m'.
Proof.
  revert v m; induction evs1 as [|ev evs IH]; intros v m; [done|].
  cbn. destruct (ApplyEvent v ev m) as [[v' m']|]; [apply IH|done].
Qed.

Definition is_miss (ev : ValidatorEvent) : Prop := ev = EventMissPrevote \/ ev = EventMissPrecommit.

Lemma run_events_misses evs v misses : Forall is_miss evs -> score_ok (ScoreQ v) -> in_u32 misses ->
  3 <= misses -> evs <> [] -> exists v' m', run_events evs v misses = Some (v', m') /\ ScoreQ v' = 0.
Proof.
  intros Hev. revert v misses; induction Hev as [|ev evs Hm Hev IH]; intros v misses Hv Hr H3 Hne; [done|].
  cbn [run_events]. rewrite ApplyEvent_spec by done. cbn.
  assert (Hp : event_points ev misses = -65536 /\ event_misses ev misses = Z.min (misses + 1) (M32 - 1)).
  { destruct Hm as [-> | ->]; unfold event_points, event_misses; bool_cases; lia. }
  destruct Hp as [-> ->].
  assert (H0 : clamp_score (ScoreQ v + -65536) = 0)
    by (unfold clamp_score, score_ok, ScoreQ_Max in *; lia).
  rewrite H0. destruct evs as [|ev' evs]; [cbn; eauto|].
  apply IH; cbn; unfold score_ok, ScoreQ_Max, in_u32 in *; done || lia.
Qed.

(** ** Bisection *)
Definition pk_at (vs : ValSet) (i : nat) : bytes := from_option PubKey [] (vs !! i).
(** Ascending public keys without repetition, as the code keeps them. *)
Definition pk_lt (a b : Validator) : Prop := bytes_lt (PubKey a) (PubKey b).
Definition vs_ok (vs : ValSet) : Prop := StronglySorted pk_lt vs.

Lemma vs_ok_lookup vs i j a b : vs_ok vs -> (i < j)%nat ->
  vs !! i = Some a -> vs !! j = Some b -> pk_lt a b.
Proof.
  intros Hs. revert i j; induction Hs as [|x vs Hs IH Hx]; intros i j Hij Ha Hb; [done|].
  destruct i as [|i], j as [|j]; try lia; cbn in Ha, Hb.
  - injection Ha as <-. rewrite Forall_forall in Hx. apply Hx. by eapply list_elem_of_lookup_2.
  - apply (IH i j); [lia|done|done].
Qed.

(** More fuel than [hi - lo] changes nothing: the loop has ended by itself. *)
Lemma findIndex_fuel vs pk f1 f2 lo hi :
  (hi - lo <= f1)%nat -> (hi - lo <= f2)%nat ->
  findIndex_loop f1 vs pk lo hi = findIndex_loop f2 vs pk lo hi.
Proof.
  revert f2 lo hi; induction f1 as [|f1 IH]; intros [|f2] lo hi H1 H2; cbn [findIndex_loop];
    destruct (Nat.ltb_spec lo hi); try lia; try done.
  rewrite Nat.div2_div. set (m := ((lo + hi) / 2)%nat).
  assert (Hm : (lo <= m < hi)%nat).
  { subst m. split; [apply Nat.div_le_lower_bound; lia|apply Nat.div_lt_upper_bound; lia]. }
  destruct (bytes_compare _ pk); [done|apply IH; lia|apply IH; lia].
Qed.

Lemma findIndex_loop_spec vs pk fuel lo hi :
  vs_ok vs -> (hi - lo <= fuel)%nat -> (lo <= hi <= length vs)%nat ->
  (forall i a, vs !! i = Some a -> (i < lo)%nat -> bytes_lt (PubKey a) pk) ->
  (forall i a, vs !! i = Some a -> (hi <= i)%nat -> bytes_lt pk (PubKey a)) ->
  match findIndex_loop fuel vs pk lo hi with
  | (i, true) => exists a, vs !! i = Some a /\ PubKey a = pk
  | (i, false) => (i <= length vs)%nat /\
      (forall j a, vs !! j = Some a -> (j < i)%nat -> bytes_lt (PubKey a) pk) /\
      (forall j a, vs !! j = Some a -> (i <= j)%nat -> bytes_lt pk (PubKey a))
  end.
Proof.
  intros Hs. revert lo hi; induction fuel as [|fuel IH]; intros lo hi Hf Hr Hlo Hhi;
    cbn [findIndex_loop]; destruct (Nat.ltb_spec lo hi); try lia;
    try (assert (lo = hi) as <- by lia; auto with lia).
  rewrite Nat.div2_div. set (m := ((lo + hi) / 2)%nat).
  assert (Hm : (lo <= m < hi)%nat).
  { subst m. split; [apply Nat.div_le_lower_bound; lia|apply Nat.div_lt_upper_bound; lia]. }
  destruct (lookup_lt_is_Some_2 vs m ltac:(lia)) as [a Ha]. rewrite Ha. cbn [from_option].
  destruct (bytes_compare (PubKey a) pk) eqn:Ec.
  - exists a. split; [done|]. by apply bytes_compare_eq.
  - apply IH; [lia|lia| |done]. intros i b Hb Hi.
    destruct (decide (i = m)) as [->|Hne]; [rewrite Ha in Hb; by injection Hb as <-|].
    eapply bytes_compare_lt_trans; [|exact Ec]. apply (vs_ok_lookup vs i m b a); [done|lia|done..].
  - assert (Hgt : bytes_lt pk (PubKey a))
      by (unfold bytes_lt; rewrite bytes_compare_antisym, Ec; done).
    apply IH; [lia|lia|done|]. intros i b Hb Hi.
    destruct (decide (i = m)) as [->|Hne]; [rewrite Ha in Hb; by injection Hb as <-|].
    eapply bytes_compare_lt_trans; [exact Hgt|]. apply (vs_ok_lookup vs m i a b); [done|lia|done..].
Qed.
Lemma findIndex_spec vs pk : vs_ok vs ->
  match findIndex vs pk with
  | (i, true) => exists a, vs !! i = Some a /\ PubKey a = pk
  | (i, false) => (i <= length vs)%nat /\
      (forall j a, vs !! j = Some a -> (j < i)%nat -> bytes_lt (PubKey a) pk) /\
      (forall j a, vs !! j = Some a -> (i <= j)%nat -> bytes_lt pk (PubKey a))
  end.
Proof.
  intros Hs. apply findIndex_loop_spec; [done|lia|lia|lia|].
  intros i a Hi%lookup_lt_Some. lia.
Qed.

(** ** The validator set as a finite map *)
#[global] Instance byte_countable : Countable Byte.byte :=
  inj_countable Byte.to_N Byte.of_N Byte.of_to_N.
Definition as_map (vs : ValSet) : gmap bytes Validator :=
  list_to_map ((fun v => (PubKey v, v)) <$> vs).
Definition apply_op_map (m : gmap bytes Validator) (op : Op) : gmap bytes Validator :=
  let pk := op_PubKey op in
  if op_Type op =? OpAdd then <[pk := set_fields op (default (fresh pk) (m !! pk))]> m
  else if op_Type op =? OpUpdate then alter (set_fields op) pk m
  else if op_Type op =? OpRemove then delete pk m
  else m.
Definition keys_ok (vs : ValSet) : Prop := NoDup (PubKey <$> vs).

Lemma pk_lt_irrefl a : ~ pk_lt a a.
Proof. unfold pk_lt, bytes_lt. rewrite (proj2 (bytes_compare_eq _ _)); done. Qed.
Lemma pk_lt_asym a b : pk_lt a b -> pk_lt b a -> False.
Proof. unfold pk_lt, bytes_lt. rewrite (bytes_compare_antisym (PubKey a)). by destruct (bytes_compare _ _). Qed.
#[global] Instance pk_lt_antisymm : AntiSymm (=) pk_lt.
Proof. intros a b H1 H2. by destruct (pk_lt_asym a b). Qed.

Lemma vs_ok_keys vs : vs_ok vs -> keys_ok vs.
Proof.
  induction 1 as [|x vs Hs IH Hx]; [constructor|]. cbn. constructor; [|done].
  intros (y & Ey & Hy)%list_elem_of_fmap. rewrite Forall_forall in Hx.
  apply Hx in Hy. unfold pk_lt, bytes_lt in Hy. rewrite <- Ey in Hy.
  by rewrite (proj2 (bytes_compare_eq _ _)) in Hy.
Qed.
Lemma vs_ok_fmap vs : vs_ok vs <-> StronglySorted bytes_lt (PubKey <$> vs).
Proof.
  split.
  - induction 1 as [|x vs Hs IH Hx]; cbn; constructor; [done|]. by apply Forall_fmap.
  - induction vs as [|x vs IH]; intros Hs; [constructor|].
    rewrite fmap_cons in Hs. apply StronglySorted_inv in Hs as [Hs Hx].
    constructor; [by apply IH|]. exact (proj1 (Forall_fmap PubKey _ _) Hx).
Qed.
Lemma StronglySorted_drop {A} (R : A -> A -> Prop) l1 x l2 :
  StronglySorted R (l1 ++ x :: l2) -> StronglySorted R (l1 ++ l2).
Proof.
  induction l1 as [|y l1 IH]; intros Hs; apply StronglySorted_inv in Hs as [Hs Hx];
    [done|]. cbn. constructor; [by apply IH|].
  apply Forall_app in Hx as [? [? ?]%Forall_cons_1]. by apply Forall_app.
Qed.
(** A set is determined by its keys' order and its elements. *)
Lemma vs_ok_unique vs1 vs2 : vs_ok vs1 -> vs_ok vs2 -> vs1 ≡ₚ vs2 -> vs1 = vs2.
Proof. apply StronglySorted_unique. apply _. Qed.

Lemma sort_ok `{SortFunc} l : keys_ok l -> vs_ok (sort_func l).
Proof.
  intros Hk. pose proof (sort_func_sorted l) as Hs.
  apply Sorted_StronglySorted in Hs; [|apply _].
  assert (Hk' : keys_ok (sort_func l)) by (unfold keys_ok; by rewrite sort_func_perm).
  induction Hs as [|x l' Hs IH Hx]; [constructor|].
  cbn in Hk'. apply NoDup_cons in Hk' as [Hnin Hk'].
  constructor; [by apply IH|]. rewrite Forall_forall in *. intros y Hy.
  specialize (Hx y Hy). unfold pk_le, bytes_le in Hx. unfold pk_lt, bytes_lt.
  destruct (bytes_compare (PubKey x) (PubKey y)) eqn:E; [|done..].
  apply bytes_compare_eq in E. exfalso. apply Hnin. rewrite E. by apply list_elem_of_fmap_2.
Qed.

Lemma as_map_keys vs : ((fun v => (PubKey v, v)) <$> vs).*1 = PubKey <$> vs.
Proof. rewrite <- list_fmap_compose. done. Qed.
Lemma as_map_perm vs1 vs2 : keys_ok vs1 -> vs1 ≡ₚ vs2 -> as_map vs1 = as_map vs2.
Proof. intros Hk Hp. apply list_to_map_proper; [by rewrite as_map_keys|by rewrite Hp]. Qed.
Lemma as_map_none vs pk : as_map vs !! pk = None <-> pk ∉ PubKey <$> vs.
Proof. unfold as_map. rewrite <- as_map_keys. symmetry. apply not_elem_of_list_to_map. Qed.

(** Focus on one validator of a set with distinct keys. *)
Lemma as_map_focus l1 a l2 : keys_ok (l1 ++ a :: l2) ->
  as_map (l1 ++ a :: l2) = <[PubKey a := a]> (as_map (l1 ++ l2)) /\
  as_map (l1 ++ l2) !! PubKey a = None.
Proof.
  intros Hk. split.
  - rewrite (as_map_perm _ (a :: l1 ++ l2)); [done|done|]. by rewrite Permutation_middle.
  - apply as_map_none. unfold keys_ok in Hk. rewrite fmap_app, fmap_cons in Hk.
    rewrite fmap_app. apply NoDup_app in Hk as (_ & H1 & [H2 _]%NoDup_cons).
    set_solver.
Qed.
Lemma set_fields_key op v : PubKey (set_fields op v) = PubKey v.
Proof. done. Qed.
Lemma alter_mid {A} (f : A -> A) l1 a l2 : alter f (length l1) (l1 ++ a :: l2) = l1 ++ f a :: l2.
Proof. induction l1; cbn; by f_equal. Qed.

(** The part of [apply_op] that edits an existing validator. *)
Lemma alter_refines op vs pos a : vs_ok vs -> vs !! pos = Some a ->
  vs_ok (alter (set_fields op) pos vs) /\
  as_map (alter (set_fields op) pos vs) = alter (set_fields op) (PubKey a) (as_map vs) /\
  as_map vs !! PubKey a = Some a.
Proof.
  intros Hs (l1 & l2 & -> & ->)%list_elem_of_split_length. rewrite alter_mid.
  assert (Hk : PubKey <$> l1 ++ set_fields op a :: l2 = PubKey <$> l1 ++ a :: l2)
    by by rewrite !fmap_app, !fmap_cons.
  assert (Hs' : vs_ok (l1 ++ set_fields op a :: l2)) by (apply vs_ok_fmap; rewrite Hk; by apply vs_ok_fmap).
  destruct (as_map_focus l1 a l2 (vs_ok_keys _ Hs)) as [-> _].
  destruct (as_map_focus l1 (set_fields op a) l2 (vs_ok_keys _ Hs')) as [-> _].
  rewrite set_fields_key, alter_insert_eq, lookup_insert_eq. done.
Qed.

Lemma alter_as_insert `{Countable K} {A} (f : A -> A) (m : gmap K A) k x :
  m !! k = Some x -> alter f k m = <[k := f x]> m.
Proof.
  intros Hk. apply map_eq. intros j. destruct (decide (k = j)) as [<-|Hne].
  - by rewrite lookup_alter_eq, lookup_insert_eq, Hk.
  - by rewrite lookup_alter_ne, lookup_insert_ne.
Qed.
Lemma remove_refines vs pos a : vs_ok vs -> vs !! pos = Some a ->
  vs_ok (take pos vs ++ drop (pos + 1) vs) /\
  as_map (take pos vs ++ drop (pos + 1) vs) = delete (PubKey a) (as_map vs).
Proof.
  intros Hs (l1 & l2 & -> & ->)%list_elem_of_split_length.
  assert (Hd : drop (length l1 + 1) (l1 ++ a :: l2) = l2).
  { rewrite drop_app_ge by lia. by replace (length l1 + 1 - length l1)%nat with 1%nat by lia. }
  rewrite take_app_length, Hd.
  destruct (as_map_focus l1 a l2 (vs_ok_keys _ Hs)) as [-> Hn].
  rewrite delete_insert_id by done. split; [by eapply StronglySorted_drop|done].
Qed.
Lemma found_or_absent vs pk : vs_ok vs ->
  let '(i, ok) := findIndex vs pk in
  if ok then exists a, vs !! i = Some a /\ PubKey a = pk else as_map vs !! pk = None.
Proof.
  intros Hs. pose proof (findIndex_spec vs pk Hs) as Hf. destruct (findIndex vs pk) as [i []]; [done|].
  apply as_map_none. intros (a & -> & Ha)%list_elem_of_fmap.
  apply list_elem_of_lookup in Ha as [j Hj]. destruct Hf as (_ & Hlo & Hhi).
  destruct (decide (j < i)%nat) as [Hlt|Hge].
  - exact (pk_lt_irrefl a (Hlo j a Hj Hlt)).
  - exact (pk_lt_irrefl a (Hhi j a Hj ltac:(lia))).
Qed.

(** An addition of a key that is not in the set. *)
Definition adds_new (m : gmap bytes Validator) (op : Op) : Prop :=
  op_Type op = OpAdd /\ m !! op_PubKey op = None.

Lemma apply_op_refines vs op : vs_ok vs ->
  keys_ok (apply_op vs op) /\ as_map (apply_op vs op) = apply_op_map (as_map vs) op /\
  (~ adds_new (as_map vs) op -> vs_ok (apply_op vs op)).
Proof.
  intros Hs. unfold apply_op, apply_op_map.
  pose proof (found_or_absent vs (op_PubKey op) Hs) as Hf.
  destruct (findIndex vs (op_PubKey op)) as [pos ok].
  destruct (Z.eqb_spec (op_Type op) OpAdd) as [Hadd|_]; [|destruct (_ =? OpUpdate); [|destruct (_ =? OpRemove)]].
  - destruct ok.
    + destruct Hf as (a & Ha & <-). destruct (alter_refines op vs pos a Hs Ha) as (H1 & H2 & H3).
      split; [by apply vs_ok_keys|]. split; [|done]. rewrite H2, H3. cbn [default from_option].
      by apply alter_as_insert.
    + rewrite Hf. cbn [default from_option].
      assert (Hk : keys_ok (vs ++ [set_fields op (fresh (op_PubKey op))])).
      { unfold keys_ok. rewrite fmap_app. apply NoDup_app. split; [by apply vs_ok_keys|].
        split; [|apply NoDup_singleton]. intros k Hk. apply as_map_none in Hf. set_solver. }
      split; [done|]. split; [|intros Hn; exfalso; by apply Hn].
      destruct (as_map_focus _ _ [] Hk) as [-> _]. rewrite app_nil_r. done.
  - destruct ok; cbn [negb].
    + destruct Hf as (a & Ha & <-). destruct (alter_refines op vs pos a Hs Ha) as (H1 & H2 & H3).
      split; [by apply vs_ok_keys|]. done.
    + split; [by apply vs_ok_keys|]. split; [|done]. symmetry. apply alter_id. intros x Hx. congruence.
  - destruct ok.
    + destruct Hf as (a & Ha & <-). destruct (remove_refines vs pos a Hs Ha) as [H1 H2].
      split; [by apply vs_ok_keys|]. done.
    + split; [by apply vs_ok_keys|]. split; [|done]. symmetry. by apply delete_id.
  - split; [by apply vs_ok_keys|]. done.
Qed.

(** A batch in which only the last operation may add a new key. *)
Fixpoint adds_last (m : gmap bytes Validator) (ops : list Op) : Prop :=
  match ops with
  | [] | [_] => True
  | op :: rest => ~ adds_new m op /\ adds_last (apply_op_map m op) rest
  end.
Lemma fold_refines vs ops : vs_ok vs -> adds_last (as_map vs) ops ->
  keys_ok (foldl apply_op vs ops) /\
  as_map (foldl apply_op vs ops) = foldl apply_op_map (as_map vs) ops.
Proof.
  revert vs; induction ops as [|op ops IH]; intros vs Hs Hl.
  { split; [by apply vs_ok_keys|done]. }
  destruct (apply_op_refines vs op Hs) as (Hk & Hm & Ho). destruct ops as [|op' ops]; [done|].
  destruct Hl as [Hn Hl]. cbn [foldl]. cbn [foldl] in IH. rewrite <- Hm in Hl.
  destruct (IH (apply_op vs op) (Ho Hn) Hl) as [Hk' Hm']. by rewrite Hm', Hm.
Qed.

Lemma sorted_perm_unique (S1 S2 : SortFunc) l1 l2 : keys_ok l1 -> l1 ≡ₚ l2 ->
  @sort_func S1 l1 = @sort_func S2 l2.
Proof.
  intros Hk Hp. apply vs_ok_unique.
  - by apply sort_ok.
  - apply sort_ok. unfold keys_ok. by rewrite <- Hp.
  - by rewrite !sort_func_perm.
Qed.

Lemma next_level_length `{Blake3, Cbor} level :
  length (next_level level) = Nat.div2 (S (length level)).
Proof.
  remember (length level) as n eqn:Hn. revert level Hn.
  induction (lt_wf n) as [n _ IH]; intros [|a [|b l]] ->; [done..|].
  cbn [next_level length Nat.div2]. f_equal. apply (IH (length l)); simpl; lia.
Qed.
Lemma root_loop_total `{Blake3, Cbor} fuel level : level <> [] -> (length level <= fuel)%nat ->
  exists r, root_loop fuel level = Some r.
Proof.
  revert level; induction fuel as [|fuel IH]; intros [|a [|b l]] Hne Hl; simpl in Hl; try done;
    try lia; try (by exists a).
  cbn [root_loop]. apply IH; [done|]. rewrite next_level_length, Nat.div2_div.
  cbn [length]. apply Nat.lt_succ_r, Nat.div_lt_upper_bound; lia.
Qed.

(** ** Properties *)

(** C31: every sequence of validator events succeeds, keeps the Q16.16 score within
    [0..65536], touches no other field of the validator, and tracks the number of
    consecutive misses, from any valid starting score. *)
Theorem run_events_invariant (evs : list ValidatorEvent) (v : Validator) (misses : Z) :
  score_ok (ScoreQ v) -> in_u32 misses ->
  exists q, run_events evs v misses = Some (set_score v q, foldl (fun m ev => event_misses ev m) misses evs) /\
    score_ok q.
Proof.
  revert v misses; induction evs as [|ev evs IH]; intros v misses Hv Hm.
  { exists (ScoreQ v). by rewrite set_score_id. }
  cbn [run_events foldl]. rewrite ApplyEvent_spec by done. cbn [mbind option_bind].
  destruct (IH (set_score v (clamp_score (ScoreQ v + event_points ev misses)))
    (event_misses ev misses)) as (q & -> & Hq); [apply clamp_score_ok|by apply event_misses_range|].
  by exists q.
Qed.

(** four or more misses in a row zero the score, whatever it was. *)
Theorem four_misses_zero (evs : list ValidatorEvent) (v : Validator) :
  Forall is_miss evs -> (4 <= length evs)%nat -> score_ok (ScoreQ v) ->
  exists v' m', run_events evs v 0 = Some (v', m') /\ ScoreQ v' = 0.
Proof.
  intros Hev Hlen Hv.
  rewrite <- (take_drop 3 evs), run_events_app in *. apply Forall_app in Hev as [Hev1 Hev2].
  destruct (run_events_invariant (take 3 evs) v 0) as (q & -> & Hq); [done|unfold in_u32; lia|].
  cbn [mbind option_bind]. apply run_events_misses; [done|done| | |].
  - destruct evs as [|? [|? [|? evs]]]; cbn in Hlen; try lia. cbn in *.
    repeat (apply Forall_cons_1 in Hev1 as [? Hev1]). unfold is_miss in *.
    destruct_or?; subst; vm_compute; intuition congruence.
  - destruct evs as [|? [|? [|? evs]]]; cbn in Hlen; try lia. cbn in *.
    repeat (apply Forall_cons_1 in Hev1 as [? Hev1]). unfold is_miss in *.
    destruct_or?; subst; vm_compute; congruence.
  - intros Hnil. apply (f_equal length) in Hnil. rewrite length_drop in Hnil. cbn in Hnil.
    rewrite length_app, length_take, length_drop in Hlen. lia.
Qed.

(** bisection: on a set in strictly ascending key order [findIndex] finds the
    validator with the key if there is one, and otherwise the position at which it
    would have to be inserted. *)
Theorem findIndex_correct (vs : ValSet) (pk : bytes) : vs_ok vs ->
  match findIndex vs pk with
  | (i, true) => exists a, vs !! i = Some a /\ PubKey a = pk
  | (i, false) => (i <= length vs)%nat /\ pk ∉ PubKey <$> vs /\
      (forall j a, vs !! j = Some a -> if decide (j < i)%nat then bytes_lt (PubKey a) pk
                                else bytes_lt pk (PubKey a))
  end.
Proof.
  intros Hs. pose proof (findIndex_spec vs pk Hs) as H1. pose proof (found_or_absent vs pk Hs) as H2.
  destruct (findIndex vs pk) as [i []]; [done|]. destruct H1 as (Hle & Hlo & Hhi).
  split; [done|]. split; [by apply as_map_none|]. intros j a Hj. case_decide; eauto with lia.
Qed.

(** C32: refinement: a batch of operations in which only the last may add a new key acts
    on the set as the corresponding map updates act on the map from keys to
    validators, and the result is in strictly ascending key order. *)
Theorem ApplyOps_refines `{SortFunc} (vs : ValSet) (ops : list Op) :
  vs_ok vs -> adds_last (as_map vs) ops ->
  vs_ok (ApplyOps vs ops) /\ as_map (ApplyOps vs ops) = foldl apply_op_map (as_map vs) ops.
Proof.
  intros Hs Hl. destruct (fold_refines vs ops Hs Hl) as [Hk Hm].
  unfold ApplyOps, SortPubKeyAsc, Clone. split; [by apply sort_ok|].
  rewrite <- Hm. symmetry. apply as_map_perm; [done|]. by rewrite sort_func_perm.
Qed.

(** additions are appended at the end while later operations of the same batch still
    bisect, so a batch may miss a validator it has just added: adding a key, then a
    smaller one, then the first again yields two validators with one key. *)
Theorem ApplyOps_duplicates `{SortFunc} (k1 k2 : bytes) (s t u : Z) : bytes_lt k1 k2 ->
  let add k x := mkOp OpAdd k (Some x) None None None in
  let val k x := mkValidator k x NodeLight ScoreQ_Max false in
  ApplyOps [] [add k2 s; add k1 t; add k2 u] ≡ₚ [val k2 s; val k1 t; val k2 u].
Proof.
  intros Hlt. cbn zeta. unfold ApplyOps, SortPubKeyAsc. rewrite sort_func_perm.
  assert (Hgt : bytes_compare k2 k1 = Gt) by (rewrite bytes_compare_antisym, Hlt; done).
  cbn -[bytes_compare]. rewrite Hgt. cbn -[bytes_compare]. rewrite Hlt. done.
Qed.

(** C33: the validators root depends only on the set of validators: any listing order and
    any sorting algorithm give the same root when the keys are distinct. *)
Theorem ComputeValidatorsRoot_order_independent `{Blake3, Cbor} (S1 S2 : SortFunc)
    (l1 l2 : list Validator) : keys_ok l1 -> l1 ≡ₚ l2 ->
  @ComputeValidatorsRoot S1 _ _ l1 = @ComputeValidatorsRoot S2 _ _ l2 /\
  @DeterministicHash S1 _ _ l1 = @DeterministicHash S2 _ _ l2.
Proof.
  intros Hk Hp. unfold ComputeValidatorsRoot, DeterministicHash, SortValidators, SortPubKeyAsc, Clone.
  by rewrite (sorted_perm_unique S1 S2 l1 l2).
Qed.

(** normalising a node type twice does not give the same type: whatever type a caller
    asks for, light included, the validator that [ApplyOps] stores never weighs the
    1000 of a light node, since type 1 is read as the legacy code of a full node. *)
Theorem no_light_weight `{SortFunc} (pk : bytes) (stake nt score : option Z) (j : option bool) :
  exists v, ApplyOps [] [mkOp OpAdd pk stake nt score j] = [v] /\
    (GetNodeTypeWeight (NodeType v) = 1500 \/ GetNodeTypeWeight (NodeType v) = 2000).
Proof.
  unfold ApplyOps, SortPubKeyAsc, Clone. cbn.
  match goal with |- context [sort_func ?l] => pose proof (sort_func_perm l) as Hp end.
  apply Permutation_singleton_r in Hp as ->. eexists. split; [done|]. cbn.
  destruct nt as [nt|]; [|by left]. cbn. unfold NormalizeNodeType.
  destruct (nt =? 0); [by left|]. destruct (nt =? 1); [by left|].
  destruct (Z.eqb_spec nt 2) as [->|]; [by right|]. destruct (Z.eqb_spec nt 3) as [->|]; by left.
Qed.

(** the effective power is the exact rounded-down product for stakes below 2^63 and
    valid scores, never more than twice the stake, and monotone in the stake. *)
Theorem EffectivePower_bounds (v : Validator) :
  0 <= StakeMas v < M63 -> score_ok (ScoreQ v) ->
  EffectivePower v = StakeMas v * GetNodeTypeWeight (NodeType v) * ScoreQ v / 65536000 /\
  EffectivePower v <= 2 * StakeMas v /\
  (forall s, 0 <= s <= StakeMas v ->
     EffectivePower (mkValidator (PubKey v) s (NodeType v) (ScoreQ v) (Jailed v)) <= EffectivePower v).
Proof.
  unfold score_ok, ScoreQ_Max. intros Hs Hq.
  assert (Hw : 1000 <= GetNodeTypeWeight (NodeType v) <= 2000).
  { unfold GetNodeTypeWeight. cbn zeta. repeat (match goal with |- context [if ?c then _ else _] => destruct c end); lia. }
  assert (Hp : forall s, 0 <= s <= StakeMas v ->
    EffectivePower (mkValidator (PubKey v) s (NodeType v) (ScoreQ v) (Jailed v)) =
      s * GetNodeTypeWeight (NodeType v) * ScoreQ v / 65536000 /\
    0 <= s * GetNodeTypeWeight (NodeType v) * ScoreQ v / 65536000 <= 2 * s).
  { intros s Hss. set (w := GetNodeTypeWeight (NodeType v)) in *.
    assert (Hsw : 0 <= s * w <= s * 2000) by nia.
    assert (Hn : 0 <= s * w * ScoreQ v <= 2 * s * 65536000) by nia.
    assert (Hd : 0 <= s * w * ScoreQ v / 65536000 <= 2 * s).
    { split; [apply Z.div_pos; lia|]. apply Z.div_le_upper_bound; lia. }
    split; [|exact Hd]. unfold EffectivePower. cbn [StakeMas NodeType ScoreQ]. fold w.
    change (u64 (ScoreQ_One * 1000)) with 65536000.
    rewrite Z.quot_div_nonneg by lia. apply u64_small. unfold in_u64. lia. }
  destruct (Hp (StakeMas v) ltac:(lia)) as [He Hb].
  assert (Hv : mkValidator (PubKey v) (StakeMas v) (NodeType v) (ScoreQ v) (Jailed v) = v) by by destruct v.
  rewrite Hv in He. split; [done|]. split; [lia|]. intros s Hss.
  destruct (Hp s Hss) as [-> _]. rewrite He. apply Z.div_le_mono; [lia|].
  apply Z.mul_le_mono_nonneg_r; [lia|]. apply Z.mul_le_mono_nonneg_r; lia.
Qed.

(** ** Concrete instances *)
Definition val0 : Validator := mkValidator (to_bytes "k1") 5000 2 65536 false.
Definition val1 : Validator := mkValidator (to_bytes "k2") 7 3 100 true.

Lemma val01_ok : vs_ok [val0; val1].
Proof. repeat constructor. Qed.

Lemma run_events_invariant_witness :
  exists q, run_events [EventMissPrevote; EventMissPrecommit; EventRefusedAsBackup] val0 0 =
    Some (set_score val0 q, 2) /\ score_ok q.
Proof. apply run_events_invariant; [vm_compute; intuition congruence|unfold in_u32; lia]. Defined.

Lemma four_misses_zero_witness : exists v' m',
  run_events [EventMissPrevote; EventMissPrecommit; EventMissPrevote; EventMissPrevote] val0 0 =
    Some (v', m') /\ ScoreQ v' = 0.
Proof.
  apply four_misses_zero; [|simpl; lia|vm_compute; intuition congruence].
  repeat (apply Forall_cons; split; [unfold is_miss; auto|]). apply Forall_nil. exact I.
Defined.

Lemma findIndex_correct_witness : findIndex [val0; val1] (to_bytes "k2") = (1%nat, true) /\
  exists a, [val0; val1] !! 1%nat = Some a /\ PubKey a = to_bytes "k2".
Proof.
  split; [vm_compute; reflexivity|].
  exact (findIndex_correct [val0; val1] (to_bytes "k2") val01_ok).
Defined.

Definition ops0 : list Op :=
  [mkOp OpUpdate (to_bytes "k2") None None (Some 70000) (Some false);
   mkOp OpRemove (to_bytes "k1") None None None None;
   mkOp OpAdd (to_bytes "k0") (Some 9) None None None].
Lemma ApplyOps_refines_witness :
  as_map (@ApplyOps gosort0 [val0; val1] ops0) = foldl apply_op_map (as_map [val0; val1]) ops0.
Proof.
  apply (@ApplyOps_refines gosort0 [val0; val1] ops0 val01_ok).
  split; [intros [? _]; discriminate|]. split; [intros [? _]; discriminate|]. exact I.
Defined.

Lemma ApplyOps_duplicates_witness :
  @ApplyOps gosort0 [] [mkOp OpAdd (to_bytes "b") (Some 1) None None None;
                mkOp OpAdd (to_bytes "a") (Some 2) None None None;
                mkOp OpAdd (to_bytes "b") (Some 3) None None None] ≡ₚ
  [mkValidator (to_bytes "b") 1 1 65536 false; mkValidator (to_bytes "a") 2 1 65536 false;
   mkValidator (to_bytes "b") 3 1 65536 false].
Proof. apply (@ApplyOps_duplicates gosort0 (to_bytes "a") (to_bytes "b") 1 2 3). reflexivity. Defined.

Lemma ComputeValidatorsRoot_order_independent_witness :
  @ComputeValidatorsRoot gosort0 blake3_0 cbor0 [val0; val1] =
    @ComputeValidatorsRoot gosort0 blake3_0 cbor0 [val1; val0].
Proof.
  apply (@ComputeValidatorsRoot_order_independent blake3_0 cbor0 gosort0 gosort0 [val0; val1] [val1; val0]).
  - apply (vs_ok_keys _ val01_ok).
  - constructor.
Defined.

Lemma EffectivePower_bounds_witness : EffectivePower val0 <= 2 * 5000.
Proof.
  apply (EffectivePower_bounds val0); vm_compute; intuition congruence.
Defined.
