(* ===== verification/GoFloat.v ===== *)
(** * The part of Go's float64 arithmetic that the emission curve uses.

    A [float64] is a [spec_float] with 53 bits of precision.  [math_pow] follows
    math.Pow of the Go standard library for an integral exponent: the mantissa is
    raised by squaring and the exponent kept apart. *)
From S2P Require Export Prelude.
From Stdlib Require Export Floats.SpecFloat.

Abbreviation F_prec := 53.
Abbreviation F_emax := 1024.
Definition fmul : spec_float -> spec_float -> spec_float := SFmul F_prec F_emax.
Definition fadd : spec_float -> spec_float -> spec_float := SFadd F_prec F_emax.
Definition ldexp : spec_float -> Z -> spec_float := SFldexp F_prec F_emax.
Definition frexp : spec_float -> spec_float * Z := SFfrexp F_prec F_emax.

(** [float64(z)] for an integer, rounded to nearest even. *)
Definition float64 (z : Z) : spec_float := binary_normalize F_prec F_emax z 0 false.
(** The value of a decimal literal [m * 10^-d]: the correctly rounded quotient. *)
Definition fconst (m d : Z) : spec_float := SFdiv F_prec F_emax (float64 m) (float64 (10 ^ d)).
Definition fone : spec_float := float64 1.
Definition fhalf : spec_float := ldexp fone (-1).

(** The integer part of a finite float, towards zero. *)
Definition trunc (f : spec_float) : option Z :=
  match f with
  | S754_zero _ => Some 0
  | S754_finite s m e =>
      let a := if 0 <=? e then Zpos m * 2 ^ e else Zpos m / 2 ^ (- e) in
      Some (if s then - a else a)
  | _ => None
  end.

(** [uint64(f)] and [int(f)] are implementation-defined for values out of range. *)
Class GoFloat := { uint64_undefined : spec_float -> Z;
                   uint64_undefined_range : forall f, in_u64 (uint64_undefined f);
                   int_undefined : spec_float -> Z }.
Lemma in_u64_M63 : in_u64 M63.
Proof. unfold in_u64. lia. Qed.
Definition float_amd64 : GoFloat := {|
  uint64_undefined := fun _ => M63;
  uint64_undefined_range := fun _ => in_u64_M63;
  int_undefined := fun _ => - M63 |}.
Definition uint64_of `{GoFloat} (f : spec_float) : Z :=
  match trunc f with
  | Some z => if (0 <=? z) && (z <? M64) then z else uint64_undefined f
  | None => uint64_undefined f
  end.
Definition int_of `{GoFloat} (f : spec_float) : Z :=
  match trunc f with
  | Some z => if (- M63 <=? z) && (z <? M63) then z else int_undefined f
  | None => int_undefined f
  end.
Lemma uint64_of_range `{GoFloat} f : in_u64 (uint64_of f).
Proof.
  unfold uint64_of. destruct (trunc f) as [z|]; [|apply uint64_undefined_range].
  destruct (Z.leb_spec 0 z), (Z.ltb_spec z M64); cbn;
    try apply uint64_undefined_range. unfold in_u64. lia.
Qed.
#[export] Hint Resolve uint64_of_range : go.

(** [math.Round]: half away from zero. *)
Definition math_round (f : spec_float) : spec_float :=
  match f with
  | S754_finite s m e =>
      if 0 <=? e then f
      else let a := (Zpos m + 2 ^ (- e - 1)) / 2 ^ (- e) in
           binary_normalize F_prec F_emax (if s then - a else a) 0 s
  | _ => f
  end.

Definition flt (a b : spec_float) : bool := SFltb a b.
Definition feq (a b : spec_float) : bool := SFeqb a b.
Definition sign_of (f : spec_float) : bool :=
  match f with S754_zero s | S754_infinity s | S754_finite s _ _ => s | S754_nan => false end.
Definition fabs (f : spec_float) : spec_float := SFabs f.

Fixpoint pow_loop (fuel : nat) (i xe ae : Z) (x1 a1 : spec_float) : spec_float * Z :=
  match fuel with
  | O => (a1, ae)
  | S fuel =>
      if i =? 0 then (a1, ae)
      else if (xe <? - 4096) || (4096 <? xe) then (a1, ae + xe)
      else
        let '(a1, ae) := if Z.odd i then (fmul a1 x1, ae + xe) else (a1, ae) in
        let x1 := fmul x1 x1 in
        let xe := 2 * xe in
        let '(x1, xe) := if flt x1 fhalf then (fadd x1 x1, xe - 1) else (x1, xe) in
        pow_loop fuel (Z.shiftr i 1) xe ae x1 a1
  end.

(** [math.Pow(x, float64(n))]; the loop runs once per bit of an exponent below 2^63. *)
Definition math_pow (x : spec_float) (n : Z) : spec_float :=
  let y := default 0 (trunc (float64 n)) in
  if (y =? 0) || feq x fone then fone
  else if y =? 1 then x
  else match x with
  | S754_nan => S754_nan
  | S754_zero s => S754_zero (s && Z.odd y)
  | S754_infinity s => S754_infinity (s && Z.odd y)
  | S754_finite s _ _ =>
      if M63 <=? y then
        (if feq x (float64 (-1)) then fone
         else if flt (fabs x) fone then S754_zero false else S754_infinity false)
      else
        let '(x1, xe) := frexp x in
        let '(a1, ae) := pow_loop 64 y xe 0 x1 fone in
        ldexp a1 ae
  end.
