(* ===== verification/GoNum.v ===== *)
(** * Numbers of decoded JSON: [map[string]any] holds every number as a float64.

    Literals are rounded to the nearest float (ties to even) as strconv does, and floats
    are written back with the fewest digits that read as the same float, in the format
    encoding/json chooses. *)
From S2P Require Export GoFloat GoJson.
From Stdlib Require Import Ascii.

(** ** Reading *)
Definition digits_value (s : string) : Z :=
  (fix go (acc : Z) (s : string) : Z :=
     match s with "" => acc | String c s => go (10 * acc + (cn c - 48)) s end) 0 s.
(** The correctly rounded value of [m * 10^k]; a literal whose magnitude is plainly out of
    range is decided by its length. *)
Definition decimal (neg : bool) (m k : Z) : spec_float :=
  if m =? 0 then S754_zero neg
  else if 400 <? k + Z.log2 m / 4 then S754_infinity neg
  else if k + Z.log2 m <? - 400 then S754_zero neg
  else if 0 <=? k then binary_normalize F_prec F_emax ((if neg then -1 else 1) * m * 10 ^ k) 0 neg
  else let '(q, e, l) := SFdiv_core_binary F_prec F_emax m 0 (10 ^ (- k)) 0 in
       binary_round_aux F_prec F_emax neg q e l.
(** The parts of a literal of the JSON grammar: sign, all digits, exponent. *)
Definition lit_parts (lit : string) : bool * Z * Z :=
  let '(neg, s) := match lit with String c s => if cn c =? 45 then (true, s) else (false, lit) | "" => (false, "") end in
  let '(ip, s) := span_digits s in
  let '(fp, s) := match s with String c s' => if cn c =? 46 then span_digits s' else ("", s) | "" => ("", "") end in
  let ex := match s with
            | String _ (String c s') => if cn c =? 45 then - digits_value s'
                                        else if cn c =? 43 then digits_value s' else digits_value (String c s')
            | _ => 0 end in
  (neg, digits_value (ip +:+ fp), ex - Z.of_nat (String.length fp)).
(** [strconv.ParseFloat]: [None] is a value out of range. *)
Definition parse_float (lit : string) : option spec_float :=
  let '(neg, m, k) := lit_parts lit in
  match decimal neg m k with S754_infinity _ | S754_nan => None | f => Some f end.

(** ** Writing *)

(** The greatest [p] with [10^p <= num / den], from an estimate that is at most two too low. *)
Definition pow10 (p : Z) : Z * Z := if 0 <=? p then (10 ^ p, 1) else (1, 10 ^ (- p)).
Definition ge_pow10 (num den p : Z) : bool := let '(a, b) := pow10 p in den * a <=? num * b.
Definition log10 (num den : Z) : Z :=
  let p := (Z.log2 num - Z.log2 den) * 30103 / 100000 - 2 in
  if ge_pow10 num den (p + 3) then p + 3 else if ge_pow10 num den (p + 2) then p + 2
  else if ge_pow10 num den (p + 1) then p + 1 else p.
(** The nearest of the two neighbours with [n] digits that reads back as the float. *)
Definition try_digits (f : spec_float) (num den p n : Z) : option (Z * Z) :=
  let k := p + 1 - n in
  let '(a, b) := pow10 k in
  let lo := num * b / (den * a) in
  let rest := num * b - lo * (den * a) in
  let '(c1, c2) := if 2 * rest <=? den * a then (lo, lo + 1) else (lo + 1, lo) in
  let fits c := SFeqb (decimal false c k) f in
  if fits c1 then Some (c1, k) else if fits c2 then Some (c2, k) else None.
Fixpoint shortest (fuel : nat) (f : spec_float) (num den p n : Z) : Z * Z :=
  match try_digits f num den p n with
  | Some r => r
  | None => match fuel with O => (0, 0) | S fuel => shortest fuel f num den p (n + 1) end
  end.
Fixpoint zeros (n : nat) : string := match n with O => "" | S n => "0" +:+ zeros n end.
Fixpoint drop_zeros (fuel : nat) (d k : Z) : Z * Z :=
  match fuel with
  | O => (d, k)
  | S fuel => if (d mod 10 =? 0) && negb (d =? 0) then drop_zeros fuel (d / 10) (k + 1) else (d, k)
  end.
Definition insert_point (s : string) (n : nat) : string :=
  String.substring 0 n s +:+ "." +:+ String.substring n (String.length s - n) s.
(** Formats 'f' and 'e' of digits [d * 10^k]; encoding/json drops the zero of "e-0X". *)
Definition fmt_f (d k : Z) : string :=
  let s := fmt_uint d in
  let n := Z.of_nat (String.length s) in
  if 0 <=? k then s +:+ zeros (Z.to_nat k)
  else if 0 <? n + k then insert_point s (Z.to_nat (n + k))
  else "0." +:+ zeros (Z.to_nat (- (n + k))) +:+ s.
Definition fmt_e (d k : Z) : string :=
  let s := fmt_uint d in
  let x := k + Z.of_nat (String.length s) - 1 in
  let m := if (String.length s =? 1)%nat then s else insert_point s 1 in
  m +:+ "e" +:+ (if x <? 0 then "-" +:+ fmt_uint (- x) else (if x <? 10 then "+0" else "+") +:+ fmt_uint x).
(** How encoding/json writes a float64. *)
Definition fmt_float (f : spec_float) : string :=
  match f with
  | S754_finite s m e =>
      let '(num, den) := if 0 <=? e then (Zpos m * 2 ^ e, 1) else (Zpos m, 2 ^ (- e)) in
      let '(d, k) := shortest 17 (SFabs f) num den (log10 num den) 1 in
      let '(d, k) := drop_zeros 20 d k in
      let small := SFltb (SFabs f) (decimal false 1 (-6)) in
      let big := negb (SFltb (SFabs f) (decimal false 1 21)) in
      (if s then "-" else "") +:+ (if small || big then fmt_e d k else fmt_f d k)
  | S754_zero true => "-0"
  | _ => "0"
  end.

(** ** A decoded value, marshalled again *)

(** A [map] keeps the last of equal keys. *)
Fixpoint set_member (k : string) (v : json) (l : list (string * json)) : list (string * json) :=
  match l with
  | [] => [(k, v)]
  | (k', v') :: l => if String.eqb k k' then (k, v) :: l else (k', v') :: set_member k v l
  end.
Definition dedup (l : list (string * json)) : list (string * json) :=
  foldl (fun acc kv => set_member kv.1 kv.2 acc) [] l.
(** The tree that [json.Marshal] writes for the value that [json.Unmarshal] read into an
    [any]; [None] is a number out of range. *)
Fixpoint any_json (sort : list (string * json) -> list (string * json)) (j : json) : option json :=
  match j with
  | JNum lit => f ← parse_float lit; Some (JNum (fmt_float f))
  | JArr l =>
      l ← (fix go l := match l with [] => Some [] | x :: l => x ← any_json sort x; r ← go l; Some (x :: r) end) l;
      Some (JArr l)
  | JObj l =>
      l ← (fix go l := match l with
                       | [] => Some []
                       | (k, x) :: l => x ← any_json sort x; r ← go l; Some ((k, x) :: r)
                       end) l;
      Some (JObj (sort (dedup l)))
  | j => Some j
  end.

Example num_int : option_map fmt_float (parse_float "9007199254740993") = Some "9007199254740992".
Proof. vm_compute. reflexivity. Qed.
Example num_frac : option_map fmt_float (parse_float "-0.1250") = Some "-0.125".
Proof. vm_compute. reflexivity. Qed.
Example num_tenth : option_map fmt_float (parse_float "0.1") = Some "0.1".
Proof. vm_compute. reflexivity. Qed.
Example num_big : option_map fmt_float (parse_float "1e21") = Some "1e+21".
Proof. vm_compute. reflexivity. Qed.
Example num_small : option_map fmt_float (parse_float "123e-9") = Some "1.23e-7".
Proof. vm_compute. reflexivity. Qed.
Example num_edge : option_map fmt_float (parse_float "0.000001") = Some "0.000001".
Proof. vm_compute. reflexivity. Qed.
Example num_max : option_map fmt_float (parse_float "18446744073709551615") = Some "18446744073709552000".
Proof. vm_compute. reflexivity. Qed.
Example num_sum : option_map fmt_float (parse_float "0.30000000000000004") = Some "0.30000000000000004".
Proof. vm_compute. reflexivity. Qed.
Example num_range : parse_float "1e400" = None.
Proof. vm_compute. reflexivity. Qed.
Example num_tiny : option_map fmt_float (parse_float "4.9e-324") = Some "5e-324".
Proof. vm_compute. reflexivity. Qed.
