(* ===== verification/Rewards.v ===== *)
(** * internal/rewards and internal/params: emission, mint split and epoch rewards. *)
From S2P Require Export GoFloat.

(** ** internal/params/params.go *)
Definition EmissionIntervalBlocks : Z := 20000000.
Definition BaseBlockMintMas : Z := 1000000.
Definition EpochLengthBlocks : Z := 100.
Record Split := mkSplit { Network : Z; Foundation : Z; Exchange : Z }.
Definition SplitPercentages : Split := mkSplit 80 10 10.
Definition PhiRatio : spec_float := fconst 6180339887498949 16.

(** ** internal/rewards/engine.go *)
Definition EmissionMultiplierAt (height : Z) : spec_float :=
  let interval := EmissionIntervalBlocks in
  if interval =? 0 then fone
  else let epochs := height / interval in math_pow PhiRatio epochs.
Definition BlockMintAt `{GoFloat} (height : Z) : Z :=
  let multiplier := EmissionMultiplierAt height in
  let emission := fmul (float64 BaseBlockMintMas) multiplier in
  uint64_of (math_round emission).

Definition SplitMint (total : Z) : Z * Z * Z :=
  if total =? 0 then (0, 0, 0) else
  let split := SplitPercentages in
  let network := total *u Network split / 100 in
  let foundation := total *u Foundation split / 100 in
  let exchange := total *u Exchange split / 100 in
  let assigned := network +u foundation +u exchange in
  let network := if assigned <? total then network +u (total -u assigned) else network in
  (network, foundation, exchange).

Definition EpochOf (height : Z) : Z :=
  let length := EpochLengthBlocks in
  if length =? 0 then 0 else height / length.

Record EmissionSchedule := mkEmissionSchedule {
  BaseEmission : Z; DecayRatio : spec_float; EpochBlocks : Z
}.
Definition EmissionAt `{GoFloat} (s : EmissionSchedule) (height : Z) : Z :=
  if EpochBlocks s =? 0 then BaseEmission s else
  let epoch := height / EpochBlocks s in
  let coeff := math_pow (DecayRatio s) epoch in
  let coeff := if flt coeff (S754_zero false) then S754_zero false else coeff in
  uint64_of (fmul (float64 (BaseEmission s)) coeff).

Record WeightConfig := mkWeightConfig { StakeBase : gmap Z Z; PoolMultiplier : Z }.
Record ValidatorScore := mkValidatorScore {
  vs_Address : string; vs_StakeClass : Z; vs_ConsensusScore : Z; vs_Participation : Z;
  vs_PoolNode : bool
}.
Record ValidatorWeight := mkValidatorWeight { vw_Address : string; vw_Weight : Z }.
Record RewardBucket := mkRewardBucket {
  rb_Total : Z; rb_ValidatorShare : Z; rb_FoundationShare : Z; rb_ExchangeShare : Z
}.
Record ValidatorPayout := mkValidatorPayout { vp_Address : string; vp_Amount : Z }.
Record EpochRewardSummary := mkEpochRewardSummary {
  ers_Height : Z; ers_Epoch : Z; ers_TotalEmission : Z; ers_ValidatorShare : Z;
  ers_FoundationShare : Z; ers_ExchangeShare : Z
}.
Record RewardEngine := NewRewardEngine { Schedule : EmissionSchedule; Weights : WeightConfig }.

Definition currentEpoch (eng : RewardEngine) (height : Z) : Z :=
  if negb (EpochBlocks (Schedule eng) =? 0) then height / EpochBlocks (Schedule eng)
  else EpochOf height.

(** One iteration of each loop of [Compute]. *)
Definition validator_weight (cfg : WeightConfig) (v : ValidatorScore) : Z :=
  let base := default 0 (StakeBase cfg !! vs_StakeClass v) in
  let weight := i64 (i64 (i64 base + vs_ConsensusScore v) + vs_Participation v) in
  let weight := if weight <? 0 then 0 else weight in
  let out := u64 weight in
  if vs_PoolNode v then out *u PoolMultiplier cfg else out.
Fixpoint weigh (cfg : WeightConfig) (vs : list ValidatorScore) (totalWeight : Z)
    : list ValidatorWeight * Z :=
  match vs with
  | [] => ([], totalWeight)
  | v :: vs =>
      let out := validator_weight cfg v in
      let '(ws, t) := weigh cfg vs (totalWeight +u out) in
      (mkValidatorWeight (vs_Address v) out :: ws, t)
  end.
Fixpoint pay (share totalWeight : Z) (ws : list ValidatorWeight) (remaining : Z)
    : list ValidatorPayout * Z :=
  match ws with
  | [] => ([], remaining)
  | w :: ws =>
      if vw_Weight w =? 0 then pay share totalWeight ws remaining
      else
        let amount := share *u vw_Weight w / totalWeight in
        let '(ps, r) := pay share totalWeight ws (remaining -u amount) in
        (mkValidatorPayout (vw_Address w) amount :: ps, r)
  end.
Fixpoint hand_out (ps : list ValidatorPayout) (remaining : Z) : list ValidatorPayout :=
  match ps with
  | [] => []
  | p :: ps' =>
      if 0 <? remaining then
        mkValidatorPayout (vp_Address p) (vp_Amount p +u 1) :: hand_out ps' (remaining -u 1)
      else p :: ps'
  end.

Definition Compute `{GoFloat} (eng : RewardEngine) (height : Z) (validators : list ValidatorScore)
    : RewardBucket * list ValidatorPayout * EpochRewardSummary :=
  let emission := EmissionAt (Schedule eng) height in
  let emission := if emission =? 0 then BlockMintAt height else emission in
  let '(netShare, foundationShare, exchangeShare) := SplitMint emission in
  let bucket := mkRewardBucket emission netShare foundationShare exchangeShare in
  let summary := mkEpochRewardSummary height (currentEpoch eng height) emission
                   netShare foundationShare exchangeShare in
  let '(weights, totalWeight) := weigh (Weights eng) validators 0 in
  if (totalWeight =? 0) || (rb_ValidatorShare bucket =? 0) then (bucket, [], summary) else
  let '(payouts, remaining) := pay (rb_ValidatorShare bucket) totalWeight weights
                                   (rb_ValidatorShare bucket) in
  (bucket, hand_out payouts remaining, summary).

(** ** The emission table *)
Example mint_0 `{GoFloat} : BlockMintAt 0 = 1000000.
Proof. vm_compute. reflexivity. Qed.
Example mint_1 `{GoFloat} : BlockMintAt 20000000 = 618034.
Proof. vm_compute. reflexivity. Qed.
Example mint_19 : @BlockMintAt float_amd64 (30 * 20000000) = 1.
Proof. vm_compute. reflexivity. Qed.

(** ** Lemmas *)
Definition split_spec (total : Z) (s : Z * Z * Z) : Prop :=
  let '(n, f, x) := s in in_u64 n /\ in_u64 f /\ in_u64 x /\ n + f + x = total.

(** A percentage computed modulo 2^64 is at most the true percentage and at most 1% of
    the word. *)
Lemma wrapped_share total p : in_u64 total -> 0 <= p <= 100 ->
  0 <= total *u p / 100 /\ 100 * (total *u p / 100) <= total * p /\
  total *u p / 100 <= M64 / 100.
Proof.
  unfold in_u64. intros Ht Hp. pose proof (u64_range (total * p)) as Hr. unfold in_u64 in Hr.
  assert (Hle : total *u p <= total * p) by (unfold u64; apply Z.mod_le; [nia|lia]).
  split; [apply Z.div_pos; lia|]. split.
  - pose proof (Z.mul_div_le (total *u p) 100). lia.
  - apply Z.div_le_mono; lia.
Qed.

Lemma SplitMint_spec total : in_u64 total -> split_spec total (SplitMint total).
Proof.
  intros Ht. unfold SplitMint, split_spec. destruct (Z.eqb_spec total 0) as [->|Hne].
  { unfold in_u64. lia. }
  pose proof (wrapped_share total 80 Ht ltac:(lia)) as (Hn & Hn' & Hn'').
  pose proof (wrapped_share total 10 Ht ltac:(lia)) as (Hf & Hf' & Hf'').
  cbn [Network Foundation Exchange SplitPercentages].
  set (n := total *u 80 / 100) in *. set (f := total *u 10 / 100) in *. cbn zeta.
  unfold in_u64 in *. change (M64 / 100) with 184467440737095516 in *.
  assert (Hsum : n + f + f <= total) by lia.
  rewrite (u64_small (n + f)), (u64_small (n + f + f)) by (unfold in_u64; lia).
  destruct (Z.ltb_spec (n + f + f) total); [|lia].
  rewrite (u64_small (total - _)), (u64_small (n + _)) by (unfold in_u64; lia). lia.
Qed.

Section Compute.
Implicit Types (ws : list ValidatorWeight) (ps : list ValidatorPayout).
Definition weights_of (cfg : WeightConfig) (vs : list ValidatorScore) : list ValidatorWeight :=
  (fun v => mkValidatorWeight (vs_Address v) (validator_weight cfg v)) <$> vs.
Definition wsum ws : Z := zsum (vw_Weight <$> ws).
Definition psum ps : Z := zsum (vp_Amount <$> ps).
Definition weights_ok ws : Prop := Forall (fun w => 0 <= vw_Weight w) ws.

Lemma validator_weight_nonneg cfg v : 0 <= validator_weight cfg v.
Proof.
  unfold validator_weight. cbn zeta. destruct (vs_PoolNode v); eapply proj1, u64_range.
Qed.
Lemma weights_of_ok cfg vs : weights_ok (weights_of cfg vs).
Proof. apply Forall_fmap, Forall_true. intros v. apply validator_weight_nonneg. Qed.
Lemma wsum_nonneg ws : weights_ok ws -> 0 <= wsum ws.
Proof. intros Hw. apply zsum_nonneg. by apply Forall_fmap. Qed.
Lemma wsum_cons w ws : wsum (w :: ws) = vw_Weight w + wsum ws.
Proof. done. Qed.

Lemma weigh_spec cfg vs t : 0 <= t -> t + wsum (weights_of cfg vs) < M64 ->
  weigh cfg vs t = (weights_of cfg vs, t + wsum (weights_of cfg vs)).
Proof.
  revert t; induction vs as [|v vs IH]; intros t Ht Hs; cbn [weigh].
  { unfold wsum, weights_of. cbn. by rewrite Z.add_0_r. }
  unfold weights_of in *. rewrite fmap_cons, wsum_cons in *. cbn [vw_Weight] in *.
  pose proof (validator_weight_nonneg cfg v).
  pose proof (wsum_nonneg _ (weights_of_ok cfg vs)) as Hp. unfold weights_of in Hp.
  rewrite u64_small by (unfold in_u64; lia). rewrite IH by lia. f_equal. lia.
Qed.

(** What each validator with weight is due before the remainder is handed out. *)
Definition due (share total : Z) ws : list ValidatorPayout :=
  (fun w => mkValidatorPayout (vw_Address w) (share * vw_Weight w / total)) <$>
    filter (fun w => vw_Weight w <> 0) ws.
Lemma due_cons share total w ws : due share total (w :: ws) =
  if vw_Weight w =? 0 then due share total ws
  else mkValidatorPayout (vw_Address w) (share * vw_Weight w / total) :: due share total ws.
Proof.
  unfold due. rewrite filter_cons. destruct (Z.eqb_spec (vw_Weight w) 0) as [E|E].
  - by rewrite decide_False by (intros H; by apply H).
  - by rewrite decide_True.
Qed.

Lemma due_sum share total ws : 0 <= share -> 0 < total -> weights_ok ws ->
  total * psum (due share total ws) <= share * wsum ws /\
  share * wsum ws <= total * psum (due share total ws) + (total - 1) * Z.of_nat (length (due share total ws)) /\
  0 <= psum (due share total ws).
Proof.
  intros Hs Ht Hw. induction Hw as [|w ws Hw0 Hw IH]; [cbn; lia|].
  rewrite due_cons, wsum_cons. destruct (Z.eqb_spec (vw_Weight w) 0) as [->|Hne]; [lia|].
  unfold psum in *. rewrite fmap_cons. cbn [zsum foldr vp_Amount length].
  change (foldr Z.add 0) with zsum. cbn [vp_Amount].
  pose proof (Z.div_mod (share * vw_Weight w) total ltac:(lia)) as Hd.
  pose proof (Z.mod_pos_bound (share * vw_Weight w) total ltac:(lia)).
  assert (0 <= share * vw_Weight w / total) by (apply Z.div_pos; nia).
  set (q := share * vw_Weight w / total) in *. rewrite Nat2Z.inj_succ. nia.
Qed.

Lemma pay_spec share total ws r : 0 <= share -> 0 < total -> weights_ok ws ->
  Forall (fun w => share * vw_Weight w < M64) ws -> psum (due share total ws) <= r < M64 ->
  pay share total ws r = (due share total ws, r - psum (due share total ws)).
Proof.
  intros Hs Ht Hw Ho. revert r. induction Hw as [|w ws Hw0 Hw IH]; intros r Hr.
  { cbn. by rewrite Z.sub_0_r. }
  apply Forall_cons_1 in Ho as [Ho1 Ho]. cbn [pay]. rewrite due_cons in *.
  destruct (Z.eqb_spec (vw_Weight w) 0) as [E|E]; [by apply IH|].
  unfold psum in Hr |- *. rewrite fmap_cons in Hr |- *. cbn [zsum foldr vp_Amount] in Hr |- *.
  change (foldr Z.add 0) with zsum in *. fold (psum (due share total ws)) in *.
  rewrite (u64_small (share * vw_Weight w)) by (unfold in_u64; nia).
  assert (0 <= share * vw_Weight w / total) by (apply Z.div_pos; nia).
  pose proof (due_sum share total ws Hs Ht Hw) as (_ & _ & Hp).
  rewrite u64_small by (unfold in_u64; lia). rewrite IH by (done || lia). f_equal. lia.
Qed.

(** [q] is [p] with one unit more at most. *)
Definition topped (p q : ValidatorPayout) : Prop :=
  vp_Address q = vp_Address p /\ vp_Amount p <= vp_Amount q <= vp_Amount p + 1.
#[global] Instance topped_refl : Reflexive topped.
Proof. intros p. split; [done|lia]. Qed.
Lemma hand_out_spec ps r : 0 <= r <= Z.of_nat (length ps) -> Z.of_nat (length ps) < M64 ->
  Forall (fun p => 0 <= vp_Amount p < M64 - 1) ps ->
  psum (hand_out ps r) = psum ps + r /\ Forall2 topped ps (hand_out ps r).
Proof.
  intros Hr Hl Hp. revert r Hr. induction Hp as [|p ps Hp0 Hp IH]; intros r Hr.
  { cbn in *. split; [lia|constructor]. }
  cbn [hand_out length] in *. destruct (Z.ltb_spec 0 r) as [H0|H0].
  - rewrite (u64_small (r - 1)), (u64_small (vp_Amount p + 1)) by (unfold in_u64; lia).
    destruct (IH ltac:(lia) (r - 1) ltac:(lia)) as [E F]. unfold psum in *. rewrite !fmap_cons.
    cbn [zsum foldr vp_Amount]. change (foldr Z.add 0) with zsum. split; [lia|].
    constructor; [|done]. split; [done|]. cbn. lia.
  - split; [unfold psum; lia|]. constructor; reflexivity.
Qed.
End Compute.

Lemma due_amounts share total ws : 0 <= share -> 0 < total -> weights_ok ws -> wsum ws <= total ->
  Forall (fun p => 0 <= vp_Amount p <= share) (due share total ws).
Proof.
  intros Hs Ht Hw. induction Hw as [|w ws Hw0 Hw IH]; [constructor|].
  rewrite due_cons, wsum_cons. pose proof (wsum_nonneg ws Hw). intros Hle.
  destruct (Z.eqb_spec (vw_Weight w) 0) as [E|E]; [apply IH; lia|].
  constructor; [|apply IH; lia]. cbn [vp_Amount].
  split; [apply Z.div_pos; nia|]. apply Z.div_le_upper_bound; nia.
Qed.

(** The distribution loop, whole: the shares add up to the pot. *)
Lemma pay_hand_out share total ws : 0 < share < M64 - 1 -> 0 < total -> weights_ok ws ->
  wsum ws = total -> Z.of_nat (length ws) < M64 ->
  Forall (fun w => share * vw_Weight w < M64) ws ->
  let '(ps, r) := pay share total ws share in
  psum (hand_out ps r) = share /\ Forall2 topped (due share total ws) (hand_out ps r).
Proof.
  intros Hs Ht Hw Hsum Hlen Ho.
  destruct (due_sum share total ws ltac:(lia) Ht Hw) as (H1 & H2 & H3). rewrite Hsum in *.
  rewrite pay_spec by (done || nia).
  assert (Hl : (length (due share total ws) <= length ws)%nat)
    by (unfold due; rewrite length_fmap; apply length_filter).
  destruct (hand_out_spec (due share total ws) (share - psum (due share total ws))) as [E F].
  - nia.
  - lia.
  - eapply Forall_impl; [apply (due_amounts share total ws); done || lia|]. cbn. lia.
  - split; [lia|done].
Qed.

(** The emission table: one entry per emission interval. *)
Definition mint_epochs : nat := 1024.
Definition mint_table `{GoFloat} : list Z :=
  (fun k => BlockMintAt (Z.of_nat k * EmissionIntervalBlocks)) <$> seq 0 mint_epochs.
Fixpoint decreasing (l : list Z) : bool :=
  match l with a :: ((b :: _) as l') => (b <=? a) && decreasing l' | _ => true end.

Lemma BlockMintAt_interval `{GoFloat} h : 0 <= h ->
  BlockMintAt h = BlockMintAt (Z.of_nat (Z.to_nat (h / EmissionIntervalBlocks)) * EmissionIntervalBlocks).
Proof.
  intros Hh. unfold BlockMintAt, EmissionMultiplierAt, EmissionIntervalBlocks.
  rewrite Z2Nat.id by (apply Z.div_pos; lia). by rewrite Z.div_mul by lia.
Qed.
Lemma decreasing_lookup l i j a b : decreasing l = true -> (i <= j)%nat ->
  l !! i = Some a -> l !! j = Some b -> b <= a.
Proof.
  revert i j a b; induction l as [|x l IH]; intros i j a b Hd Hij Ha Hb; [done|].
  assert (Htail : decreasing l = true) by (destruct l; [done|]; cbn in Hd; by apply andb_prop in Hd as [_ ?]).
  destruct i as [|i], j as [|j]; try lia; cbn in Ha, Hb.
  - naive_solver lia.
  - injection Ha as <-. destruct l as [|y l]; [done|].
    apply andb_prop in Hd as [Hyx%Z.leb_le _].
    enough (b <= y) by lia. by apply (IH 0%nat j); [|lia| |].
  - apply (IH i j); done || lia.
Qed.
Lemma mint_table_lookup `{GoFloat} h : 0 <= h < Z.of_nat mint_epochs * EmissionIntervalBlocks ->
  mint_table !! Z.to_nat (h / EmissionIntervalBlocks) = Some (BlockMintAt h).
Proof.
  intros Hh. unfold mint_table. rewrite list_lookup_fmap, lookup_seq_lt.
  - cbn [fmap option_fmap option_map]. f_equal. symmetry. apply BlockMintAt_interval. lia.
  - unfold EmissionIntervalBlocks in *.
    assert (h / 20000000 < Z.of_nat mint_epochs) by (apply Z.div_lt_upper_bound; lia).
    assert (0 <= h / 20000000) by (apply Z.div_pos; lia). lia.
Qed.
Lemma mint_table_ok `{GoFloat} : decreasing mint_table = true /\
  drop 31 mint_table = replicate 993 0 /\ mint_table !! 30%nat = Some 1.
Proof. vm_compute. done. Qed.

(** ** Properties *)

(** the split of a mint conserves it: for every 64-bit total, those for which
    [total * 80] overflows included, the three shares are 64-bit numbers that add up to
    the total; while nothing overflows the foundation and exchange get a rounded-down tenth each. *)
Theorem SplitMint_conserves (total : Z) : in_u64 total ->
  split_spec total (SplitMint total) /\
  (80 * total < M64 ->
   SplitMint total = (total - total / 10 - total / 10, total / 10, total / 10)).
Proof.
  intros Ht. pose proof (SplitMint_spec total Ht) as Hs. split; [done|]. intros Hsmall.
  destruct (SplitMint total) as [[n f] x] eqn:E. destruct Hs as (_ & _ & _ & Hsum).
  unfold SplitMint in E. unfold in_u64 in Ht. destruct (Z.eqb_spec total 0) as [->|Hne].
  { injection E as <- <- <-. reflexivity. }
  cbn [Network Foundation Exchange SplitPercentages] in E.
  rewrite (u64_small (total * 10)) in E by (unfold in_u64; lia).
  assert (Hten : total * 10 / 100 = total / 10) by (apply (Z.div_mul_cancel_r total 10 10); lia).
  rewrite Hten in E. injection E as _ <- <-. repeat f_equal. lia.
Qed.

(** C30: the emission curve over the first 1024 intervals (20.48 billion blocks), evaluated
    in binary64 arithmetic: the mint of a block starts at 1,000,000, never grows with the height,
    and is zero exactly from the 31st interval on. *)
Theorem BlockMintAt_decays `{GoFloat} (h h' : Z) :
  0 <= h <= h' -> h' < Z.of_nat mint_epochs * EmissionIntervalBlocks ->
  BlockMintAt 0 = BaseBlockMintMas /\ 0 <= BlockMintAt h' <= BlockMintAt h /\
  (BlockMintAt h = 0 <-> 31 * EmissionIntervalBlocks <= h).
Proof.
  intros Hh Hh'. split; [vm_compute; reflexivity|].
  pose proof (mint_table_lookup h ltac:(lia)) as Hi. pose proof (mint_table_lookup h' ltac:(lia)) as Hj.
  destruct mint_table_ok as (Hd & Hz & H30).
  pose proof (Z.div_le_mono h h' EmissionIntervalBlocks eq_refl ltac:(lia)).
  assert (0 <= h / EmissionIntervalBlocks) by (apply Z.div_pos; [lia|done]).
  assert (Hr : in_u64 (BlockMintAt h')) by (unfold BlockMintAt; auto with go). unfold in_u64 in Hr.
  split; [split; [lia|]; eapply decreasing_lookup; [exact Hd| |exact Hi|exact Hj]; lia|].
  assert (Hlt : h / EmissionIntervalBlocks < 1024).
  { apply Z.div_lt_upper_bound; unfold mint_epochs, EmissionIntervalBlocks in *; lia. }
  split; intros Hx.
  - destruct (Z.leb_spec (31 * EmissionIntervalBlocks) h) as [|Hlt31]; [done|exfalso].
    assert (Hle : h / EmissionIntervalBlocks <= 30).
    { enough (h / EmissionIntervalBlocks < 31) by lia.
      apply Z.div_lt_upper_bound; unfold mint_epochs, EmissionIntervalBlocks in *; lia. }
    pose proof (decreasing_lookup _ (Z.to_nat (h / EmissionIntervalBlocks)) 30 _ _ Hd ltac:(lia) Hi H30). lia.
  - assert (Hge : 31 <= h / EmissionIntervalBlocks).
    { apply Z.div_le_lower_bound; unfold mint_epochs, EmissionIntervalBlocks in *; lia. }
    replace (Z.to_nat (h / EmissionIntervalBlocks)) with
      (31 + (Z.to_nat (h / EmissionIntervalBlocks) - 31))%nat in Hi by lia.
    rewrite <- lookup_drop, Hz in Hi. apply lookup_replicate in Hi as [-> _]. done.
Qed.

(** C29: an epoch's payouts are exact: when the weights add up without overflow and no
    share overflows, the validators with weight are paid in order, each its
    proportional share rounded down or one unit more, and the payouts add up to the
    validator share, so the leftover loop always ends with nothing left. *)
Theorem Compute_pays_out `{GoFloat} (eng : RewardEngine) (height : Z) (validators : list ValidatorScore) :
  let '(bucket, payouts, summary) := Compute eng height validators in
  let ws := weights_of (Weights eng) validators in
  in_u64 (rb_Total bucket) -> rb_ValidatorShare bucket < M64 - 1 ->
  0 < wsum ws < M64 -> Z.of_nat (length validators) < M64 ->
  Forall (fun w => rb_ValidatorShare bucket * vw_Weight w < M64) ws -> 0 < rb_ValidatorShare bucket ->
  psum payouts = rb_ValidatorShare bucket /\
  Forall2 topped (due (rb_ValidatorShare bucket) (wsum ws) ws) payouts /\
  rb_ValidatorShare bucket + rb_FoundationShare bucket + rb_ExchangeShare bucket = rb_Total bucket /\
  ers_ValidatorShare summary = rb_ValidatorShare bucket.
Proof.
  unfold Compute. cbn zeta.
  set (emission := if _ =? 0 then BlockMintAt height else _).
  pose proof (SplitMint_spec emission) as Hsplit.
  destruct (SplitMint emission) as [[n f] x].
  destruct (weigh (Weights eng) validators 0) as [ws' tw] eqn:Ew.
  cbn [rb_ValidatorShare rb_Total]. set (ws := weights_of (Weights eng) validators).
  destruct ((tw =? 0) || (n =? 0)) eqn:Ez.
  - intros Htot Hn Hw Hl Ho Hpos.
    rewrite weigh_spec in Ew by (fold ws; lia). injection Ew as _ <-.
    apply orb_true_iff in Ez as [E%Z.eqb_eq|E%Z.eqb_eq]; fold ws in E; cbn in *; lia.
  - destruct (pay n tw ws' n) as [ps r] eqn:Ep. cbn [rb_ValidatorShare rb_Total rb_FoundationShare rb_ExchangeShare ers_ValidatorShare].
    intros Htot Hn Hw Hl Ho Hpos.
    rewrite weigh_spec in Ew by (fold ws; lia). injection Ew as <- <-. fold ws in Ep |- *.
    rewrite Z.add_0_l in Ep.
    pose proof (pay_hand_out n (wsum ws) ws ltac:(lia) ltac:(lia) (weights_of_ok _ _) eq_refl) as Hp.
    rewrite Ep in Hp. destruct Hp as [Hp1 Hp2]; [unfold ws, weights_of; by rewrite length_fmap|done|].
    destruct (Hsplit Htot) as (_ & _ & _ & Hsum). done.
Qed.

(** ** Concrete instances *)
Lemma SplitMint_conserves_witness : SplitMint 1000001 = (800001, 100000, 100000) /\
  split_spec (M64 - 1) (SplitMint (M64 - 1)).
Proof.
  split.
  - destruct (SplitMint_conserves 1000001) as [_ E]; [unfold in_u64; lia|].
    rewrite E by lia. reflexivity.
  - apply (SplitMint_conserves (M64 - 1)). unfold in_u64. lia.
Defined.

Lemma BlockMintAt_decays_witness :
  0 <= @BlockMintAt float_amd64 700000000 <= @BlockMintAt float_amd64 20000001.
Proof.
  apply (@BlockMintAt_decays float_amd64 20000001 700000000); [lia|reflexivity].
Defined.

(** The configuration of the repository's test: two classes, pool nodes count double. *)
Definition eng0 : RewardEngine := NewRewardEngine
  (mkEmissionSchedule 1000000 (fconst 618 3) 10) (mkWeightConfig {[0 := 100; 1 := 200]} 2).
Definition vals0 : list ValidatorScore :=
  [mkValidatorScore "v1" 0 50 10 false; mkValidatorScore "v2" 1 (-20) 0 true].
Lemma Compute_pays_out_witness :
  let r := @Compute float_amd64 eng0 5 vals0 in
  psum r.1.2 = 800000 /\ vp_Amount <$> r.1.2 = [246154; 553846].
Proof.
  cbn zeta. split; [|vm_compute; reflexivity].
  pose proof (@Compute_pays_out float_amd64 eng0 5 vals0) as H.
  destruct (@Compute float_amd64 eng0 5 vals0) as [[b ps] s] eqn:E.
  assert (Hb : b = mkRewardBucket 1000000 800000 100000 100000).
  { apply (f_equal (fun r => r.1.1)) in E. symmetry in E. etransitivity; [exact E|].
    vm_compute. reflexivity. }
  subst b. apply H.
  - unfold in_u64. cbn. lia.
  - reflexivity.
  - split; vm_compute; reflexivity.
  - reflexivity.
  - repeat constructor.
  - reflexivity.
Defined.
