(* ===== verification/Supply.v ===== *)
(** * internal/app/state_reward.go: the supply counters and their persistence.

    Every committed round adds one block mint to four counters; the counters are stored
    as JSON under [supply/current] and under a zero-padded history key. *)
From S2P Require Export State Rewards.

Definition supplyCurrentKey : string := "supply/current".
Definition supplyHistoryPrefix : string := "supply/history/".

Record SupplyState := mkSupplyState {
  TotalMintedMas : Z; NetworkVaultMas : Z; FoundationVaultMas : Z; ExchangeVaultMas : Z;
  LastUpdatedHeight : Z
}.
#[global] Instance SupplyState_eq_dec : EqDecision SupplyState.
Proof. solve_decision. Defined.
Definition supply_zero : SupplyState := mkSupplyState 0 0 0 0 0.
Definition supply_ok (s : SupplyState) : Prop :=
  in_u64 (TotalMintedMas s) /\ in_u64 (NetworkVaultMas s) /\ in_u64 (FoundationVaultMas s) /\
  in_u64 (ExchangeVaultMas s) /\ in_u64 (LastUpdatedHeight s).

Definition ApplyBlockMint `{GoFloat} (height : Z) : St SupplyState (Z * Z) := fun s =>
  let minted := BlockMintAt height in
  let '(network, foundation, exchange) := SplitMint minted in
  ((EpochOf height, minted),
   mkSupplyState (TotalMintedMas s +u minted) (NetworkVaultMas s +u network)
     (FoundationVaultMas s +u foundation) (ExchangeVaultMas s +u exchange) height).

(** [%s%020d] *)
Definition supplyHistoryKey (height : Z) : string :=
  supplyHistoryPrefix +:+ pad_left 20 (fmt_uint height).

Definition supply_json (s : SupplyState) : json :=
  JObj [("total_minted_mas", JUint (TotalMintedMas s));
        ("network_vault_mas", JUint (NetworkVaultMas s));
        ("foundation_vault_mas", JUint (FoundationVaultMas s));
        ("exchange_vault_mas", JUint (ExchangeVaultMas s));
        ("last_height", JUint (LastUpdatedHeight s))].
Definition supply_of_json : json -> option SupplyState :=
  dec_struct supply_zero (fun fs =>
    t ← dec_field dec_uint64 "total_minted_mas" 0 fs;
    n ← dec_field dec_uint64 "network_vault_mas" 0 fs;
    f ← dec_field dec_uint64 "foundation_vault_mas" 0 fs;
    x ← dec_field dec_uint64 "exchange_vault_mas" 0 fs;
    h ← dec_field dec_uint64 "last_height" 0 fs;
    Some (mkSupplyState t n f x h)).

Definition loadSupplyState (db : DB) : SupplyState * bool :=
  match GetKey supplyCurrentKey db with
  | Some blob => match json_unmarshal blob ≫= supply_of_json with
                 | Some st => (st, true)
                 | None => (supply_zero, false)
                 end
  | None => (supply_zero, false)
  end.
Definition loadSupplyStateAt (height : Z) (db : DB) : SupplyState * bool :=
  match GetKey (supplyHistoryKey height) db with
  | None => (supply_zero, false)
  | Some blob => match json_unmarshal blob ≫= supply_of_json with
                 | Some st => (st, true)
                 | None => (supply_zero, false)
                 end
  end.
Definition persistSupplyState (height : Z) (st : SupplyState) : St DB (result unit) :=
  let payload := json_marshal (supply_json st) in
  SetKey supplyCurrentKey payload;;
  SetKey (supplyHistoryKey height) payload;;
  mret (Ok tt).

Lemma supply_json_ok s : json_ok (supply_json s).
Proof. cbn. auto 10 with go. Qed.
Lemma supply_roundtrip s : supply_ok s -> supply_of_json (supply_json s) = Some s.
Proof.
  intros (H1 & H2 & H3 & H4 & H5). unfold supply_of_json, supply_json, dec_struct.
  json_fields. by destruct s.
Qed.

Lemma app_inj_head (p a b : string) : p +:+ a = p +:+ b -> a = b.
Proof.
  intros E. apply (f_equal to_bytes) in E. rewrite !to_bytes_app in E.
  apply app_inv_head in E. by apply (inj to_bytes).
Qed.
Lemma supplyHistoryKey_inj a b : 0 <= a -> 0 <= b -> supplyHistoryKey a = supplyHistoryKey b -> a = b.
Proof. intros Ha Hb E%app_inj_head. by apply pad_left_inj in E. Qed.
Lemma supplyHistoryKey_current h : supplyHistoryKey h <> supplyCurrentKey.
Proof. discriminate. Qed.

Lemma supply_decode s : supply_ok s ->
  json_unmarshal (json_marshal (supply_json s)) ≫= supply_of_json = Some s.
Proof.
  intros Hs. rewrite json_roundtrip by apply supply_json_ok. by apply supply_roundtrip.
Qed.

(** The vault counters account for everything minted, modulo 2^64; without an overflow
    the equation is exact. *)
Definition vaults (s : SupplyState) : Z := NetworkVaultMas s + FoundationVaultMas s + ExchangeVaultMas s.
Definition supply_inv (s : SupplyState) : Prop :=
  supply_ok s /\ u64 (vaults s) = TotalMintedMas s.

Lemma supply_zero_inv : supply_inv supply_zero.
Proof. unfold supply_inv, supply_ok, in_u64. cbn. split; [lia|reflexivity]. Qed.

Lemma BlockMintAt_range `{GoFloat} h : in_u64 (BlockMintAt h).
Proof. unfold BlockMintAt. auto with go. Qed.
#[export] Hint Resolve BlockMintAt_range : go.

Lemma ApplyBlockMint_inv `{GoFloat} h s : in_u64 h -> supply_inv s ->
  supply_inv (ApplyBlockMint h s).2.
Proof.
  intros Hh [Hok Heq]. pose proof (SplitMint_spec _ (BlockMintAt_range h)) as Hs.
  unfold ApplyBlockMint. destruct (SplitMint (BlockMintAt h)) as [[n f] x].
  destruct Hs as (Hn & Hf & Hx & Hsum). split.
  - unfold supply_ok. cbn. auto 10 with go.
  - unfold vaults in *. cbn. rewrite <- Heq, <- Hsum. clear. go_arith.
Qed.

(** The supply after minting at a list of heights, in order. *)
Definition mint_all `{GoFloat} (heights : list Z) (s : SupplyState) : SupplyState :=
  foldl (fun s h => (ApplyBlockMint h s).2) s heights.
Lemma mint_all_inv `{GoFloat} hs s : Forall in_u64 hs -> supply_inv s -> supply_inv (mint_all hs s).
Proof.
  intros Hh. revert s; induction Hh as [|h hs H0 Hh IH]; intros s Hs; [done|].
  cbn. by apply IH, ApplyBlockMint_inv.
Qed.
Lemma ApplyBlockMint_exact `{GoFloat} h s : in_u64 h -> supply_ok s -> vaults s = TotalMintedMas s ->
  TotalMintedMas s + BlockMintAt h < M64 ->
  let s' := (ApplyBlockMint h s).2 in
  vaults s' = TotalMintedMas s' /\ TotalMintedMas s' = TotalMintedMas s + BlockMintAt h.
Proof.
  intros Hh (Ht & Hn & Hf & Hx & _) Heq Hcap. cbn zeta.
  pose proof (SplitMint_spec _ (BlockMintAt_range h)) as Hs.
  pose proof (BlockMintAt_range h) as Hm.
  unfold ApplyBlockMint, vaults, in_u64 in *. destruct (SplitMint (BlockMintAt h)) as [[n f] x].
  destruct Hs as (Hn' & Hf' & Hx' & Hsum). cbn. unfold in_u64 in *.
  rewrite !u64_small by (unfold in_u64; lia). lia.
Qed.

(** ** Properties *)

(** the vaults account for every unit minted: after minting at any heights, the
    network, foundation and exchange vaults add up to the total minted modulo 2^64,
    and exactly, with the total the plain sum of the mints, as long as that sum stays below 2^64. *)
Theorem supply_conserved `{GoFloat} (heights : list Z) :
  Forall in_u64 heights ->
  let s := mint_all heights supply_zero in
  u64 (vaults s) = TotalMintedMas s /\
  (zsum (BlockMintAt <$> heights) < M64 ->
   vaults s = TotalMintedMas s /\ TotalMintedMas s = zsum (BlockMintAt <$> heights)).
Proof.
  intros Hh. cbn zeta. split; [by apply mint_all_inv; [|apply supply_zero_inv]|].
  assert (Hgen : forall s, supply_inv s -> vaults s = TotalMintedMas s ->
    TotalMintedMas s + zsum (BlockMintAt <$> heights) < M64 ->
    vaults (mint_all heights s) = TotalMintedMas (mint_all heights s) /\
    TotalMintedMas (mint_all heights s) = TotalMintedMas s + zsum (BlockMintAt <$> heights)).
  { induction Hh as [|h hs H0 Hh IH]; intros s Hs Heq Hcap; [cbn in *; lia|].
    rewrite fmap_cons in *. cbn [zsum foldr] in *. change (foldr Z.add 0) with zsum in *.
    assert (0 <= zsum (BlockMintAt <$> hs)).
    { apply zsum_nonneg, Forall_fmap, Forall_true. intros z. apply (BlockMintAt_range z). }
    assert (Hc : TotalMintedMas s + BlockMintAt h < M64) by lia.
    destruct (ApplyBlockMint_exact h s H0 (proj1 Hs) Heq Hc) as [E1 E2].
    cbn [mint_all foldl]. change (foldl _ ?s hs) with (mint_all hs s).
    destruct (IH (ApplyBlockMint h s).2) as [E3 E4]; [by apply ApplyBlockMint_inv|done|lia|].
    split; [done|lia]. }
  intros Hcap. apply (Hgen supply_zero); [apply supply_zero_inv|done|cbn; lia].
Qed.

(** round trip of the supply state through the key/value store: what is persisted for
    a height is read back as the current state and as that height's, and the
    record of every other height is untouched. *)
Theorem persistSupplyState_roundtrip (height : Z) (st : SupplyState) (db : DB) :
  in_u64 height -> supply_ok st ->
  let db' := (persistSupplyState height st db).2 in
  loadSupplyState db' = (st, true) /\ loadSupplyStateAt height db' = (st, true) /\
  (forall h, in_u64 h -> h <> height -> loadSupplyStateAt h db' = loadSupplyStateAt h db) /\
  Snapshot db' = Snapshot db.
Proof.
  intros Hh Hst. cbn zeta. unfold persistSupplyState. rewrite !st_exec_bind. cbn [fst snd SetKey].
  unfold loadSupplyState, loadSupplyStateAt, GetKey. cbn [mret St_ret snd kv].
  rewrite lookup_insert_ne by apply supplyHistoryKey_current. rewrite !lookup_insert_eq.
  rewrite !supply_decode by done. split; [done|]. split; [done|]. split; [|done].
  intros h Hh' Hne. unfold in_u64 in *.
  rewrite !lookup_insert_ne; [done|symmetry; apply supplyHistoryKey_current|].
  intros E. apply Hne. symmetry. apply supplyHistoryKey_inj; lia || done.
Qed.

Lemma supply_conserved_witness :
  TotalMintedMas (@mint_all float_amd64 [1; 2; 20000000] supply_zero) = 2618034.
Proof.
  destruct (@supply_conserved float_amd64 [1; 2; 20000000]) as (_ & H).
  - repeat constructor; unfold in_u64; lia.
  - destruct H as [_ E]; [vm_compute; reflexivity|]. etransitivity; [exact E|]. vm_compute. reflexivity.
Defined.
Lemma persistSupplyState_roundtrip_witness :
  loadSupplyStateAt 7 (persistSupplyState 7 (mkSupplyState 10 8 1 1 7) NewDB).2 =
    (mkSupplyState 10 8 1 1 7, true).
Proof.
  apply (persistSupplyState_roundtrip 7 (mkSupplyState 10 8 1 1 7) NewDB);
    [unfold in_u64; lia|unfold supply_ok, in_u64; cbn; lia].
Defined.
