(* ===== verification/Types.v ===== *)
(** * internal/types, internal/light and app/header_builder.go: bundles, headers, proofs.

    [[32]byte] values are byte lists of length 32; an optional byte slice is a list. *)
From S2P Require Export Stake State.

(** ** internal/types/commit_bundle.go *)
Record CommitBundle := mkCommitBundle {
  cb_Round : Z; cb_QuorumHash : bytes; cb_Bitmap : bytes; cb_Step : Z; cb_AggregateSig : bytes
}.
Definition cb_canonicalFields (c : CommitBundle) : gval :=
  GSlice [GNum (cb_Round c); GBytes (cb_QuorumHash c); g_copy (cb_Bitmap c); GNum (cb_Step c);
          g_copy (cb_AggregateSig c)].
Definition cb_CanonicalCBOR `{Cbor} (c : CommitBundle) : result bytes :=
  EncodeCBORCanonical (cb_canonicalFields c).
Definition cb_Hash `{Cbor, Blake3} (c : CommitBundle) : result bytes :=
  b ← cb_CanonicalCBOR c; Ok (blake3_sum256 b).
Definition cb_Validate (c : CommitBundle) : result unit :=
  if bool_decide (length (cb_Bitmap c) = 0%nat) then Err "bitmap_required"
  else if cb_Step c =? 0 then Err "step_required" else Ok tt.

(** ** internal/types/header.go *)
Record RoundHeader := mkRoundHeader {
  rh_Round : Z; rh_FromHeight : Z; rh_ToHeight : Z; rh_TxCount : Z; rh_Root : string;
  rh_TimeUTC : Z; rh_SignatureHex : string
}.
Definition EternityHeaderVersionV1 : Z := 1.
Definition maxExtraDataLen : nat := 64.
Definition EternityHeaderSignDomain : bytes := to_bytes "EternityHeader|v1|".
Record EternityHeader := mkEternityHeader {
  eh_Version : Z; eh_ChainID : string; eh_Height : Z; eh_Round : Z; eh_TimeUTCUnix : Z;
  eh_PrevHash : bytes; eh_StateRoot : bytes; eh_TxRoot : bytes; eh_ReceiptsRoot : bytes;
  eh_CommitRoot : bytes; eh_ProposerPubKey : bytes; eh_EmissionEpoch : Z;
  eh_ConsensusParamsHash : bytes; eh_FeeRoot : bytes; eh_ExtraData : bytes
}.
Definition eh_Validate (h : EternityHeader) : result unit :=
  if negb (eh_Version h =? EternityHeaderVersionV1)
  then Err ("unsupported_version:" +:+ fmt_uint (eh_Version h))
  else if bool_decide (maxExtraDataLen < length (eh_ExtraData h))%nat
  then Err ("extra_data_too_large:" +:+ fmt_uint (Z.of_nat (length (eh_ExtraData h))))
  else Ok tt.
Definition eh_canonicalFields (h : EternityHeader) : gval :=
  let extra := g_copy (eh_ExtraData h) in
  GSlice [GNum (eh_Version h); GStr (eh_ChainID h); GNum (eh_Height h); GNum (eh_Round h);
          GNum (eh_TimeUTCUnix h); GBytes (eh_PrevHash h); GBytes (eh_StateRoot h);
          GBytes (eh_TxRoot h); GBytes (eh_ReceiptsRoot h); GBytes (eh_CommitRoot h);
          GBytes (eh_ProposerPubKey h); GNum (eh_EmissionEpoch h);
          GBytes (eh_ConsensusParamsHash h); GBytes (eh_FeeRoot h); extra].
Definition eh_CanonicalCBOR `{Cbor} (h : EternityHeader) : result bytes :=
  EncodeCBORCanonical (eh_canonicalFields h).
Definition eh_Hash `{Cbor, Blake3} (h : EternityHeader) : result bytes :=
  b ← eh_CanonicalCBOR h; Ok (blake3_sum256 b).
Definition eh_SignBytes `{Cbor} (h : EternityHeader) : result bytes :=
  b ← eh_CanonicalCBOR h; Ok (EternityHeaderSignDomain ++ b).

(** ** internal/types/receipt.go, signed_header.go *)
Record TxReceipt := mkTxReceipt {
  r_TxHash : string; r_From : string; r_To : string; r_Amount : Z; r_Fee : Z; r_Nonce : Z;
  r_Status : string; r_Height : Z; r_TimeUTC : Z
}.
Record SignedHeader := mkSignedHeader {
  sh_HeaderCBOR : bytes; sh_HeaderHash : bytes; sh_ProposerPubKey : bytes; sh_Signature : bytes;
  sh_CommitBundle : option CommitBundle
}.

(** ** internal/types/proof.go *)
Record TxInclusionProof := mkTxInclusionProof {
  tp_TxHash : bytes; tp_Siblings : list bytes; tp_Directions : list Z
}.
Definition TxInclusionProof_Verify `{Blake3} (p : TxInclusionProof) (root : bytes) : result bool :=
  if negb (bool_decide (length (tp_TxHash p) = 32%nat)) then Err "tx proof: tx hash must be 32 bytes"
  else
    leaf ← BytesTo32 (tp_TxHash p);
    computed ← ComputeBlake3Root leaf (tp_Siblings p) (tp_Directions p);
    Ok (bool_decide (computed = root)).
Record StateProof := mkStateProof {
  sp_Key : bytes; sp_Value : bytes; sp_Siblings : list bytes; sp_Directions : list Z;
  sp_Version : bytes
}.
Definition StateProof_VerifyBinary `{Blake3} (p : StateProof) (root : bytes) : result bool :=
  let leafInput := sp_Key p ++ [z2b 0] in
  let leafInput := leafInput ++ sp_Value p in
  let leaf := Blake3Leaf leafInput in
  computed ← ComputeBlake3Root leaf (sp_Siblings p) (sp_Directions p);
  Ok (bool_decide (computed = root)).

(** ** internal/light/verify.go *)
Record Proof_ := mkProof {
  lp_Header : option EternityHeader; lp_CommitBundle : option CommitBundle; lp_ValidatorsRoot : bytes
}.
Definition light_Verify `{Cbor, Blake3} (p : Proof_) : result unit :=
  match lp_Header p with
  | None => Err "light: header is nil"
  | Some header =>
  match lp_CommitBundle p with
  | None => Err "light: commit bundle is nil"
  | Some bundle =>
    if negb (eh_Round header =? cb_Round bundle) then Err "light: commit metadata mismatch"
    else if negb (bool_decide (cb_QuorumHash bundle = zero32)) &&
            negb (bool_decide (cb_QuorumHash bundle = lp_ValidatorsRoot p))
    then Err "light: commit metadata mismatch"
    else match cb_Hash bundle with
    | Err _ => Err "light: commit root mismatch"
    | Ok cbHash =>
        if negb (bool_decide (cbHash = eh_CommitRoot header)) then Err "light: commit root mismatch"
        else if negb (bool_decide (eh_StateRoot header = lp_ValidatorsRoot p))
        then Err "light: validators root mismatch"
        else Ok tt
    end
  end end.

(** ** crypto/ed25519: the signature scheme, with the facts the code relies on. *)
Class Ed25519 := {
  ed_sign : bytes -> bytes -> bytes;
  ed_verify : bytes -> bytes -> bytes -> bool;
  ed_public : bytes -> bytes;
  ed_key_from_seed : bytes -> bytes;
  ed_public_length : forall priv, length priv = 64%nat -> length (ed_public priv) = 32%nat;
  ed_key_length : forall seed, length seed = 32%nat -> length (ed_key_from_seed seed) = 64%nat;
  ed_sign_length : forall priv m, length priv = 64%nat -> length (ed_sign priv m) = 64%nat;
  ed_sign_verify : forall priv m, length priv = 64%nat ->
    ed_verify (ed_public priv) m (ed_sign priv m) = true
}.

(** ** app/header_builder.go *)
Record BuildHeaderParams := mkBuildHeaderParams {
  bp_ChainID : string; bp_Height : Z; bp_Round : Z; bp_TimeUTC : option Z;  (* [None]: the zero time *)
  bp_PrevHash : bytes; bp_StateRoot : bytes; bp_TxRoot : bytes; bp_ReceiptsRoot : bytes;
  bp_CommitBundle : option CommitBundle; bp_ProposerPubKey : bytes; bp_EmissionEpoch : Z;
  bp_ConsensusParamsHash : bytes; bp_FeeRoot : bytes; bp_ExtraData : bytes
}.
Definition BuildEternityHeader `{Cbor, Blake3} (now : Z) (p : BuildHeaderParams) : result EternityHeader :=
  let timeUTC := default now (bp_TimeUTC p) in
  commitRoot ← match bp_CommitBundle p with Some c => cb_Hash c | None => Ok zero32 end;
  let h := mkEternityHeader EternityHeaderVersionV1 (bp_ChainID p) (bp_Height p) (bp_Round p)
             timeUTC (bp_PrevHash p) (bp_StateRoot p) (bp_TxRoot p) (bp_ReceiptsRoot p)
             commitRoot (bp_ProposerPubKey p) (bp_EmissionEpoch p) (bp_ConsensusParamsHash p)
             (bp_FeeRoot p) (bp_ExtraData p) in
  eh_Validate h;;
  Ok h.
Definition BuildSignedEternityHeader `{Cbor, Blake3, Ed25519} (now : Z) (p : BuildHeaderParams)
    (priv : bytes) : result (EternityHeader * SignedHeader) :=
  if negb (bool_decide (length priv = 64%nat)) then Err "invalid_ed25519_private_key" else
  h ← BuildEternityHeader now p;
  signBytes ← eh_SignBytes h;
  let sig := ed_sign priv signBytes in
  cborBytes ← eh_CanonicalCBOR h;
  hash ← eh_Hash h;
  Ok (h, mkSignedHeader cborBytes hash (bp_ProposerPubKey p) sig (bp_CommitBundle p)).
Definition Bytes32IsZero (b : bytes) : bool := forallb (fun v => b2z v =? 0) b.
Definition DeriveStateRootFallback `{Blake3} (validatorsRoot stateRoot : bytes) : bytes :=
  if negb (Bytes32IsZero stateRoot) then stateRoot
  else blake3_sum256 (to_bytes "state|v1|" ++ validatorsRoot).

(** ** Well-formed values *)
Definition small (b : bytes) : Prop := Z.of_nat (length b) < M64.
Definition hash32 (b : bytes) : Prop := length b = 32%nat.
Lemma hash32_small b : hash32 b -> small b.
Proof. unfold hash32, small. intros ->. lia. Qed.
Record bundle_ok (c : CommitBundle) : Prop := {
  bo_round : in_u32 (cb_Round c); bo_step : 0 <= cb_Step c < 256; bo_quorum : hash32 (cb_QuorumHash c);
  bo_bitmap : small (cb_Bitmap c); bo_sig : small (cb_AggregateSig c)
}.
Record header_ok (h : EternityHeader) : Prop := {
  ho_version : in_u32 (eh_Version h); ho_chain : Z.of_nat (String.length (eh_ChainID h)) < M64;
  ho_height : in_u64 (eh_Height h); ho_round : in_u32 (eh_Round h); ho_time : in_i64 (eh_TimeUTCUnix h);
  ho_prev : hash32 (eh_PrevHash h); ho_state : hash32 (eh_StateRoot h); ho_tx : hash32 (eh_TxRoot h);
  ho_receipts : hash32 (eh_ReceiptsRoot h); ho_commit : hash32 (eh_CommitRoot h);
  ho_key : hash32 (eh_ProposerPubKey h); ho_epoch : in_u64 (eh_EmissionEpoch h);
  ho_params : hash32 (eh_ConsensusParamsHash h); ho_fee : hash32 (eh_FeeRoot h);
  ho_extra : small (eh_ExtraData h)
}.
Lemma plain_copy b : small b -> plain (g_copy b).
Proof. by destruct b. Qed.

Ltac plain_tac :=
  repeat match goal with
  | |- _ /\ _ => split
  | |- True => exact I
  | H : hash32 ?b |- plain (GBytes ?b) => exact (hash32_small b H)
  | H : small ?b |- plain (g_copy ?b) => exact (plain_copy b H)
  | |- plain (GStr _) => done
  | |- plain (GNum _) => cbn; unfold in_u64, in_u32, in_i64 in *; lia
  | |- _ < _ => reflexivity
  end.
Lemma bundle_plain c : bundle_ok c -> plain (cb_canonicalFields c).
Proof. intros []. unfold cb_canonicalFields. cbn [plain]. cbn [foldr length]. plain_tac. Qed.
Lemma header_plain h : header_ok h -> plain (eh_canonicalFields h).
Proof. intros []. unfold eh_canonicalFields. cbn [plain]. cbn [foldr length]. plain_tac. Qed.

Lemma gslice_inj l k : GSlice l = GSlice k -> l = k.
Proof. congruence. Qed.
Lemma gnum_inj a b : GNum a = GNum b -> a = b.
Proof. congruence. Qed.
Lemma gstr_inj a b : GStr a = GStr b -> a = b.
Proof. congruence. Qed.
Lemma gbytes_inj a b : GBytes a = GBytes b -> a = b.
Proof. congruence. Qed.
Ltac field_inj :=
  repeat match goal with
  | H : GNum _ = GNum _ |- _ => apply gnum_inj in H
  | H : GStr _ = GStr _ |- _ => apply gstr_inj in H
  | H : GBytes _ = GBytes _ |- _ => apply gbytes_inj in H
  | H : g_copy _ = g_copy _ |- _ => apply g_copy_inj in H
  end.
Lemma bundle_fields_inj c d : cb_canonicalFields c = cb_canonicalFields d -> c = d.
Proof.
  intros E. apply gslice_inj in E. cons_inj E.
  destruct c, d; cbn [cb_Round cb_QuorumHash cb_Bitmap cb_Step cb_AggregateSig] in *. field_inj. f_equal; assumption.
Qed.
Lemma header_fields_inj h k : eh_canonicalFields h = eh_canonicalFields k -> h = k.
Proof.
  intros E. apply gslice_inj in E. cons_inj E.
  destruct h, k. unfold eh_Version, eh_ChainID, eh_Height, eh_Round, eh_TimeUTCUnix, eh_PrevHash,
    eh_StateRoot, eh_TxRoot, eh_ReceiptsRoot, eh_CommitRoot, eh_ProposerPubKey, eh_EmissionEpoch,
    eh_ConsensusParamsHash, eh_FeeRoot, eh_ExtraData in *. field_inj. f_equal; assumption.
Qed.

(** Two encodings that differ and hash alike. *)
Definition hash_collision `{Blake3} (r1 r2 : result bytes) : Prop :=
  exists x y, r1 = Ok x /\ r2 = Ok y /\ x <> y /\ blake3_sum256 x = blake3_sum256 y.

Lemma encode_hash_inj `{Cbor, Blake3} v w : plain v -> plain w ->
  (b ← EncodeCBORCanonical v; Ok (blake3_sum256 b)) = (b ← EncodeCBORCanonical w; Ok (blake3_sum256 b)) ->
  v = w \/ hash_collision (EncodeCBORCanonical v) (EncodeCBORCanonical w).
Proof.
  intros Hv Hw E. destruct (encode_plain v Hv) as [x Hx], (encode_plain w Hw) as [y Hy].
  rewrite Hx, Hy in E |- *. cbn in E. injection E as E. destruct (decide (x = y)) as [->|Hne].
  - left. apply encode_plain_inj; [done|done|congruence].
  - right. by exists x, y.
Qed.
Lemma bundle_hash_inj `{Cbor, Blake3} c d : bundle_ok c -> bundle_ok d -> cb_Hash c = cb_Hash d ->
  c = d \/ hash_collision (cb_CanonicalCBOR c) (cb_CanonicalCBOR d).
Proof.
  intros Hc Hd E. apply encode_hash_inj in E as [E|E]; [left; by apply bundle_fields_inj|by right|
    by apply bundle_plain..].
Qed.
Lemma header_hash_inj `{Cbor, Blake3} h k : header_ok h -> header_ok k -> eh_Hash h = eh_Hash k ->
  h = k \/ hash_collision (eh_CanonicalCBOR h) (eh_CanonicalCBOR k).
Proof.
  intros Hh Hk E. apply encode_hash_inj in E as [E|E]; [left; by apply header_fields_inj|by right|
    by apply header_plain..].
Qed.
Lemma bundle_hash_ok `{Cbor, Blake3} c : bundle_ok c -> exists d, cb_Hash c = Ok d /\ hash32 d.
Proof.
  intros Hc. destruct (encode_plain _ (bundle_plain c Hc)) as [b Hb].
  unfold cb_Hash, cb_CanonicalCBOR. rewrite Hb. exists (blake3_sum256 b). split; [done|apply blake3_length].
Qed.
Lemma header_cbor_ok `{Cbor} h : header_ok h -> exists b, eh_CanonicalCBOR h = Ok b.
Proof. intros Hh. by apply encode_plain, header_plain. Qed.

Lemma light_Verify_ok `{Cbor, Blake3} h c vr : light_Verify (mkProof h c vr) = Ok tt <->
  exists h' c', h = Some h' /\ c = Some c' /\ eh_Round h' = cb_Round c' /\
    (cb_QuorumHash c' = zero32 \/ cb_QuorumHash c' = vr) /\
    cb_Hash c' = Ok (eh_CommitRoot h') /\ eh_StateRoot h' = vr.
Proof.
  unfold light_Verify. cbn. destruct h as [h|], c as [c|];
    try (split; [done|intros (? & ? & ? & ? & _); congruence]).
  split.
  - destruct (Z.eqb_spec (eh_Round h) (cb_Round c)); cbn; [|done].
    destruct (negb _ && negb _) eqn:Eq; [done|]. destruct (cb_Hash c) as [d|] eqn:Eh; [|done].
    destruct (bool_decide (d = _)) eqn:Ed; cbn; [|done]. apply bool_decide_eq_true_1 in Ed as ->.
    destruct (bool_decide (eh_StateRoot h = vr)) eqn:Es; cbn; [|done].
    apply bool_decide_eq_true_1 in Es. intros _. exists h, c. do 3 (split; [done|]). split; [|done].
    apply andb_false_iff in Eq as [Eq|Eq]; apply negb_false_iff, bool_decide_eq_true_1 in Eq; auto.
  - intros (h' & c' & [= <-] & [= <-] & Hr & Hq & Hh & Hs). rewrite Hr, Z.eqb_refl. cbn.
    destruct (negb _ && negb _) eqn:Eq.
    { apply andb_prop in Eq as [E1 E2]. apply negb_true_iff, bool_decide_eq_false_1 in E1, E2. naive_solver. }
    rewrite Hh, !bool_decide_true by done. done.
Qed.

(** ** Properties *)

(** C21: a block hash commits to the whole header: two headers with the same
    [EternityHeader.Hash] are equal in every field, or their canonical encodings are a
    BLAKE3 collision; their sign bytes are equal only for equal headers. *)
Theorem header_hash_binding `{Cbor, Blake3} (h k : EternityHeader) : header_ok h -> header_ok k ->
  (eh_Hash h = eh_Hash k -> h = k \/ hash_collision (eh_CanonicalCBOR h) (eh_CanonicalCBOR k)) /\
  (eh_SignBytes h = eh_SignBytes k -> h = k).
Proof.
  intros Hh Hk. split; [by apply header_hash_inj|]. unfold eh_SignBytes.
  destruct (header_cbor_ok h Hh) as [x Hx], (header_cbor_ok k Hk) as [y Hy]. rewrite Hx, Hy.
  intros [= ->].
  apply header_fields_inj, encode_plain_inj; [by apply header_plain..|].
  unfold eh_CanonicalCBOR in Hx, Hy. congruence.
Qed.

(** C23: a header that [BuildEternityHeader] assembles around a bundle for its own round is
    valid and passes the light client's check with its state root, and
    [BuildSignedEternityHeader] delivers a signature that verifies over the header's
    sign bytes together with the encoding and the hash of that very header. *)
Theorem built_header_verifies `{Cbor, Blake3, Ed25519} (now : Z) (p : BuildHeaderParams)
    (c : CommitBundle) (priv : bytes) (h : EternityHeader) (sh : SignedHeader) :
  bp_CommitBundle p = Some c -> cb_Round c = bp_Round p ->
  cb_QuorumHash c = zero32 \/ cb_QuorumHash c = bp_StateRoot p ->
  bp_ProposerPubKey p = ed_public priv ->
  BuildSignedEternityHeader now p priv = Ok (h, sh) ->
  eh_Validate h = Ok tt /\
  light_Verify (mkProof (Some h) (sh_CommitBundle sh) (bp_StateRoot p)) = Ok tt /\
  eh_SignBytes h = Ok (EternityHeaderSignDomain ++ sh_HeaderCBOR sh) /\
  ed_verify (sh_ProposerPubKey sh) (EternityHeaderSignDomain ++ sh_HeaderCBOR sh) (sh_Signature sh) = true /\
  sh_HeaderHash sh = blake3_sum256 (sh_HeaderCBOR sh).
Proof.
  intros Hc Hr Hq Hpub. unfold BuildSignedEternityHeader.
  destruct (bool_decide (length priv = 64%nat)) eqn:Hlen; cbn [negb]; [|done].
  apply bool_decide_eq_true_1 in Hlen. unfold BuildEternityHeader. rewrite Hc.
  destruct (cb_Hash c) as [d|] eqn:Hd; [|done]. cbn [mbind result_bind].
  set (h0 := mkEternityHeader _ _ _ _ _ _ _ _ _ _ _ _ _ _ _).
  destruct (eh_Validate h0) as [[]|] eqn:Hv; [|done]. cbn [mbind result_bind].
  unfold eh_SignBytes, eh_Hash. destruct (eh_CanonicalCBOR h0) as [b|] eqn:Hb; [|done].
  cbn [mbind result_bind]. intros E. injection E as <- <-.
  cbn [sh_CommitBundle sh_HeaderCBOR sh_ProposerPubKey sh_Signature sh_HeaderHash].
  split; [done|]. split.
  - apply light_Verify_ok. exists h0, c. do 2 (split; [done|]).
    split; [by rewrite Hr|]. split; [done|]. by rewrite Hd.
  - rewrite Hb. split; [done|]. split; [|done]. rewrite Hpub. by apply ed_sign_verify.
Qed.

(** C22: what a light client accepts is unique: two bundles and validator roots accepted
    for one header are the same, or the bundles' encodings are a BLAKE3 collision. *)
Theorem light_Verify_binding `{Cbor, Blake3} (h : EternityHeader) (c d : CommitBundle) (v w : bytes) :
  bundle_ok c -> bundle_ok d ->
  light_Verify (mkProof (Some h) (Some c) v) = Ok tt ->
  light_Verify (mkProof (Some h) (Some d) w) = Ok tt ->
  v = w /\ (c = d \/ hash_collision (cb_CanonicalCBOR c) (cb_CanonicalCBOR d)).
Proof.
  intros Hc Hd H1 H2. apply light_Verify_ok in H1 as (? & ? & [= <-] & [= <-] & _ & _ & Hh1 & <-).
  apply light_Verify_ok in H2 as (? & ? & [= <-] & [= <-] & _ & _ & Hh2 & <-).
  split; [done|]. apply bundle_hash_inj; [done|done|congruence].
Qed.

Lemma StateRoot_leaves_lookup `{GoRuntime} (m : gmap string Account) addr a : m !! addr = Some a ->
  exists i, StateRoot_leaves m !! i = Some (account_leaf addr a).
Proof.
  intros Ha. assert (Hin : addr ∈ merge_sort str_le (map_iter m).*1) by (apply sorted_keys_elem; by exists a).
  apply list_elem_of_lookup in Hin as [i Hi]. exists i. unfold StateRoot_leaves.
  rewrite list_lookup_fmap, Hi. cbn [fmap option_fmap option_map]. by rewrite Ha.
Qed.
Lemma StateRoot_nonempty `{GoRuntime, Blake3} (db : DB) : Snapshot db <> ∅ ->
  StateRoot db = Blake3RootFromRaw (StateRoot_leaves (Snapshot db)).
Proof. intros Hne. unfold StateRoot. by rewrite bool_decide_false. Qed.

(** The key and value a state proof carries for an account. *)
Definition account_key (addr : string) : bytes := to_bytes "account/" ++ to_bytes addr.
Lemma account_leaf_split addr a :
  account_leaf addr a = (account_key addr ++ [z2b 0]) ++ json_marshal (account_json a).
Proof. unfold account_leaf, account_key. by rewrite <- !app_assoc. Qed.

(** every account has a proof against the state root: for each address in the store
    there are sibling hashes with which [StateProof.VerifyBinary] accepts the account's
    JSON under the key [account/<address>]. *)
Theorem state_proof_complete `{GoRuntime, Blake3} (db : DB) (addr : string) (a : Account) :
  Snapshot db !! addr = Some a ->
  exists siblings directions,
    StateProof_VerifyBinary
      (mkStateProof (account_key addr) (json_marshal (account_json a)) siblings directions [])
      (StateRoot db) = Ok true.
Proof.
  intros Ha. destruct (StateRoot_leaves_lookup _ _ _ Ha) as [i Hi].
  exists (inclusion_path (StateRoot_leaves (Snapshot db)) i).*1,
         (inclusion_path (StateRoot_leaves (Snapshot db)) i).*2.
  unfold StateProof_VerifyBinary. cbn [sp_Key sp_Value sp_Siblings sp_Directions].
  rewrite <- account_leaf_split, (compute_inclusion _ _ _ Hi). cbn.
  rewrite StateRoot_nonempty; [by rewrite bool_decide_true|]. intros E. by rewrite E, lookup_empty in Ha.
Qed.

(** a transaction proof starts from the given hash without a leaf tag, so the hash of
    an inner node passes for a transaction hash: a proof of two leaves' parent
    verifies against the root of a four-leaf batch. *)
Theorem tx_proof_inner_node `{Blake3} (a b c d : bytes) :
  let parent x y := Blake3Node (Blake3Leaf x) (Blake3Leaf y) in
  TxInclusionProof_Verify (mkTxInclusionProof (parent a b) [parent c d] [0])
    (Blake3RootFromRaw [a; b; c; d]) = Ok true.
Proof.
  cbn zeta. unfold TxInclusionProof_Verify, ComputeBlake3Root, BytesTo32. cbn [tp_TxHash tp_Siblings tp_Directions].
  rewrite (bool_decide_true (length (Blake3Node _ _) = 32%nat)) by apply blake3_length.
  cbn [negb mbind result_bind length]. rewrite (bool_decide_true (1%nat = 1%nat)) by done.
  cbn [ComputeBlake3Root_loop]. unfold BytesTo32.
  rewrite (bool_decide_true (length (Blake3Node _ _) = 32%nat)) by apply blake3_length.
  cbn [negb mbind result_bind Z.eqb]. rewrite bool_decide_true by reflexivity. done.
Qed.

(** ** Concrete instances *)
(** A toy signature scheme with the lengths of ed25519: the signature is a hash of public
    key and message. *)
Lemma toy_sign_verify (priv m : bytes) : length priv = 64%nat ->
  bool_decide (sha256 (drop 32 priv ++ m) ++ sha256 m = sha256 (drop 32 priv ++ m) ++ sha256 m) = true.
Proof. intros _. by rewrite bool_decide_true. Qed.
Lemma toy_public_length (priv : bytes) : length priv = 64%nat -> length (drop 32 priv) = 32%nat.
Proof. intros H. rewrite length_drop, H. done. Qed.
Lemma toy_key_length (seed : bytes) : length seed = 32%nat -> length (seed ++ sha256 seed) = 64%nat.
Proof. intros H. by rewrite length_app, sha256_length, H. Qed.
Lemma toy_sign_length (priv m : bytes) : length priv = 64%nat ->
  length (sha256 (drop 32 priv ++ m) ++ sha256 m) = 64%nat.
Proof. intros _. by rewrite length_app, !sha256_length. Qed.
Definition ed0 : Ed25519 := {|
  ed_sign := fun priv m => sha256 (drop 32 priv ++ m) ++ sha256 m;
  ed_verify := fun pub m sig => bool_decide (sig = sha256 (pub ++ m) ++ sha256 m);
  ed_public := fun priv => drop 32 priv;
  ed_key_from_seed := fun seed => seed ++ sha256 seed;
  ed_public_length := toy_public_length; ed_key_length := toy_key_length;
  ed_sign_length := toy_sign_length; ed_sign_verify := toy_sign_verify
|}.

Definition h32 (z : Z) : bytes := replicate 32 (z2b z).
Definition bundle0 : CommitBundle := mkCommitBundle 3 (h32 7) [z2b 1] 3 [].
Lemma bundle0_ok : bundle_ok bundle0.
Proof. split; cbn; unfold in_u32, hash32, small; cbn; lia || done. Qed.
Definition priv0 : bytes := replicate 64 (z2b 5).
Definition params0 : BuildHeaderParams :=
  mkBuildHeaderParams "thomas-dev-1" 4 3 (Some 1700000000) (h32 1) (h32 7) (h32 2) (h32 0)
    (Some bundle0) (h32 5) 0 (h32 0) (h32 0) [].
Definition header0 : EternityHeader :=
  mkEternityHeader 1 "thomas-dev-1" 4 3 1700000000 (h32 1) (h32 7) (h32 2) (h32 0)
    (match @cb_Hash cbor0 blake3_0 bundle0 with Ok d => d | Err _ => [] end)
    (h32 5) 0 (h32 0) (h32 0) [].
Lemma header0_ok : header_ok header0.
Proof. split; vm_compute; intuition congruence. Qed.

Lemma header_hash_binding_witness :
  header0 = header0 \/ @hash_collision blake3_0 (@eh_CanonicalCBOR cbor0 header0) (@eh_CanonicalCBOR cbor0 header0).
Proof. apply (@header_hash_binding cbor0 blake3_0 header0 header0 header0_ok header0_ok). reflexivity. Defined.

Lemma built_header_verifies_witness :
  exists h sh, @BuildSignedEternityHeader cbor0 blake3_0 ed0 0 params0 priv0 = Ok (h, sh) /\
    @light_Verify cbor0 blake3_0 (mkProof (Some h) (sh_CommitBundle sh) (h32 7)) = Ok tt.
Proof.
  destruct (@BuildSignedEternityHeader cbor0 blake3_0 ed0 0 params0 priv0) as [[h sh]|] eqn:E;
    [|exfalso; vm_compute in E; discriminate].
  exists h, sh. split; [reflexivity|].
  apply (@built_header_verifies cbor0 blake3_0 ed0 0 params0 bundle0 priv0 h sh);
    [reflexivity|reflexivity|right; reflexivity|vm_compute; reflexivity|exact E].
Defined.

Lemma light_Verify_binding_witness :
  h32 7 = h32 7 /\ (bundle0 = bundle0 \/
    @hash_collision blake3_0 (@cb_CanonicalCBOR cbor0 bundle0) (@cb_CanonicalCBOR cbor0 bundle0)).
Proof.
  apply (@light_Verify_binding cbor0 blake3_0 header0 bundle0 bundle0 (h32 7) (h32 7));
    [apply bundle0_ok|apply bundle0_ok|vm_compute; reflexivity|vm_compute; reflexivity].
Defined.

Lemma state_proof_complete_witness : exists siblings directions,
  @StateProof_VerifyBinary blake3_0
    (mkStateProof (account_key "tho1bob") (json_marshal (account_json (mkAccount 5 0))) siblings directions [])
    (@StateRoot runtime0 blake3_0 db0) = Ok true.
Proof.
  apply (@state_proof_complete runtime0 blake3_0 db0 "tho1bob" (mkAccount 5 0)).
  vm_compute. reflexivity.
Defined.
