(* ===== verification/Tx.v ===== *)
(** * internal/tx/tx.go: the transfer, its JSON input and its hash. *)
From S2P Require Export GoJson.

Record Transfer := mkTransfer {
  t_Type : Z; t_From : string; t_To : string; t_AmountMas : Z; t_FeeMas : Z; t_Nonce : Z;
  t_ChainID : string; t_ExpiryHeight : Z; t_MsgCommit : string
}.
#[global] Instance Transfer_eq_dec : EqDecision Transfer.
Proof. solve_decision. Defined.
Definition transfer_zero : Transfer := mkTransfer 0 "" "" 0 0 0 "" 0 "".

(** A pointer field: [null] resets it to [nil]. *)
Definition dec_ptr_field {A} (dec : json -> option A) (name : string) (def : option A)
    (l : list (string * json)) : option (option A) :=
  foldl (fun acc kv => a ← acc;
    if bool_decide (fold_key kv.1 = fold_key name)
    then match kv.2 with JNull => Some None | v => Some <$> dec v end else Some a) (Some def) l.

(** The key of the second legacy spelling as it stands in the source: the bytes of an
    ideograph where a micro sign was meant. *)
Definition micro_key (field : string) : string := field +:+ of_bytes (map z2b [233; 151; 156]) +:+ "THO".

Definition Transfer_UnmarshalJSON : json -> option Transfer :=
  dec_struct transfer_zero (fun fs =>
    ty ← dec_field dec_int64 "type" 0 fs;
    from ← dec_field dec_string "from" "" fs;
    to ← dec_field dec_string "to" "" fs;
    nonce ← dec_field dec_uint64 "nonce" 0 fs;
    chain ← dec_field dec_string "chain_id" "" fs;
    expiry ← dec_field dec_uint64 "expiry_height" 0 fs;
    commit ← dec_field dec_string "msg_commitment" "" fs;
    amountMas ← dec_ptr_field dec_uint64 "amount_mas" None fs;
    feeMas ← dec_ptr_field dec_uint64 "fee_mas" None fs;
    amountMicro1 ← dec_ptr_field dec_uint64 "amount" None fs;
    amountMicro2 ← dec_ptr_field dec_uint64 (micro_key "amount_") None fs;
    feeMicro1 ← dec_ptr_field dec_uint64 "fee" None fs;
    feeMicro2 ← dec_ptr_field dec_uint64 (micro_key "fee_") None fs;
    let pick mas micro1 micro2 :=
      match mas, micro1, micro2 with
      | Some m, _, _ => m
      | None, Some u, _ => u *u 10
      | None, None, Some u => u *u 10
      | None, None, None => 0
      end in
    Some (mkTransfer ty from to (pick amountMas amountMicro1 amountMicro2)
            (pick feeMas feeMicro1 feeMicro2) nonce chain expiry commit)).

Definition decodeMsgCommit (s : string) : option bytes :=
  if bool_decide (s = "") then None
  else match b64_decode false s with Some b => Some b | None => Some (to_bytes s) end.

Definition tx_canon (t : Transfer) : json :=
  JObj [("type", JUint (u64 (t_Type t))); ("from", JStr (t_From t)); ("to", JStr (t_To t));
        ("amount_mas", JUint (t_AmountMas t)); ("fee_mas", JUint (t_FeeMas t));
        ("nonce", JUint (t_Nonce t)); ("chain_id", JStr (t_ChainID t));
        ("expiry_height", JUint (t_ExpiryHeight t));
        ("msg_commitment", match decodeMsgCommit (t_MsgCommit t) with
                           | Some b => JStr (b64_encode false b) | None => JNull end)].
Definition tx_Hash (t : Transfer) : string := hex_encode (sha256 (json_marshal (tx_canon t))).

Lemma dec_ptr_none {A} (dec : json -> option A) name (l : list (string * json)) :
  foldl (fun acc kv => a ← acc;
    if bool_decide (fold_key kv.1 = fold_key name)
    then match kv.2 with JNull => Some None | v => Some <$> dec v end else Some a) None l = None.
Proof. by induction l. Qed.
Lemma dec_ptr_hit {A} (dec : json -> option A) name def k v x l :
  bool_decide (fold_key k = fold_key name) = true -> v <> JNull -> dec v = Some x ->
  dec_ptr_field dec name def ((k, v) :: l) = dec_ptr_field dec name (Some x) l.
Proof.
  intros Hk Hv Hd. unfold dec_ptr_field. cbn [foldl mbind option_bind fst snd]. rewrite Hk.
  destruct v; try done; by rewrite Hd.
Qed.
Lemma dec_ptr_miss {A} (dec : json -> option A) name def k v l :
  bool_decide (fold_key k = fold_key name) = false ->
  dec_ptr_field dec name def ((k, v) :: l) = dec_ptr_field dec name def l.
Proof. intros Hk. unfold dec_ptr_field. cbn [foldl mbind option_bind fst snd]. by rewrite Hk. Qed.
Ltac json_ptr_field :=
  match goal with
  | |- mbind ?f (dec_ptr_field ?d ?n ?def []) = _ =>
      change (mbind f (dec_ptr_field d n def [])) with (f def); cbv beta
  | |- mbind _ (dec_ptr_field ?d ?n ?def ((?k, ?v) :: ?l)) = _ =>
      rewrite (dec_ptr_miss d n def k v l) by (vm_compute; reflexivity)
  | |- mbind _ (dec_ptr_field ?d ?n ?def ((?k, ?v) :: ?l)) = _ =>
      erewrite (dec_ptr_hit d n def k v _ l);
        [|vm_compute; reflexivity|discriminate|solve [eauto with go]]
  end.

(** ** Well-formed transfers *)
Record transfer_ok (t : Transfer) : Prop := {
  to_type : in_i64 (t_Type t); to_amount : in_u64 (t_AmountMas t); to_fee : in_u64 (t_FeeMas t);
  to_nonce : in_u64 (t_Nonce t); to_expiry : in_u64 (t_ExpiryHeight t);
  to_from : str_forall is_ascii (t_From t) = true; to_to : str_forall is_ascii (t_To t) = true;
  to_chain : str_forall is_ascii (t_ChainID t) = true
}.

(** [json.Marshal] of a transfer, by its field tags. *)
Definition transfer_json (t : Transfer) : json :=
  JObj [("type", JInt (t_Type t)); ("from", JStr (t_From t)); ("to", JStr (t_To t));
        ("amount_mas", JUint (t_AmountMas t)); ("fee_mas", JUint (t_FeeMas t));
        ("nonce", JUint (t_Nonce t)); ("chain_id", JStr (t_ChainID t));
        ("expiry_height", JUint (t_ExpiryHeight t)); ("msg_commitment", JStr (t_MsgCommit t))].
(** The same with the legacy micro fields. *)
Definition legacy_json (t : Transfer) (amount fee : Z) : json :=
  JObj [("type", JInt (t_Type t)); ("from", JStr (t_From t)); ("to", JStr (t_To t));
        ("amount", JUint amount); ("fee", JUint fee);
        ("nonce", JUint (t_Nonce t)); ("chain_id", JStr (t_ChainID t));
        ("expiry_height", JUint (t_ExpiryHeight t)); ("msg_commitment", JStr (t_MsgCommit t))].

Lemma b64_ascii url b : str_forall is_ascii (b64_encode url b) = true.
Proof. by apply b64_forall; [destruct url|]. Qed.
Lemma tx_canon_ok t : transfer_ok t -> json_ok (tx_canon t).
Proof.
  intros []. unfold tx_canon. destruct (decodeMsgCommit (t_MsgCommit t)); cbn;
    auto 15 using b64_ascii with go.
Qed.

Lemma commit_json_inj (x y : option bytes) :
  match x with Some b => JStr (b64_encode false b) | None => JNull end =
  match y with Some b => JStr (b64_encode false b) | None => JNull end -> x = y.
Proof.
  destruct x as [x|], y as [y|]; intros E; try done. injection E as E.
  apply (f_equal (b64_decode false)) in E. rewrite !b64_roundtrip in E. congruence.
Qed.

(** What the hash covers. *)
Definition same_payment (t u : Transfer) : Prop :=
  t_Type t = t_Type u /\ t_From t = t_From u /\ t_To t = t_To u /\ t_AmountMas t = t_AmountMas u /\
  t_FeeMas t = t_FeeMas u /\ t_Nonce t = t_Nonce u /\ t_ChainID t = t_ChainID u /\
  t_ExpiryHeight t = t_ExpiryHeight u /\
  decodeMsgCommit (t_MsgCommit t) = decodeMsgCommit (t_MsgCommit u).

Lemma u64_of_i64_inj a b : in_i64 a -> in_i64 b -> u64 a = u64 b -> a = b.
Proof. intros Ha Hb E. rewrite <- (i64_u64 a), <- (i64_u64 b) by done. by rewrite E. Qed.
Lemma tx_canon_inj t u : transfer_ok t -> transfer_ok u -> tx_canon t = tx_canon u -> same_payment t u.
Proof.
  intros [] [] E. unfold tx_canon in E. json_inj E.
  repeat split; try assumption; [by apply u64_of_i64_inj|by apply commit_json_inj].
Qed.

Lemma json_marshal_collision i j : json_ok i -> json_ok j ->
  sha256 (json_marshal i) = sha256 (json_marshal j) ->
  i = j \/ (json_marshal i <> json_marshal j /\ sha256 (json_marshal i) = sha256 (json_marshal j)).
Proof.
  intros Hi Hj E. destruct (decide (json_marshal i = json_marshal j)) as [Em|Hne]; [left|by right].
  apply (f_equal json_unmarshal) in Em. rewrite !json_roundtrip in Em by done. congruence.
Qed.

(** ** Properties *)

(** the transaction hash commits to the payment: two transfers with the same hash agree
    in type, parties, amount, fee, nonce, chain, expiry and the decoded message
    commitment, or their canonical encodings are a SHA-256 collision. *)
Theorem tx_Hash_binding (t u : Transfer) : transfer_ok t -> transfer_ok u -> tx_Hash t = tx_Hash u ->
  same_payment t u \/
  (json_marshal (tx_canon t) <> json_marshal (tx_canon u) /\
   sha256 (json_marshal (tx_canon t)) = sha256 (json_marshal (tx_canon u))).
Proof.
  intros Ht Hu E. apply hex_encode_inj in E.
  destruct (json_marshal_collision _ _ (tx_canon_ok t Ht) (tx_canon_ok u Hu) E) as [Ec|Hc]; [left|by right].
  by apply tx_canon_inj.
Qed.

(** decoding: the JSON form of a transfer reads back as that transfer, and a legacy
    object with amounts in the ten times larger unit reads as ten times the
    amounts, multiplied modulo 2^64. *)
Theorem Transfer_decode (t : Transfer) (amount fee : Z) :
  transfer_ok t -> in_u64 amount -> in_u64 fee ->
  Transfer_UnmarshalJSON (transfer_json t) = Some t /\
  Transfer_UnmarshalJSON (legacy_json t amount fee) =
    Some (mkTransfer (t_Type t) (t_From t) (t_To t) (amount *u 10) (fee *u 10) (t_Nonce t)
            (t_ChainID t) (t_ExpiryHeight t) (t_MsgCommit t)).
Proof.
  intros [] Ha Hf. split; unfold Transfer_UnmarshalJSON, transfer_json, legacy_json, dec_struct;
    repeat (json_field || json_ptr_field); [by destruct t|done].
Qed.

Definition transfer0 : Transfer := mkTransfer 1 "tho1alice" "tho1bob" 100 7 1 "thomas-dev-1" 0 "aGk=".
Lemma transfer0_ok : transfer_ok transfer0.
Proof. split; unfold in_u64, in_i64; cbn; lia || done. Qed.
Lemma tx_Hash_binding_witness : same_payment transfer0 (mkTransfer 1 "tho1alice" "tho1bob" 100 7 1 "thomas-dev-1" 0 "hi") \/
  (json_marshal (tx_canon transfer0) <> json_marshal (tx_canon transfer0) /\
   sha256 (json_marshal (tx_canon transfer0)) = sha256 (json_marshal (tx_canon transfer0))).
Proof.
  apply (tx_Hash_binding transfer0 (mkTransfer 1 "tho1alice" "tho1bob" 100 7 1 "thomas-dev-1" 0 "hi"));
    [apply transfer0_ok|split; unfold in_u64, in_i64; cbn; lia || done|vm_compute; reflexivity].
Defined.
Lemma Transfer_decode_witness : Transfer_UnmarshalJSON (transfer_json transfer0) = Some transfer0.
Proof. apply (Transfer_decode transfer0 5 6); [apply transfer0_ok|unfold in_u64; lia..]. Defined.
