(* ===== verification/RewardState.v ===== *)
(** * internal/state/rewards and app/validator_state.go: reward data in the key/value store. *)
From S2P Require Export Supply Stake.

(** ** internal/state/rewards/keys.go *)
Definition validatorScorePrefix : string := "validators".
Definition validatorRewardPrefix : string := "reward".
Definition ValidatorScorePrefix : string := validatorScorePrefix.
Definition normalize `{GoRuntime} (s : string) : string := to_lower (trim_space s).
Definition epochKey (epoch : Z) : string := "epoch_" +:+ hex_encode (be_bytes 8 epoch).
(** [None] is the panic on an empty address. *)
Definition ValidatorScoreKey `{GoRuntime} (address : string) : option string :=
  if bool_decide (address = "") then None
  else Some (validatorScorePrefix +:+ "/" +:+ normalize address +:+ "/score").
Definition ValidatorPayoutKey `{GoRuntime} (epoch : Z) (address : string) : option string :=
  if bool_decide (address = "") then None
  else Some (validatorRewardPrefix +:+ "/" +:+ epochKey epoch +:+ "/v/" +:+ normalize address).
Definition EpochSummaryKey (epoch : Z) : string :=
  validatorRewardPrefix +:+ "/" +:+ epochKey epoch +:+ "/summary".

(** ** internal/state/rewards/adapter.go *)
Record Adapter := mkAdapter { foundationAddr : string; exchangeAddr : string }.
Definition SetFoundationAccount (addr : string) (a : Adapter) : Adapter := mkAdapter addr (exchangeAddr a).
Definition SetExchangeAccount (addr : string) (a : Adapter) : Adapter := mkAdapter (foundationAddr a) addr.

Definition record_json (r : ScoreRecord) : json := JObj [("Address", JStr (Address r))].
Definition record_of_json : json -> option ScoreRecord :=
  dec_struct (mkScoreRecord "") (fun fs =>
    a ← dec_field dec_string "Address" "" fs; Some (mkScoreRecord a)).

(** The callback of [RangePrefix]: append a decoded record or stop at the first error. *)
Definition collect_score (key : string) (value : bytes) (s : list ScoreRecord * option string)
    : (list ScoreRecord * option string) * bool :=
  let '(records, firstErr) := s in
  match json_unmarshal value ≫= record_of_json with
  | None => ((records, Some ("decode validator score " +:+ key)), false)
  | Some rec => ((records ++ [rec], firstErr), true)
  end.
Definition ListValidatorScores `{GoRuntime} (db : DB) : result (list ScoreRecord) :=
  let '(records, firstErr) :=
    RangePrefix (validatorScorePrefix +:+ "/") collect_score db ([], None) in
  match firstErr with Some e => Err e | None => Ok records end.
(** [loadAllValidatorScores] of app/validator_state.go repeats the same scan. *)
Definition loadAllValidatorScores `{GoRuntime} (db : DB) : result (list ScoreRecord) :=
  let '(records, firstErr) :=
    RangePrefix (ValidatorScorePrefix +:+ "/") collect_score db ([], None) in
  match firstErr with Some e => Err e | None => Ok records end.

Definition PutValidatorScore `{GoRuntime} (record : ScoreRecord) : St DB (result unit) :=
  if bool_decide (Address record = "") then mret (Err "validator score requires address") else
  let payload := json_marshal (record_json record) in
  SetKey (default "" (ValidatorScoreKey (Address record))) payload;; mret (Ok tt).
Definition payout_json (amount : Z) : json := JObj [("amount", JUint amount)].
Definition PersistValidatorPayout `{GoRuntime} (epoch : Z) (payout : ValidatorPayout)
    : St DB (result unit) :=
  if bool_decide (vp_Address payout = "") then mret (Err "validator payout missing address") else
  let payload := json_marshal (payout_json (vp_Amount payout)) in
  SetKey (default "" (ValidatorPayoutKey epoch (vp_Address payout))) payload;; mret (Ok tt).
Definition summary_json (s : EpochRewardSummary) : json :=
  JObj [("Height", JUint (ers_Height s)); ("Epoch", JUint (ers_Epoch s));
        ("TotalEmission", JUint (ers_TotalEmission s)); ("ValidatorShare", JUint (ers_ValidatorShare s));
        ("FoundationShare", JUint (ers_FoundationShare s)); ("ExchangeShare", JUint (ers_ExchangeShare s))].
Definition PersistEpochSummary (a : Adapter) (summary : EpochRewardSummary) : St DB (result unit) :=
  let payload := json_marshal (summary_json summary) in
  SetKey (EpochSummaryKey (ers_Epoch summary)) payload;;
  (if negb (bool_decide (foundationAddr a = ""))
   then AddBalance (foundationAddr a) (ers_FoundationShare summary) else mret tt);;
  (if negb (bool_decide (exchangeAddr a = ""))
   then AddBalance (exchangeAddr a) (ers_ExchangeShare summary) else mret tt);;
  mret (Ok tt).
(** [None] as the outer option: the key panics on an empty address. *)
Definition LoadValidatorScore `{GoRuntime} (address : string) (db : DB)
    : option (result (ScoreRecord * bool)) :=
  key ← ValidatorScoreKey address;
  Some match GetKey key db with
       | None => Ok (mkScoreRecord "", false)
       | Some blob => match json_unmarshal blob ≫= record_of_json with
                      | None => Err ("decode validator score " +:+ address)
                      | Some rec => Ok (rec, true)
                      end
       end.
Definition RemoveValidatorScore `{GoRuntime} (address : string) : St DB unit :=
  match ValidatorScoreKey address with Some k => DeleteKey k | None => mret tt end.

(** ** app/engine.go: the validators root of the default build *)
Definition lower_le `{GoRuntime} (a b : ScoreRecord) : Prop :=
  str_le (to_lower (Address a)) (to_lower (Address b)).
#[global] Instance lower_le_dec `{GoRuntime} : RelDecision lower_le.
Proof. intros a b. unfold lower_le. apply _. Defined.
#[global] Instance lower_le_total `{GoRuntime} : Total lower_le.
Proof. intros a b. unfold lower_le. apply (total str_le). Qed.
#[global] Instance lower_le_trans `{GoRuntime} : Transitive lower_le.
Proof. intros a b c. unfold lower_le. by transitivity (to_lower (Address b)). Qed.
Definition computeValidatorsRoot `{GoRuntime, GoSort, Blake3} (scores : list ScoreRecord) : bytes :=
  if bool_decide (scores = []) then zero32 else
  let cp := sort_slice lower_le scores in
  blake3_sum256 (concat ((fun s => to_bytes (to_lower (trim_space (Address s))) ++ [z2b 10]) <$> cp)).

Lemma app_inj_tail (a b s : string) : a +:+ s = b +:+ s -> a = b.
Proof.
  intros E. apply (f_equal to_bytes) in E. rewrite !to_bytes_app in E.
  apply app_inv_tail in E. by apply (inj to_bytes).
Qed.
Lemma ValidatorScoreKey_inj `{GoRuntime} a b k : ValidatorScoreKey a = Some k -> ValidatorScoreKey b = Some k ->
  normalize a = normalize b.
Proof.
  unfold ValidatorScoreKey. case_bool_decide; [done|]. case_bool_decide; [done|].
  intros E1 E. apply (inj Some) in E1, E. rewrite <- E1 in E. symmetry in E. do 2 apply app_inj_head in E. by apply app_inj_tail in E.
Qed.
Lemma epochKey_inj a b : in_u64 a -> in_u64 b -> epochKey a = epochKey b -> a = b.
Proof.
  unfold in_u64. intros Ha Hb E. apply app_inj_head, hex_encode_inj in E.
  rewrite <- (be_word_bytes 8 a), <- (be_word_bytes 8 b), E by (cbn; lia). done.
Qed.
Lemma record_roundtrip r : record_of_json (record_json r) = Some r.
Proof. unfold record_of_json, record_json, dec_struct. json_fields. by destruct r. Qed.
Lemma record_decode r : str_forall is_ascii (Address r) = true ->
  json_unmarshal (json_marshal (record_json r)) ≫= record_of_json = Some r.
Proof. intros Hr. rewrite json_roundtrip by (cbn; auto). apply record_roundtrip. Qed.
Lemma score_key_not_reward `{GoRuntime} a k s : ValidatorScoreKey a = Some k -> k <> validatorRewardPrefix +:+ s.
Proof.
  unfold ValidatorScoreKey. case_bool_decide; [done|]. intros E%(inj Some). subst k. discriminate.
Qed.

(** The scan of a prefix collects the decoded entries in map order. *)
Lemma collect_spec prefix es rs :
  let entries := filter (fun kv => has_prefix kv.1 prefix = true) es in
  let decoded := (fun kv : string * bytes => json_unmarshal kv.2 ≫= record_of_json) <$> entries in
  range_loop prefix collect_score es (rs, None) =
    match mapM id decoded with
    | Some l => (rs ++ l, None)
    | None => range_loop prefix collect_score es (rs, None)
    end.
Proof.
  cbn zeta. revert rs. induction es as [|[k v] es IH]; intros rs; [cbn; by rewrite app_nil_r|].
  rewrite filter_cons. cbn [fst]. cbn [range_loop]. destruct (has_prefix k prefix) eqn:Hp.
  - rewrite decide_True by done. cbn [fmap list_fmap mapM snd]. cbn [collect_score].
    destruct (json_unmarshal v ≫= record_of_json) as [r|] eqn:Hr; cbn [mbind option_bind id].
    + rewrite IH. destruct (mapM id _) as [l|] eqn:Hl; cbn [mret option_ret mbind option_bind]; [by rewrite <- app_assoc|done].
    + done.
  - rewrite decide_False by congruence. apply IH.
Qed.

(** the reward store keeps what it is given: a score that is put is read back by its
    address, no other address (up to case and surrounding space) is affected, and neither
    payouts nor epoch summaries touch any score. *)
Theorem adapter_roundtrip `{GoRuntime} (r : ScoreRecord) (b : string) (db : DB)
    (epoch : Z) (p : ValidatorPayout) (a : Adapter) (s : EpochRewardSummary) :
  Address r <> "" -> str_forall is_ascii (Address r) = true ->
  LoadValidatorScore (Address r) (PutValidatorScore r db).2 = Some (Ok (r, true)) /\
  (normalize b <> normalize (Address r) ->
   LoadValidatorScore b (PutValidatorScore r db).2 = LoadValidatorScore b db) /\
  LoadValidatorScore b (PersistValidatorPayout epoch p db).2 = LoadValidatorScore b db /\
  LoadValidatorScore b (PersistEpochSummary a s db).2 = LoadValidatorScore b db.
Proof.
  intros Hne Hr. unfold LoadValidatorScore, PutValidatorScore.
  rewrite !(bool_decide_false (Address r = "")) by done.
  assert (Hk : exists k, ValidatorScoreKey (Address r) = Some k).
  { unfold ValidatorScoreKey. rewrite bool_decide_false by done. by eexists. }
  destruct Hk as [k Hk]. rewrite Hk. cbn [mbind option_bind default from_option].
  assert (Hframe : forall k' v, (forall kb, ValidatorScoreKey b = Some kb -> kb <> k') ->
    forall d, (key ← ValidatorScoreKey b; Some match GetKey key (SetKey k' v d).2 with
       | None => Ok (mkScoreRecord "", false)
       | Some blob => match json_unmarshal blob ≫= record_of_json with
                      | None => Err ("decode validator score " +:+ b)
                      | Some rec => Ok (rec, true) end end) =
    (key ← ValidatorScoreKey b; Some match GetKey key d with
       | None => Ok (mkScoreRecord "", false)
       | Some blob => match json_unmarshal blob ≫= record_of_json with
                      | None => Err ("decode validator score " +:+ b)
                      | Some rec => Ok (rec, true) end end)).
  { intros k' v Hk' d. destruct (ValidatorScoreKey b) as [kb|]; [|done]. cbn [mbind option_bind].
    unfold GetKey, SetKey. cbn [snd kv]. rewrite lookup_insert_ne; [done|]. intros ->. by apply (Hk' kb). }
  split; [|split; [|split]].
  - rewrite st_exec_bind. unfold GetKey, SetKey. cbn [fst snd mret St_ret kv]. rewrite lookup_insert_eq.
    by rewrite record_decode.
  - intros Hn. rewrite st_exec_bind. cbn [mret St_ret snd]. apply Hframe.
    intros kb Hkb ->. apply Hn. by eapply ValidatorScoreKey_inj.
  - unfold PersistValidatorPayout. case_bool_decide; [done|]. rewrite st_exec_bind.
    cbn [mret St_ret snd]. apply Hframe. intros kb Hkb.
    unfold ValidatorPayoutKey. rewrite bool_decide_false by done. by eapply score_key_not_reward.
  - unfold PersistEpochSummary. rewrite !st_exec_bind. cbn [mret St_ret snd].
    transitivity (key ← ValidatorScoreKey b; Some match GetKey key (SetKey (EpochSummaryKey (ers_Epoch s)) (json_marshal (summary_json s)) db).2 with
       | None => Ok (mkScoreRecord "", false)
       | Some blob => match json_unmarshal blob ≫= record_of_json with
                      | None => Err ("decode validator score " +:+ b)
                      | Some rec => Ok (rec, true) end end); [|apply Hframe; intros; by eapply score_key_not_reward].
    assert (Hkv : forall addr amt d, kv (AddBalance addr amt d).2 = kv d).
    { intros addr amt d. unfold AddBalance. destruct (amt =? 0); [done|]. rewrite st_exec_bind.
      unfold addTo. rewrite st_exec_bind. unfold get. by destruct (accts d !! addr). }
    unfold GetKey. destruct (negb (bool_decide (foundationAddr a = ""))),
      (negb (bool_decide (exchangeAddr a = ""))); cbn [mret St_ret snd]; by rewrite ?Hkv.
Qed.

Lemma adapter_roundtrip_witness :
  @LoadValidatorScore runtime0 "VAL1"
    (@PutValidatorScore runtime0 (mkScoreRecord "VAL1") NewDB).2 = Some (Ok (mkScoreRecord "VAL1", true)).
Proof.
  apply (@adapter_roundtrip runtime0 (mkScoreRecord "VAL1") "" NewDB 0 (mkValidatorPayout "" 0)
    (mkAdapter "" "") (mkEpochRewardSummary 0 0 0 0 0 0)); [discriminate|reflexivity].
Defined.
