(* ===== verification/LegacyState.v ===== *)
(** * internal/state under the tag legacy_penalty: validator scores, payouts and epoch summaries.

    reward.go, validator_events.go and validators_root.go: three more maps of the database,
    and a root over the listed scores.  Without the tag legacy_types_stub.go has empty types
    in their place. *)
From S2P Require Export GoFloat State.

(** ** IEEE bits *)
Definition fsub : spec_float -> spec_float -> spec_float := SFsub F_prec F_emax.
(** [math.Float64bits]; the payload of a NaN is left open. *)
Class NanBits := { nan_bits : Z; nan_bits_ok : 2047 * 2 ^ 52 < nan_bits mod M63 /\ in_u64 nan_bits }.
Lemma nan_go_ok : 2047 * 2 ^ 52 < 9221120237041090561 mod M63 /\ in_u64 9221120237041090561.
Proof. unfold in_u64. vm_compute. by repeat split. Qed.
Definition nan_go : NanBits := {| nan_bits := 9221120237041090561; nan_bits_ok := nan_go_ok |}.
Definition float64bits `{NanBits} (f : spec_float) : Z :=
  let sign (s : bool) := if s then M63 else 0 in
  match f with
  | S754_nan => nan_bits
  | S754_zero s => sign s
  | S754_infinity s => sign s + 2047 * 2 ^ 52
  | S754_finite s m e =>
      sign s + (if Zpos m <? 2 ^ 52 then Zpos m else (e + 1075) * 2 ^ 52 + (Zpos m - 2 ^ 52))
  end.
Example bits_values `{NanBits} : float64bits fone = 4607182418800017408 /\
  float64bits (fconst 1 3) = 4562254508917369340 /\ float64bits (float64 (-100)) = 13860109328209412096.
Proof. vm_compute. done. Qed.

(** ** reward.go: the records *)
Record ValidatorScoreRecord := mkValidatorScoreRecord {
  Address : string; StakeClass : string; ConsensusScore : spec_float; Participation : spec_float;
  PoolNode : bool; ConsecutiveMisses : Z; LastUpdatedHeight : Z; LastRewardedEpoch : Z
}.
Record ValidatorPayoutRecord := mkValidatorPayoutRecord {
  vpr_Address : string; vpr_Amount : Z; vpr_Epoch : Z; vpr_Height : Z; vpr_TimeUTC : Z
}.
Record EpochRewardSummary := mkEpochRewardSummary {
  Epoch : Z; Height : Z; TotalEmission : Z; ValidatorShare : Z; FoundationShare : Z; ExchangeShare : Z
}.
Definition fzero : spec_float := S754_zero false.
Definition no_record : ValidatorScoreRecord := mkValidatorScoreRecord "" "" fzero fzero false 0 0 0.

(** The fields of the database that these files use; its mutex makes each method one step. *)
Record RewardDB := mkRewardDB {
  validatorScores : gmap string ValidatorScoreRecord;
  epochPayouts : gmap Z (gmap string ValidatorPayoutRecord);
  epochSummaries : gmap Z EpochRewardSummary
}.
Definition NewRewardDB : RewardDB := mkRewardDB ∅ ∅ ∅.

Section Operations.
Context {RT : GoRuntime} {GS : GoSort}.

Definition UpsertValidatorScore (rec : ValidatorScoreRecord) : St RewardDB unit := fun db =>
  (tt, mkRewardDB (<[to_lower (Address rec) := rec]> (validatorScores db)) (epochPayouts db) (epochSummaries db)).
Definition GetValidatorScore (address : string) (db : RewardDB) : ValidatorScoreRecord * bool :=
  match validatorScores db !! to_lower address with
  | Some rec => (rec, true)
  | None => (no_record, false)
  end.
Definition addr_le (a b : string) : Prop := str_le (to_lower a) (to_lower b).
#[global] Instance addr_le_dec : RelDecision addr_le.
Proof. intros a b. unfold addr_le. apply _. Defined.
Definition score_le (a b : ValidatorScoreRecord) : Prop := addr_le (Address a) (Address b).
#[global] Instance score_le_dec : RelDecision score_le.
Proof. intros a b. unfold score_le. apply _. Defined.
Definition payout_le (a b : ValidatorPayoutRecord) : Prop := addr_le (vpr_Address a) (vpr_Address b).
#[global] Instance payout_le_dec : RelDecision payout_le.
Proof. intros a b. unfold payout_le. apply _. Defined.
Definition ListValidatorScores (db : RewardDB) : list ValidatorScoreRecord :=
  sort_slice score_le (map_iter (validatorScores db)).*2.

Definition RecordValidatorPayout (epoch : Z) (payout : ValidatorPayoutRecord) : St RewardDB unit := fun db =>
  let bucket := default ∅ (epochPayouts db !! epoch) in
  (tt, mkRewardDB (validatorScores db)
         (<[epoch := <[to_lower (vpr_Address payout) := payout]> bucket]> (epochPayouts db)) (epochSummaries db)).
Definition EpochPayouts (epoch : Z) (db : RewardDB) : list ValidatorPayoutRecord :=
  match epochPayouts db !! epoch with
  | None => []
  | Some bucket => sort_slice payout_le (map_iter bucket).*2
  end.
Definition SetEpochRewardSummary (summary : EpochRewardSummary) : St RewardDB unit := fun db =>
  (tt, mkRewardDB (validatorScores db) (epochPayouts db) (<[Epoch summary := summary]> (epochSummaries db))).
Definition GetEpochRewardSummary (epoch : Z) (db : RewardDB) : EpochRewardSummary * bool :=
  match epochSummaries db !! epoch with
  | Some summary => (summary, true)
  | None => (mkEpochRewardSummary 0 0 0 0 0 0, false)
  end.

(** ** validator_events.go *)
Inductive ScoreEvent :=
  | ScoreEventProposalSuccess | ScoreEventProposalMiss | ScoreEventBackupRefusal | ScoreEventEpochStability
  | ScoreEventOther (n : Z).                  (* any other value of the type *)
Definition set_score (s : spec_float) (misses : Z) (rec : ValidatorScoreRecord) : ValidatorScoreRecord :=
  mkValidatorScoreRecord (Address rec) (StakeClass rec) s (Participation rec) (PoolNode rec) misses
    (LastUpdatedHeight rec) (LastRewardedEpoch rec).
Definition set_height (h : Z) (rec : ValidatorScoreRecord) : ValidatorScoreRecord :=
  mkValidatorScoreRecord (Address rec) (StakeClass rec) (ConsensusScore rec) (Participation rec) (PoolNode rec)
    (ConsecutiveMisses rec) h (LastRewardedEpoch rec).
Definition ensureDefaults (address class : string) (rec : ValidatorScoreRecord) : ValidatorScoreRecord :=
  mkValidatorScoreRecord (if bool_decide (Address rec = "") then address else Address rec)
    (if bool_decide (StakeClass rec = "") then class else StakeClass rec)
    (ConsensusScore rec) (Participation rec) (PoolNode rec)
    (ConsecutiveMisses rec) (LastUpdatedHeight rec) (LastRewardedEpoch rec).
Definition miss_penalty (misses : Z) (score : spec_float) : spec_float :=
  if misses =? 1 then score
  else if misses =? 2 then fsub score fhalf
  else if misses =? 3 then fsub score (float64 2)
  else fsub score (float64 100).
Definition ApplyEvent (event : ScoreEvent) (height : Z) (rec : ValidatorScoreRecord) : ValidatorScoreRecord :=
  let score := ConsensusScore rec in
  let misses := ConsecutiveMisses rec in
  let rec := match event with
    | ScoreEventProposalSuccess => set_score (fadd score (float64 10)) 0 rec
    | ScoreEventProposalMiss => let misses := u32 (misses + 1) in set_score (miss_penalty misses score) misses rec
    | ScoreEventBackupRefusal => set_score (fsub score (float64 10)) misses rec
    | ScoreEventEpochStability => set_score (fadd score (fconst 1 3)) misses rec
    | ScoreEventOther _ => rec
    end in
  set_height height rec.
Definition Weight `{GoFloat} (base : gmap string Z) (poolMultiplier : Z) (rec : ValidatorScoreRecord) : Z :=
  let weight := default 0 (base !! to_lower (StakeClass rec)) in
  let weight := if flt fzero (ConsensusScore rec) then weight +u uint64_of (math_round (ConsensusScore rec)) else weight in
  let weight := if flt fzero (Participation rec) then weight +u uint64_of (math_round (Participation rec)) else weight in
  if PoolNode rec && (1 <? poolMultiplier) then weight *u poolMultiplier else weight.
Definition ApplyValidatorEvent (address class : string) (event : ScoreEvent) (height : Z) : St RewardDB unit := fun db =>
  let key := to_lower address in
  let rec := default no_record (validatorScores db !! key) in
  let rec := ApplyEvent event height (ensureDefaults address class rec) in
  (tt, mkRewardDB (<[key := rec]> (validatorScores db)) (epochPayouts db) (epochSummaries db)).

(** ** validators_root.go *)
Context {NB : NanBits}.
Definition root_entry (rec : ValidatorScoreRecord) : bytes :=
  to_bytes (to_lower (Address rec)) ++ to_bytes (to_lower (StakeClass rec)) ++
  be_bytes 8 (float64bits (ConsensusScore rec)) ++ be_bytes 8 (float64bits (Participation rec)) ++
  [z2b (if PoolNode rec then 1 else 0)] ++ be_bytes 4 (ConsecutiveMisses rec) ++
  be_bytes 8 (LastUpdatedHeight rec) ++ be_bytes 8 (LastRewardedEpoch rec).
Definition ComputeValidatorsRoot (records : list ValidatorScoreRecord) : bytes :=
  let clone := sort_slice score_le records in
  sha256 (concat (root_entry <$> clone)).
Definition ComputeNextValidatorsRoot (records : list ValidatorScoreRecord) : bytes := ComputeValidatorsRoot records.
End Operations.

(** ** Histories *)
Inductive reward_op :=
  | O_upsert (rec : ValidatorScoreRecord)
  | O_event (address class : string) (event : ScoreEvent) (height : Z)
  | O_payout (epoch : Z) (payout : ValidatorPayoutRecord)
  | O_summary (summary : EpochRewardSummary).
Definition reward_step `{GoRuntime} (o : reward_op) : St RewardDB unit :=
  match o with
  | O_upsert rec => UpsertValidatorScore rec
  | O_event address class event height => ApplyValidatorEvent address class event height
  | O_payout epoch payout => RecordValidatorPayout epoch payout
  | O_summary summary => SetEpochRewardSummary summary
  end.
Definition history `{GoRuntime} (os : list reward_op) : RewardDB :=
  foldl (fun db o => (reward_step o db).2) NewRewardDB os.

(** ** Tables keyed by the lower-cased address of their records *)
Section Keyed.
Context {RT : GoRuntime} {A : Type} (addr : A -> string).
Definition keyed (m : gmap string A) : Prop := forall k a, m !! k = Some a -> k = to_lower (addr a).
Lemma keyed_empty : keyed ∅.
Proof. done. Qed.
Lemma keyed_insert m k a : keyed m -> k = to_lower (addr a) -> keyed (<[k := a]> m).
Proof. intros Hm Hk j b [[-> ->]|[_ Hj]]%lookup_insert_Some; [done|by apply Hm]. Qed.
Lemma keyed_values m a : keyed m -> a ∈ (map_to_list m).*2 <-> m !! to_lower (addr a) = Some a.
Proof.
  intros Hm. rewrite list_elem_of_fmap. split.
  - intros ([k b] & -> & Hk%elem_of_map_to_list). cbn. by rewrite <- (Hm k b Hk).
  - intros Ha. exists (to_lower (addr a), a). split; [done|by apply elem_of_map_to_list].
Qed.

(** Its listing by a sort on the lower-cased address. *)
Context (R : A -> A -> Prop) `{!RelDecision R} (HR : forall a b, R a b <-> addr_le (addr a) (addr b)).
#[local] Instance keyed_total : Total R.
Proof. intros a b. rewrite !HR. apply str_le_total. Qed.
#[local] Instance keyed_trans : Transitive R.
Proof. intros a b c. rewrite !HR. unfold addr_le. apply transitivity. Qed.
Lemma keyed_unique (S1 S2 : GoSort) m l1 l2 : keyed m -> l1 ≡ₚ (map_to_list m).*2 -> l2 ≡ₚ (map_to_list m).*2 ->
  @sort_slice S1 A R _ l1 = @sort_slice S2 A R _ l2.
Proof.
  intros Hm H1 H2. apply sort_slice_unique; [apply _|apply _| |by rewrite H1, H2].
  intros x y Hx Hy Hxy Hyx. rewrite H1, keyed_values in Hx, Hy by done.
  assert (E : to_lower (addr x) = to_lower (addr y)) by (apply (anti_symm str_le); by apply HR). rewrite E in Hx. congruence.
Qed.
(** Strictly increasing, so that no address is listed twice. *)
Lemma keyed_increasing (S : GoSort) m l : keyed m -> l ≡ₚ (map_to_list m).*2 ->
  StronglySorted (fun a b => str_le (to_lower (addr a)) (to_lower (addr b)) /\ to_lower (addr a) <> to_lower (addr b))
    (@sort_slice S A R _ l).
Proof.
  intros Hm Hl. pose proof (transitivity (@sort_slice_perm S A R _ l) Hl) as Hp.
  pose proof (Sorted_StronglySorted R _ (@sort_slice_sorted S A R _ _ l)) as Hs.
  assert (Hin : forall a, a ∈ @sort_slice S A R _ l -> m !! to_lower (addr a) = Some a)
    by (intros a Ha; rewrite Hp in Ha; by apply keyed_values).
  assert (Hnd : NoDup (@sort_slice S A R _ l)).
  { rewrite Hp. apply NoDup_fmap_2_strong; [|apply NoDup_map_to_list].
    intros [j a] [k b] Ha%elem_of_map_to_list Hb%elem_of_map_to_list E. cbn in E. subst b.
    by rewrite (Hm j a Ha), (Hm k a Hb). }
  clear Hp. induction Hs as [|a l' Hs IH Ha]; constructor.
  - apply IH; [intros; apply Hin; set_solver|]. by apply NoDup_cons in Hnd as [_ ?].
  - apply NoDup_cons in Hnd as [Hnot _]. rewrite Forall_forall in Ha |- *. intros b Hb. split; [by apply HR, Ha|].
    intros E. apply Hnot. pose proof (Hin a ltac:(set_solver)) as Hma. pose proof (Hin b ltac:(set_solver)) as Hmb. congruence.
Qed.
End Keyed.

(** ** Invariant *)
Record tables_ok `{GoRuntime} (db : RewardDB) : Prop := {
  to_scores : keyed Address (validatorScores db);
  to_payouts : forall epoch bucket, epochPayouts db !! epoch = Some bucket -> keyed vpr_Address bucket;
  to_summaries : forall epoch s, epochSummaries db !! epoch = Some s -> Epoch s = epoch
}.
Lemma ApplyEvent_address event h rec : Address (ApplyEvent event h rec) = Address rec.
Proof. by destruct event. Qed.
Lemma reward_step_ok `{GoRuntime} o db : tables_ok db -> tables_ok (reward_step o db).2.
Proof.
  intros [Hs Hp Hm]. destruct o as [rec|address class event h|epoch p|s]; split; cbn; try done.
  - by apply keyed_insert.
  - apply keyed_insert; [done|]. rewrite ApplyEvent_address. cbn.
    destruct (validatorScores db !! to_lower address) as [rec|] eqn:Hr; cbn; [|done].
    case_bool_decide; [done|]. by apply Hs.
  - intros e b [[<- <-]|[_ Hb]]%lookup_insert_Some; [|by eapply Hp]. apply keyed_insert; [|done].
    destruct (epochPayouts db !! epoch) as [b|] eqn:Hb; cbn; [by eapply Hp|apply keyed_empty].
  - intros e t [[<- <-]|[_ He]]%lookup_insert_Some; [done|by eapply Hm].
Qed.
Lemma history_ok `{GoRuntime} os : tables_ok (history os).
Proof.
  unfold history. assert (H0 : tables_ok NewRewardDB) by done. revert H0. generalize NewRewardDB.
  induction os as [|o os IH]; intros db Hdb; [done|]. cbn. by apply IH, reward_step_ok.
Qed.

Lemma iter_values `{GoRuntime} {A} (m : gmap string A) : (map_iter m).*2 ≡ₚ (map_to_list m).*2.
Proof. by rewrite (map_iter_perm _ m). Qed.
Lemma listing_elem `{GoRuntime, GoSort} {A} (R : A -> A -> Prop) `{!RelDecision R} (m : gmap string A) a :
  a ∈ sort_slice R (map_iter m).*2 <-> a ∈ (map_to_list m).*2.
Proof. by rewrite sort_slice_perm, iter_values. Qed.

(** C38: whatever was stored, in whatever order, the scores are listed in strictly
    increasing order of their lower-cased addresses; the list holds exactly the records that
    [GetValidatorScore] finds; and the root over any arrangement of the list, with any
    sorting algorithm, is the root over the list. *)
Theorem legacy_listing {RT : GoRuntime} {GS GS' : GoSort} {NB : NanBits} os recs :
  let db := history os in
  let listed := @ListValidatorScores RT GS db in
  recs ≡ₚ listed ->
  StronglySorted (fun a b => str_le (to_lower (Address a)) (to_lower (Address b)) /\
                             to_lower (Address a) <> to_lower (Address b)) listed /\
  (forall a rec, GetValidatorScore a db = (rec, true) <-> rec ∈ listed /\ to_lower (Address rec) = to_lower a) /\
  @ComputeValidatorsRoot RT GS' NB recs = @ComputeValidatorsRoot RT GS NB listed.
Proof.
  intros db listed Hrecs. pose proof (to_scores _ (history_ok os)) as Hk. fold db in Hk.
  split; [|split].
  - by eapply keyed_increasing; [| |apply iter_values].
  - intros a rec. unfold listed, ListValidatorScores. rewrite listing_elem, (keyed_values Address) by done.
    unfold GetValidatorScore. split.
    + destruct (validatorScores db !! to_lower a) as [r|] eqn:Hr; [|done]. intros [= ->]. by rewrite <- (Hk _ _ Hr).
    + intros [Hr <-]. by rewrite Hr.
  - assert (Hl : listed ≡ₚ (map_to_list (validatorScores db)).*2) by (etrans; [apply sort_slice_perm|apply iter_values]).
    unfold ComputeValidatorsRoot. do 3 f_equal.
    eapply (keyed_unique Address); [| exact Hk|etrans; [exact Hrecs|exact Hl]|exact Hl]. done.
Qed.
Definition rec_a : ValidatorScoreRecord := mkValidatorScoreRecord "ValidatorA" "g1" (float64 5) fone false 0 0 0.
Definition rec_b : ValidatorScoreRecord := mkValidatorScoreRecord "validatorB" "g2" (fconst 35 1) fzero true 0 0 0.
Lemma legacy_listing_witness :
  let db := @history runtime0 [O_upsert rec_b; O_upsert rec_a; O_event "VALIDATORB" "g9" ScoreEventProposalSuccess 7] in
  let rec_b' := mkValidatorScoreRecord "validatorB" "g2" (fconst 135 1) fzero true 0 7 0 in
  @ListValidatorScores runtime0 gosort0 db = [rec_a; rec_b'] /\
  @ComputeValidatorsRoot runtime0 gosort0 nan_go [rec_b'; rec_a] =
    @ComputeValidatorsRoot runtime0 gosort0 nan_go (@ListValidatorScores runtime0 gosort0 db).
Proof.
  intros db rec_b'. assert (Hl : @ListValidatorScores runtime0 gosort0 db = [rec_a; rec_b']) by (vm_compute; reflexivity).
  split; [exact Hl|].
  destruct (@legacy_listing runtime0 gosort0 gosort0 nan_go
    [O_upsert rec_b; O_upsert rec_a; O_event "VALIDATORB" "g9" ScoreEventProposalSuccess 7] [rec_b'; rec_a]) as (_ & _ & H).
  - fold db. rewrite Hl. apply Permutation_swap.
  - exact H.
Defined.

(** a payout replaces the one recorded for the same epoch and address (up to case); every
    other payout and every other epoch stays listed as it was. *)
Theorem payout_overwrites {RT : GoRuntime} {GS : GoSort} os epoch p :
  let db := history os in let db' := history (os ++ [O_payout epoch p]) in
  (forall q, q ∈ EpochPayouts epoch db' <->
     q = p \/ (q ∈ EpochPayouts epoch db /\ to_lower (vpr_Address q) <> to_lower (vpr_Address p))) /\
  forall e, e <> epoch -> EpochPayouts e db' = EpochPayouts e db.
Proof.
  intros db db'. pose proof (to_payouts _ (history_ok os)) as Hk. pose proof (to_payouts _ (history_ok (os ++ [O_payout epoch p]))) as Hk'.
  assert (E : epochPayouts db' = <[epoch := <[to_lower (vpr_Address p) := p]> (default ∅ (epochPayouts db !! epoch))]> (epochPayouts db))
    by (unfold db', history; by rewrite foldl_app).
  fold db in Hk. fold db' in Hk'. rewrite E in Hk'. unfold EpochPayouts. rewrite E. split.
  - intros q. specialize (Hk' epoch). rewrite lookup_insert_eq in Hk' |- *. rewrite listing_elem, (keyed_values vpr_Address) by by apply Hk'.
    assert (Hq : q ∈ match epochPayouts db !! epoch with Some b => sort_slice payout_le (map_iter b).*2 | None => [] end <->
                 default ∅ (epochPayouts db !! epoch) !! to_lower (vpr_Address q) = Some q).
    { destruct (epochPayouts db !! epoch) as [b|] eqn:Hb; cbn; [|set_solver]. rewrite listing_elem. apply keyed_values. by eapply Hk. }
    rewrite Hq, lookup_insert_Some. split.
    + intros [[_ ->]|[? ?]]; [by left|right; split; [done|congruence]].
    + intros [->|[? ?]]; [by left|right; split; [congruence|done]].
  - intros e Hne. by rewrite lookup_insert_ne.
Qed.

(** ** Scores *)
Fixpoint misses (hs : list Z) (rec : ValidatorScoreRecord) : ValidatorScoreRecord :=
  match hs with [] => rec | h :: hs => misses hs (ApplyEvent ScoreEventProposalMiss h rec) end.
Lemma misses_app hs1 hs2 rec : misses (hs1 ++ hs2) rec = misses hs2 (misses hs1 rec).
Proof. revert rec. by induction hs1 as [|h hs1 IH]; intros rec; [|apply IH]. Qed.
Lemma misses_spec hs rec : ConsecutiveMisses rec = 0 -> (Z.of_nat (length hs) < M32) ->
  ConsecutiveMisses (misses hs rec) = Z.of_nat (length hs) /\
  ConsensusScore (misses hs rec) =
    match length hs with
    | O | 1%nat => ConsensusScore rec
    | 2%nat => fsub (ConsensusScore rec) fhalf
    | S (S (S n)) => Nat.iter n (fun s => fsub s (float64 100)) (fsub (fsub (ConsensusScore rec) fhalf) (float64 2))
    end.
Proof.
  intros H0. induction hs as [|h hs IH] using rev_ind; [done|]. rewrite length_app, misses_app. cbn [length misses]. intros Hl.
  destruct IH as [Hm Hs]; [lia|]. rewrite Nat.add_comm in Hl |- *. cbn [Nat.add] in Hl |- *.
  unfold ApplyEvent. cbn [set_score set_height ConsecutiveMisses ConsensusScore]. rewrite Hm, Hs.
  rewrite (u32_small (Z.of_nat (length hs) + 1)) by (unfold in_u32; lia). split; [lia|]. unfold miss_penalty.
  destruct (length hs) as [|[|[|n]]]; [done..|]. cbn [Nat.iter].
  destruct (Z.eqb_spec (Z.of_nat (S (S (S n))) + 1) 1); [lia|]. destruct (Z.eqb_spec (Z.of_nat (S (S (S n))) + 1) 2); [lia|].
  by destruct (Z.eqb_spec (Z.of_nat (S (S (S n))) + 1) 3); [lia|].
Qed.
(** the root does not separate an address from the stake class after it: two sets with
    different addresses and classes have the same root. *)
Theorem legacy_root_collision {NB : NanBits} :
  let a := mkValidatorScoreRecord "val" "g1" fone fzero false 0 0 0 in
  let b := mkValidatorScoreRecord "valg" "1" fone fzero false 0 0 0 in
  Address a <> Address b /\ StakeClass a <> StakeClass b /\
  @ComputeValidatorsRoot runtime0 gosort0 NB [a] = @ComputeValidatorsRoot runtime0 gosort0 NB [b].
Proof. intros a b. split; [done|]. split; [done|]. unfold ComputeValidatorsRoot. by f_equal. Qed.
