(* ===== verification/LegacyValidators.v ===== *)
(** * The validators of the tag legacy_penalty: scores, penalties and their root.

    - _quarantine/stake/validator.go: the validator and the penalties that the tagged files
      were written against (internal/stake has replaced them, so the tag no longer builds);
    - internal/state/validators: [ScoreRecord] with all its fields, its events and the
      Merkle root over the encoded records. *)
From S2P Require Export LegacyState Stake.

(** ** internal/types/stake.go *)
Definition StakeClassG1 : Z := 0.
Definition StakeClassG2 : Z := 1.
Definition StakeClassG3 : Z := 2.
Definition StakeClassG4 : Z := 3.
Definition StakeClassG5 : Z := 4.

(** ** _quarantine/stake/validator.go *)
Definition EventProposalSuccess : string := "proposal_success".
Definition EventProposalMiss : string := "proposal_miss".
Definition EventBackupRefusal : string := "backup_refusal".
Definition EventEpochStability : string := "epoch_stability_bonus".
Record Validator := mkValidator {
  v_Address : string; v_PubKey : bytes; v_StakeMas : Z; v_Score : spec_float;
  v_ConsecutiveMisses : Z; v_TotalMisses : Z; v_Jailed : bool
}.
Record PenaltyConfig := mkPenaltyConfig {
  SuccessReward : spec_float; SecondMissPenalty : spec_float; ThirdMissPenalty : spec_float;
  FourthMissPenalty : spec_float; BackupRefusalPenalty : spec_float; EpochStabilityBonus : spec_float
}.
Definition DefaultPenaltyConfig : PenaltyConfig :=
  mkPenaltyConfig (float64 10) (fconst (-5) 1) (float64 (-2)) (float64 (-100)) (float64 (-10)) (fconst 1 3).
Definition set_counts (score : spec_float) (misses total : Z) (v : Validator) : Validator :=
  mkValidator (v_Address v) (v_PubKey v) (v_StakeMas v) score misses total (v_Jailed v).
Definition Validator_ApplyEvent (event : string) (cfg : PenaltyConfig) (v : Validator) : Validator :=
  let score := v_Score v in
  let misses := v_ConsecutiveMisses v in
  let total := v_TotalMisses v in
  if bool_decide (event = EventProposalSuccess) then set_counts (fadd score (SuccessReward cfg)) 0 total v
  else if bool_decide (event = EventProposalMiss) then
    let misses := u32 (misses + 1) in
    let total := total +u 1 in
    if misses =? 1 then set_counts score misses total v
    else if misses =? 2 then set_counts (fadd score (SecondMissPenalty cfg)) misses total v
    else if misses =? 3 then set_counts (fadd score (ThirdMissPenalty cfg)) misses total v
    else if misses =? 4 then set_counts (fadd score (FourthMissPenalty cfg)) misses total v
    else set_counts score 4 total v
  else if bool_decide (event = EventBackupRefusal) then
    set_counts (fadd score (BackupRefusalPenalty cfg)) misses total v
  else if bool_decide (event = EventEpochStability) then
    set_counts (fadd score (EpochStabilityBonus cfg)) misses total v
  else v.

(** ** internal/state/validators/score.go and penalty.go *)
Record ScoreRecord := mkScoreRecord {
  Address : string; StakeClass : Z; ConsensusScore : Z; Participation : Z; PoolNode : bool;
  LastUpdatedHeight : Z; LastRewardedEpoch : Z; Score : spec_float; ConsecutiveMisses : Z;
  TotalMisses : Z; Jailed : bool
}.
Definition Clone (r : ScoreRecord) : ScoreRecord :=
  mkScoreRecord (Address r) (StakeClass r) (ConsensusScore r) (Participation r) (PoolNode r)
    (LastUpdatedHeight r) (LastRewardedEpoch r) (Score r) (ConsecutiveMisses r) (TotalMisses r) (Jailed r).
Definition ResetForEpoch (epoch height : Z) (r : ScoreRecord) : ScoreRecord :=
  mkScoreRecord (Address r) (StakeClass r) (ConsensusScore r) 0 (PoolNode r)
    height epoch (Score r) (ConsecutiveMisses r) (TotalMisses r) (Jailed r).
Definition ScoreRecord_ApplyEvent (event : string) (cfg : PenaltyConfig) (r : ScoreRecord) : ScoreRecord :=
  let validator := mkValidator (Address r) [] 0 (Score r) (ConsecutiveMisses r) (TotalMisses r) (Jailed r) in
  let validator := Validator_ApplyEvent event cfg validator in
  mkScoreRecord (Address r) (StakeClass r) (ConsensusScore r) (Participation r) (PoolNode r)
    (LastUpdatedHeight r) (LastRewardedEpoch r) (v_Score validator) (v_ConsecutiveMisses validator)
    (v_TotalMisses validator) (v_Jailed validator).

(** ** internal/state/validators/root.go *)
Definition le_bytes (n : nat) (v : Z) : bytes := reverse (be_bytes n v).
Definition writeUint64 (v : Z) (buf : bytes) : bytes := buf ++ le_bytes 8 v.
Definition writeUint32 (v : Z) (buf : bytes) : bytes := buf ++ le_bytes 4 v.
Definition writeInt64 (v : Z) (buf : bytes) : bytes := writeUint64 (u64 v) buf.
Definition write_flag (b : bool) (buf : bytes) : bytes := buf ++ [z2b (if b then 1 else 0)].
Section Root.
Context {RT : GoRuntime} {NB : NanBits}.
Definition encodeScoreRecord (rec : ScoreRecord) : bytes :=
  let addr := to_lower (trim_space (Address rec)) in
  let buf := to_bytes addr ++ [z2b 0] in
  let buf := writeUint64 (u64 (StakeClass rec)) buf in
  let buf := writeInt64 (ConsensusScore rec) buf in
  let buf := writeInt64 (Participation rec) buf in
  let buf := write_flag (PoolNode rec) buf in
  let buf := writeUint64 (LastUpdatedHeight rec) buf in
  let buf := writeUint64 (LastRewardedEpoch rec) buf in
  let buf := writeUint64 (float64bits (Score rec)) buf in
  let buf := writeUint32 (ConsecutiveMisses rec) buf in
  let buf := writeUint64 (TotalMisses rec) buf in
  write_flag (Jailed rec) buf.
Definition rec_le (a b : ScoreRecord) : Prop := addr_le (Address a) (Address b).
#[global] Instance rec_le_dec : RelDecision rec_le.
Proof. intros a b. unfold rec_le. apply _. Defined.
Definition ComputeValidatorsRoot `{GoSort, Blake3} (records : list ScoreRecord) : bytes :=
  if bool_decide (records = []) then Blake3RootFromRaw [] else
  let copies := sort_slice rec_le (Clone <$> records) in
  Blake3RootFromRaw (encodeScoreRecord <$> copies).
Definition ComputeNextValidatorsRoot `{GoSort, Blake3} (records : list ScoreRecord) : bytes :=
  ComputeValidatorsRoot records.
End Root.


(** ** Penalties *)
Definition run_events (events : list string) (cfg : PenaltyConfig) (v : Validator) : Validator :=
  foldl (fun v event => Validator_ApplyEvent event cfg v) v events.
Lemma apply_event_keeps event cfg v : 0 <= v_ConsecutiveMisses v <= 4 -> let v' := Validator_ApplyEvent event cfg v in
  0 <= v_ConsecutiveMisses v' <= 4 /\ v_Jailed v' = v_Jailed v /\ v_Address v' = v_Address v /\
  v_PubKey v' = v_PubKey v /\ v_StakeMas v' = v_StakeMas v.
Proof.
  intros Hm. cbn zeta. unfold Validator_ApplyEvent.
  repeat case_bool_decide; cbn zeta; try (rewrite u32_small by (unfold in_u32; lia));
    repeat match goal with |- context [?a =? ?b] => destruct (Z.eqb_spec a b) end; cbn; (split; [lia|done]).
Qed.
(** no sequence of events, known or unknown, jails a validator, moves its stake or its key, or
    lets its count of consecutive misses pass four. *)
Theorem events_never_ban events cfg v : 0 <= v_ConsecutiveMisses v <= 4 -> let v' := run_events events cfg v in
  0 <= v_ConsecutiveMisses v' <= 4 /\ v_Jailed v' = v_Jailed v /\ v_Address v' = v_Address v /\
  v_PubKey v' = v_PubKey v /\ v_StakeMas v' = v_StakeMas v.
Proof.
  revert v. induction events as [|event events IH]; intros v Hm; [done|]. cbn.
  destruct (apply_event_keeps event cfg v Hm) as (Hm' & <- & <- & <- & <-). by apply IH.
Qed.
Definition validator0 : Validator := mkValidator "val1" [] 100 (S754_zero false) 0 0 false.
Lemma events_never_ban_witness :
  v_ConsecutiveMisses (run_events (replicate 7 EventProposalMiss) DefaultPenaltyConfig validator0) = 4 /\
  v_Jailed (run_events (replicate 7 EventProposalMiss) DefaultPenaltyConfig validator0) = false.
Proof.
  split; [vm_compute; reflexivity|].
  apply (events_never_ban (replicate 7 EventProposalMiss) DefaultPenaltyConfig validator0). cbn. lia.
Defined.

Lemma run_events_snoc events event cfg v : run_events (events ++ [event]) cfg v = Validator_ApplyEvent event cfg (run_events events cfg v).
Proof. unfold run_events. by rewrite foldl_app. Qed.
(** The score after [n] misses in a row. *)
Definition missed_score (cfg : PenaltyConfig) (n : nat) (s : spec_float) : spec_float :=
  match n with
  | O | 1%nat => s
  | 2%nat => fadd s (SecondMissPenalty cfg)
  | 3%nat => fadd (fadd s (SecondMissPenalty cfg)) (ThirdMissPenalty cfg)
  | _ => fadd (fadd (fadd s (SecondMissPenalty cfg)) (ThirdMissPenalty cfg)) (FourthMissPenalty cfg)
  end.
Lemma miss_step cfg v : v_ConsecutiveMisses v <= 4 -> 0 <= v_ConsecutiveMisses v -> Validator_ApplyEvent EventProposalMiss cfg v =
  let m := v_ConsecutiveMisses v in
  let s := v_Score v in
  set_counts (if m =? 0 then s else if m =? 1 then fadd s (SecondMissPenalty cfg) else if m =? 2 then fadd s (ThirdMissPenalty cfg)
              else if m =? 3 then fadd s (FourthMissPenalty cfg) else s) (Z.min (m + 1) 4) (v_TotalMisses v +u 1) v.
Proof.
  intros Hm H0. unfold Validator_ApplyEvent. rewrite bool_decide_false by done. rewrite bool_decide_true by done.
  rewrite u32_small by (unfold in_u32; lia). cbn zeta. assert (v_ConsecutiveMisses v ∈ [0; 1; 2; 3; 4]) as Hin.
  { rewrite !elem_of_cons. lia. }
  repeat (apply elem_of_cons in Hin as [->|Hin]; [reflexivity|]). by apply elem_of_nil in Hin.
Qed.
Lemma run_misses cfg n v : v_ConsecutiveMisses v = 0 -> in_u64 (v_TotalMisses v) ->
  let v' := run_events (replicate n EventProposalMiss) cfg v in
  v_Score v' = missed_score cfg n (v_Score v) /\ v_ConsecutiveMisses v' = Z.min (Z.of_nat n) 4 /\
  v_TotalMisses v' = v_TotalMisses v +u Z.of_nat n.
Proof.
  intros H0 Ht. cbn zeta. induction n as [|n (Hs & Hc & Htot)].
  - cbn. rewrite Z.add_0_r, u64_small by done. by rewrite H0.
  - replace (S n) with (n + 1)%nat by lia. rewrite replicate_add. cbn [replicate]. rewrite run_events_snoc, miss_step by (rewrite Hc; lia).
    cbn zeta. unfold set_counts. cbn [v_Score v_ConsecutiveMisses v_TotalMisses]. rewrite Hs, Hc, Htot. split; [|split; [lia|]].
    + destruct n as [|[|[|[|n]]]]; [reflexivity..|]. rewrite Z.min_r by lia. reflexivity.
    + rewrite u64_add_l. f_equal. lia.
Qed.
Lemma fsub_opp x y : fsub x y = fadd x (SFopp y).
Proof.
  unfold fsub, fadd. destruct x as [[]|[]| |sx mx ex], y as [[]|[]| |sy my ey]; try done. cbn [SFsub SFadd SFopp]. do 2 f_equal.
  by destruct sx, sy.
Qed.
(** C36: the two sets of penalties agree up to the fourth miss in a row, with the default
    configuration: nothing, then 0.5, 2 and 100 points.  From the fifth on they differ: a
    [stake.Validator] loses nothing more, a [ValidatorScoreRecord] 100 points each time. *)
Theorem misses_in_a_row v rec hs : v_ConsecutiveMisses v = 0 -> in_u64 (v_TotalMisses v) ->
  LegacyState.ConsecutiveMisses rec = 0 -> LegacyState.ConsensusScore rec = v_Score v -> Z.of_nat (length hs) < M32 ->
  let n := length hs in
  let v' := run_events (replicate n EventProposalMiss) DefaultPenaltyConfig v in
  let rec' := misses hs rec in
  v_Score v' = missed_score DefaultPenaltyConfig (n `min` 4) (v_Score v) /\
  v_TotalMisses v' = v_TotalMisses v +u Z.of_nat n /\
  LegacyState.ConsensusScore rec' = Nat.iter (n - 4) (fun s => fsub s (float64 100)) (v_Score v').
Proof.
  intros H0 Ht Hr Hs Hl. cbn zeta. destruct (run_misses DefaultPenaltyConfig (length hs) v H0 Ht) as (Hv & _ & Htot).
  destruct (misses_spec hs rec Hr Hl) as [_ Hrec]. rewrite Hrec, Hv, Hs.
  split; [by destruct (length hs) as [|[|[|[|n]]]]|]. split; [exact Htot|].
  change (missed_score DefaultPenaltyConfig) with
    (missed_score (mkPenaltyConfig (float64 10) (SFopp fhalf) (SFopp (float64 2)) (SFopp (float64 100)) (float64 (-10)) (fconst 1 3))).
  destruct (length hs) as [|[|[|[|n]]]]; cbn [missed_score SecondMissPenalty ThirdMissPenalty FourthMissPenalty];
    rewrite <- ?fsub_opp; [done..|]. rewrite Nat.iter_succ_r. cbn [Nat.sub]. by rewrite Nat.sub_0_r.
Qed.
Lemma misses_in_a_row_witness :
  v_Score (run_events (replicate 6 EventProposalMiss) DefaultPenaltyConfig validator0) = fconst (-1025) 1 /\
  LegacyState.ConsensusScore (misses [1; 2; 3; 4; 5; 6] no_record) =
    Nat.iter 2 (fun s => fsub s (float64 100)) (v_Score (run_events (replicate 6 EventProposalMiss) DefaultPenaltyConfig validator0)).
Proof.
  split; [vm_compute; reflexivity|].
  apply (misses_in_a_row validator0 no_record [1; 2; 3; 4; 5; 6]); [reflexivity|unfold in_u64; cbn; lia|reflexivity|reflexivity|cbn; lia].
Defined.

(** ** The Merkle root *)
Lemma le_bytes_length n v : length (le_bytes n v) = n.
Proof. unfold le_bytes. by rewrite length_reverse, be_bytes_length. Qed.
Lemma le_bytes_inj n v w : 0 <= v < 256 ^ Z.of_nat n -> 0 <= w < 256 ^ Z.of_nat n -> le_bytes n v = le_bytes n w -> v = w.
Proof. intros Hv Hw E%(inj reverse). rewrite <- (be_word_bytes n v), <- (be_word_bytes n w), E by done. done. Qed.
Lemma snoc_field (x y a b : bytes) : x ++ a = y ++ b -> length a = length b -> x = y /\ a = b.
Proof. intros E Hl. by apply app_inj_2. Qed.
(** The fields as the code holds them, at their width. *)
Record record_ok (r : ScoreRecord) : Prop := {
  ro_class : in_i64 (StakeClass r); ro_consensus : in_i64 (ConsensusScore r); ro_part : in_i64 (Participation r);
  ro_height : in_u64 (LastUpdatedHeight r); ro_epoch : in_u64 (LastRewardedEpoch r); ro_misses : in_u32 (ConsecutiveMisses r);
  ro_total : in_u64 (TotalMisses r); ro_score : valid_binary F_prec F_emax (Score r) = true
}.
(** Records the root cannot tell apart: addresses up to case and surrounding space. *)
Definition same_record {RT : GoRuntime} (r r' : ScoreRecord) : Prop :=
  to_lower (trim_space (Address r)) = to_lower (trim_space (Address r')) /\ StakeClass r = StakeClass r' /\
  ConsensusScore r = ConsensusScore r' /\ Participation r = Participation r' /\ PoolNode r = PoolNode r' /\
  LastUpdatedHeight r = LastUpdatedHeight r' /\ LastRewardedEpoch r = LastRewardedEpoch r' /\ Score r = Score r' /\
  ConsecutiveMisses r = ConsecutiveMisses r' /\ TotalMisses r = TotalMisses r' /\ Jailed r = Jailed r'.
#[global] Instance same_record_equiv {RT : GoRuntime} : Equivalence same_record.
Proof. unfold same_record. split; [by intros r|intros r r'; naive_solver|intros r r' r''; intuition congruence]. Qed.
#[global] Instance encode_proper {RT : GoRuntime} {NB : NanBits} : Proper (same_record ==> eq) encodeScoreRecord.
Proof. intros r r' (Ha & Hc & Hs & Hp & Hn & Hh & He & Hf & Hm & Ht & Hj). unfold encodeScoreRecord. cbn zeta. congruence. Qed.

(** *** Float64bits on the floats of the format *)
Lemma digits2_pos_bounds m : 2 ^ (Zpos (digits2_pos m) - 1) <= Zpos m < 2 ^ Zpos (digits2_pos m).
Proof.
  induction m as [m IH|m IH|]; cbn [digits2_pos]; [| |done]; rewrite Pos2Z.inj_succ;
    replace (Z.succ (Zpos (digits2_pos m)) - 1) with (Z.succ (Zpos (digits2_pos m) - 1)) by lia;
    rewrite !Z.pow_succ_r by lia; lia.
Qed.
Lemma bounded_range m e : bounded F_prec F_emax m e = true ->
  Zpos m < 2 ^ 53 /\ ((Zpos m < 2 ^ 52 /\ e = -1074) \/ (2 ^ 52 <= Zpos m /\ -1074 <= e <= 971)).
Proof.
  unfold bounded, canonical_mantissa, fexp. intros [Hc%Zeq_bool_eq He%Z.leb_le]%andb_true_iff.
  change (SpecFloat.emin F_prec F_emax) with (-1074) in Hc. pose proof (digits2_pos_bounds m) as [Hlo Hhi].
  set (d := Zpos (digits2_pos m)) in *. assert (Hd : d <= 53) by lia.
  pose proof (Z.pow_le_mono_r 2 d 53 ltac:(lia) Hd). split; [lia|].
  destruct (Z.ltb_spec (Zpos m) (2 ^ 52)) as [Hm|Hm]; [left|right].
  - split; [done|]. destruct (Z.eq_dec d 53) as [E|]; [|lia]. rewrite E in Hlo. change (53 - 1) with 52 in Hlo. lia.
  - split; [done|]. lia.
Qed.
(** Reading the bits back, as [math.Float64frombits]. *)
Definition float64frombits (z : Z) : spec_float :=
  let s := M63 <=? z in
  let mag := z mod M63 in
  if mag =? 0 then S754_zero s
  else if 2047 * 2 ^ 52 <? mag then S754_nan
  else if mag =? 2047 * 2 ^ 52 then S754_infinity s
  else if mag <? 2 ^ 52 then S754_finite s (Z.to_pos mag) (-1074)
  else S754_finite s (Z.to_pos (mag mod 2 ^ 52 + 2 ^ 52)) (mag / 2 ^ 52 - 1075).
Lemma frombits_split (s : bool) mag : 0 <= mag <= 2047 * 2 ^ 52 ->
  (M63 <=? (if s then M63 else 0) + mag) = s /\ ((if s then M63 else 0) + mag) mod M63 = mag /\
  in_u64 ((if s then M63 else 0) + mag).
Proof.
  intros Hm. unfold in_u64. assert (Hb : 2047 * 2 ^ 52 < M63) by done. destruct s.
  - split; [apply Z.leb_le; lia|]. split; [|lia]. rewrite <- Z.add_mod_idemp_l, Z.mod_same, Z.mod_small by lia. done.
  - split; [apply Z.leb_gt; lia|]. split; [rewrite Z.mod_small by lia; done|lia].
Qed.
Lemma float64bits_spec {NB : NanBits} f : valid_binary F_prec F_emax f = true ->
  in_u64 (float64bits f) /\ float64frombits (float64bits f) = f.
Proof.
  destruct f as [s|s| |s m e]; cbn [valid_binary float64bits]; intros Hv.
  - destruct (frombits_split s 0 ltac:(lia)) as (Hs & Hm & Hr). rewrite Z.add_0_r in Hs, Hm, Hr. split; [done|].
    unfold float64frombits. by rewrite Hs, Hm.
  - destruct (frombits_split s (2047 * 2 ^ 52) ltac:(lia)) as (Hs & Hm & Hr). split; [done|]. unfold float64frombits. by rewrite Hs, Hm.
  - destruct nan_bits_ok as [Hn Hr]. split; [done|]. unfold float64frombits. cbn zeta.
    destruct (Z.eqb_spec (nan_bits mod M63) 0); [lia|]. by destruct (Z.ltb_spec (2047 * 2 ^ 52) (nan_bits mod M63)); [|lia].
  - apply bounded_range in Hv as (Hm53 & Hcase). destruct (Z.ltb_spec (Zpos m) (2 ^ 52)) as [Hm|Hm].
    + destruct Hcase as [[_ ->]|[? _]]; [|lia]. destruct (frombits_split s (Zpos m) ltac:(lia)) as (Hs & Hmod & Hr). split; [done|].
      unfold float64frombits. rewrite Hs, Hmod. destruct (Z.eqb_spec (Zpos m) 0); [lia|]. destruct (Z.ltb_spec (2047 * 2 ^ 52) (Zpos m)); [lia|].
      destruct (Z.eqb_spec (Zpos m) (2047 * 2 ^ 52)); [lia|]. by destruct (Z.ltb_spec (Zpos m) (2 ^ 52)); [|lia].
    + destruct Hcase as [[? _]|[_ He]]; [lia|]. set (mag := (e + 1075) * 2 ^ 52 + (Zpos m - 2 ^ 52)).
      assert (Hmag : 2 ^ 52 <= mag < 2047 * 2 ^ 52) by lia.
      assert (Hdiv : mag / 2 ^ 52 = e + 1075 /\ mag mod 2 ^ 52 = Zpos m - 2 ^ 52).
      { split; symmetry; [apply (Z.div_unique _ _ _ (Zpos m - 2 ^ 52))|apply (Z.mod_unique _ _ (e + 1075))]; lia. }
      destruct Hdiv as [Hd Hmm]. destruct (frombits_split s mag ltac:(lia)) as (Hs & Hmod & Hr). split; [done|].
      unfold float64frombits. rewrite Hs, Hmod. destruct (Z.eqb_spec mag 0); [lia|]. destruct (Z.ltb_spec (2047 * 2 ^ 52) mag); [lia|].
      destruct (Z.eqb_spec mag (2047 * 2 ^ 52)); [lia|]. destruct (Z.ltb_spec mag (2 ^ 52)); [lia|]. rewrite Hmm, Hd.
      f_equal; [|lia]. replace (Zpos m - 2 ^ 52 + 2 ^ 52) with (Zpos m) by lia. done.
Qed.

(** *** Encoding *)
Lemma flag_inj (b c : bool) : [z2b (if b then 1 else 0)] = [z2b (if c then 1 else 0)] -> b = c.
Proof. by destruct b, c. Qed.
Lemma u64_i64_inj a b : in_i64 a -> in_i64 b -> u64 a = u64 b -> a = b.
Proof. intros Ha Hb E. by rewrite <- (i64_u64 a), <- (i64_u64 b), E. Qed.
Lemma le64_inj v w : in_u64 v -> in_u64 w -> le_bytes 8 v = le_bytes 8 w -> v = w.
Proof. apply (le_bytes_inj 8). Qed.
Lemma le32_inj v w : in_u32 v -> in_u32 w -> le_bytes 4 v = le_bytes 4 w -> v = w.
Proof. apply (le_bytes_inj 4). Qed.
Lemma encode_inj {RT : GoRuntime} {NB : NanBits} r r' : record_ok r -> record_ok r' ->
  encodeScoreRecord r = encodeScoreRecord r' -> same_record r r'.
Proof.
  intros [] [] E. unfold encodeScoreRecord, write_flag, writeInt64, writeUint64, writeUint32 in E.
  do 10 (apply snoc_field in E as [E ?]; [|by rewrite ?le_bytes_length]).
  apply snoc_field in E as [E _]; [|done]. apply (inj to_bytes) in E.
  destruct (float64bits_spec (Score r)) as [? Hf]; [done|]. destruct (float64bits_spec (Score r')) as [? Hf']; [done|].
  repeat match goal with
  | H : le_bytes 8 _ = le_bytes 8 _ |- _ => apply le64_inj in H; [|by auto using u64_range..]
  | H : le_bytes 4 _ = le_bytes 4 _ |- _ => apply le32_inj in H; [|done..]
  | H : [z2b _] = _ |- _ => apply flag_inj in H
  end.
  split; [done|]. split; [by apply u64_i64_inj|]. split; [by apply u64_i64_inj|]. split; [by apply u64_i64_inj|]. split; [done|].
  split; [done|]. split; [done|]. split; [congruence|]. done.
Qed.
Lemma Clone_id r : Clone r = r.
Proof. by destruct r. Qed.
Lemma Clone_list (rs : list ScoreRecord) : Clone <$> rs = rs.
Proof. induction rs as [|r rs IH]; [done|]. rewrite fmap_cons, IH, Clone_id. done. Qed.
Lemma validators_root_leaves {RT : GoRuntime} {NB : NanBits} `{GoSort, Blake3} rs :
  ComputeValidatorsRoot rs = Blake3RootFromRaw (encodeScoreRecord <$> sort_slice rec_le rs).
Proof.
  unfold ComputeValidatorsRoot. rewrite Clone_list. case_bool_decide as Hr; [|done]. subst rs.
  pose proof (sort_slice_perm rec_le []) as Hp. by apply Permutation_nil_r in Hp as ->.
Qed.
Lemma encode_list_inj {RT : GoRuntime} {NB : NanBits} xs ys : Forall record_ok xs -> Forall record_ok ys ->
  encodeScoreRecord <$> xs = encodeScoreRecord <$> ys -> Forall2 same_record xs ys.
Proof.
  intros Hx. revert ys. induction Hx as [|x xs Hx Hxs IH]; intros [|y ys] Hy He; [constructor|done|done|].
  rewrite !fmap_cons in He. apply (inj2 cons) in He as [Hh Ht]. apply Forall_cons in Hy as [Hy Hys].
  constructor; [by apply encode_inj|by apply IH].
Qed.
(** C37: the root commits to the validators: two sets of the same size with the same root hold
    the same records (addresses up to case and surrounding space) in some order, or the
    strings hashed for the two roots contain a BLAKE3 collision. *)
Theorem validators_root_binding {RT : GoRuntime} {NB : NanBits} `{GoSort, Blake3} xs ys :
  Forall record_ok xs -> Forall record_ok ys -> length xs = length ys ->
  ComputeValidatorsRoot xs = ComputeValidatorsRoot ys ->
  (exists xs' ys', xs' ≡ₚ xs /\ ys' ≡ₚ ys /\ Forall2 same_record xs' ys') \/
  collision blake3_sum256 (preimages blake3_sum256 (encodeScoreRecord <$> sort_slice rec_le xs))
                          (preimages blake3_sum256 (encodeScoreRecord <$> sort_slice rec_le ys)).
Proof.
  intros Hx Hy Hl E. rewrite !validators_root_leaves in E.
  pose proof (sort_slice_perm rec_le xs) as Hpx. pose proof (sort_slice_perm rec_le ys) as Hpy.
  destruct (tree_root_inj blake3_sum256 blake3_length (encodeScoreRecord <$> sort_slice rec_le xs)
    (encodeScoreRecord <$> sort_slice rec_le ys)) as [He|Hc]; [by rewrite !length_fmap, Hpx, Hpy|exact E|left|by right].
  exists (sort_slice rec_le xs), (sort_slice rec_le ys). split; [done|]. split; [done|].
  apply encode_list_inj; [by rewrite Hpx|by rewrite Hpy|done].
Qed.
Definition rec1 : ScoreRecord := mkScoreRecord "v1" StakeClassG1 40 15 false 0 0 fone 0 0 false.
Definition rec2 : ScoreRecord := mkScoreRecord "V2" StakeClassG2 (-10) 5 true 0 0 (fconst 25 1) 1 1 false.
Lemma rec1_ok : record_ok rec1 /\ record_ok rec2.
Proof. split; split; try reflexivity; by vm_compute. Qed.
Lemma validators_root_binding_witness :
  let upper := mkScoreRecord " V1" StakeClassG1 40 15 false 0 0 fone 0 0 false in
  (exists xs' ys', xs' ≡ₚ [rec1; rec2] /\ ys' ≡ₚ [rec2; upper] /\ Forall2 (@same_record runtime0) xs' ys') \/
  collision sha256 (preimages sha256 (@encodeScoreRecord runtime0 nan_go <$> @sort_slice gosort0 _ (@rec_le runtime0) _ [rec1; rec2]))
                   (preimages sha256 (@encodeScoreRecord runtime0 nan_go <$> @sort_slice gosort0 _ (@rec_le runtime0) _ [rec2; upper])).
Proof.
  intros upper. destruct rec1_ok as [H1 H2].
  assert (Hu : record_ok upper) by (split; try reflexivity; by vm_compute).
  apply (@validators_root_binding runtime0 nan_go gosort0 blake3_0 [rec1; rec2] [rec2; upper]).
  - by repeat constructor.
  - by repeat constructor.
  - reflexivity.
  - rewrite !validators_root_leaves. by f_equal.
Defined.
(** the root does not depend on the order of the records, nor on how equal elements are
    arranged by the sort, as long as no two addresses are equal up to case. *)
Theorem validators_root_order {RT : GoRuntime} {NB : NanBits} `{Blake3} (S1 S2 : GoSort) xs ys :
  NoDup ((fun r => to_lower (Address r)) <$> xs) -> xs ≡ₚ ys ->
  @ComputeValidatorsRoot RT NB S1 _ xs = @ComputeValidatorsRoot RT NB S2 _ ys.
Proof.
  intros Hnd Hp. rewrite !validators_root_leaves. do 2 f_equal. apply sort_slice_unique.
  - intros a b. apply str_le_total.
  - intros a b c. unfold rec_le, addr_le. apply transitivity.
  - intros x y Hx Hy Hxy Hyx. assert (E : to_lower (Address x) = to_lower (Address y)) by by apply (anti_symm str_le).
    apply list_elem_of_lookup in Hx as [i Hi], Hy as [j Hj].
    assert (i = j) as ->; [|congruence]. eapply (NoDup_lookup _ i j _ Hnd); rewrite list_lookup_fmap; [by rewrite Hi|rewrite Hj; cbn; by rewrite E].
  - exact Hp.
Qed.
Lemma validators_root_order_witness :
  @ComputeValidatorsRoot runtime0 nan_go gosort0 blake3_0 [rec1; rec2] = @ComputeValidatorsRoot runtime0 nan_go gosort0 blake3_0 [rec2; rec1].
Proof.
  apply (@validators_root_order runtime0 nan_go blake3_0 gosort0 gosort0 [rec1; rec2] [rec2; rec1]).
  - apply (bool_decide_unpack _). vm_compute. exact I.
  - apply Permutation_swap.
Defined.
