(* ===== verification/LegacyRewards.v ===== *)
(** * internal/rewards/apply.go, under the tag legacy_penalty.

    [RewardEngine.Apply] over the interface [RewardState], and internal/state/rewards/
    adapter.go with the tagged record as its instance over the database. *)
From S2P Require Export RewardState GoNum.
From S2P Require Export LegacyValidators.

(** ** internal/rewards/apply.go *)
Class RewardState (S : Type) := {
  ListValidatorScores : St S (result (list ScoreRecord));
  PutValidatorScore : ScoreRecord -> St S (result unit);
  PersistValidatorPayout : Z -> ValidatorPayout -> St S (result unit);
  PersistEpochSummary : Rewards.EpochRewardSummary -> St S (result unit)
}.
Definition validator_input (rec : ScoreRecord) : ValidatorScore :=
  mkValidatorScore (Address rec) (StakeClass rec) (ConsensusScore rec) (Participation rec) (PoolNode rec).
Section Apply.
Context `{GoFloat} {S : Type} `{RewardState S}.
Definition no_bucket : RewardBucket := mkRewardBucket 0 0 0 0.
Definition no_summary : Rewards.EpochRewardSummary := Rewards.mkEpochRewardSummary 0 0 0 0 0 0.
(** The loops over the payouts and over the scores. *)
Fixpoint persist_payouts (epoch : Z) (payouts : list ValidatorPayout) : St S (result unit) :=
  match payouts with
  | [] => mret (Ok tt)
  | payout :: payouts =>
      r ← PersistValidatorPayout epoch payout;
      match r with
      | Err err => mret (Err ("persist payout for " +:+ vp_Address payout +:+ ": " +:+ err))
      | Ok _ => persist_payouts epoch payouts
      end
  end.
Fixpoint update_scores (epoch height : Z) (scores : list ScoreRecord) : St S (result unit) :=
  match scores with
  | [] => mret (Ok tt)
  | rec :: scores =>
      let updated := ResetForEpoch epoch height (Clone rec) in
      r ← PutValidatorScore updated;
      match r with
      | Err err => mret (Err ("update validator score " +:+ Address rec +:+ ": " +:+ err))
      | Ok _ => update_scores epoch height scores
      end
  end.
(** A [nil] engine and a [nil] store are [None]. *)
Definition Apply (eng : option RewardEngine) (height : Z) (state : option S)
    : result (RewardBucket * list ValidatorPayout * Rewards.EpochRewardSummary) * option S :=
  match eng, state with
  | None, _ => (Err "reward engine not initialized", state)
  | _, None => (Err "reward state not provided", state)
  | Some eng, Some state =>
      let '(r, state) := ListValidatorScores state in
      match r with
      | Err err => (Err ("list validator scores: " +:+ err), Some state)
      | Ok scores =>
          let validatorInputs := validator_input <$> scores in
          let '(bucket, payouts, summary) := Compute eng height validatorInputs in
          let '(r, state) := PersistEpochSummary summary state in
          match r with
          | Err err => (Err ("persist epoch summary: " +:+ err), Some state)
          | Ok _ =>
              let '(r, state) := persist_payouts (ers_Epoch summary) payouts state in
              match r with
              | Err err => (Err err, Some state)
              | Ok _ =>
                  let '(r, state) := update_scores (ers_Epoch summary) height scores state in
                  match r with
                  | Err err => (Err err, Some state)
                  | Ok _ => (Ok (bucket, payouts, summary), Some state)
                  end
              end
          end
      end
  end.

(** *** What it promises: a list of writes, stopped at the first that fails *)
Inductive write :=
  | W_summary (summary : Rewards.EpochRewardSummary)
  | W_payout (epoch : Z) (payout : ValidatorPayout)
  | W_score (rec : ScoreRecord).
Definition do_write (w : write) : St S (result unit) :=
  match w with
  | W_summary summary => PersistEpochSummary summary
  | W_payout epoch payout => PersistValidatorPayout epoch payout
  | W_score rec => PutValidatorScore rec
  end.
Definition write_error (w : write) (err : string) : string :=
  match w with
  | W_summary _ => "persist epoch summary: " +:+ err
  | W_payout _ payout => "persist payout for " +:+ vp_Address payout +:+ ": " +:+ err
  | W_score rec => "update validator score " +:+ Address rec +:+ ": " +:+ err
  end.
Fixpoint do_writes (ws : list write) : St S (result unit) :=
  match ws with
  | [] => mret (Ok tt)
  | w :: ws => r ← do_write w; match r with Err err => mret (Err (write_error w err)) | Ok _ => do_writes ws end
  end.
Definition plan (eng : RewardEngine) (height : Z) (scores : list ScoreRecord) : list write :=
  let '(_, payouts, summary) := Compute eng height (validator_input <$> scores) in
  W_summary summary :: (W_payout (ers_Epoch summary) <$> payouts) ++
    (W_score <$> (ResetForEpoch (ers_Epoch summary) height <$> scores)).
Lemma do_writes_app ws1 ws2 s : do_writes (ws1 ++ ws2) s =
  let '(r, s') := do_writes ws1 s in match r with Err err => (Err err, s') | Ok _ => do_writes ws2 s' end.
Proof.
  revert s. induction ws1 as [|w ws1 IH]; intros s; [done|]. cbn [app do_writes]. unfold mbind, St_bind.
  destruct (do_write w s) as [[[]|err] s']; [apply IH|done].
Qed.
Lemma persist_payouts_writes epoch payouts s : persist_payouts epoch payouts s = do_writes (W_payout epoch <$> payouts) s.
Proof.
  revert s. induction payouts as [|p payouts IH]; intros s; [done|]. cbn. unfold mbind, St_bind.
  destruct (PersistValidatorPayout epoch p s) as [[[]|err] s']; [apply IH|done].
Qed.
Lemma update_scores_writes epoch height scores s :
  update_scores epoch height scores s = do_writes (W_score <$> (ResetForEpoch epoch height <$> scores)) s.
Proof.
  revert s. induction scores as [|r scores IH]; intros s; [done|]. cbn. unfold mbind, St_bind.
  destruct (PutValidatorScore _ s) as [[[]|err] s']; [apply IH|done].
Qed.

Lemma apply_is_plan eng height s :
  Apply (Some eng) height (Some s) =
    let '(r, s1) := ListValidatorScores s in
    match r with
    | Err err => (Err ("list validator scores: " +:+ err), Some s1)
    | Ok scores =>
        let '(r, s2) := do_writes (plan eng height scores) s1 in
        (match r with Err err => Err err | Ok _ => Ok (Compute eng height (validator_input <$> scores)) end, Some s2)
    end.
Proof.
  unfold Apply, plan. destruct (ListValidatorScores s) as [[scores|err] s1]; [|done].
  destruct (Compute eng height (validator_input <$> scores)) as [[bucket payouts] summary].
  cbn [do_writes do_write write_error]. unfold mbind at 1, St_bind at 1.
  destruct (PersistEpochSummary summary s1) as [[[]|err] s2]; [|done].
  rewrite do_writes_app, persist_payouts_writes. destruct (do_writes (W_payout _ <$> payouts) s2) as [[[]|err] s3]; [|done].
  rewrite update_scores_writes. by destruct (do_writes _ s3) as [[[]|err] s4].
Qed.
(** applying the rewards of a height is exactly its plan: the epoch's summary, one payout
    per rewarded validator and every score with its participation cleared, written in this
    order, up to and including the first write that fails, whose error is reported.  Nothing
    is undone: what was written before the error stays. *)
Theorem apply_plan eng height s :
  Apply (Some eng) height (Some s) =
    let '(r, s1) := ListValidatorScores s in
    match r with
    | Err err => (Err ("list validator scores: " +:+ err), Some s1)
    | Ok scores =>
        let '(r, s2) := do_writes (plan eng height scores) s1 in
        (match r with Err err => Err err | Ok _ => Ok (Compute eng height (validator_input <$> scores)) end, Some s2)
    end.
Proof. apply apply_is_plan. Qed.
End Apply.

(** ** internal/state/rewards/adapter.go with the tagged record *)
Definition not_finite (f : spec_float) : option string :=
  match f with
  | S754_nan => Some "NaN" | S754_infinity false => Some "+Inf" | S754_infinity true => Some "-Inf"
  | _ => None
  end.
Definition record_json (r : ScoreRecord) : json :=
  JObj [("Address", JStr (Address r)); ("StakeClass", JInt (StakeClass r)); ("ConsensusScore", JInt (ConsensusScore r));
        ("Participation", JInt (Participation r)); ("PoolNode", JBool (PoolNode r));
        ("LastUpdatedHeight", JUint (LastUpdatedHeight r)); ("LastRewardedEpoch", JUint (LastRewardedEpoch r));
        ("Score", JNum (fmt_float (Score r))); ("ConsecutiveMisses", JUint (ConsecutiveMisses r));
        ("TotalMisses", JUint (TotalMisses r)); ("Jailed", JBool (Jailed r))].
Definition dec_uint32 (j : json) : option Z := z ← dec_uint64 j; if z <? M32 then Some z else None.
Definition dec_float (j : json) : option spec_float := match j with JNum lit => parse_float lit | _ => None end.
Definition record_of_json : json -> option ScoreRecord :=
  dec_struct (mkScoreRecord "" 0 0 0 false 0 0 fzero 0 0 false) (fun fs =>
    a ← dec_field dec_string "Address" "" fs; c ← dec_field dec_int64 "StakeClass" 0 fs;
    s ← dec_field dec_int64 "ConsensusScore" 0 fs; p ← dec_field dec_int64 "Participation" 0 fs;
    n ← dec_field dec_bool "PoolNode" false fs; h ← dec_field dec_uint64 "LastUpdatedHeight" 0 fs;
    e ← dec_field dec_uint64 "LastRewardedEpoch" 0 fs; f ← dec_field dec_float "Score" fzero fs;
    m ← dec_field dec_uint32 "ConsecutiveMisses" 0 fs; t ← dec_field dec_uint64 "TotalMisses" 0 fs;
    j ← dec_field dec_bool "Jailed" false fs; Some (mkScoreRecord a c s p n h e f m t j)).
Section Adapter.
Context {RT : GoRuntime} (a : Adapter).
Definition collect_record (key : string) (value : bytes) (s : list ScoreRecord * option string)
    : (list ScoreRecord * option string) * bool :=
  let '(records, firstErr) := s in
  match json_unmarshal value ≫= record_of_json with
  | None => ((records, Some ("decode validator score " +:+ key)), false)
  | Some rec => ((records ++ [rec], firstErr), true)
  end.
Definition adapter_list : St DB (result (list ScoreRecord)) := fun db =>
  let '(records, firstErr) := RangePrefix (validatorScorePrefix +:+ "/") collect_record db ([], None) in
  (match firstErr with Some e => Err e | None => Ok records end, db).
Definition adapter_put (record : ScoreRecord) : St DB (result unit) :=
  if bool_decide (Address record = "") then mret (Err "validator score requires address") else
  match not_finite (Score record) with
  | Some v => mret (Err ("encode validator score " +:+ Address record +:+ ": json: unsupported value: " +:+ v))
  | None =>
      let payload := json_marshal (record_json record) in
      SetKey (default "" (ValidatorScoreKey (Address record))) payload;; mret (Ok tt)
  end.
#[export] Instance Adapter_RewardState : RewardState DB := {|
  ListValidatorScores := adapter_list;
  PutValidatorScore := adapter_put;
  PersistValidatorPayout := RewardState.PersistValidatorPayout;
  PersistEpochSummary := RewardState.PersistEpochSummary a
|}.
End Adapter.

(** *** What the writes leave in the database *)
Definition put_entries (es : list (string * bytes)) (m : gmap string bytes) : gmap string bytes :=
  foldl (fun m e => <[e.1 := e.2]> m) m es.
Lemma put_entries_app es1 es2 m : put_entries (es1 ++ es2) m = put_entries es2 (put_entries es1 m).
Proof. apply foldl_app. Qed.
Lemma put_entries_lookup es m k : put_entries es m !! k =
  match last (filter (fun e => e.1 = k) es) with Some e => Some e.2 | None => m !! k end.
Proof.
  induction es as [|e es IH] using rev_ind; [done|]. rewrite put_entries_app, filter_app, filter_cons, filter_nil. cbn [put_entries foldl].
  case_decide as Hk; [rewrite last_snoc, Hk; apply lookup_insert_eq|]. rewrite app_nil_r, lookup_insert_ne by done. exact IH.
Qed.
Definition add_amount (amt : Z) (x : Account) : Account := mkAccount (Balance x +u amt) (Nonce x).
Lemma AddBalance_spec db addr amt : db_wf db -> ledger_ok (Snapshot db) ->
  let db' := (AddBalance addr amt db).2 in
  kv db' = kv db /\ db_wf db' /\ ledger_ok (Snapshot db') /\
  forall b, acct (Snapshot db') b = if decide (addr = b) then add_amount amt (acct (Snapshot db) b) else acct (Snapshot db) b.
Proof.
  intros Hwf Hok. unfold AddBalance. destruct (Z.eqb_spec amt 0) as [->|Hne].
  - cbn. split; [done|]. split; [done|]. split; [done|]. intros b. case_decide as Hb; [|done]. unfold add_amount.
    destruct (ledger_acct (Snapshot db) b Hok) as [Hbal _]. rewrite Z.add_0_r, u64_small by done. by destruct (acct _ _).
  - destruct (get_addTo_spec db addr amt Hwf) as (Hwf' & Hv & _ & Hk). cbn zeta. rewrite Hk, Hv. split; [done|]. split; [done|].
    split; [auto with go|]. intros b. unfold credit. case_decide as Hb; [subst b; apply acct_insert_eq|by apply acct_insert_ne].
Qed.

Section Effects.
Context {RT : GoRuntime} (a : Adapter).
Definition entry (w : write) : string * bytes :=
  match w with
  | W_summary s => (EpochSummaryKey (ers_Epoch s), json_marshal (summary_json s))
  | W_payout epoch p => (default "" (ValidatorPayoutKey epoch (vp_Address p)), json_marshal (payout_json (vp_Amount p)))
  | W_score r => (default "" (ValidatorScoreKey (Address r)), json_marshal (record_json r))
  end.
(** The credits of a write to account [b]. *)
Definition treasury (s : Rewards.EpochRewardSummary) (b : string) (x : Account) : Account :=
  let x := if decide (foundationAddr a <> "" /\ foundationAddr a = b) then add_amount (ers_FoundationShare s) x else x in
  if decide (exchangeAddr a <> "" /\ exchangeAddr a = b) then add_amount (ers_ExchangeShare s) x else x.
Definition credits (w : write) (b : string) (x : Account) : Account :=
  match w with W_summary s => treasury s b x | _ => x end.
Lemma credit_if db addr amt : db_wf db -> ledger_ok (Snapshot db) ->
  let db' := ((if negb (bool_decide (addr = "")) then AddBalance addr amt else mret tt) db).2 in
  kv db' = kv db /\ db_wf db' /\ ledger_ok (Snapshot db') /\
  forall b, acct (Snapshot db') b = if decide (addr <> "" /\ addr = b) then add_amount amt (acct (Snapshot db) b) else acct (Snapshot db) b.
Proof.
  intros Hwf Hok. case_bool_decide as Hne; cbn [negb].
  - cbn. split; [done|]. split; [done|]. split; [done|]. intros b. by rewrite decide_False by tauto.
  - destruct (AddBalance_spec db addr amt Hwf Hok) as (Hk & Hwf' & Hok' & Hb). split; [done|]. split; [done|]. split; [done|].
    intros b. rewrite Hb. apply decide_ext. tauto.
Qed.
Lemma SetKey_keeps k v db : db_wf db -> ledger_ok (Snapshot db) -> let db' := (SetKey k v db).2 in
  kv db' = <[k := v]> (kv db) /\ db_wf db' /\ ledger_ok (Snapshot db') /\ Snapshot db' = Snapshot db.
Proof. intros [Hb Hi] Hok. cbn. split; [done|]. split; [by split|]. by split. Qed.
Lemma SetKey_only k v db db' : db_wf db -> ledger_ok (Snapshot db) -> (SetKey k v;; mret (Ok tt)) db = (Ok tt : result unit, db') ->
  kv db' = <[k := v]> (kv db) /\ db_wf db' /\ ledger_ok (Snapshot db') /\ forall b, acct (Snapshot db') b = acct (Snapshot db) b.
Proof.
  intros Hwf Hok Hdo. apply (f_equal snd) in Hdo. cbn [snd] in Hdo. subst db'. rewrite st_exec_bind.
  destruct (SetKey_keeps k v db Hwf Hok) as (? & ? & ? & Hs). split; [done|]. split; [done|]. split; [done|].
  intros b. cbn [mret St_ret snd]. by rewrite Hs.
Qed.
Lemma do_write_spec w db db' : db_wf db -> ledger_ok (Snapshot db) ->
  @do_write _ (Adapter_RewardState a) w db = (Ok tt, db') ->
  kv db' = <[(entry w).1 := (entry w).2]> (kv db) /\ db_wf db' /\ ledger_ok (Snapshot db') /\
  forall b, acct (Snapshot db') b = credits w b (acct (Snapshot db) b).
Proof.
  intros Hwf Hok. destruct w as [s|epoch p|r]; cbn [do_write].
  - intros Hdo. cbn in Hdo. unfold RewardState.PersistEpochSummary in Hdo. apply (f_equal snd) in Hdo. cbn [snd] in Hdo. subst db'.
    rewrite !st_exec_bind. cbn [mret St_ret snd entry fst].
    destruct (SetKey_keeps (EpochSummaryKey (ers_Epoch s)) (json_marshal (summary_json s)) db Hwf Hok) as (Hk0 & Hwf0 & Hok0 & Hs0).
    set (db0 := (SetKey _ _ db).2) in *. rewrite <- Hk0, <- Hs0.
    destruct (credit_if db0 (foundationAddr a) (ers_FoundationShare s) Hwf0 Hok0) as (Hk1 & Hwf1 & Hok1 & Hb1).
    set (db1 := ((if negb (bool_decide (foundationAddr a = ""))
                  then AddBalance (foundationAddr a) (ers_FoundationShare s) else mret tt) db0).2) in *. rewrite <- Hk1.
    destruct (credit_if db1 (exchangeAddr a) (ers_ExchangeShare s) Hwf1 Hok1) as (Hk2 & Hwf2 & Hok2 & Hb2).
    split; [done|]. split; [done|]. split; [done|]. intros b. rewrite Hb2, Hb1. done.
  - cbn. unfold RewardState.PersistValidatorPayout. case_bool_decide; [done|]. by apply SetKey_only.
  - cbn. unfold adapter_put. case_bool_decide; [done|]. destruct (not_finite (Score r)); [done|]. by apply SetKey_only.
Qed.
Lemma do_writes_spec ws db db' : db_wf db -> ledger_ok (Snapshot db) ->
  @do_writes _ (Adapter_RewardState a) ws db = (Ok tt, db') ->
  kv db' = put_entries (entry <$> ws) (kv db) /\ db_wf db' /\ ledger_ok (Snapshot db') /\
  forall b, acct (Snapshot db') b = foldl (fun x w => credits w b x) (acct (Snapshot db) b) ws.
Proof.
  revert db. induction ws as [|w ws IH]; intros db Hwf Hok Hdo; cbn [do_writes] in Hdo.
  - cbn in Hdo. injection Hdo as <-. done.
  - unfold mbind, St_bind in Hdo. destruct (do_write w db) as [[[]|err] db1] eqn:Hw; [|done].
    destruct (do_write_spec w db db1 Hwf Hok Hw) as (Hk & Hwf1 & Hok1 & Hb).
    destruct (IH db1 Hwf1 Hok1 Hdo) as (Hk' & ? & ? & Hb'). split; [by rewrite Hk', Hk|]. split; [done|]. split; [done|].
    intros b. by rewrite Hb', Hb.
Qed.
Lemma no_credits ws b x : Forall (fun w => match w with W_summary _ => False | _ => True end) ws ->
  foldl (fun x w => credits w b x) x ws = x.
Proof. intros Hws. revert x. induction Hws as [|[] ws Hw Hws IH]; intros x; [done|done|apply IH..]. Qed.
End Effects.

Lemma put_entries_in es m k : k ∈ es.*1 -> exists e, e ∈ es /\ e.1 = k /\ put_entries es m !! k = Some e.2.
Proof.
  intros (e & -> & He)%list_elem_of_fmap. rewrite put_entries_lookup. destruct (last _) as [f|] eqn:Hl.
  - apply last_Some_elem_of, list_elem_of_filter in Hl as [Hf Hin]. by exists f.
  - apply last_None in Hl. assert (Hin : e ∈ filter (fun e' : string * bytes => e'.1 = e.1) es) by by apply list_elem_of_filter.
    rewrite Hl in Hin. by apply elem_of_nil in Hin.
Qed.
Lemma put_entries_notin es m k : k ∉ es.*1 -> put_entries es m !! k = m !! k.
Proof.
  intros Hk. rewrite put_entries_lookup. destruct (last _) as [f|] eqn:Hl; [|done].
  apply last_Some_elem_of, list_elem_of_filter in Hl as [<- Hin]. destruct Hk. by apply list_elem_of_fmap_2.
Qed.
Section Keys.
Context {RT : GoRuntime} (a : Adapter).
Definition addressed (w : write) : Prop :=
  match w with W_summary _ => True | W_payout _ p => vp_Address p <> "" | W_score r => Address r <> "" end.
Lemma do_writes_addressed ws db db' : @do_writes _ (Adapter_RewardState a) ws db = (Ok tt, db') -> Forall addressed ws.
Proof.
  revert db. induction ws as [|w ws IH]; intros db Hdo; [constructor|]. cbn [do_writes] in Hdo. unfold mbind, St_bind in Hdo.
  destruct (do_write w db) as [[[]|err] db1] eqn:Hw; [|done]. constructor; [|by eapply IH]. destruct w as [s|e p|r]; [done|..]; cbn in Hw |- *.
  - unfold RewardState.PersistValidatorPayout in Hw. by case_bool_decide.
  - unfold adapter_put in Hw. by case_bool_decide.
Qed.
Lemma score_entry r : Address r <> "" ->
  ValidatorScoreKey (Address r) = Some (validatorScorePrefix +:+ "/" +:+ normalize (Address r) +:+ "/score").
Proof. intros. unfold ValidatorScoreKey. by rewrite bool_decide_false. Qed.
Lemma payout_entry e p : vp_Address p <> "" ->
  ValidatorPayoutKey e (vp_Address p) = Some (validatorRewardPrefix +:+ "/" +:+ epochKey e +:+ "/v/" +:+ normalize (vp_Address p)).
Proof. intros. unfold ValidatorPayoutKey. by rewrite bool_decide_false. Qed.
Lemma score_not_reward s rs : Forall addressed (W_score <$> rs) -> (validatorRewardPrefix +:+ s) ∉ (entry <$> (W_score <$> rs)).*1.
Proof.
  rewrite Forall_fmap, Forall_forall.
  intros Hr (x & Hx & (w & -> & (rec & -> & Hin)%list_elem_of_fmap)%list_elem_of_fmap)%list_elem_of_fmap.
  cbn in Hx. rewrite score_entry in Hx by by apply Hr. discriminate Hx.
Qed.
Lemma summary_not_payout e ps : Forall addressed (W_payout e <$> ps) -> EpochSummaryKey e ∉ (entry <$> (W_payout e <$> ps)).*1.
Proof.
  rewrite Forall_fmap, Forall_forall.
  intros Hp (x & Hx & (w & -> & (p & -> & Hin)%list_elem_of_fmap)%list_elem_of_fmap)%list_elem_of_fmap.
  cbn [entry fst] in Hx. rewrite payout_entry in Hx by by apply Hp. cbn [default from_option] in Hx. unfold EpochSummaryKey in Hx.
  do 3 apply app_inj_head in Hx. discriminate Hx.
Qed.
(** A score or a payout is found under its key, unless one with an equal key replaced it. *)
Lemma score_found rs rec m : Forall addressed (W_score <$> rs) -> rec ∈ rs ->
  exists r key, r ∈ rs /\ normalize (Address r) = normalize (Address rec) /\ ValidatorScoreKey (Address rec) = Some key /\
    put_entries (entry <$> (W_score <$> rs)) m !! key = Some (json_marshal (record_json r)).
Proof.
  rewrite Forall_fmap, Forall_forall. intros Hr Hin. pose proof (score_entry rec (Hr rec Hin)) as Hk.
  destruct (put_entries_in (entry <$> (W_score <$> rs)) m (default "" (ValidatorScoreKey (Address rec))))
    as (x & (w & -> & (r & -> & Hinr)%list_elem_of_fmap)%list_elem_of_fmap & Hx & Hl).
  { rewrite <- !list_fmap_compose. apply list_elem_of_fmap. by exists rec. }
  pose proof (score_entry r (Hr r Hinr)) as Hkr. cbn [entry fst snd] in Hx, Hl. rewrite Hk in Hl. exists r. eexists. split; [done|].
  split; [|by split]. apply (ValidatorScoreKey_inj _ _ _ Hkr). rewrite Hkr, Hk in Hx. cbn in Hx. by rewrite Hk, <- Hx.
Qed.
Lemma payout_found e ps p m : Forall addressed (W_payout e <$> ps) -> p ∈ ps ->
  exists q key, q ∈ ps /\ normalize (vp_Address q) = normalize (vp_Address p) /\ ValidatorPayoutKey e (vp_Address p) = Some key /\
    put_entries (entry <$> (W_payout e <$> ps)) m !! key = Some (json_marshal (payout_json (vp_Amount q))).
Proof.
  rewrite Forall_fmap, Forall_forall. intros Hp Hin. pose proof (payout_entry e p (Hp p Hin)) as Hk.
  destruct (put_entries_in (entry <$> (W_payout e <$> ps)) m (default "" (ValidatorPayoutKey e (vp_Address p))))
    as (x & (w & -> & (q & -> & Hinq)%list_elem_of_fmap)%list_elem_of_fmap & Hx & Hl).
  { rewrite <- !list_fmap_compose. apply list_elem_of_fmap. by exists p. }
  pose proof (payout_entry e q (Hp q Hinq)) as Hkq. cbn [entry fst snd] in Hx, Hl. rewrite Hk in Hl. exists q. eexists. split; [done|].
  split; [|by split]. rewrite Hkq, Hk in Hx. cbn [default from_option] in Hx. do 4 apply app_inj_head in Hx. done.
Qed.
(** A successful [Apply], as writes to the database. *)
Lemma apply_ok_inv `{GoFloat} eng height db res db' :
  @Apply _ _ (Adapter_RewardState a) (Some eng) height (Some db) = (Ok res, Some db') ->
  exists scores, (adapter_list db).1 = Ok scores /\ res = Compute eng height (validator_input <$> scores) /\
    @do_writes _ (Adapter_RewardState a) (plan eng height scores) db = (Ok tt, db').
Proof.
  rewrite apply_is_plan. cbn [ListValidatorScores Adapter_RewardState]. unfold adapter_list.
  destruct (RangePrefix _ _ db _) as [records [err|]]; [done|]. cbn [fst].
  destruct (do_writes _ db) as [[[]|err] db1] eqn:Hw; [|done]. intros [= <- <-]. by exists records.
Qed.
End Keys.

(** C35: when [Apply] succeeds on the adapter, every validator it listed reads back with its
    participation cleared and this epoch and height as its last; the epoch's summary and each
    payout read back; the treasury accounts have gained their shares and no other account has
    changed; and nothing is written under any other key. *)
Theorem apply_settles {FL : GoFloat} {RT : GoRuntime} a eng height db scores bucket payouts summary db' :
  db_wf db -> ledger_ok (Snapshot db) -> (adapter_list db).1 = Ok scores ->
  @Apply _ _ (Adapter_RewardState a) (Some eng) height (Some db) = (Ok (bucket, payouts, summary), Some db') ->
  (bucket, payouts, summary) = Compute eng height (validator_input <$> scores) /\
  (forall rec, rec ∈ scores -> exists r key, r ∈ scores /\ normalize (Address r) = normalize (Address rec) /\
     ValidatorScoreKey (Address rec) = Some key /\
     GetKey key db' = Some (json_marshal (record_json (ResetForEpoch (ers_Epoch summary) height r)))) /\
  (forall p, p ∈ payouts -> exists q key, q ∈ payouts /\ normalize (vp_Address q) = normalize (vp_Address p) /\
     ValidatorPayoutKey (ers_Epoch summary) (vp_Address p) = Some key /\
     GetKey key db' = Some (json_marshal (payout_json (vp_Amount q)))) /\
  GetKey (EpochSummaryKey (ers_Epoch summary)) db' = Some (json_marshal (summary_json summary)) /\
  (forall key, key ∉ (entry <$> plan eng height scores).*1 -> GetKey key db' = GetKey key db) /\
  (forall b, acct (Snapshot db') b = treasury a summary b (acct (Snapshot db) b)).
Proof.
  intros Hwf Hok Hlist Happly. apply apply_ok_inv in Happly as (scores' & Hlist' & Hres & Hdo).
  rewrite Hlist in Hlist'. injection Hlist' as <-. split; [done|].
  pose proof (do_writes_addressed a _ _ _ Hdo) as Haddr. apply do_writes_spec in Hdo as (Hkv & _ & _ & Hacct); [|done..].
  unfold plan in *. rewrite <- Hres in *. set (rs := ResetForEpoch (ers_Epoch summary) height <$> scores) in *.
  apply Forall_cons in Haddr as [_ [Hps Hrs]%Forall_app]. rewrite fmap_cons, fmap_app in Hkv |- *.
  change (put_entries (?e :: ?es) ?m) with (put_entries es (<[e.1 := e.2]> m)) in Hkv. rewrite put_entries_app in Hkv.
  unfold GetKey. rewrite Hkv. split; [|split; [|split; [|split]]].
  - intros rec Hin. destruct (score_found rs (ResetForEpoch (ers_Epoch summary) height rec)
      (put_entries (entry <$> (W_payout (ers_Epoch summary) <$> payouts))
        (<[(entry (W_summary summary)).1 := (entry (W_summary summary)).2]> (kv db))) Hrs) as (r & key & Hr & Hn & Hk & Hl).
    { by apply list_elem_of_fmap_2. }
    apply list_elem_of_fmap in Hr as (r' & -> & Hr'). by exists r', key.
  - intros p Hin. destruct (payout_found (ers_Epoch summary) payouts p
      (<[(entry (W_summary summary)).1 := (entry (W_summary summary)).2]> (kv db)) Hps Hin) as (q & key & Hq & Hn & Hk & Hl).
    exists q, key. split; [done|]. split; [done|]. split; [done|]. rewrite put_entries_notin; [done|].
    rewrite payout_entry in Hk by (rewrite Forall_fmap, Forall_forall in Hps; by apply (Hps p)). injection Hk as <-. by apply score_not_reward.
  - rewrite put_entries_notin by by apply score_not_reward. rewrite put_entries_notin by by apply summary_not_payout. apply lookup_insert_eq.
  - intros key Hk. rewrite fmap_cons, fmap_app, not_elem_of_cons, not_elem_of_app in Hk. destruct Hk as (Hk1 & Hk2 & Hk3).
    rewrite !put_entries_notin by done. by apply lookup_insert_ne.
  - intros b. rewrite Hacct. cbn [foldl credits]. apply no_credits. apply Forall_app. split; apply Forall_fmap, Forall_true; done.
Qed.
Definition eng1 : RewardEngine := NewRewardEngine (mkEmissionSchedule 1000000 (fconst 618 3) 10)
  (mkWeightConfig {[StakeClassG1 := 100; StakeClassG2 := 200]} 2).
Definition treasury1 : Adapter := mkAdapter "found" "exch".
Definition paid1 : DB := (@adapter_put runtime0 rec2 (@adapter_put runtime0 rec1 db0).2).2.
Lemma paid1_ok : db_wf paid1 /\ ledger_ok (Snapshot paid1).
Proof.
  destruct (SetKey_only (default "" (@ValidatorScoreKey runtime0 "v1")) (json_marshal (record_json rec1)) db0
    (@adapter_put runtime0 rec1 db0).2 db0_wf db0_ok) as (_ & Hwf & Hok & _); [reflexivity|].
  destruct (SetKey_only (default "" (@ValidatorScoreKey runtime0 "V2")) (json_marshal (record_json rec2)) (@adapter_put runtime0 rec1 db0).2
    paid1 Hwf Hok) as (_ & ? & ? & _); [reflexivity|]. done.
Qed.
Definition apply1 : _ * option DB := @Apply float_amd64 _ (@Adapter_RewardState runtime0 treasury1) (Some eng1) 12 (Some paid1).
Lemma apply_settles_witness : exists summary db', apply1.2 = Some db' /\ ers_FoundationShare summary = 61800 /\
  GetKey (EpochSummaryKey 1) db' = Some (json_marshal (summary_json summary)) /\
  Balance (acct (Snapshot db') "found") = 61800 /\ Balance (acct (Snapshot db') "exch") = 61800.
Proof.
  assert (Happly : exists payouts summary db', apply1 = (Ok (mkRewardBucket 618000 494400 61800 61800, payouts, summary), Some db') /\
    ers_Epoch summary = 1 /\ ers_FoundationShare summary = 61800 /\ ers_ExchangeShare summary = 61800)
    by (do 3 eexists; split; [vm_compute; reflexivity|]; split; [|split]; vm_compute; reflexivity).
  destruct Happly as (payouts & summary & db' & Happly & He & Hf & Hx). exists summary, db'. rewrite Happly.
  destruct paid1_ok as [Hwf Hok].
  destruct (@apply_settles float_amd64 runtime0 treasury1 eng1 12 paid1 [rec1; rec2] (mkRewardBucket 618000 494400 61800 61800) payouts summary db' Hwf Hok) as (_ & _ & _ & Hs & _ & Hb).
  - vm_compute. reflexivity.
  - exact Happly.
  - rewrite He in Hs. split; [reflexivity|]. split; [exact Hf|]. split; [exact Hs|]. rewrite !Hb. unfold treasury, add_amount. rewrite Hf, Hx.
    split; vm_compute; reflexivity.
Defined.

(** *** Every call credits the treasury *)
Lemma do_write_kept {RT : GoRuntime} a w db : match w with W_summary _ => False | _ => True end ->
  Snapshot (@do_write _ (Adapter_RewardState a) w db).2 = Snapshot db /\
  (db_wf db -> db_wf (@do_write _ (Adapter_RewardState a) w db).2).
Proof.
  destruct w as [s|e p|r]; [done|..]; intros _; cbn.
  - unfold RewardState.PersistValidatorPayout. case_bool_decide; [done|]. split; [done|]. intros [? ?]. by split.
  - unfold adapter_put. case_bool_decide; [done|]. destruct (not_finite _); [done|]. split; [done|]. intros [? ?]. by split.
Qed.
Lemma do_writes_kept {RT : GoRuntime} a ws db : Forall (fun w => match w with W_summary _ => False | _ => True end) ws ->
  Snapshot (@do_writes _ (Adapter_RewardState a) ws db).2 = Snapshot db /\
  (db_wf db -> db_wf (@do_writes _ (Adapter_RewardState a) ws db).2).
Proof.
  intros Hws. revert db. induction Hws as [|w ws Hw Hws IH]; intros db; [done|]. cbn [do_writes]. unfold mbind, St_bind.
  destruct (do_write_kept a w db Hw) as [Hs Hwf]. destruct (do_write w db) as [[[]|err] db1]; [|done]. cbn in Hs, Hwf.
  destruct (IH db1) as [Hs' Hwf']. rewrite Hs', Hs. by eauto.
Qed.
Lemma Compute_summary `{GoFloat} eng height vs vs' : (Compute eng height vs).2 = (Compute eng height vs').2.
Proof.
  unfold Compute. destruct (SplitMint _) as [[n f] x]. destruct (weigh _ vs 0) as [ws t], (weigh _ vs' 0) as [ws' t'].
  destruct ((t =? 0) || _), ((t' =? 0) || _); try done; by repeat destruct (pay _ _ _ _).
Qed.
Definition summary_at `{GoFloat} (eng : RewardEngine) (height : Z) : Rewards.EpochRewardSummary := (Compute eng height []).2.
Lemma summary_never_fails a s db : (RewardState.PersistEpochSummary a s db).1 = Ok tt.
Proof.
  unfold RewardState.PersistEpochSummary, mbind, St_bind. destruct (SetKey _ _ db) as [_ db0].
  repeat match goal with |- context [let (_, _) := ?m ?d in _] => destruct (m d) as [_ ?] end. done.
Qed.
Lemma apply_credits `{GoFloat} {RT : GoRuntime} a eng height db r db' scores :
  db_wf db -> ledger_ok (Snapshot db) -> (adapter_list db).1 = Ok scores ->
  @Apply _ _ (Adapter_RewardState a) (Some eng) height (Some db) = (r, Some db') ->
  db_wf db' /\ ledger_ok (Snapshot db') /\
  forall b, acct (Snapshot db') b = treasury a (summary_at eng height) b (acct (Snapshot db) b).
Proof.
  intros Hwf Hok Hlist. rewrite apply_is_plan. cbn [ListValidatorScores Adapter_RewardState]. unfold adapter_list in *.
  destruct (RangePrefix _ _ db _) as [records [err|]]; [done|]. injection Hlist as <-.
  unfold plan, summary_at. rewrite (Compute_summary eng height [] (validator_input <$> records)).
  destruct (Compute eng height (validator_input <$> records)) as [[bucket payouts] summary]. cbn [do_writes snd]. unfold mbind, St_bind.
  destruct (do_write (W_summary summary) db) as [[[]|err] db1] eqn:Hw; [|cbn in Hw; pose proof (summary_never_fails a summary db) as Hn; by rewrite Hw in Hn].
  apply do_write_spec in Hw as (_ & Hwf1 & Hok1 & Hb); [|done..].
  destruct (do_writes_kept a ((W_payout (ers_Epoch summary) <$> payouts) ++
    (W_score <$> (ResetForEpoch (ers_Epoch summary) height <$> records))) db1) as [Hs2 Hwf2].
  { apply Forall_app. split; apply Forall_fmap, Forall_true; done. }
  destruct (do_writes _ db1) as [res db2]. cbn in Hs2, Hwf2. intros [= _ <-]. rewrite Hs2. by eauto.
Qed.
(** nothing in [Apply] looks at [LastRewardedEpoch]: called again for the same height on
    what the first call left, whether that call succeeded or failed half way, it credits the
    foundation and the exchange a second time. *)
Theorem apply_credits_again `{GoFloat} {RT : GoRuntime} a eng height db r1 db1 r2 db2 scores scores1 :
  db_wf db -> ledger_ok (Snapshot db) -> (adapter_list db).1 = Ok scores -> (adapter_list db1).1 = Ok scores1 ->
  @Apply _ _ (Adapter_RewardState a) (Some eng) height (Some db) = (r1, Some db1) ->
  @Apply _ _ (Adapter_RewardState a) (Some eng) height (Some db1) = (r2, Some db2) ->
  let s := summary_at eng height in
  forall b, acct (Snapshot db2) b = treasury a s b (treasury a s b (acct (Snapshot db) b)).
Proof.
  intros Hwf Hok Hl Hl1 H1 H2 s b. destruct (apply_credits _ _ _ _ _ _ _ Hwf Hok Hl H1) as (Hwf1 & Hok1 & Hb1).
  destruct (apply_credits _ _ _ _ _ _ _ Hwf1 Hok1 Hl1 H2) as (_ & _ & Hb2). by rewrite Hb2, Hb1.
Qed.
(** A stored record without an address fails the call after the treasury has been paid. *)
Definition nameless : DB := (SetKey "validators/x/score" (json_marshal (JObj [("ConsensusScore", JInt 5)])) db0).2.
Definition apply12 (db : DB) : _ * option DB := @Apply float_amd64 _ (@Adapter_RewardState runtime0 treasury1) (Some eng1) 12 (Some db).
Lemma apply_credits_again_witness :
  exists db1 db2 err, apply12 nameless = (Err err, Some db1) /\ apply12 db1 = (Err err, Some db2) /\
    Balance (acct (Snapshot db1) "found") = 61800 /\ Balance (acct (Snapshot db2) "found") = 123600.
Proof.
  assert (H : exists db1 db2 err, apply12 nameless = (Err err, Some db1) /\ apply12 db1 = (Err err, Some db2) /\
    Balance (acct (Snapshot db1) "found") = 61800 /\ exists rs rs1, (@adapter_list runtime0 nameless).1 = Ok rs /\ (@adapter_list runtime0 db1).1 = Ok rs1).
  { do 3 eexists. split; [vm_compute; reflexivity|]. split; [vm_compute; reflexivity|]. split; [vm_compute; reflexivity|].
    do 2 eexists. split; vm_compute; reflexivity. }
  destruct H as (db1 & db2 & err & H1 & H2 & Hb1 & rs & rs1 & Hl & Hl1). exists db1, db2, err. split; [exact H1|]. split; [exact H2|].
  split; [exact Hb1|]. destruct (SetKey_keeps "validators/x/score" (json_marshal (JObj [("ConsensusScore", JInt 5)])) db0 db0_wf db0_ok)
    as (_ & Hwf & Hok & _).
  rewrite (@apply_credits_again float_amd64 runtime0 treasury1 eng1 12 nameless (Err err) db1 (Err err) db2 rs rs1).
  - vm_compute. reflexivity.
  - exact Hwf.
  - exact Hok.
  - exact Hl.
  - exact Hl1.
  - exact H1.
  - exact H2.
Defined.
