(* ===== verification/Crypto.v ===== *)
(** * internal/crypto: node keys and wallet recovery.

    ed25519 is the class [Ed25519]; the mnemonic code (github.com/tyler-smith/go-bip39) and
    HKDF (golang.org/x/crypto/hkdf) are the class [WalletKdf]. *)
From S2P Require Export Types.

Definition PrivateKeySize : nat := 64.
Definition SeedSize : nat := 32.

(** ** internal/crypto/keys.go *)
Definition FromPrivHex `{Ed25519} (hexStr : string) : result (bytes * bytes) :=
  let hexStr := trim_space hexStr in
  match hex_decode hexStr with
  | None => Err "encoding/hex"
  | Some b =>
      if bool_decide (length b = PrivateKeySize) then Ok (ed_public b, b)
      else if bool_decide (length b = SeedSize) then
        let priv := ed_key_from_seed b in Ok (ed_public priv, priv)
      else Err "bad private key length"
  end.

(** [defaultKeyPath]: [isDir] and the environment are arguments. *)
Definition path_join (dir file : string) : string := dir +:+ "/" +:+ file.
Definition defaultKeyPath (isDir : string -> bool) (dataDir : string) (args : list string) : string :=
  let fallback :=
    let dd := trim_space dataDir in
    if negb (bool_decide (dd = "")) then path_join dd "node.key" else "node.key" in
  match args with
  | a0 :: _ =>
      if bool_decide (a0 = "") then fallback
      else if isDir a0 || has_suffix a0 "/" || has_suffix a0 (String bslash "")
      then path_join a0 "node.key" else a0
  | [] => fallback
  end.

(** [LoadOrCreate] on the key file: [seed] is what the random generator delivers,
    [write_ok] whether the directory and the file can be written. *)
Definition LoadOrCreate `{Ed25519} (seed : bytes) (write_ok : bool)
    : St (option string) (result (bytes * bytes)) := fun file =>
  match file with
  | Some txt => (FromPrivHex (trim_space txt), file)
  | None =>
      let priv := ed_key_from_seed seed in
      let pub := ed_public priv in
      if negb write_ok then (Err "write", None)
      else (Ok (pub, priv), Some (hex_encode priv +:+ newline))
  end.

(** ** internal/crypto/recovery.go *)
Class WalletKdf := {
  new_mnemonic : bytes -> result string;      (* bip39.NewMnemonic *)
  new_seed : string -> string -> bytes;       (* bip39.NewSeed(mnemonic, passphrase) *)
  hkdf32 : bytes -> bytes -> bytes -> bytes;  (* 32 bytes of HKDF-SHA256(seed, salt, info) *)
  hkdf32_length : forall s t i, length (hkdf32 s t i) = 32%nat
}.
(** An instance: not secure, but with the lengths of the real functions. *)
Definition kdf0 : WalletKdf := {|
  new_mnemonic := fun e => Ok (hex_encode e);
  new_seed := fun m p => to_bytes (m +:+ p);
  hkdf32 := fun s t i => sha256 (s ++ t ++ i);
  hkdf32_length := fun s t i => sha256_length (s ++ t ++ i)
|}.
Definition hkdfSalt : bytes := to_bytes "THO-WALLET-v1".
Definition hkdfInfoMaster : bytes := to_bytes "ed25519-master".
Record RecoveryBundle := mkRecoveryBundle {
  rec_Mnemonic : string; rec_Fingerprint : string; rec_PubKeyHex : string; rec_priv : bytes
}.
Definition DeriveFromMnemonic `{Ed25519, WalletKdf} (mnemonic passphrase : string) : bytes * bytes :=
  let seed := new_seed mnemonic passphrase in
  let keySeed := hkdf32 seed hkdfSalt hkdfInfoMaster in
  let priv := ed_key_from_seed keySeed in
  (ed_public priv, priv).
Definition NewRecoveryBundle `{Ed25519, WalletKdf} (entropy : result bytes) (passphrase : string)
    : result RecoveryBundle :=
  entropy ← entropy;
  mnemonic ← new_mnemonic entropy;
  let '(pub, priv) := DeriveFromMnemonic mnemonic passphrase in
  let fp := sha256 (to_bytes (trim_space mnemonic)) in
  Ok (mkRecoveryBundle mnemonic (hex_encode (take 4 fp)) (hex_encode pub) priv).
Definition zero (b : bytes) : bytes := (fun _ => z2b 0) <$> b.

Lemma hexchar_graph n : graph (hexchar n) = true.
Proof.
  unfold hexchar. destruct (String.get (Z.to_nat n) "0123456789abcdef") as [c|] eqn:E.
  - assert (H : forall s i d, str_forall graph s = true -> String.get i s = Some d -> graph d = true).
    { induction s as [|x s IH]; intros [|i] d Hs Hi; try done; cbn in Hs, Hi;
        apply andb_prop in Hs as [Hx Hs]; [congruence|by eapply IH]. }
    by eapply H; [|exact E].
  - done.
Qed.
Lemma hex_graph b : str_forall graph (hex_encode b) = true.
Proof. induction b as [|x b IH]; [done|]. cbn [hex_encode str_forall]. by rewrite !hexchar_graph, IH. Qed.
Lemma FromPrivHex_encode `{Ed25519} priv : length priv = 64%nat ->
  FromPrivHex (trim_space (hex_encode priv +:+ newline)) = Ok (ed_public priv, priv).
Proof.
  intros Hl. rewrite trim_space_newline by (apply hex_graph || by destruct priv).
  unfold FromPrivHex. rewrite trim_space_graph by apply hex_graph.
  rewrite hex_roundtrip. by rewrite bool_decide_true.
Qed.

(** a node keeps its identity: the key pair that [LoadOrCreate] makes and writes on the
    first start is the one every later start loads, whatever the random generator then
    says, and signatures made with it verify. *)
Theorem LoadOrCreate_stable `{Ed25519} (seed seed' m : bytes) (write_ok : bool) :
  length seed = 32%nat ->
  exists pub priv file, LoadOrCreate seed true None = (Ok (pub, priv), Some file) /\
    LoadOrCreate seed' write_ok (Some file) = (Ok (pub, priv), Some file) /\
    length pub = 32%nat /\ length priv = 64%nat /\ ed_verify pub m (ed_sign priv m) = true.
Proof.
  intros Hs. unfold LoadOrCreate. cbn [negb].
  pose proof (ed_key_length seed Hs) as Hk. do 3 eexists. split; [reflexivity|].
  split; [by rewrite FromPrivHex_encode|]. split; [by apply ed_public_length|].
  split; [done|by apply ed_sign_verify].
Qed.
Lemma LoadOrCreate_stable_witness : exists pub priv file,
  @LoadOrCreate ed0 (h32 9) true None = (Ok (pub, priv), Some file) /\
  @LoadOrCreate ed0 (h32 1) false (Some file) = (Ok (pub, priv), Some file) /\
  length pub = 32%nat /\ length priv = 64%nat /\ @ed_verify ed0 pub [] (@ed_sign ed0 priv []) = true.
Proof. apply (@LoadOrCreate_stable ed0 (h32 9) (h32 1) [] false). reflexivity. Defined.
