(* ===== verification/Engine.v ===== *)
(** * internal/app/engine.go: the node's engine.

    The engine joins the account store, the receipt ledger, the rounds, the header chain
    and the supply.  Its mutex makes every exported method atomic, so a method is one
    state transformer.  What the code takes from outside is an argument: [now] (the
    clock), [wr] (whether the data directory can be written), the environment.  A file
    is its content: [json.MarshalIndent] differs from [json.Marshal] in white space only,
    which no reader of the files depends on. *)
From S2P Require Export Crypto Tx RewardState.

(** ** State *)
Record commitRecord := mkCommitRecord { cr_Height : Z; cr_Root : bytes; cr_Bundle : CommitBundle }.
Record Ledger := mkLedger {
  receipts : gmap string TxReceipt; leaves : list bytes; height : Z;
  rounds : list RoundHeader; lastCommittedHeight : Z
}.
Record Chain := mkChain {
  eternityHeaders : list EternityHeader; lastBlockID : bytes; lastCommitRoot : bytes;
  lastCommitHeight : Z; commitRootReady : bool; commitFeed : list commitRecord;
  printed : list (Z * Z)      (* lines "buildEternityHeader failed at height, round" on stdout *)
}.
Record Mint := mkMint { supply : SupplyState; lastMintedMas : Z; lastEmissionEpoch : Z }.
Record Files := mkFiles {
  f_state_v1 : option bytes; f_state_v2 : option bytes; f_ledger : option bytes;
  f_key : option string
}.
Record Engine := mkEngine {
  txq : list bytes; db : DB; led : Ledger; chain : Chain; mint : Mint;
  priv : bytes; pub : bytes; files : Files
}.
Definition set_db (d : DB) (e : Engine) : Engine :=
  mkEngine (txq e) d (led e) (chain e) (mint e) (priv e) (pub e) (files e).
Definition set_led (l : Ledger) (e : Engine) : Engine :=
  mkEngine (txq e) (db e) l (chain e) (mint e) (priv e) (pub e) (files e).
Definition set_chain (c : Chain) (e : Engine) : Engine :=
  mkEngine (txq e) (db e) (led e) c (mint e) (priv e) (pub e) (files e).
Definition set_mint (m : Mint) (e : Engine) : Engine :=
  mkEngine (txq e) (db e) (led e) (chain e) m (priv e) (pub e) (files e).
Definition set_files (f : Files) (e : Engine) : Engine :=
  mkEngine (txq e) (db e) (led e) (chain e) (mint e) (priv e) (pub e) f.

Definition DefaultChainID : string := "thomas-dev-1".
Definition aliasSys : string := "alias:sys".

(** ** JSON forms *)
Definition receipt_json (r : TxReceipt) : json :=
  JObj [("tx_hash", JStr (r_TxHash r)); ("from", JStr (r_From r)); ("to", JStr (r_To r));
        ("amount", JUint (r_Amount r)); ("fee", JUint (r_Fee r)); ("nonce", JUint (r_Nonce r));
        ("status", JStr (r_Status r)); ("height", JUint (r_Height r)); ("time_utc", JInt (r_TimeUTC r))].
Definition receipt_zero : TxReceipt := mkTxReceipt "" "" "" 0 0 0 "" 0 0.
Definition receipt_of_json : json -> option TxReceipt :=
  dec_struct receipt_zero (fun fs =>
    h ← dec_field dec_string "tx_hash" "" fs; from ← dec_field dec_string "from" "" fs;
    to ← dec_field dec_string "to" "" fs; amount ← dec_field dec_uint64 "amount" 0 fs;
    fee ← dec_field dec_uint64 "fee" 0 fs; nonce ← dec_field dec_uint64 "nonce" 0 fs;
    status ← dec_field dec_string "status" "" fs; ht ← dec_field dec_uint64 "height" 0 fs;
    tm ← dec_field dec_int64 "time_utc" 0 fs;
    Some (mkTxReceipt h from to amount fee nonce status ht tm)).
Definition canon_fields (h : RoundHeader) : list (string * json) :=
  [("round", JUint (rh_Round h)); ("from_height", JUint (rh_FromHeight h));
   ("to_height", JUint (rh_ToHeight h)); ("tx_count", JUint (rh_TxCount h));
   ("root", JStr (rh_Root h)); ("time_utc", JInt (rh_TimeUTC h))].
Definition round_json (h : RoundHeader) : json :=
  JObj (canon_fields h ++
        (if bool_decide (rh_SignatureHex h = "") then [] else [("signature_hex", JStr (rh_SignatureHex h))])).
Definition round_zero : RoundHeader := mkRoundHeader 0 0 0 0 "" 0 "".
Definition round_of_json : json -> option RoundHeader :=
  dec_struct round_zero (fun fs =>
    r ← dec_field dec_uint64 "round" 0 fs; from ← dec_field dec_uint64 "from_height" 0 fs;
    to ← dec_field dec_uint64 "to_height" 0 fs; n ← dec_field dec_uint64 "tx_count" 0 fs;
    root ← dec_field dec_string "root" "" fs; tm ← dec_field dec_int64 "time_utc" 0 fs;
    sig ← dec_field dec_string "signature_hex" "" fs;
    Some (mkRoundHeader r from to n root tm sig)).
(** A JSON array into a slice; [null] gives the nil slice. *)
Definition dec_list {A} (dec : json -> option A) (j : json) : option (list A) :=
  match j with JArr l => mapM dec l | JNull => Some [] | _ => None end.
(** A JSON object into a map: every member starts from the zero value. *)
Definition dec_map {A} (dec : json -> option A) (j : json) : option (gmap string A) :=
  match j with
  | JObj l => foldl (fun acc kv => m ← acc; v ← dec kv.2; Some (<[kv.1 := v]> m)) (Some ∅) l
  | JNull => Some ∅
  | _ => None
  end.
Definition account_of_json : json -> option Account :=
  dec_struct zeroAccount (fun fs =>
    b ← dec_field dec_uint64 "balance" 0 fs; n ← dec_field dec_uint64 "nonce" 0 fs;
    Some (mkAccount b n)).
Definition dec_string_elem (j : json) : option string :=
  match j with JNull => Some "" | _ => dec_string j end.

Definition read_json {A} (dec : json -> option A) (file : option bytes) : option A :=
  b ← file; j ← json_unmarshal b; dec j.

(** ** Persistence *)
(** [encoding/json] writes a map with its keys in byte order. *)
Definition snapshot_json (m : gmap string Account) : json :=
  JObj ((fun k => (k, account_json (acct m k))) <$> merge_sort str_le (map_to_list m).*1).
Definition saveStateMas (wr : bool) : St Engine (result unit) := fun e =>
  if wr then
    let b := json_marshal (snapshot_json (Snapshot (db e))) in
    (Ok tt, set_files (mkFiles (f_state_v1 (files e)) (Some b) (f_ledger (files e)) (f_key (files e))) e)
  else (Err "write", e).
Definition loadStateMas `{GoRuntime} (file : option bytes) : St Engine bool := fun e =>
  match read_json (dec_map account_of_json) file with
  | None => (false, e)
  | Some m => (true, set_db (Restore m (db e)).2 e)
  end.
Definition loadStateMicro (file : option bytes) : option (gmap string Account) :=
  read_json (dec_map account_of_json) file.

Definition height_le (a b : TxReceipt) : Prop := r_Height a <= r_Height b.
#[global] Instance height_le_dec : RelDecision height_le.
Proof. intros a b. unfold height_le. apply _. Defined.
#[global] Instance height_le_total : Total height_le.
Proof. intros a b. unfold height_le. lia. Qed.
#[global] Instance height_le_trans : Transitive height_le.
Proof. intros a b c. unfold height_le. lia. Qed.

Record ledgerV1 := mkLedgerV1 {
  lv_Version : Z; lv_Height : Z; lv_LastCommittedHeight : Z; lv_Receipts : list TxReceipt;
  lv_Rounds : list RoundHeader
}.
Definition ledger_json (l : ledgerV1) : json :=
  JObj [("version", JInt (lv_Version l)); ("height", JUint (lv_Height l));
        ("last_committed_height", JUint (lv_LastCommittedHeight l));
        ("receipts", JArr (receipt_json <$> lv_Receipts l));
        ("rounds", match lv_Rounds l with [] => JNull | rs => JArr (round_json <$> rs) end)].
Definition ledger_of_json : json -> option ledgerV1 :=
  dec_struct (mkLedgerV1 0 0 0 [] []) (fun fs =>
    v ← dec_field dec_int64 "version" 0 fs; h ← dec_field dec_uint64 "height" 0 fs;
    c ← dec_field dec_uint64 "last_committed_height" 0 fs;
    rs ← dec_field (dec_list receipt_of_json) "receipts" [] fs;
    ro ← dec_field (dec_list round_of_json) "rounds" [] fs;
    Some (mkLedgerV1 v h c rs ro)).

Definition ledger_file `{GoRuntime, GoSort} (l : Ledger) : bytes :=
  let list := sort_slice height_le (map_iter (receipts l)).*2 in
  json_marshal (ledger_json
    (mkLedgerV1 1 (Z.of_nat (length (leaves l))) (lastCommittedHeight l) list (rounds l))).
Definition saveLedger `{GoRuntime, GoSort} (wr : bool) : St Engine (result unit) := fun e =>
  if wr then
    (Ok tt, set_files (mkFiles (f_state_v1 (files e)) (f_state_v2 (files e))
                         (Some (ledger_file (led e))) (f_key (files e))) e)
  else (Err "write", e).
Definition loadLedger `{GoSort} (file : option bytes) : St Engine (result unit) := fun e =>
  match file with
  | None => (Ok tt, e)
  | Some b =>
      match read_json ledger_of_json (Some b) with
      | None => (Err "json", e)
      | Some l =>
          let rs := sort_slice height_le (lv_Receipts l) in
          (Ok tt, set_led (mkLedger
            (foldl (fun m r => <[r_TxHash r := r]> m) ∅ rs)
            ((fun r => json_marshal (receipt_json r)) <$> rs)
            (Z.of_nat (length (lv_Receipts l))) (lv_Rounds l) (lv_LastCommittedHeight l)) e)
      end
  end.

(** ** Operations *)
Section Operations.
Context `{GoRuntime, GoSort, Blake3, Cbor, Ed25519, GoFloat}.

Definition PushRawTx (b : bytes) : St Engine unit := fun e =>
  (tt, mkEngine (txq e ++ [b]) (db e) (led e) (chain e) (mint e) (priv e) (pub e) (files e)).
Definition TxCount (e : Engine) : Z := Z.of_nat (length (txq e)).
Definition CurrentHeight (e : Engine) : Z := height (led e).
Definition Engine_GetAccount (addr : string) : St Engine Account := fun e =>
  let '(a, d) := GetAccount addr (db e) in (a, set_db d e).

(** [tryApplyAliasSetTx] of engine_alias_stub.go: not handled, no error. *)
Definition tryApplyAliasSetTx (t : Transfer) (nowUTC : Z) : bool * result unit := (false, Ok tt).
Definition Engine_ApplyTransfer (featAlias wr : bool) (t : Transfer) : St Engine (result unit) := fun e =>
  let '(handled, err) :=
    if featAlias && bool_decide (t_To t = aliasSys)
    then tryApplyAliasSetTx t (i64 (CurrentHeight e)) else (false, Ok tt) in
  if handled : bool then
    match err with Err r => (Err r, e) | Ok _ => saveStateMas wr e end
  else
    match ApplyTransfer (t_From t) (t_To t) (t_AmountMas t) (t_FeeMas t) (t_Nonce t) (db e) with
    | (Err r, d) => (Err r, set_db d e)
    | (Ok _, d) => saveStateMas wr (set_db d e)
    end.

Definition StoreReceipt (now : Z) (wr : bool) (t : Transfer) (applied : bool) (reason : string)
    : St Engine TxReceipt := fun e =>
  let l := led e in
  let status := if applied then "applied" else "rejected:" +:+ reason in
  let r := mkTxReceipt (tx_Hash t) (t_From t) (t_To t) (t_AmountMas t) (t_FeeMas t) (t_Nonce t)
             status (Z.of_nat (length (leaves l))) now in
  let b := json_marshal (receipt_json r) in
  let l := mkLedger (<[r_TxHash r := r]> (receipts l)) (leaves l ++ [b]) (height l +u 1)
             (rounds l) (lastCommittedHeight l) in
  (r, (saveLedger wr (set_led l e)).2).
Definition GetReceipt (hash : string) (e : Engine) : option TxReceipt := receipts (led e) !! hash.
Definition MerkleRoot (e : Engine) : bytes := Sha256Tree.Root (leaves (led e)).
Definition ReceiptCount (e : Engine) : Z := Z.of_nat (length (leaves (led e))).

Definition CanonicalRoundHeaderBytes (h : RoundHeader) : bytes := json_marshal (JObj (canon_fields h)).
Definition SignRoundHeader (h : RoundHeader) (e : Engine) : option bytes :=
  if bool_decide (length (priv e) = 0%nat) then None
  else Some (ed_sign (priv e) (CanonicalRoundHeaderBytes h)).

Definition applyBlockMint (h : Z) : St Engine (result unit) := fun e =>
  let '((epoch, minted), s) := ApplyBlockMint h (supply (mint e)) in
  match persistSupplyState h s (db e) with
  | (Err r, d) => (Err r, set_db d (set_mint (mkMint s (lastMintedMas (mint e)) (lastEmissionEpoch (mint e))) e))
  | (Ok _, d) => (Ok tt, set_db d (set_mint (mkMint s minted epoch) e))
  end.

(** [copy(out[:], b)] into a 32-byte array. *)
Definition bytesTo32 (b : bytes) : bytes := take 32 (b ++ zero32).

Definition buildEternityHeader (raw : list bytes) (hdr : RoundHeader)
    : St Engine (result (EternityHeader * CommitBundle)) := fun e =>
  if negb (bool_decide (length (pub e) = 32%nat)) || negb (bool_decide (length (priv e) = 64%nat))
  then (Err "engine: proposer key unavailable", e) else
  let txRoot := Blake3RootFromRaw raw in
  let stateRoot := StateRoot (db e) in
  let scores := match loadAllValidatorScores (db e) with Ok s => s | Err _ => [] end in
  let vroot := computeValidatorsRoot scores in
  let bundle := mkCommitBundle (u32 (rh_Round hdr)) vroot [z2b 1] 3 [] in
  match cb_Hash bundle with
  | Err r => (Err r, e)
  | Ok cbHash =>
      let h := if rh_ToHeight hdr =? 0 then height (led e) else rh_ToHeight hdr in
      let out := mkEternityHeader EternityHeaderVersionV1 DefaultChainID h (u32 (rh_Round hdr))
                   (rh_TimeUTC hdr) (lastBlockID (chain e)) stateRoot txRoot zero32 cbHash
                   (bytesTo32 (pub e)) (EpochOf h) zero32 zero32 [] in
      match eh_SignBytes out with
      | Err r => (Err r, e)
      | Ok _ =>
          match eh_Hash out with
          | Err r => (Err r, e)
          | Ok blockID =>
              (Ok (out, bundle),
               set_chain (mkChain (eternityHeaders (chain e)) blockID cbHash h true
                            (commitFeed (chain e)) (printed (chain e))) e)
          end
      end
  end.

(** The tail of [CommitRound]: a successful header is appended to the chain and the feed;
    the message on the console sits in the wrong branch. *)
Definition record_header (hdr : RoundHeader) (header : EternityHeader) (bundle : CommitBundle)
    (c : Chain) : Chain :=
  let hs := eternityHeaders c ++ [header] in
  let '(feed, out) :=
    if (64 <=? Z.of_nat (length (commitFeed c))) then (drop 1 (commitFeed c), printed c)
    else (commitFeed c, printed c ++ [(rh_ToHeight hdr, rh_Round hdr)]) in
  mkChain hs (lastBlockID c) (lastCommitRoot c) (lastCommitHeight c) (commitRootReady c)
    (feed ++ [mkCommitRecord (eh_Height header) (eh_CommitRoot header) bundle]) out.

Definition CommitRound (now : Z) (wr : bool) : St Engine (option RoundHeader) := fun e =>
  let leavesLen := Z.of_nat (length (leaves (led e))) in
  let rc := leavesLen in
  let l := led e in
  let l := if negb (height l =? rc)
           then mkLedger (receipts l) (leaves l) rc (rounds l) (lastCommittedHeight l) else l in
  let e := set_led l e in
  let from := lastCommittedHeight l +u 1 in
  let to := height l in
  let to := if leavesLen <? to then leavesLen else to in
  if to <? from then (None, e) else
  match applyBlockMint to e with
  | (Err _, e) => (None, e)
  | (Ok _, e) =>
      let sub := drop (Z.to_nat (from - 1)) (take (Z.to_nat to) (leaves l)) in
      let root := Sha256Tree.Root sub in
      let hdr := mkRoundHeader (Z.of_nat (length (rounds l) + 1)) from to (Z.of_nat (length sub))
                   (hex_encode root) now "" in
      let hdr := match SignRoundHeader hdr e with
                 | Some sig => mkRoundHeader (rh_Round hdr) from to (rh_TxCount hdr) (rh_Root hdr)
                                 now (hex_encode sig)
                 | None => hdr end in
      let e := set_led (mkLedger (receipts l) (leaves l) (height l) (rounds l ++ [hdr]) to) e in
      let e := (saveLedger wr e).2 in
      match buildEternityHeader sub hdr e with
      | (Ok (header, bundle), e) =>
          (Some hdr, set_chain (record_header hdr header bundle (chain e)) e)
      | (Err _, e) => (Some hdr, e)
      end
  end.

(** [int(n)] is the signed reading of [n]; [None] is the index-out-of-range panic. *)
Definition GetRound (n : Z) (e : Engine) : option (RoundHeader * bool) :=
  if (n =? 0) || (Z.of_nat (length (rounds (led e))) <? i64 n) then Some (round_zero, false)
  else h ← rounds (led e) !! Z.to_nat (n - 1); Some (h, true).
Definition LatestEternityHeader (e : Engine) : option EternityHeader := last (eternityHeaders (chain e)).
Definition EternityHeaderAt (h : Z) (e : Engine) : option EternityHeader :=
  List.find (fun x => eh_Height x =? h) (reverse (eternityHeaders (chain e))).
Definition LatestCommitRoot (e : Engine) : option (bytes * Z) :=
  let c := chain e in
  if negb (commitRootReady c) then None else Some (lastCommitRoot c, lastCommitHeight c).
Definition LatestRound (e : Engine) : option RoundHeader := last (rounds (led e)).
Definition PubKeyHex (e : Engine) : string :=
  if bool_decide (length (pub e) = 0%nat) then "" else hex_encode (pub e).
Definition CurrentSupply (e : Engine) : SupplyState := supply (mint e).
Definition SupplyAt (h : Z) (e : Engine) : SupplyState * bool :=
  if h =? LastUpdatedHeight (supply (mint e)) then (supply (mint e), true)
  else loadSupplyStateAt h (db e).
Definition Engine_ListValidatorScores (e : Engine) : result (list ScoreRecord) :=
  loadAllValidatorScores (db e).
Definition CommitBundleAt (h : Z) (e : Engine) : option CommitBundle :=
  cr_Bundle <$> List.find (fun r => cr_Height r =? h) (reverse (commitFeed (chain e))).
Definition RecordCommitBundle (bundle : CommitBundle) : St Engine unit := fun e =>
  let c := chain e in
  let root := match cb_Hash bundle with Ok r => r | Err _ => lastCommitRoot c end in
  let h := height (led e) in
  let feed := if (64 <=? Z.of_nat (length (commitFeed c))) then drop 1 (commitFeed c) else commitFeed c in
  (tt, set_chain (mkChain (eternityHeaders c) (lastBlockID c) root h true
         (feed ++ [mkCommitRecord h root bundle]) (printed c)) e).

(** [NewEngine] on the files of a data directory: [seed1] and [seed2] are the random
    seeds of the two key generators. *)
Definition genesis : list (string * Z) :=
  [("tho1alice", 2000000 * 10); ("tho1foundation", 0); ("tho1exchange", 0)].
Definition load_state (wr : bool) : St Engine unit := fun e =>
  let '(ok, e) := loadStateMas (f_state_v2 (files e)) e in
  if ok : bool then (tt, e) else
  match loadStateMicro (f_state_v1 (files e)) with
  | Some m =>
      let m := (fun v => mkAccount (Balance v *u 10) (Nonce v)) <$> m in
      let e := set_db (Restore m (db e)).2 e in
      (tt, (saveStateMas wr e).2)
  | None =>
      let e := set_db (InitGenesis genesis (db e)).2 e in
      (tt, (saveStateMas wr e).2)
  end.
Definition boot (seed1 seed2 : bytes) (wr : bool) (fs : Files) : Engine :=
  let d := (SetFeeReceiver "tho1foundation" NewDB).2 in
  let '(kp, keyfile) := LoadOrCreate seed1 wr (f_key fs) in
  let '(pub, priv) :=
    match kp with
    | Ok (p, s) =>
        if bool_decide (length p = 32%nat) && bool_decide (length s = 64%nat) then (p, s)
        else let s2 := ed_key_from_seed seed2 in (ed_public s2, s2)
    | Err _ => let s2 := ed_key_from_seed seed2 in (ed_public s2, s2)
    end in
  mkEngine [] d (mkLedger ∅ [] 0 [] 0) (mkChain [] zero32 zero32 0 false [] [])
    (mkMint supply_zero 0 0) priv pub
    (mkFiles (f_state_v1 fs) (f_state_v2 fs) (f_ledger fs) keyfile).
Definition load_all (wr : bool) (e : Engine) : Engine :=
  let e := (load_state wr e).2 in
  let e := (loadLedger (f_ledger (files e)) e).2 in
  match loadSupplyState (db e) with
  | (st, true) => set_mint (mkMint st (BlockMintAt (LastUpdatedHeight st)) (EpochOf (LastUpdatedHeight st))) e
  | (_, false) => e
  end.
Definition NewEngine (seed1 seed2 : bytes) (wr : bool) (fs : Files) : Engine :=
  load_all wr (boot seed1 seed2 wr fs).
End Operations.

(** ** Address bindings and aliases, read from files on every call *)
Section Bindings.
Context `{GoRuntime}.

(** data/from_pubkeys.json; [None] is the nil map. *)
Definition getFromPubKeyMap (file : option bytes) : option (gmap string string) :=
  b ← file;
  if bool_decide (length b = 0%nat) then None else
  j ← json_unmarshal b;
  match j with JNull => None | _ => dec_map dec_string_elem j end.
Definition VerifyFromBinding (file : option bytes) (addr : string) (pk : bytes) : bool :=
  match getFromPubKeyMap file with
  | None => false
  | Some m =>
      match m !! addr with
      | None => false
      | Some s =>
          if bool_decide (s = "") then false
          else match hex_decode s with
          | Some hb => bool_decide (hb = pk)
          | None => match b64_decode false s with
                    | Some bb => bool_decide (bb = pk)
                    | None => false
                    end
          end
      end
  end.
Definition GetAccountPubKey (file : option bytes) (addr : string) : string :=
  match getFromPubKeyMap file with None => "" | Some m => default "" (m !! addr) end.

(** data/alias_map.json *)
Definition alias_file (file : option bytes) : option (gmap string string) :=
  b ← file;
  if bool_decide (length b = 0%nat) then None else
  m ← read_json (dec_map dec_string_elem) (Some b);
  if bool_decide (m = ∅) then None else Some m.
Definition aliasMap (file : option bytes) : gmap string string :=
  default {["alice" := "tho1alice"; "bob" := "tho1bob"]} (alias_file file).
(** The answer: the members [owner] and [version] or an empty object, and the flag. *)
Definition ResolveAlias (file : option bytes) (name : string) : option string * bool :=
  if bool_decide (name = "") then (None, false) else
  let name := if has_prefix name "@" then trim_prefix name "@" else name in
  match aliasMap file !! name with
  | Some owner => if negb (bool_decide (owner = "")) then (Some owner, true) else (None, true)
  | None => (None, true)
  end.
Fixpoint reverse_loop (m : list (string * string)) (addr : string) : string :=
  match m with
  | [] => ""
  | (k, v) :: m => if bool_decide (v = addr) then k else reverse_loop m addr
  end.
Definition ReverseAlias (file : option bytes) (addr : string) : string * bool :=
  if bool_decide (addr = "") then ("", false) else (reverse_loop (map_iter (aliasMap file)) addr, true).
Definition ResolveAliasFile (file : option bytes) (name : string) : option string * bool :=
  if bool_decide (name = "") then (None, true) else
  let name := if has_prefix name "@" then trim_prefix name "@" else name in
  match alias_file file with
  | None => (None, true)
  | Some m => match m !! name with
              | Some owner => if negb (bool_decide (owner = "")) then (Some owner, true) else (None, true)
              | None => (None, true)
              end
  end.
Definition ReverseAliasFile (file : option bytes) (addr : string) : string * bool :=
  if bool_decide (addr = "") then ("", true) else
  match alias_file file with None => ("", true) | Some m => (reverse_loop (map_iter m) addr, true) end.
End Bindings.

(** ** Lemmas: the ledger files *)
Definition receipt_ok (r : TxReceipt) : Prop :=
  in_u64 (r_Amount r) /\ in_u64 (r_Fee r) /\ in_u64 (r_Nonce r) /\ in_u64 (r_Height r) /\
  in_i64 (r_TimeUTC r) /\ str_forall is_ascii (r_TxHash r) = true /\ str_forall is_ascii (r_From r) = true /\
  str_forall is_ascii (r_To r) = true /\ str_forall is_ascii (r_Status r) = true.
Definition round_ok (h : RoundHeader) : Prop :=
  in_u64 (rh_Round h) /\ in_u64 (rh_FromHeight h) /\ in_u64 (rh_ToHeight h) /\ in_u64 (rh_TxCount h) /\
  in_i64 (rh_TimeUTC h) /\ str_forall is_ascii (rh_Root h) = true /\
  str_forall is_ascii (rh_SignatureHex h) = true.

Lemma receipt_json_ok r : receipt_ok r -> json_ok (receipt_json r).
Proof. intros (?&?&?&?&?&?&?&?&?). cbn. auto 20 with go. Qed.
Lemma receipt_roundtrip r : receipt_ok r -> receipt_of_json (receipt_json r) = Some r.
Proof.
  intros (?&?&?&?&?&?&?&?&?). unfold receipt_of_json, receipt_json, dec_struct. json_fields. by destruct r.
Qed.
Lemma round_json_ok h : round_ok h -> json_ok (round_json h).
Proof.
  intros (?&?&?&?&?&?&?). unfold round_json. case_bool_decide; cbn; auto 20 with go.
Qed.
Lemma round_roundtrip h : round_ok h -> round_of_json (round_json h) = Some h.
Proof.
  intros (?&?&?&?&?&?&?). unfold round_of_json, round_json, dec_struct, canon_fields.
  destruct h as [r f t n root tm sig]. cbn [rh_Round rh_FromHeight rh_ToHeight rh_TxCount rh_Root rh_TimeUTC rh_SignatureHex] in *.
  case_bool_decide; subst; cbn [app]; json_fields; done.
Qed.
Lemma mapM_roundtrip {A} (enc : A -> json) (dec : json -> option A) (ok : A -> Prop) l :
  (forall x, ok x -> dec (enc x) = Some x) -> Forall ok l -> mapM dec (enc <$> l) = Some l.
Proof.
  intros Hd Hl. induction Hl as [|x l Hx Hl IH]; [done|]. cbn. rewrite Hd by done. cbn.
  change (mapM dec (enc <$> l) ≫= (fun k => mret (x :: k)) = Some (x :: l)). by rewrite IH.
Qed.
Lemma json_ok_arr {A} (enc : A -> json) (ok : A -> Prop) l :
  (forall x, ok x -> json_ok (enc x)) -> Forall ok l -> json_ok (JArr (enc <$> l)).
Proof. intros He Hl. induction Hl; cbn; auto. Qed.
Lemma json_ok_obj l : Forall (fun kv => str_forall is_ascii kv.1 = true /\ json_ok kv.2) l -> json_ok (JObj l).
Proof. intros Hl. induction Hl; cbn; auto. Qed.
Definition ledger_ok_v1 (l : ledgerV1) : Prop :=
  in_i64 (lv_Version l) /\ in_u64 (lv_Height l) /\ in_u64 (lv_LastCommittedHeight l) /\
  Forall receipt_ok (lv_Receipts l) /\ Forall round_ok (lv_Rounds l).
Lemma dec_list_receipts rs : Forall receipt_ok rs ->
  dec_list receipt_of_json (JArr (receipt_json <$> rs)) = Some rs.
Proof. apply mapM_roundtrip, receipt_roundtrip. Qed.
Lemma dec_list_rounds rs : Forall round_ok rs -> dec_list round_of_json (JArr (round_json <$> rs)) = Some rs.
Proof. apply mapM_roundtrip, round_roundtrip. Qed.
#[export] Hint Resolve dec_list_receipts dec_list_rounds : go.

Lemma ledger_roundtrip l : ledger_ok_v1 l -> read_json ledger_of_json (Some (json_marshal (ledger_json l))) = Some l.
Proof.
  intros (Hv & Hh & Hc & Hrs & Hro). unfold read_json. cbn [mbind option_bind].
  rewrite json_roundtrip; cbn [mbind option_bind].
  - unfold ledger_of_json, ledger_json, dec_struct. destruct l as [v h c rs ro].
    cbn [lv_Version lv_Height lv_LastCommittedHeight lv_Receipts lv_Rounds] in *.
    destruct ro as [|r ro]; json_fields; done.
  - unfold ledger_json. pose proof (json_ok_arr receipt_json receipt_ok _ receipt_json_ok Hrs).
    pose proof (json_ok_arr round_json round_ok _ round_json_ok Hro).
    apply json_ok_obj. repeat (apply Forall_cons; split; [split; [reflexivity|]|]); [..|constructor];
      cbn [snd]; try done; try (apply num_ok_int || apply num_ok_uint).
    destruct (lv_Rounds l); done.
Qed.

(** ** Invariants *)
Definition slice (lv : list bytes) (from to : Z) : list bytes :=
  drop (Z.to_nat (from - 1)) (take (Z.to_nat to) lv).
(** The rounds number from [k] on and cut the leaves from height [from] to [lst] into
    consecutive non-empty batches; each names the Merkle root of its batch. *)
Fixpoint rounds_ok (lv : list bytes) (k from : Z) (rs : list RoundHeader) (lst : Z) : Prop :=
  match rs with
  | [] => lst = from - 1
  | h :: rs =>
      rh_Round h = k /\ rh_FromHeight h = from /\
      from <= rh_ToHeight h <= Z.of_nat (length lv) /\
      rh_TxCount h = rh_ToHeight h - from + 1 /\
      rh_Root h = hex_encode (Sha256Tree.Root (slice lv from (rh_ToHeight h))) /\
      rounds_ok lv (k + 1) (rh_ToHeight h + 1) rs lst
  end.

Lemma slice_app lv b from to : to <= Z.of_nat (length lv) -> slice (lv ++ b) from to = slice lv from to.
Proof. intros Ht. unfold slice. by rewrite take_app_le by lia. Qed.
Lemma slice_length lv from to : 1 <= from <= to -> to <= Z.of_nat (length lv) ->
  Z.of_nat (length (slice lv from to)) = to - from + 1.
Proof. intros. unfold slice. rewrite length_drop, length_take. lia. Qed.
Lemma rounds_ok_app lv b k from rs lst : rounds_ok lv k from rs lst -> rounds_ok (lv ++ b) k from rs lst.
Proof.
  revert k from; induction rs as [|h rs IH]; intros k from; [done|]. cbn.
  intros (? & ? & ? & ? & Hr & ?). rewrite slice_app by lia. rewrite length_app.
  repeat (split; [done || lia|]). by apply IH.
Qed.
Lemma rounds_ok_snoc lv k from rs lst h : 1 <= from -> rounds_ok lv k from rs lst ->
  rh_Round h = k + Z.of_nat (length rs) -> rh_FromHeight h = lst + 1 ->
  lst < rh_ToHeight h <= Z.of_nat (length lv) -> rh_TxCount h = rh_ToHeight h - lst ->
  rh_Root h = hex_encode (Sha256Tree.Root (slice lv (lst + 1) (rh_ToHeight h))) ->
  rounds_ok lv k from (rs ++ [h]) (rh_ToHeight h).
Proof.
  revert k from; induction rs as [|g rs IH]; intros k from Hf Hrs Hr Hfrom Hto Hn Hroot; cbn in *.
  - subst lst. replace (from - 1 + 1) with from in * by lia. repeat (split; [done || lia|]). lia.
  - destruct Hrs as (? & ? & ? & ? & ? & Hrs). repeat (split; [done|]).
    apply IH; [lia|done|lia|done|done|done|done].
Qed.

Section Invariant.
Context `{GoRuntime, GoSort, Blake3, Cbor, Ed25519, GoFloat}.

(** Each header names its predecessor's hash. *)
Fixpoint chain_ok (prev : bytes) (hs : list EternityHeader) (lastID : bytes) : Prop :=
  match hs with
  | [] => lastID = prev
  | h :: hs => eh_PrevHash h = prev /\ exists id, eh_Hash h = Ok id /\ chain_ok id hs lastID
  end.
Lemma chain_ok_snoc prev hs lastID h id :
  chain_ok prev hs lastID -> eh_PrevHash h = lastID -> eh_Hash h = Ok id ->
  chain_ok prev (hs ++ [h]) id.
Proof.
  revert prev; induction hs as [|g hs IH]; intros prev; cbn; [intros ->; eauto|].
  intros (? & i & ? & ?) ? ?. split; [done|]. exists i. eauto.
Qed.

(** Every receipt of the map stands in the log at its height. *)
Definition receipts_ok (l : Ledger) : Prop :=
  map_Forall (fun k r => r_TxHash r = k /\ 0 <= r_Height r /\
    leaves l !! Z.to_nat (r_Height r) = Some (json_marshal (receipt_json r))) (receipts l).
Definition leaves_count (e : Engine) : Z := Z.of_nat (length (leaves (led e))).

Record led_ok (l : Ledger) : Prop := {
  lo_height : height l = Z.of_nat (length (leaves l));
  lo_bound : Z.of_nat (length (leaves l)) < M64 - 1;
  lo_last : 0 <= lastCommittedHeight l <= Z.of_nat (length (leaves l));
  lo_rounds : rounds_ok (leaves l) 1 1 (rounds l) (lastCommittedHeight l);
  lo_receipts : receipts_ok l
}.
Record engine_ok (e : Engine) : Prop := {
  eo_led : led_ok (led e);
  eo_chain : chain_ok zero32 (eternityHeaders (chain e)) (lastBlockID (chain e));
  eo_feed : (length (commitFeed (chain e)) <= 64)%nat;
  eo_supply : supply_inv (supply (mint e));
  eo_db : db_wf (db e);
  eo_accounts : ledger_ok (Snapshot (db e))
}.

Lemma set_led_id e : set_led (led e) e = e.
Proof. by destruct e. Qed.
Lemma saveLedger_frame wr e : let e' := (saveLedger wr e).2 in
  led e' = led e /\ chain e' = chain e /\ mint e' = mint e /\ db e' = db e /\
  priv e' = priv e /\ pub e' = pub e.
Proof. unfold saveLedger. by destruct wr. Qed.
Lemma saveStateMas_frame wr e : let e' := (saveStateMas wr e).2 in
  led e' = led e /\ chain e' = chain e /\ mint e' = mint e /\ db e' = db e /\
  priv e' = priv e /\ pub e' = pub e.
Proof. unfold saveStateMas. by destruct wr. Qed.

Lemma StoreReceipt_led now wr t ok reason e : led_ok (led e) -> leaves_count e < M64 - 2 ->
  led_ok (led (StoreReceipt now wr t ok reason e).2).
Proof.
  intros [Hh Hb Hl Hr Hm] Hlen. unfold StoreReceipt, leaves_count in *. cbn [snd].
  rewrite (proj1 (saveLedger_frame wr _)).
  set (r := mkTxReceipt _ _ _ _ _ _ _ _ _). cbn [led set_led].
  split; cbn [height leaves rounds lastCommittedHeight receipts]; rewrite ?length_app; cbn [length].
  - rewrite Hh, u64_small by (unfold in_u64; lia). lia.
  - lia.
  - lia.
  - by apply rounds_ok_app.
  - apply map_Forall_insert_2.
    + split; [done|]. split; [cbn; lia|]. cbn [leaves r_Height r].
      rewrite Nat2Z.id. by rewrite lookup_app_r, Nat.sub_diag by lia.
    + intros k q Hq. destruct (Hm k q Hq) as (? & ? & Hlk). split; [done|]. split; [done|].
      cbn [leaves]. by apply lookup_app_l_Some.
Qed.

Lemma buildEternityHeader_spec raw hdr e :
  match buildEternityHeader raw hdr e with
  | (Ok (h, b), e') =>
      eh_PrevHash h = lastBlockID (chain e) /\ eh_Hash h = Ok (lastBlockID (chain e')) /\
      eh_TxRoot h = Blake3RootFromRaw raw /\ eh_StateRoot h = StateRoot (db e) /\
      cb_Hash b = Ok (eh_CommitRoot h) /\ eh_Round h = u32 (rh_Round hdr) /\
      (rh_ToHeight hdr <> 0 -> eh_Height h = rh_ToHeight hdr) /\
      eternityHeaders (chain e') = eternityHeaders (chain e) /\
      commitFeed (chain e') = commitFeed (chain e) /\
      e' = set_chain (chain e') e
  | (Err _, e') => e' = e
  end.
Proof.
  unfold buildEternityHeader. destruct (negb _ || negb _); [done|]. cbn zeta.
  match goal with |- context [cb_Hash ?b] => destruct (cb_Hash b) as [d|] eqn:Hd; [|done] end.
  match goal with |- context [eh_SignBytes ?h] => destruct (eh_SignBytes h) eqn:Hs; [|done];
    destruct (eh_Hash h) as [id|] eqn:Hi; [|done] end.
  cbn [chain set_chain lastBlockID eternityHeaders commitFeed]. 
  do 3 (split; [done|]). split; [done|]. split; [exact Hd|]. split; [done|].
  split; [|done]. cbn [eh_Height]. intros Hne. by destruct (Z.eqb_spec (rh_ToHeight hdr) 0).
Qed.

(** What a header built over the batch [raw] of the state [e] is. *)
Definition header_of (raw : list bytes) (hdr : RoundHeader) (e : Engine)
    (hd : EternityHeader) (b : CommitBundle) : Prop :=
  eh_PrevHash hd = lastBlockID (chain e) /\ eh_TxRoot hd = Blake3RootFromRaw raw /\
  eh_StateRoot hd = StateRoot (db e) /\ cb_Hash b = Ok (eh_CommitRoot hd) /\
  eh_Round hd = u32 (rh_Round hdr) /\ eh_Height hd = rh_ToHeight hdr.
(** The chain after a commit: unchanged, or one header longer. *)
Definition chain_step (raw : list bytes) (hdr : RoundHeader) (e : Engine) (c' : Chain) : Prop :=
  c' = chain e \/
  exists hd b c1, header_of raw hdr e hd b /\ eh_Hash hd = Ok (lastBlockID c1) /\
    eternityHeaders c1 = eternityHeaders (chain e) /\ commitFeed c1 = commitFeed (chain e) /\
    c' = record_header hdr hd b c1.

(** The round header of a commit over the leaves after [lastCommittedHeight]. *)
Definition round_of (now : Z) (e : Engine) (h : RoundHeader) : Prop :=
  let l := led e in
  let n := Z.of_nat (length (leaves l)) in
  rh_Round h = Z.of_nat (length (rounds l)) + 1 /\ rh_FromHeight h = lastCommittedHeight l + 1 /\
  rh_ToHeight h = n /\ rh_TxCount h = n - lastCommittedHeight l /\
  rh_Root h = hex_encode (Sha256Tree.Root (slice (leaves l) (lastCommittedHeight l + 1) n)) /\
  rh_TimeUTC h = now /\
  rh_SignatureHex h = match SignRoundHeader (mkRoundHeader (rh_Round h) (rh_FromHeight h)
     (rh_ToHeight h) (rh_TxCount h) (rh_Root h) now "") e with Some s => hex_encode s | None => "" end.

Lemma SignRoundHeader_frame h e e' : priv e' = priv e -> SignRoundHeader h e' = SignRoundHeader h e.
Proof. intros E. unfold SignRoundHeader. by rewrite E. Qed.

Lemma CommitRound_spec now wr e : led_ok (led e) ->
  match CommitRound now wr e with
  | (None, e') => lastCommittedHeight (led e) = leaves_count e /\ e' = e
  | (Some h, e') =>
      lastCommittedHeight (led e) < leaves_count e /\ round_of now e h /\
      led e' = mkLedger (receipts (led e)) (leaves (led e)) (height (led e))
                 (rounds (led e) ++ [h]) (leaves_count e) /\
      supply (mint e') = (ApplyBlockMint (leaves_count e) (supply (mint e))).2 /\
      db e' = (persistSupplyState (leaves_count e) (supply (mint e')) (db e)).2 /\
      chain_step (slice (leaves (led e)) (lastCommittedHeight (led e) + 1) (leaves_count e)) h
        (set_db (db e') e) (chain e')
  end.
Proof.
  intros [Hh Hb Hl Hr Hm]. unfold CommitRound, leaves_count in *. rewrite Hh, Z.eqb_refl. cbn [negb].
  rewrite set_led_id, Hh, Z.ltb_irrefl, u64_small by (unfold in_u64; lia).
  set (n := Z.of_nat (length (leaves (led e)))) in *. set (from := lastCommittedHeight (led e) + 1).
  destruct (Z.ltb_spec n from) as [Hlt|Hge]; [split; [lia|done]|].
  unfold applyBlockMint. destruct (ApplyBlockMint n (supply (mint e))) as [[ep minted] s] eqn:Es.
  unfold persistSupplyState at 1. rewrite !st_exec_bind. cbn [mret St_ret fst snd].
  set (d := (SetKey (supplyHistoryKey n) _ _).2).
  set (e1 := set_db d _).
  set (sub := drop _ _).
  set (h0 := mkRoundHeader _ _ _ _ _ _ "").
  set (h := match SignRoundHeader h0 e1 with Some sig => _ | None => _ end).
  assert (Hround : round_of now e h).
  { assert (Hsub : Z.of_nat (length sub) = n - lastCommittedHeight (led e)).
    { pose proof (slice_length (leaves (led e)) from n ltac:(lia) ltac:(lia)) as E. 
      change (Z.of_nat (length sub) = n - from + 1) in E. lia. }
    unfold round_of. fold n from. subst h. rewrite (SignRoundHeader_frame h0 e e1) by done.
    destruct (SignRoundHeader h0 e) as [sig|] eqn:Esig; cbn;
      (split; [lia|]; split; [done|]; split; [done|]; split; [done|]; split; [done|]; split; [done|]).
    - replace (mkRoundHeader _ _ _ _ _ now "") with h0 by done. by rewrite Esig.
    - replace (mkRoundHeader _ _ _ _ _ now "") with h0 by done. by rewrite Esig. }
  set (e2 := set_led _ e1).
  destruct (saveLedger_frame wr e2) as (Hl3 & Hc3 & Hm3 & Hd3 & Hp3 & _).
  set (e3 := (saveLedger wr e2).2) in *.
  assert (Hto : rh_ToHeight h = n) by apply Hround.
  pose proof (buildEternityHeader_spec sub h e3) as Hbuild.
  destruct (buildEternityHeader sub h e3) as [[[hd b]|] e4].
  - destruct Hbuild as (B1 & B2 & B3 & B4 & B5 & B6 & B7 & B8 & B9 & B10). rewrite B10.
    cbn [led chain mint db set_chain]. rewrite Hl3, Hm3, Hd3.
    split; [lia|]. split; [done|]. split; [done|]. split; [done|]. split; [done|].
    right. exists hd, b, (chain e4). rewrite Hc3 in B1, B8, B9. rewrite Hd3 in B4.
    split; [|done]. unfold header_of. rewrite B1, B3, B4, B6, B7 by lia. done.
  - subst e4. rewrite Hl3, Hm3, Hd3, Hc3.
    split; [lia|]. split; [done|]. split; [done|]. split; [done|]. split; [done|]. by left.
Qed.

Lemma persist_db h st d : db_wf d -> let d' := (persistSupplyState h st d).2 in
  db_wf d' /\ Snapshot d' = Snapshot d.
Proof. intros [Hb Hi]. split; [by split|done]. Qed.
Lemma record_header_feed hdr hd b c : (length (commitFeed c) <= 64)%nat ->
  (length (commitFeed (record_header hdr hd b c)) <= 64)%nat.
Proof.
  intros Hl. unfold record_header. destruct (Z.leb_spec 64 (Z.of_nat (length (commitFeed c))));
    cbn [commitFeed]; rewrite length_app, ?length_drop; cbn [length]; lia.
Qed.
Lemma record_header_chain hdr hd b c :
  eternityHeaders (record_header hdr hd b c) = eternityHeaders c ++ [hd] /\
  lastBlockID (record_header hdr hd b c) = lastBlockID c.
Proof. unfold record_header. by destruct (64 <=? _). Qed.

Lemma CommitRound_ok now wr e : engine_ok e -> engine_ok (CommitRound now wr e).2.
Proof.
  intros [Hled Hchain Hfeed Hsup Hdb Hacc].
  pose proof (CommitRound_spec now wr e Hled) as Hs. destruct Hled as [Hh Hb Hl Hr Hm].
  destruct (CommitRound now wr e) as [[h|] e']; cbn [snd].
  - destruct Hs as (Hlt & Hround & Hl' & Hmint & Hd & Hc). unfold leaves_count in *.
    assert (Hsup' : supply_inv (supply (mint e'))).
    { rewrite Hmint. apply ApplyBlockMint_inv; [unfold in_u64; lia|done]. }
    destruct (persist_db (Z.of_nat (length (leaves (led e)))) (supply (mint e')) (db e) Hdb) as [Hwf Hsnap].
    rewrite <- Hd in Hwf, Hsnap. split.
    + rewrite Hl'. destruct Hround as (R1 & R2 & R3 & R4 & R5 & _).
      split; cbn [height leaves rounds lastCommittedHeight receipts]; [done|done|lia| |done].
      rewrite <- R3. eapply rounds_ok_snoc; [lia|exact Hr|rewrite R1; lia|done|lia|by rewrite R3|].
      by rewrite R3.
    + destruct Hc as [->|(hd & b & c1 & (P1 & _) & P2 & P3 & P4 & ->)]; [done|].
      destruct (record_header_chain h hd b c1) as [-> ->]. rewrite P3.
      by eapply chain_ok_snoc.
    + destruct Hc as [->|(hd & b & c1 & _ & _ & _ & P4 & ->)]; [done|].
      apply record_header_feed. by rewrite P4.
    + done.
    + done.
    + by rewrite Hsnap.
  - destruct Hs as [_ ->]. by split.
Qed.
Lemma StoreReceipt_ok now wr t ok reason e : engine_ok e -> leaves_count e < M64 - 2 ->
  engine_ok (StoreReceipt now wr t ok reason e).2.
Proof.
  intros [Hled Hchain Hfeed Hsup Hdb Hacc] Hlen.
  pose proof (StoreReceipt_led now wr t ok reason e Hled Hlen) as Hled'.
  unfold StoreReceipt in *. cbn [snd] in *.
  match goal with |- context [saveLedger wr ?x] =>
    destruct (saveLedger_frame wr x) as (F1 & F2 & F3 & F4 & _) end.
  split; [done|by rewrite F2|by rewrite F2|by rewrite F3|by rewrite F4|by rewrite F4].
Qed.
Lemma set_db_ok d e : engine_ok e -> db_wf d -> ledger_ok (Snapshot d) -> engine_ok (set_db d e).
Proof. intros [] ? ?. by split. Qed.
Lemma saveStateMas_ok wr e : engine_ok e -> engine_ok (saveStateMas wr e).2.
Proof.
  intros [Hled Hchain Hfeed Hsup Hdb Hacc]. destruct (saveStateMas_frame wr e) as (F1 & F2 & F3 & F4 & _).
  split; rewrite ?F1, ?F2, ?F3, ?F4; done.
Qed.
Lemma ApplyTransfer_ledger from to amount fee nonce d : db_wf d -> ledger_ok (Snapshot d) ->
  db_wf (ApplyTransfer from to amount fee nonce d).2 /\
  ledger_ok (Snapshot (ApplyTransfer from to amount fee nonce d).2).
Proof.
  intros Hwf Hm. destruct (ApplyTransfer_spec d from to amount fee nonce Hwf) as (Hwf' & Hs & _).
  split; [done|]. apply (f_equal snd) in Hs. cbn [snd] in Hs. rewrite Hs. by apply transfer_spec_ledger_ok.
Qed.
Lemma Engine_ApplyTransfer_ok fa wr t e : engine_ok e -> engine_ok (Engine_ApplyTransfer fa wr t e).2.
Proof.
  intros He. unfold Engine_ApplyTransfer, tryApplyAliasSetTx.
  assert (Hno : (if fa && bool_decide (t_To t = aliasSys) then (false, Ok tt) else (false, @Ok unit tt)) = (false, Ok tt))
    by by destruct (fa && _).
  rewrite Hno. destruct (ApplyTransfer_ledger (t_From t) (t_To t) (t_AmountMas t) (t_FeeMas t)
    (t_Nonce t) (db e) (eo_db _ He) (eo_accounts _ He)) as [Hwf Hm].
  destruct (ApplyTransfer _ _ _ _ _ (db e)) as [[u|r] d]; cbn [snd] in *.
  - apply saveStateMas_ok. by apply set_db_ok.
  - by apply set_db_ok.
Qed.
Lemma Engine_GetAccount_ok addr e : engine_ok e -> engine_ok (Engine_GetAccount addr e).2.
Proof.
  intros He. unfold Engine_GetAccount, GetAccount. rewrite st_exec_bind.
  destruct (get_spec (db e) addr (eo_db _ He)) as (Hp & _). rewrite (deref_spec _ _ _ _ Hp).
  cbn [fst snd]. destruct Hp as [Hwf _ Hv]. apply set_db_ok; [done..|]. rewrite Hv.
  apply ledger_ok_touch, He.
Qed.
Lemma RecordCommitBundle_ok b e : engine_ok e -> engine_ok (RecordCommitBundle b e).2.
Proof.
  intros []. split; cbn [RecordCommitBundle snd set_chain led chain mint db eternityHeaders lastBlockID]; try done.
  cbn [commitFeed]. rewrite length_app. destruct (Z.leb_spec 64 (Z.of_nat (length (commitFeed (chain e)))));
    rewrite ?length_drop; cbn [length]; lia.
Qed.

(** The exported methods that change the engine, each one atomic under its mutex. *)
Inductive step : Engine -> Engine -> Prop :=
  | step_push b e : step e (PushRawTx b e).2
  | step_account addr e : step e (Engine_GetAccount addr e).2
  | step_transfer fa wr t e : step e (Engine_ApplyTransfer fa wr t e).2
  | step_receipt now wr t applied reason e : leaves_count e < M64 - 2 ->
      step e (StoreReceipt now wr t applied reason e).2
  | step_commit now wr e : step e (CommitRound now wr e).2
  | step_bundle b e : step e (RecordCommitBundle b e).2.

Lemma step_ok e e' : step e e' -> engine_ok e -> engine_ok e'.
Proof.
  intros Hs He. destruct Hs; [by destruct He; split|by apply Engine_GetAccount_ok
    |by apply Engine_ApplyTransfer_ok|by apply StoreReceipt_ok|by apply CommitRound_ok
    |by apply RecordCommitBundle_ok].
Qed.
Lemma steps_ok e e' : rtc step e e' -> engine_ok e -> engine_ok e'.
Proof. induction 1; eauto using step_ok. Qed.

(** A first start: an empty data directory. *)
Definition no_files : Files := mkFiles None None None None.
Lemma InitGenesis_ledger bs d : Forall (fun p => in_u64 p.2) bs -> db_wf d -> ledger_ok (Snapshot d) ->
  ledger_ok (Snapshot (InitGenesis bs d).2).
Proof.
  intros Hb. revert d. induction Hb as [|[a amt] bs Ha Hb IH]; intros d Hwf Hm; [done|].
  cbn [InitGenesis]. rewrite st_exec_bind. destruct (get_addTo_spec d a amt Hwf) as (Hwf' & Hv & _).
  rewrite st_exec_bind in Hwf', Hv. rewrite st_exec_bind. apply IH; [done|]. rewrite Hv. auto with go.
Qed.
Lemma boot_fields seed1 seed2 wr fs : let e := boot seed1 seed2 wr fs in
  db e = (SetFeeReceiver "tho1foundation" NewDB).2 /\ led e = mkLedger ∅ [] 0 [] 0 /\
  chain e = mkChain [] zero32 zero32 0 false [] [] /\ mint e = mkMint supply_zero 0 0 /\
  f_state_v1 (files e) = f_state_v1 fs /\ f_state_v2 (files e) = f_state_v2 fs /\
  f_ledger (files e) = f_ledger fs.
Proof.
  unfold boot. destruct (LoadOrCreate seed1 wr (f_key fs)) as [kp kf].
  match goal with |- context [let '(_, _) := ?x in _] => by destruct x as [pub0 priv0] end.
Qed.
Lemma first_db : db_wf (SetFeeReceiver "tho1foundation" NewDB).2 /\
  Snapshot (SetFeeReceiver "tho1foundation" NewDB).2 = ∅ /\ kv (SetFeeReceiver "tho1foundation" NewDB).2 = ∅.
Proof.
  split; [apply SetFeeReceiver_wf, NewDB_wf|]. split; [|done].
  apply map_eq. intros a. rewrite Snapshot_lookup.
  change (accts (SetFeeReceiver "tho1foundation" NewDB).2) with (∅ : gmap string nat). by rewrite !lookup_empty.
Qed.
Lemma boot_ok seed1 seed2 wr fs : engine_ok (boot seed1 seed2 wr fs).
Proof.
  destruct (boot_fields seed1 seed2 wr fs) as (Hd & Hl & Hc & Hm & _).
  destruct first_db as (Hwf & Hs & _).
  split; rewrite ?Hd, ?Hl, ?Hc, ?Hm, ?Hs.
  - split; cbn; try lia. apply map_Forall_empty.
  - done.
  - cbn. lia.
  - apply supply_zero_inv.
  - done.
  - apply map_Forall_empty.
Qed.
Lemma NewEngine_ok seed1 seed2 wr : engine_ok (NewEngine seed1 seed2 wr no_files).
Proof.
  unfold NewEngine. pose proof (boot_ok seed1 seed2 wr no_files) as He0.
  destruct (boot_fields seed1 seed2 wr no_files) as (Hd & _ & _ & _ & Hf1 & Hf2 & Hf3).
  set (e0 := boot seed1 seed2 wr no_files) in *. clearbody e0. unfold load_all.
  assert (Hl : (load_state wr e0).2 =
    (saveStateMas wr (set_db (InitGenesis genesis (db e0)).2 e0)).2).
  { unfold load_state, loadStateMas, loadStateMicro. rewrite Hf2. cbn [f_state_v2 no_files read_json mbind option_bind]. by rewrite Hf1. }
  rewrite Hl. set (e1 := set_db (InitGenesis genesis (db e0)).2 e0).
  assert (He1 : engine_ok e1).
  { apply set_db_ok; [done|apply InitGenesis_wf, He0|]. apply InitGenesis_ledger; [|apply He0..].
    repeat constructor; unfold in_u64; cbn; lia. }
  pose proof (saveStateMas_ok wr e1 He1) as He2.
  assert (Hlf : f_ledger (files (saveStateMas wr e1).2) = None) by (unfold saveStateMas; destruct wr; exact Hf3).
  assert (Hkv : kv (db (saveStateMas wr e1).2) = ∅).
  { rewrite (proj1 (proj2 (proj2 (proj2 (saveStateMas_frame wr e1))))). cbn [db e1 set_db].
    rewrite Hd. reflexivity. }
  set (e2 := (saveStateMas wr e1).2) in *. clearbody e2.
  unfold loadLedger. rewrite Hlf. cbn [snd].
  unfold loadSupplyState, GetKey. by rewrite Hkv, lookup_empty.
Qed.
End Invariant.

(** ** Restarting: what the files bring back *)
Section Restart.
Context `{GoRuntime, GoSort, Blake3, Cbor, Ed25519, GoFloat}.

Lemma dec_map_insert {A} (dec : json -> option A) (enc : A -> json) (ks : list string) (f : string -> A) (m0 : gmap string A) :
  (forall k, k ∈ ks -> dec (enc (f k)) = Some (f k)) ->
  foldl (fun acc (kv : string * json) => m ← acc; v ← dec kv.2; Some (<[kv.1 := v]> m)) (Some m0)
    ((fun k => (k, enc (f k))) <$> ks) =
  Some (foldl (fun m k => <[k := f k]> m) m0 ks).
Proof.
  revert m0; induction ks as [|k ks IH]; intros m0 Hd; [done|].
  cbn [fmap list_fmap foldl fst snd mbind option_bind]. rewrite Hd by set_solver.
  cbn [mbind option_bind]. apply IH. set_solver.
Qed.
Lemma foldl_insert_lookup {A} (ks : list string) (f : string -> A) (m0 : gmap string A) a :
  foldl (fun m k => <[k := f k]> m) m0 ks !! a = if decide (a ∈ ks) then Some (f a) else m0 !! a.
Proof.
  revert m0; induction ks as [|k ks IH]; intros m0; [by rewrite decide_False by set_solver|].
  cbn [foldl]. rewrite IH. destruct (decide (a ∈ ks)) as [Hin|Hnin].
  - by rewrite decide_True by set_solver.
  - destruct (decide (a = k)) as [->|Hne].
    + rewrite decide_True by set_solver. apply lookup_insert_eq.
    + rewrite decide_False by set_solver. by rewrite lookup_insert_ne.
Qed.
Lemma keys_elem {A} (m : gmap string A) a : a ∈ merge_sort str_le (map_to_list m).*1 <-> is_Some (m !! a).
Proof.
  rewrite merge_sort_Permutation, list_elem_of_fmap. split.
  - intros ([k v] & -> & Hk%elem_of_map_to_list). by exists v.
  - intros [v Hv]. exists (a, v). split; [done|by apply elem_of_map_to_list].
Qed.

Lemma account_of_json_ok x : account_ok x -> account_of_json (account_json x) = Some x.
Proof.
  intros [? ?]. unfold account_of_json, account_json, dec_struct. json_fields. by destruct x.
Qed.
Definition ascii_addresses (m : gmap string Account) : Prop :=
  map_Forall (fun a _ => str_forall is_ascii a = true) m.
Lemma snapshot_json_ok m : ascii_addresses m -> json_ok (snapshot_json m).
Proof.
  intros Ha. unfold snapshot_json. apply json_ok_obj, Forall_fmap, Forall_forall.
  intros k Hk. cbn [compose fst snd]. apply keys_elem in Hk as [x Hx]. split; [by eapply Ha|].
  apply account_json_ok.
Qed.
(** The account file determines the accounts. *)
Lemma snapshot_roundtrip m : ledger_ok m -> ascii_addresses m ->
  read_json (dec_map account_of_json) (Some (json_marshal (snapshot_json m))) = Some m.
Proof.
  intros Hm Ha. unfold read_json. cbn [mbind option_bind].
  rewrite json_roundtrip by by apply snapshot_json_ok. cbn [mbind option_bind].
  unfold dec_map, snapshot_json. rewrite (dec_map_insert account_of_json account_json _ (acct m)).
  - f_equal. apply map_eq. intros a. rewrite foldl_insert_lookup. case_decide as Hin.
    + apply keys_elem in Hin as [x Hx]. unfold acct. by rewrite Hx.
    + rewrite lookup_empty. destruct (m !! a) eqn:Hx; [|done]. exfalso. apply Hin, keys_elem. eauto.
  - intros k _. apply account_of_json_ok. by apply ledger_acct.
Qed.
(** What [load_state] and [loadLedger] leave alone. *)
Lemma load_state_frame wr e : let e' := (load_state wr e).2 in
  led e' = led e /\ chain e' = chain e /\ mint e' = mint e /\ kv (db e') = kv (db e) /\
  f_ledger (files e') = f_ledger (files e).
Proof.
  cbn zeta. unfold load_state, loadStateMas.
  destruct (read_json (dec_map account_of_json) (f_state_v2 (files e))) as [m|].
  { cbn [snd set_db led chain mint db files]. split; [done|]. split; [done|]. split; [done|].
    split; [apply Restore_view|done]. }
  assert (Hkv : forall bs d, kv (InitGenesis bs d).2 = kv d).
  { induction bs as [|[a amt] bs IH]; intros d; [done|]. cbn [InitGenesis]. rewrite !st_exec_bind.
    rewrite IH. unfold addTo. rewrite st_exec_bind. unfold get. by destruct (accts d !! a). }
  destruct (loadStateMicro (f_state_v1 (files e))) as [m|]; cbn [snd];
    match goal with |- context [saveStateMas wr ?x] =>
      destruct (saveStateMas_frame wr x) as (F1 & F2 & F3 & F4 & _) end;
    rewrite F1, F2, F3, F4; (split; [done|]; split; [done|]; split; [done|]; split);
    [apply Restore_view|by destruct wr|apply Hkv|by destruct wr].
Qed.
Lemma loadLedger_frame file e : let e' := (loadLedger file e).2 in
  chain e' = chain e /\ mint e' = mint e /\ db e' = db e.
Proof. unfold loadLedger. destruct file as [b|]; [|done]. by destruct (read_json _ _). Qed.

Lemma load_all_spec wr e : kv (db e) = ∅ ->
  load_all wr e = (loadLedger (f_ledger (files e)) (load_state wr e).2).2.
Proof.
  intros Hkv. unfold load_all. destruct (load_state_frame wr e) as (_ & _ & _ & F4 & F5).
  rewrite F5. set (e1 := (load_state wr e).2) in *.
  destruct (loadLedger_frame (f_ledger (files e)) e1) as (_ & _ & Hd).
  unfold loadSupplyState, GetKey. by rewrite Hd, F4, Hkv, lookup_empty.
Qed.
Lemma boot_kv seed1 seed2 wr fs : kv (db (boot seed1 seed2 wr fs)) = ∅.
Proof. destruct (boot_fields seed1 seed2 wr fs) as (-> & _). apply first_db. Qed.
(** Whatever the files say, the key/value store starts empty, and with it the supply. *)
Lemma NewEngine_fresh seed1 seed2 wr fs : let e := NewEngine seed1 seed2 wr fs in
  supply (mint e) = supply_zero /\ eternityHeaders (chain e) = [] /\ lastBlockID (chain e) = zero32.
Proof.
  cbn zeta. unfold NewEngine. rewrite load_all_spec by apply boot_kv.
  destruct (boot_fields seed1 seed2 wr fs) as (_ & _ & Hc & Hm & _).
  set (e0 := boot seed1 seed2 wr fs) in *. clearbody e0.
  destruct (loadLedger_frame (f_ledger (files e0)) (load_state wr e0).2) as (-> & -> & _).
  destruct (load_state_frame wr e0) as (_ & -> & -> & _). by rewrite Hc, Hm.
Qed.

(** *** The ledger file *)
Definition values (l : Ledger) : list TxReceipt := sort_slice height_le (map_iter (receipts l)).*2.
Definition hgt (r : TxReceipt) : nat := Z.to_nat (r_Height r).

Lemma sorted_bound (l : list nat) a b : StronglySorted lt l -> Forall (fun x => a <= x < b)%nat l ->
  (length l <= b - a)%nat.
Proof.
  revert a; induction l as [|x l IH]; intros a Hs Hb; [simpl; lia|].
  apply StronglySorted_inv in Hs as [Hs Hx]. apply Forall_cons_1 in Hb as [Hx0 Hb].
  cbn [length]. enough (length l <= b - S x)%nat by lia. apply IH; [done|].
  rewrite Forall_forall in *. intros y Hy. specialize (Hx y Hy). specialize (Hb y Hy). cbn in Hb. lia.
Qed.
Lemma sorted_seq (l : list nat) a : StronglySorted lt l ->
  Forall (fun x => a <= x < a + length l)%nat l -> l = seq a (length l).
Proof.
  revert a; induction l as [|x l IH]; intros a Hs Hb; [done|].
  pose proof Hs as Hs'. apply StronglySorted_inv in Hs as [Hs Hx].
  apply Forall_cons_1 in Hb as [Hx0 Hb]. cbn [length] in *.
  assert (Hgt : Forall (fun y => S x <= y < a + S (length l))%nat l).
  { rewrite Forall_forall in *. intros y Hy. specialize (Hx y Hy). specialize (Hb y Hy). cbn in Hb. lia. }
  pose proof (sorted_bound l (S x) (a + S (length l)) Hs Hgt). assert (x = a) as -> by lia.
  cbn [seq]. f_equal. apply IH; [done|].
  eapply Forall_impl; [exact Hgt|]. cbn. lia.
Qed.

Lemma values_perm l : values l ≡ₚ (map_to_list (receipts l)).*2.
Proof. unfold values. by rewrite sort_slice_perm, map_iter_perm. Qed.
Lemma values_length l : length (values l) = size (receipts l).
Proof. rewrite values_perm, length_fmap. apply length_map_to_list. Qed.
Lemma values_elem l r : receipts_ok l -> r ∈ values l <-> receipts l !! r_TxHash r = Some r.
Proof.
  intros Hm. rewrite values_perm, list_elem_of_fmap. split.
  - intros ([k v] & -> & Hk%elem_of_map_to_list). cbn [snd]. by destruct (Hm k v Hk) as (-> & _).
  - intros Hr. exists (r_TxHash r, r). split; [done|by apply elem_of_map_to_list].
Qed.

Section Complete.
Context (l : Ledger) (Hl : led_ok l) (Hok : map_Forall (fun _ r => receipt_ok r) (receipts l)).

Lemma values_leaf r : r ∈ values l ->
  leaves l !! hgt r = Some (json_marshal (receipt_json r)) /\ receipt_ok r.
Proof.
  intros Hr. pose proof (lo_receipts l Hl) as Hm. apply values_elem in Hr; [|done].
  destruct (Hm _ _ Hr) as (_ & _ & Hlk). split; [done|by eapply Hok].
Qed.
Lemma values_height_inj r q : r ∈ values l -> q ∈ values l -> r_Height r = r_Height q -> r = q.
Proof.
  intros Hr Hq E. destruct (values_leaf r Hr) as [Lr Or], (values_leaf q Hq) as [Lq Oq].
  unfold hgt in *. rewrite E in Lr. assert (Ej : json_marshal (receipt_json r) = json_marshal (receipt_json q)) by congruence.
  apply json_marshal_inj in Ej; [|by apply receipt_json_ok..].
  apply (f_equal receipt_of_json) in Ej. rewrite !receipt_roundtrip in Ej by done. congruence.
Qed.
Lemma values_NoDup : NoDup (values l).
Proof.
  pose proof (lo_receipts l Hl) as Hm. rewrite values_perm.
  apply (NoDup_fmap_1 r_TxHash). rewrite <- list_fmap_compose.
  rewrite (list_fmap_ext _ fst); [apply NoDup_fst_map_to_list|].
  intros i [k v] Hi. apply list_elem_of_lookup_2, elem_of_map_to_list in Hi.
  by destruct (Hm k v Hi) as (E & _).
Qed.
Lemma values_hgt_sorted : StronglySorted lt (hgt <$> values l).
Proof.
  assert (Hs : StronglySorted height_le (values l))
    by (apply Sorted_StronglySorted; [apply _|apply sort_slice_sorted, _]).
  pose proof values_NoDup as Hnd. pose proof values_height_inj as Hinj.
  assert (Hpos : forall r, r ∈ values l -> 0 <= r_Height r).
  { intros r Hr. pose proof (lo_receipts l Hl) as Hm. apply values_elem in Hr; [|done]. by apply Hm in Hr as (_ & ? & _). }
  clear Hok. induction Hs as [|r vs Hs IH Hr]; [constructor|].
  apply NoDup_cons in Hnd as [Hnin Hnd]. cbn. constructor.
  - apply IH; [done|..]; intros; [apply Hinj; set_solver|apply Hpos; set_solver].
  - apply Forall_fmap, Forall_forall. intros q Hq. cbn. rewrite Forall_forall in Hr.
    specialize (Hr q Hq). unfold height_le in Hr. unfold hgt.
    assert (r_Height r <> r_Height q) by (intros E; apply Hnin; rewrite (Hinj r q) by (set_solver || done); done).
    assert (0 <= r_Height r) by (apply Hpos; set_solver). lia.
Qed.
Lemma values_heights : size (receipts l) = length (leaves l) ->
  hgt <$> values l = seq 0 (length (leaves l)).
Proof.
  intros Hsize. rewrite <- Hsize, <- values_length, <- (length_fmap hgt).
  apply sorted_seq; [apply values_hgt_sorted|]. rewrite length_fmap, values_length, Hsize.
  apply Forall_fmap, Forall_forall. intros r Hr. destruct (values_leaf r Hr) as [Hlk _].
  apply lookup_lt_Some in Hlk. cbn. lia.
Qed.
Lemma values_leaves : size (receipts l) = length (leaves l) ->
  (fun r => json_marshal (receipt_json r)) <$> values l = leaves l.
Proof.
  intros Hsize. apply list_eq. intros i. rewrite list_lookup_fmap.
  destruct (values l !! i) as [r|] eqn:Hi; cbn.
  - pose proof (f_equal (fun l => l !! i) (values_heights Hsize)) as E. cbn in E.
    rewrite list_lookup_fmap, Hi in E. cbn in E. symmetry in E. apply lookup_seq in E as [E _].
    apply list_elem_of_lookup_2 in Hi. apply values_leaf in Hi as [Hlk _]. by rewrite E in Hlk.
  - symmetry. apply lookup_ge_None. apply lookup_ge_None in Hi. rewrite values_length in Hi. lia.
Qed.
Lemma resort : sort_slice height_le (values l) = values l.
Proof.
  unfold values at 2. apply sort_slice_unique; [apply _|apply _| |apply sort_slice_perm].
  intros x y Hx Hy Hxy Hyx. apply values_height_inj; [done..|]. unfold height_le in *. lia.
Qed.
End Complete.

Lemma foldl_receipts rs (m0 : gmap string TxReceipt) k :
  (forall r q, r ∈ rs -> q ∈ rs -> r_TxHash r = r_TxHash q -> r = q) ->
  foldl (fun m r => <[r_TxHash r := r]> m) m0 rs !! k =
    match List.find (fun r => bool_decide (r_TxHash r = k)) rs with Some r => Some r | None => m0 !! k end.
Proof.
  revert m0; induction rs as [|r rs IH]; intros m0 Hu; [done|].
  cbn [foldl List.find]. rewrite IH by (intros; apply Hu; set_solver).
  destruct (List.find _ rs) as [q|] eqn:Hq.
  - apply List.find_some in Hq as [Hin Hk%bool_decide_eq_true_1].
    case_bool_decide as Hr; [|done]. f_equal. apply Hu; [apply list_elem_of_In in Hin; set_solver|set_solver|congruence].
  - case_bool_decide as Hr; [subst k; apply lookup_insert_eq|by rewrite lookup_insert_ne].
Qed.
Lemma rebuild l : receipts_ok l -> foldl (fun m r => <[r_TxHash r := r]> m) ∅ (values l) = receipts l.
Proof.
  intros Hm. apply map_eq. intros k. rewrite foldl_receipts.
  - destruct (List.find _ (values l)) as [r|] eqn:Hr.
    + apply List.find_some in Hr as [Hin Hk%bool_decide_eq_true_1].
      apply list_elem_of_In, values_elem in Hin; [|done]. by rewrite <- Hk.
    + rewrite lookup_empty. destruct (receipts l !! k) as [r|] eqn:Hk; [|done]. exfalso.
      destruct (Hm k r Hk) as (Hh & _).
      assert (Hin : r ∈ values l) by (apply values_elem; [done|by rewrite Hh]).
      apply list_elem_of_In in Hin. pose proof (List.find_none _ _ Hr r Hin) as Hn. cbn in Hn.
      by rewrite bool_decide_true in Hn.
  - intros r q Hr Hq E. apply values_elem in Hr, Hq; [|done..]. rewrite E in Hr. congruence.
Qed.

(** What the ledger file brings back. *)
Lemma loadLedger_file l e : led_ok l -> map_Forall (fun _ r => receipt_ok r) (receipts l) ->
  Forall round_ok (rounds l) ->
  led (loadLedger (Some (ledger_file l)) e).2 =
    mkLedger (receipts l) ((fun r => json_marshal (receipt_json r)) <$> values l)
      (Z.of_nat (size (receipts l))) (rounds l) (lastCommittedHeight l).
Proof.
  intros Hl Hok Hro. pose proof Hl as [Hh Hb Hlast Hr Hm]. unfold loadLedger, ledger_file.
  rewrite ledger_roundtrip.
  - cbn [lv_Receipts lv_Rounds lv_LastCommittedHeight snd set_led led]. fold (values l).
    by rewrite resort, rebuild, values_length.
  - split; [|split; [|split; [|split]]]; cbn.
    + unfold in_i64. lia.
    + unfold in_u64. lia.
    + unfold in_u64. lia.
    + fold (values l). apply Forall_forall. intros r Hin%values_elem; [by eapply Hok|done].
    + done.
Qed.
End Restart.

(** ** Properties *)
Section Properties.
Context `{GoRuntime, GoSort, Blake3, Cbor, Ed25519, GoFloat}.

(** C12: the engine's invariant: from a first start on an empty data directory, whatever
    methods run in whatever order, the rounds cut the log of receipts without gap or
    overlap into batches with the right counts and Merkle roots, every receipt stands in the log at its
    height, each header names its predecessor's hash, the bundle feed keeps at most 64
    entries, the vaults account for the supply and the account store is well formed. *)
Theorem engine_invariant (seed1 seed2 : bytes) (wr : bool) (e : Engine) :
  rtc step (NewEngine seed1 seed2 wr no_files) e -> engine_ok e.
Proof. intros Hs. eapply steps_ok; [exact Hs|apply NewEngine_ok]. Qed.

(** C15: the ledger is append-only: no method removes or changes a logged receipt, a
    committed round or a header. *)
Theorem engine_append_only (e e' : Engine) : engine_ok e -> rtc step e e' ->
  leaves (led e) `prefix_of` leaves (led e') /\ rounds (led e) `prefix_of` rounds (led e') /\
  eternityHeaders (chain e) `prefix_of` eternityHeaders (chain e').
Proof.
  intros He Hs. revert He. induction Hs as [e|e e1 e' Hs _ IH]; intros He; [done|].
  destruct (IH (step_ok _ _ Hs He)) as (I1 & I2 & I3).
  enough (leaves (led e) `prefix_of` leaves (led e1) /\ rounds (led e) `prefix_of` rounds (led e1) /\
    eternityHeaders (chain e) `prefix_of` eternityHeaders (chain e1)) as (J1 & J2 & J3)
    by (split; [|split]; etransitivity; eassumption).
  clear IH I1 I2 I3. destruct Hs as [b e|addr e|fa wr t e|now wr t ok reason e Hlen|now wr e|b e]; try done.
  - unfold Engine_GetAccount. by destruct (GetAccount addr (db e)).
  - unfold Engine_ApplyTransfer, tryApplyAliasSetTx.
    destruct (fa && _); (destruct (ApplyTransfer _ _ _ _ _ (db e)) as [[u|r] d]; cbn [snd]; [|done]);
      destruct (saveStateMas_frame wr (set_db d e)) as (-> & -> & _); done.
  - unfold StoreReceipt. cbn [snd].
    match goal with |- context [saveLedger wr ?x] => destruct (saveLedger_frame wr x) as (-> & -> & _) end.
    split; [by eexists|done].
  - pose proof (CommitRound_spec now wr e (eo_led _ He)) as Hc.
    destruct (CommitRound now wr e) as [[h|] e1]; cbn [snd].
    + destruct Hc as (_ & _ & -> & _ & _ & Hch). split; [done|]. split; [by eexists|].
      destruct Hch as [->|(hd & b & c1 & _ & _ & E & _ & ->)]; [done|].
      rewrite (proj1 (record_header_chain h hd b c1)), E. by eexists.
    + by destruct Hc as [_ ->].
Qed.

(** C13: a commit takes exactly what is pending: with receipts pending, [CommitRound]
    seals all of them in one numbered, signed round that verifies under the node's
    key, mints a single block's emission however many heights it covers, and leaves
    nothing for a second commit, which does nothing; with nothing pending it does nothing. *)
Theorem CommitRound_correct (now now' : Z) (wr wr' : bool) (e : Engine) :
  engine_ok e -> length (priv e) = 64%nat -> pub e = ed_public (priv e) ->
  match CommitRound now wr e with
  | (None, e') => lastCommittedHeight (led e) = leaves_count e /\ e' = e
  | (Some h, e') =>
      lastCommittedHeight (led e) < leaves_count e /\
      rh_Round h = Z.of_nat (length (rounds (led e))) + 1 /\
      rh_FromHeight h = lastCommittedHeight (led e) + 1 /\ rh_ToHeight h = leaves_count e /\
      rh_Root h = hex_encode (Sha256Tree.Root
        (slice (leaves (led e)) (lastCommittedHeight (led e) + 1) (leaves_count e))) /\
      (exists sig, rh_SignatureHex h = hex_encode sig /\
        ed_verify (pub e) (CanonicalRoundHeaderBytes h) sig = true) /\
      TotalMintedMas (supply (mint e')) = TotalMintedMas (supply (mint e)) +u BlockMintAt (leaves_count e) /\
      Snapshot (db e') = Snapshot (db e) /\
      CommitRound now' wr' e' = (None, e')
  end.
Proof.
  intros He Hpriv Hpub. pose proof (CommitRound_spec now wr e (eo_led _ He)) as Hs.
  pose proof (CommitRound_ok now wr e He) as He'.
  destruct (CommitRound now wr e) as [[h|] e']; [|done]. cbn [snd] in He'.
  destruct Hs as (Hlt & (R1 & R2 & R3 & R4 & R5 & R6 & R7) & Hl & Hm & Hd & _).
  split; [done|]. split; [done|]. split; [done|]. split; [done|]. split; [done|]. split.
  { unfold SignRoundHeader in R7. rewrite bool_decide_false in R7 by lia.
    eexists. split; [exact R7|]. rewrite Hpub. 
    assert (Ec : CanonicalRoundHeaderBytes h = CanonicalRoundHeaderBytes
      (mkRoundHeader (rh_Round h) (rh_FromHeight h) (rh_ToHeight h) (rh_TxCount h) (rh_Root h) now ""))
      by (unfold CanonicalRoundHeaderBytes, canon_fields; by rewrite <- R6).
    rewrite Ec. by apply ed_sign_verify. }
  split.
  { rewrite Hm. unfold ApplyBlockMint. by destruct (SplitMint _) as [[? ?] ?]. }
  split; [by rewrite Hd|].
  pose proof (CommitRound_spec now' wr' e' (eo_led _ He')) as Hs'.
  destruct (CommitRound now' wr' e') as [[h'|] e2]; [|by destruct Hs' as [_ ->]].
  exfalso. destruct Hs' as (Hlt' & _). unfold leaves_count in *. rewrite Hl in Hlt'. cbn in Hlt'. lia.
Qed.

(** C16: restart: from the files of a node whose last save succeeded, a new engine has the
    same accounts, and the same receipts, log and rounds if no transaction hash was
    logged twice; the supply counters and the header chain always start from zero, for nothing writes them to disk. *)
Theorem restart (seed1 seed2 : bytes) (wr : bool) (e : Engine) :
  engine_ok e -> ascii_addresses (Snapshot (db e)) ->
  map_Forall (fun _ r => receipt_ok r) (receipts (led e)) -> Forall round_ok (rounds (led e)) ->
  f_state_v2 (files e) = Some (json_marshal (snapshot_json (Snapshot (db e)))) ->
  f_ledger (files e) = Some (ledger_file (led e)) ->
  let e' := NewEngine seed1 seed2 wr (files e) in
  Snapshot (db e') = Snapshot (db e) /\
  (size (receipts (led e)) = length (leaves (led e)) -> led e' = led e) /\
  supply (mint e') = supply_zero /\ eternityHeaders (chain e') = [] /\ lastBlockID (chain e') = zero32.
Proof.
  intros He Ha Hrec Hro Hf Hlf. cbn zeta. split; [|split; [|apply NewEngine_fresh]];
    unfold NewEngine; rewrite load_all_spec by apply boot_kv;
    destruct (boot_fields seed1 seed2 wr (files e)) as (_ & _ & _ & _ & _ & Hf2 & Hf3);
    set (e0 := boot seed1 seed2 wr (files e)) in *; clearbody e0.
  - destruct (loadLedger_frame (f_ledger (files e0)) (load_state wr e0).2) as (_ & _ & ->).
    unfold load_state, loadStateMas. rewrite Hf2, Hf, snapshot_roundtrip by apply He || done.
    apply Restore_view.
  - intros Hsize. rewrite Hf3, Hlf, loadLedger_file by apply He || done.
    rewrite values_leaves, Hsize by apply He || done.
    destruct (eo_led _ He) as [Hh _ _ _ _]. rewrite <- Hh. by destruct (led e).
Qed.

(** C40: the ledger file is keyed by transaction hash, so of receipts logged under one hash
    (a rejected transfer submitted again) only the last survives a restart; when fewer
    survive than had been committed, the restarted engine commits nothing at all. *)
Theorem restart_stalls (now : Z) (wr : bool) (e e1 : Engine) :
  engine_ok e -> map_Forall (fun _ r => receipt_ok r) (receipts (led e)) ->
  Forall round_ok (rounds (led e)) ->
  Z.of_nat (size (receipts (led e))) < lastCommittedHeight (led e) ->
  let e' := (loadLedger (Some (ledger_file (led e))) e1).2 in
  leaves_count e' = Z.of_nat (size (receipts (led e))) /\
  lastCommittedHeight (led e') = lastCommittedHeight (led e) /\
  (CommitRound now wr e').1 = None.
Proof.
  intros He Hrec Hro Hlt. cbn zeta.
  pose proof (loadLedger_file (led e) e1 (eo_led _ He) Hrec Hro) as Hll.
  set (e' := (loadLedger _ e1).2) in *. unfold leaves_count. rewrite Hll.
  cbn [leaves lastCommittedHeight]. rewrite length_fmap, values_length.
  split; [done|]. split; [done|]. destruct (eo_led _ He) as [_ Hb [Hl0 Hl1] _ _].
  unfold CommitRound. rewrite Hll. cbn [leaves height lastCommittedHeight].
  rewrite length_fmap, values_length, Z.eqb_refl, Z.ltb_irrefl. cbn [negb height lastCommittedHeight].
  rewrite u64_small by (unfold in_u64; lia). bool_cases; done || lia.
Qed.

(** a failed write is reported as a failed transfer although the transfer has been
    applied: with an unwritable data directory the balances move and the nonce
    advances, and the caller is told "write" and logs a rejection. *)
Theorem transfer_write_failure (t : Transfer) (e : Engine) (d : DB) :
  ApplyTransfer (t_From t) (t_To t) (t_AmountMas t) (t_FeeMas t) (t_Nonce t) (db e) = (Ok tt, d) ->
  Engine_ApplyTransfer false false t e = (Err "write", set_db d e) /\
  Engine_ApplyTransfer false true t e = (Ok tt, (saveStateMas true (set_db d e)).2).
Proof. intros E. unfold Engine_ApplyTransfer. cbn [andb]. by rewrite E. Qed.

(** [GetRound] finds every committed round under its number and answers "not found"
    for the others below 2^63; for a number of 2^63 or more the signed comparison lets
    it through to an index that is out of range, a panic. *)
Theorem GetRound_correct (n : Z) (e : Engine) : engine_ok e -> in_u64 n ->
  Z.of_nat (length (rounds (led e))) < M63 ->
  match GetRound n e with
  | Some (h, true) => rh_Round h = n /\ rounds (led e) !! Z.to_nat (n - 1) = Some h
  | Some (h, false) => h = round_zero /\ (n = 0 \/ Z.of_nat (length (rounds (led e))) < n < M63)
  | None => M63 <= n
  end.
Proof.
  intros He Hn Hlen. unfold GetRound, in_u64 in *.
  assert (Hi : i64 n = if n <? M63 then n else n - M64) by (unfold i64; by rewrite Z.mod_small by lia).
  rewrite Hi. destruct (Z.eqb_spec n 0); [cbn [orb]; split; auto|]. destruct (Z.ltb_spec n M63); cbn [orb].
  - destruct (Z.ltb_spec (Z.of_nat (length (rounds (led e)))) n); [split; auto|].
    destruct (lookup_lt_is_Some_2 (rounds (led e)) (Z.to_nat (n - 1)) ltac:(lia)) as [h Hh].
    rewrite Hh. cbn. split; [|done].
    pose proof (lo_rounds _ (eo_led _ He)) as Hr.
    assert (Hgen : forall rs k from lst i, rounds_ok (leaves (led e)) k from rs lst -> rs !! i = Some h ->
      rh_Round h = k + Z.of_nat i).
    { induction rs as [|g rs IH]; intros k from lst [|i] Hok Hi'; try done; cbn in Hok, Hi';
        destruct Hok as (? & _ & _ & _ & _ & Hok); [injection Hi' as ->; lia|].
      rewrite (IH _ _ _ i Hok Hi'). lia. }
    rewrite (Hgen _ _ _ _ _ Hr Hh). lia.
  - destruct (Z.ltb_spec (Z.of_nat (length (rounds (led e)))) (n - M64)); [lia|].
    rewrite lookup_ge_None_2 by lia. done.
Qed.
End Properties.

(** ** Concrete instances: a node's first transactions *)
Section Witnesses.
#[local] Existing Instance runtime0.
#[local] Existing Instance gosort0.
#[local] Existing Instance blake3_0.
#[local] Existing Instance cbor0.
#[local] Existing Instance ed0.
#[local] Existing Instance float_amd64.

#[local] Instance in_u64_dec z : Decision (in_u64 z).
Proof. unfold in_u64. apply _. Defined.
#[local] Instance in_i64_dec z : Decision (in_i64 z).
Proof. unfold in_i64. apply _. Defined.
#[local] Instance receipt_ok_dec r : Decision (receipt_ok r).
Proof. unfold receipt_ok. apply _. Defined.
#[local] Instance round_ok_dec r : Decision (round_ok r).
Proof. unfold round_ok. apply _. Defined.

#[local] Notation node0 := (NewEngine (h32 9) (h32 9) true no_files).
(** A payment that is applied and logged, then one that is rejected twice. *)
Definition pay0 : Transfer := mkTransfer 1 "tho1alice" "tho1bob" 100 10000000 1 "thomas-dev-1" 0 "aGk=".
Definition bad0 : Transfer := mkTransfer 1 "tho1bob" "tho1alice" 5 10000000 7 "thomas-dev-1" 0 "aGk=".
Definition paid0 : Engine := (Engine_ApplyTransfer false true pay0 node0).2.
Definition node1 : Engine := (StoreReceipt 100 true pay0 true "" paid0).2.
Definition node2 : Engine := (CommitRound 101 true node1).2.
Definition reject2 : Engine := (StoreReceipt 102 true bad0 false "bad_nonce" node2).2.
Definition node3 : Engine := (StoreReceipt 103 true bad0 false "bad_nonce" reject2).2.
Definition node4 : Engine := (CommitRound 104 true node3).2.

Lemma paid0_count : leaves_count paid0 < M64 - 2.
Proof. vm_compute. reflexivity. Qed.
Lemma node2_count : leaves_count node2 < M64 - 2.
Proof. vm_compute. reflexivity. Qed.
Lemma reject2_count : leaves_count reject2 < M64 - 2.
Proof. vm_compute. reflexivity. Qed.
Lemma node1_steps : rtc step node0 node1.
Proof.
  apply (rtc_l step node0 paid0 node1); [exact (step_transfer false true pay0 node0)|].
  apply rtc_once. exact (step_receipt 100 true pay0 true "" paid0 paid0_count).
Qed.
Lemma node4_steps : rtc step node1 node4.
Proof.
  apply (rtc_l step node1 node2 node4); [exact (step_commit 101 true node1)|].
  apply (rtc_l step node2 reject2 node4);
    [exact (step_receipt 102 true bad0 false "bad_nonce" node2 node2_count)|].
  apply (rtc_l step reject2 node3 node4);
    [exact (step_receipt 103 true bad0 false "bad_nonce" reject2 reject2_count)|].
  apply rtc_once. exact (step_commit 104 true node3).
Qed.
Lemma node0_ok : engine_ok node0.
Proof. apply NewEngine_ok. Qed.
Lemma node1_ok : engine_ok node1.
Proof. exact (steps_ok node0 node1 node1_steps node0_ok). Qed.
Lemma node4_ok : engine_ok node4.
Proof. exact (steps_ok node1 node4 node4_steps node1_ok). Qed.

Lemma engine_invariant_witness : engine_ok node1.
Proof. exact (engine_invariant (h32 9) (h32 9) true node1 node1_steps). Defined.
Lemma engine_append_only_witness : rounds (led node1) `prefix_of` rounds (led node4).
Proof. exact (proj1 (proj2 (engine_append_only node1 node4 node1_ok node4_steps))). Defined.
Lemma CommitRound_correct_witness : exists h e', CommitRound 101 true node1 = (Some h, e') /\
  rh_ToHeight h = leaves_count node1 /\ CommitRound 200 true e' = (None, e').
Proof.
  assert (Hpriv : length (priv node1) = 64%nat) by (vm_compute; reflexivity).
  assert (Hpub : pub node1 = ed_public (priv node1)) by (vm_compute; reflexivity).
  pose proof (CommitRound_correct 101 200 true true node1 node1_ok Hpriv Hpub) as Hc.
  destruct (CommitRound 101 true node1) as [[h|] e'].
  - exists h, e'. destruct Hc as (_ & _ & _ & Hto & _ & _ & _ & _ & Hagain). auto.
  - exfalso. destruct Hc as [Hc _]. vm_compute in Hc. discriminate.
Defined.
Lemma restart_witness : let e' := NewEngine (h32 1) (h32 1) true (files node2) in
  Snapshot (db e') = Snapshot (db node2) /\
  (size (receipts (led node2)) = length (leaves (led node2)) -> led e' = led node2) /\
  supply (mint e') = supply_zero /\ eternityHeaders (chain e') = [] /\ lastBlockID (chain e') = zero32.
Proof.
  apply (restart (h32 1) (h32 1) true node2).
  - exact (CommitRound_ok 101 true node1 node1_ok).
  - apply (bool_decide_eq_true_1 (ascii_addresses _)). vm_compute. reflexivity.
  - apply (bool_decide_eq_true_1 (map_Forall _ _)). vm_compute. reflexivity.
  - apply (bool_decide_eq_true_1 (Forall _ _)). vm_compute. reflexivity.
  - vm_compute. reflexivity.
  - vm_compute. reflexivity.
Defined.
Lemma restart_stalls_witness :
  (CommitRound 300 true (loadLedger (Some (ledger_file (led node4))) node0).2).1 = None.
Proof.
  apply (restart_stalls 300 true node4 node0).
  - apply node4_ok.
  - apply (bool_decide_eq_true_1 (map_Forall _ _)). vm_compute. reflexivity.
  - apply (bool_decide_eq_true_1 (Forall _ _)). vm_compute. reflexivity.
  - vm_compute. reflexivity.
Defined.
Lemma transfer_write_failure_witness : exists d, Engine_ApplyTransfer false false pay0 node0 = (Err "write", set_db d node0).
Proof.
  destruct (ApplyTransfer (t_From pay0) (t_To pay0) (t_AmountMas pay0) (t_FeeMas pay0) (t_Nonce pay0) (db node0))
    as [r d] eqn:E.
  assert (Hr : r = Ok tt).
  { apply (f_equal fst) in E. cbn [fst] in E. rewrite <- E. vm_compute. reflexivity. }
  subst r. exists d. exact (proj1 (transfer_write_failure pay0 node0 d E)).
Defined.
Lemma GetRound_correct_witness : exists h, GetRound 2 node4 = Some (h, true) /\ rh_Round h = 2.
Proof.
  assert (Hlen : Z.of_nat (length (rounds (led node4))) < M63) by (vm_compute; reflexivity).
  pose proof (GetRound_correct 2 node4 node4_ok ltac:(unfold in_u64; lia) Hlen) as Hg.
  destruct (GetRound 2 node4) as [[h []]|] eqn:E.
  - exists h. split; [reflexivity|apply Hg].
  - exfalso. vm_compute in E. discriminate.
  - exfalso. vm_compute in Hg. by apply Hg.
Defined.
End Witnesses.
