(* ===== verification/Http.v ===== *)
(** * Requests, responses and JSON replies of the HTTP layer.

    What the handlers of internal/rpc see of net/http and encoding/json: a request, the
    buffering response writer of router.go, the encoder, and the detour of a Go value
    through [map[string]any], which turns every number into a [float64].  The URL query
    is given decoded, and header names compare up to case, as net/http canonicalises them. *)
From S2P Require Export State.
From Stdlib Require Import Ascii.

(** ** Requests *)
Record request := mkRequest {
  rq_Method : string; rq_Path : string; rq_Query : list (string * string);
  rq_Header : list (string * string); rq_Body : bytes; rq_RemoteAddr : string
}.
Definition same_key (a b : string) : bool :=
  String.eqb (str_map lower_ascii a) (str_map lower_ascii b).
(** [r.URL.Query().Get(key)] and [r.Header.Get(key)]: the first value, or "". *)
Definition Query_Get (key : string) (r : request) : string :=
  match List.find (fun kv => String.eqb kv.1 key) (rq_Query r) with Some kv => kv.2 | None => "" end.
Definition Header_Get (key : string) (r : request) : string :=
  match List.find (fun kv => same_key kv.1 key) (rq_Header r) with Some kv => kv.2 | None => "" end.

Definition StatusOK : Z := 200.
Definition StatusNoContent : Z := 204.
Definition StatusBadRequest : Z := 400.
Definition StatusNotFound : Z := 404.
Definition StatusMethodNotAllowed : Z := 405.
Definition StatusConflict : Z := 409.
Definition StatusTooManyRequests : Z := 429.
Definition StatusInternalServerError : Z := 500.
Definition StatusNotImplemented : Z := 501.

(** [strings.Trim(s, "/")] *)
Fixpoint trim_slashes_left (s : string) : string :=
  match s with String c s' => if Ascii.eqb c "/"%char then trim_slashes_left s' else s | "" => "" end.
Fixpoint trim_slashes_right (fuel : nat) (s : string) : string :=
  match fuel with
  | O => s
  | S fuel => if has_suffix s "/" then trim_slashes_right fuel (trim_suffix s "/") else s
  end.
Definition trim_slashes (s : string) : string :=
  let s := trim_slashes_left s in trim_slashes_right (String.length s) s.

(** ** Response writers *)
Definition header : Type := list (string * string).
Definition h_Set (k v : string) (h : header) : header :=
  List.filter (fun kv => negb (same_key kv.1 k)) h ++ [(k, v)].
Definition h_Add (k v : string) (h : header) : header := h ++ [(k, v)].
Definition copyHeader (dst src : header) : header := foldl (fun d kv => h_Add kv.1 kv.2 d) dst src.

(** The [bufferingWriter] of router.go: a later status overwrites an earlier one. *)
Record bufferingWriter := mkBW { bw_header : header; bw_body : bytes; bw_status : Z }.
Definition bw_new : bufferingWriter := mkBW [] [] 0.
Definition bw_Set (k v : string) (w : bufferingWriter) : bufferingWriter :=
  mkBW (h_Set k v (bw_header w)) (bw_body w) (bw_status w).
Definition bw_Write (b : bytes) (w : bufferingWriter) : bufferingWriter :=
  mkBW (bw_header w) (bw_body w ++ b) (if bw_status w =? 0 then StatusOK else bw_status w).
Definition bw_WriteHeader (status : Z) (w : bufferingWriter) : bufferingWriter :=
  mkBW (bw_header w) (bw_body w) status.

(** The writer of net/http: the first status wins and fixes the headers. *)
Record response := mkResponse { rs_header : header; rs_body : bytes; rs_status : Z }.
Definition rs_new : response := mkResponse [] [] 0.
Definition rs_headers (f : header -> header) (w : response) : response :=
  if rs_status w =? 0 then mkResponse (f (rs_header w)) (rs_body w) 0 else w.
Definition rs_WriteHeader (status : Z) (w : response) : response :=
  if rs_status w =? 0 then mkResponse (rs_header w) (rs_body w) status else w.
Definition rs_Write (b : bytes) (w : response) : response :=
  let w := rs_WriteHeader StatusOK w in mkResponse (rs_header w) (rs_body w ++ b) (rs_status w).

(** [http.Error] on a fresh writer. *)
Definition http_Error (msg : string) (code : Z) : response :=
  rs_Write (to_bytes (msg +:+ newline)) (rs_WriteHeader code
    (rs_headers (fun h => h_Set "X-Content-Type-Options" "nosniff" (h_Set "Content-Type" "text/plain; charset=utf-8" h)) rs_new)).
(** How a handler ends: it has replied; it panicked, and net/http drops the connection; it
    waits for a mutex that is never released; the mux redirects an unclean path. *)
Inductive outcome (W : Type) := Replied (w : W) | Panicked | Blocked | Redirected.
Arguments Replied {_} _.
Arguments Panicked {_}.
Arguments Blocked {_}.
Arguments Redirected {_}.
Definition outcome_map {V W} (f : V -> W) (o : outcome V) : outcome W :=
  match o with Replied w => Replied (f w) | Panicked => Panicked | Blocked => Blocked
             | Redirected => Redirected end.

(** ** JSON replies *)
Definition key_le (a b : string * json) : Prop := str_le a.1 b.1.
#[global] Instance key_le_dec : RelDecision key_le.
Proof. intros a b. unfold key_le. apply _. Defined.
(** A [map[string]any]: encoding/json writes the keys in byte order. *)
Definition gomap (kvs : list (string * json)) : json := JObj (merge_sort key_le kvs).
Definition nl : bytes := to_bytes newline.
(** [json.NewEncoder(w).Encode(v)] *)
Definition encoded (j : json) : bytes := json_marshal j ++ nl.
Definition Encode (j : json) (w : bufferingWriter) : bufferingWriter := bw_Write (encoded j) w.
Definition rs_Encode (j : json) (w : response) : response := rs_Write (encoded j) w.

Definition ct_json : bufferingWriter -> bufferingWriter := bw_Set "Content-Type" "application/json".
Definition ct_json_utf8 : bufferingWriter -> bufferingWriter :=
  bw_Set "Content-Type" "application/json; charset=utf-8".
Definition only (status : Z) : bufferingWriter := bw_WriteHeader status bw_new.
(** Status and JSON without a content type, and the two-member error bodies. *)
Definition fail (status : Z) (j : json) : bufferingWriter := Encode j (only status).
Definition err_json (e : string) : json := gomap [("error", JStr e)].
Definition ok_false (key e : string) : json := gomap [("ok", JBool false); (key, JStr e)].
Definition ok_json (j : json) : bufferingWriter := Encode j (ct_json bw_new).

(** The body parses back as the value that was encoded. *)
Lemma Forall_json_obj l :
  Forall (fun kv => str_forall is_ascii kv.1 = true /\ json_ok kv.2) l -> json_ok (JObj l).
Proof. intros Hl. induction Hl; cbn; auto. Qed.
Lemma gomap_ok l :
  Forall (fun kv => str_forall is_ascii kv.1 = true /\ json_ok kv.2) l -> json_ok (gomap l).
Proof.
  intros Hl. apply Forall_json_obj. by rewrite merge_sort_Permutation.
Qed.
(** [gomap_ok] on a literal map: the keys are computed, the values left to the hints. *)
Ltac gomap_solve :=
  apply gomap_ok;
  repeat match goal with
  | |- Forall _ (_ :: _) => apply Forall_cons_2; [split; [reflexivity|cbn [snd]]|]
  | |- Forall _ [] => apply Forall_nil_2
  end; auto with go.
Lemma json_ok_str s : str_forall is_ascii s = true -> json_ok (JStr s).
Proof. done. Qed.
Lemma json_ok_int z : json_ok (JInt z).
Proof. apply num_ok_int. Qed.
Lemma json_ok_uint z : json_ok (JUint z).
Proof. apply num_ok_uint. Qed.
Lemma json_ok_bool b : json_ok (JBool b).
Proof. done. Qed.
#[export] Hint Resolve json_ok_str json_ok_int json_ok_uint json_ok_bool : go.
Lemma encoded_parses j : json_ok j -> json_unmarshal (encoded j) = Some j.
Proof.
  intros Hj. unfold json_unmarshal, encoded, json_marshal, nl.
  rewrite <- to_bytes_app, of_to_bytes. unfold json_parse.
  rewrite json_ok_parses; [done|done| |done].
  pose proof (weight_length j Hj). rewrite length_app_str. lia.
Qed.

(** ** [map[string]any]: numbers become floats *)

(** The [float64] nearest to an integer, ties to even, as the integer it is. *)
Definition float_of_nat (z : Z) : Z :=
  if z <? 2 ^ 53 then z else
  let e := Z.log2 z - 52 in
  let q := Z.shiftr z e in
  let r := z - Z.shiftl q e in
  let half := 2 ^ (e - 1) in
  let q := if (half <? r) || ((half =? r) && Z.odd q) then q + 1 else q in
  Z.shiftl q e.
(** The fewest decimal digits that read back as the same float, the nearest such number:
    [strconv.FormatFloat(f, 'f', -1, 64)] of an integral float. *)
Fixpoint shortest_loop (n : nat) (e v : Z) : Z :=
  match n with
  | O => v
  | S n =>
      let lo := v / e * e in
      let hi := if lo =? v then lo else lo + e in
      let fits c := float_of_nat c =? v in
      let best := if v - lo <=? hi - v then (lo, hi) else (hi, lo) in
      if fits best.1 then best.1 else if fits best.2 then best.2 else shortest_loop n (e / 10) v
  end.
Definition fmt_float_nat (z : Z) : string :=
  let v := float_of_nat z in
  fmt_uint (if v <? 2 ^ 53 then v else shortest_loop 20 (10 ^ 19) v).
Definition fmt_float_int (z : Z) : string :=
  if z <? 0 then "-" +:+ fmt_float_nat (- z) else fmt_float_nat z.
Example float_exact : fmt_float_int 20000000 = "20000000".
Proof. vm_compute. reflexivity. Qed.
Example float_odd : fmt_float_int 9007199254740993 = "9007199254740992".
Proof. vm_compute. reflexivity. Qed.
Example float_max : fmt_float_int (M63 - 1) = "9223372036854776000".
Proof. vm_compute. reflexivity. Qed.

(** A literal that [json.Marshal] wrote for a Go integer, read as [float64] and written again. *)
Definition float_lit (lit : string) : string :=
  match parse_uint lit with
  | Some z => fmt_float_int z
  | None => match parse_int lit with Some z => fmt_float_int z | None => lit end
  end.
Fixpoint float_json (j : json) : json :=
  match j with
  | JNum lit => JNum (float_lit lit)
  | JArr l => JArr (map float_json l)
  | JObj l => JObj (map (fun kv => (kv.1, float_json kv.2)) l)
  | j => j
  end.
(** [toMapFromAny] of a value whose JSON form is [j]. *)
Definition toMapFromAny (j : json) : list (string * json) :=
  match json_unmarshal (json_marshal j) with
  | Some (JObj l) => map (fun kv => (kv.1, float_json kv.2)) l
  | _ => []
  end.
Lemma toMapFromAny_ok l : json_ok (JObj l) ->
  toMapFromAny (JObj l) = (fun kv => (kv.1, float_json kv.2)) <$> l.
Proof. intros Hl. unfold toMapFromAny. by rewrite json_roundtrip. Qed.
(** [m[key].(string)] of a decoded object: the last of equal members counts. *)
Definition map_string (key : string) (m : list (string * json)) : string :=
  match List.find (fun kv => String.eqb kv.1 key) (reverse m) with Some (_, JStr s) => s | _ => "" end.

(** Reading one string member of a body whose other members may fail to decode: what
    [json.Unmarshal] leaves in the field when its error is ignored. *)
Definition best_string (name : string) (b : bytes) : string :=
  match json_unmarshal b with
  | Some (JObj l) =>
      foldl (fun acc kv => if bool_decide (fold_key kv.1 = fold_key name)
        then match kv.2 with JStr s => s | _ => acc end else acc) "" l
  | _ => ""
  end.
