(* ===== verification/Node.v ===== *)
(** * internal/rpc/router.go: the state behind the handlers.

    [Node] joins the engine with the package variables of internal/rpc: the payment
    requests (a map of record *pointers*, so a handler may hold a record while another
    changes it), their file, the mutex and the two counters.  [Config] is what the
    package reads from the environment when it is initialised, [Ctx] what a single
    request meets outside: clock, environment, random bytes, files, write success. *)
From S2P Require Export Http Engine.

Record r2pRecord := mkR2P {
  rp_ID : string; rp_From : string; rp_To : string; rp_AmountMas : Z; rp_Memo : string;
  rp_Status : string; rp_CreatedUTC : Z; rp_PaidUTC : Z; rp_DeclinedUTC : Z; rp_CanceledUTC : Z;
  rp_TxHash : string; rp_Alias : string; rp_AliasVersion : Z
}.
#[global] Instance r2pRecord_eq_dec : EqDecision r2pRecord.
Proof. solve_decision. Defined.
Definition r2p_zero : r2pRecord := mkR2P "" "" "" 0 "" "" 0 0 0 0 "" "" 0.

Record Node := mkNode {
  eng : Engine;
  r2p_heap : list r2pRecord;                   (* the cells the pointers point to *)
  r2pStore : gmap string (option loc);         (* [None] is the nil pointer *)
  r2pPath : string;
  r2p_file : option bytes;                     (* the content of the file [r2pPath] *)
  r2p_stuck : bool;                            (* [r2pMu] was left locked by a panic *)
  metricBindMismatch : Z; metricBadSig : Z
}.
Definition set_eng (e : Engine) (n : Node) : Node :=
  mkNode e (r2p_heap n) (r2pStore n) (r2pPath n) (r2p_file n) (r2p_stuck n) (metricBindMismatch n) (metricBadSig n).
Definition set_r2p (h : list r2pRecord) (s : gmap string (option loc)) (n : Node) : Node :=
  mkNode (eng n) h s (r2pPath n) (r2p_file n) (r2p_stuck n) (metricBindMismatch n) (metricBadSig n).
Definition set_file (path : string) (f : option bytes) (n : Node) : Node :=
  mkNode (eng n) (r2p_heap n) (r2pStore n) path f (r2p_stuck n) (metricBindMismatch n) (metricBadSig n).
Definition set_stuck (n : Node) : Node :=
  mkNode (eng n) (r2p_heap n) (r2pStore n) (r2pPath n) (r2p_file n) true (metricBindMismatch n) (metricBadSig n).
(** expvar's [Int.Add(1)] is a 64-bit addition. *)
Definition incBindMismatch (n : Node) : Node :=
  mkNode (eng n) (r2p_heap n) (r2pStore n) (r2pPath n) (r2p_file n) (r2p_stuck n) (i64 (metricBindMismatch n + 1)) (metricBadSig n).
Definition incBadSigJSON (n : Node) : Node :=
  mkNode (eng n) (r2p_heap n) (r2pStore n) (r2pPath n) (r2p_file n) (r2p_stuck n) (metricBindMismatch n) (i64 (metricBadSig n + 1)).
(** Running an engine method from a handler. *)
Definition on_eng {A} (m : St Engine A) : St Node A := fun n =>
  let '(a, e) := m (eng n) in (a, set_eng e n).

(** The outcomes of [r2pSaveLocked]'s file operations: the old file is removed before the
    temporary one is renamed. *)
Inductive save_result := SaveOk | TmpFails | RenameFails.
Record Ctx := mkCtx {
  c_env : string -> string;           (* os.Getenv *)
  c_now : Z; c_paid : Z;              (* Unix time when a receipt or request is stamped; when it is marked *)
  c_time : string;                    (* the current time in RFC 3339 *)
  c_rand : bytes;                     (* eight bytes of crypto/rand *)
  c_wr_state : bool; c_wr_ledger : bool; c_save : save_result;
  c_alias : option bytes; c_pubs : option bytes;  (* data/alias_map.json, data/from_pubkeys.json *)
  c_loopback : string -> bool;        (* net: the host of the remote address is a loopback IP *)
  c_fold : string -> string -> bool;  (* strings.EqualFold beyond ASCII *)
  c_uptime : Z;                       (* whole seconds since the process started *)
  c_platform : string * string * string;  (* runtime.Version(), GOOS, GOARCH *)
  c_seed : bytes;                     (* entropy for a new wallet *)
  c_goroutines : Z; c_alloc : Z       (* runtime: goroutines, bytes of allocated memory *)
}.
Definition flag (c : Ctx) (name : string) : bool := String.eqb (c_env c name) "1".

(** ** Package variables read from the environment *)
Record Config := mkConfig {
  feeBps : Z; maxMsgCommitLen : Z; must_commit : bool; must_sig : bool; must_from : bool;
  varz : bool                         (* expvar is served *)
}.
Definition feeBpsEnv (env : string -> string) : Z :=
  let s := trim_space (env "THOMAS_FEE_BPS") in
  if bool_decide (s = "") then 25 else
  match parse_int s with Some v => if 0 <=? v then v else 25 | None => 25 end.
Definition maxMsgCommitLenEnv (env : string -> string) : Z :=
  let s := trim_space (env "THOMAS_MAX_MSG_COMMIT_LEN") in
  if bool_decide (s = "") then 256 else
  match parse_int s with Some v => if 0 <? v then v else 256 | None => 256 end.
Definition init_config (env : string -> string) : Config :=
  mkConfig (feeBpsEnv env) (maxMsgCommitLenEnv env) (String.eqb (env "THOMAS_REQUIRE_COMMIT") "1")
    (String.eqb (env "THOMAS_VERIFY_SIG") "1") (String.eqb (env "THOMAS_REQUIRE_FROM_PUBKEY") "1")
    (String.eqb (env "THOMAS_ENABLE_VARZ") "1").
Definition expectedChainID : string := DefaultChainID.
Definition masPerMicro : Z := 10.
Definition masPerTHO : Z := masPerMicro * 1000000.

(** ** Aliases *)
Section Alias.
Context `{GoRuntime}.

(** The map the engine answers with, before and after [toMapFromAny]. *)
Definition alias_record (owner : option string) : json :=
  match owner with
  | Some o => gomap [("owner", JStr o); ("version", JInt 1)]
  | None => gomap []
  end.
Definition callEngResolveAlias (file : option bytes) (name : string) : list (string * json) * bool :=
  let '(owner, ok) := ResolveAliasFile file name in
  let rec := toMapFromAny (alias_record owner) in
  if ok : bool then (rec, true) else ([], true).
(** Name, implemented, found. *)
Definition callEngReverseAlias (file : option bytes) (addr : string) : string * bool * bool :=
  let '(s, b) := ReverseAliasFile file addr in (s, true, b).

(** [int64(f)] of the number behind a literal that [float_json] wrote; the only numeric
    type that occurs in a decoded map. *)
Definition float_int (lit : string) : Z :=
  match parse_int lit with Some z => i64 z | None => 0 end.
Definition extractInt64Map (m : list (string * json)) (key : string) : Z :=
  let look k := match List.find (fun kv => String.eqb kv.1 k) m with
                | Some (_, JNum lit) => Some (float_int lit) | _ => None end in
  match look key with
  | Some z => z
  | None => if String.eqb key "version" then default 0 (look "Version") else 0
  end.
(** Address, alias name, alias version; [None] is [ok = false]. *)
Definition resolveAddressMaybeAlias (file : option bytes) (inp : string) : option (string * string * Z) :=
  if has_prefix inp "@" then
    let '(rec, implemented) := callEngResolveAlias file inp in
    if negb implemented then None else
    let ad := map_string "address" rec in
    if bool_decide (ad = "") then None
    else Some (ad, trim_prefix inp "@", extractInt64Map rec "version")
  else Some (inp, "", 0).
Definition resolveAddrMaybeAlias (file : option bytes) (inp : string) : result string :=
  match resolveAddressMaybeAlias file inp with
  | Some (addr, _, _) => if bool_decide (addr = "") then Err "bad_owner_or_alias" else Ok addr
  | None => Err "bad_owner_or_alias"
  end.

(** The engine's record has the members "owner" and "version", the router reads "address". *)
Lemma alias_record_no_address owner : (forall o, owner = Some o -> str_forall is_ascii o = true) ->
  map_string "address" (toMapFromAny (alias_record owner)) = "".
Proof.
  intros Ho. unfold alias_record. destruct owner as [o|]; [|by vm_compute].
  unfold toMapFromAny. rewrite json_roundtrip; [by vm_compute|].
  gomap_solve.
Qed.
End Alias.

Definition minFeeMas (amountMas bps : Z) : Z :=
  let minByBps := (amountMas *u u64 bps +u 9999) / 10000 in
  if minByBps <? 1 then 1 else minByBps.

Lemma minFeeMas_range a b : in_u64 a -> 1 <= minFeeMas a b < M63.
Proof.
  intros Ha. unfold minFeeMas. pose proof (u64_range (a *u u64 b + 9999)) as Hr.
  unfold in_u64 in Hr. bool_cases; [lia|]. split; [lia|].
  apply Z.div_lt_upper_bound; lia.
Qed.
(** Without overflow it is the share rounded up, at least one. *)
Lemma minFeeMas_exact a b : 0 <= a -> 0 <= b -> a * b + 9999 < M64 ->
  minFeeMas a b = Z.max 1 ((a * b + 9999) / 10000).
Proof.
  intros Ha Hb Hlt. unfold minFeeMas. destruct (decide (a = 0)) as [->|Hne].
  { change (0 *u u64 b) with 0. change (0 +u 9999) with 9999. by cbn. }
  assert (b < M64) by nia.
  rewrite (u64_small b) by (unfold in_u64; lia).
  rewrite (u64_small (a * b)) by (unfold in_u64; nia).
  rewrite (u64_small (a * b + 9999)) by (unfold in_u64; nia).
  bool_cases; lia.
Qed.
