(* ===== verification/RpcTx.v ===== *)
(** * internal/rpc/router.go: submitting transactions.

    A [POST /tx] runs through four checks, each of which reads the body anew, before
    [txPostHandler] hands the transfer to the engine and logs a receipt.  The checks
    are middleware: functions from a handler to a handler.  The inner ones write to the
    buffer of [jsonizeSigErrors], which turns signature errors into a 200 reply. *)
From S2P Require Export Node.
From Stdlib Require Import Ascii.

Definition Handler : Type := request -> St Node (outcome bufferingWriter).

Record txPre := mkTxPre {
  tp_Type : Z; tp_From : string; tp_To : string; tp_AmountMas : Z; tp_FeeMas : Z; tp_Nonce : Z;
  tp_ChainID : string; tp_ExpiryHeight : Z; tp_MsgCommitment : string; tp_Sig : string
}.
Definition txPre_of_json : json -> option txPre :=
  dec_struct (mkTxPre 0 "" "" 0 0 0 "" 0 "" "") (fun fs =>
    ty ← dec_field dec_int64 "type" 0 fs; from ← dec_field dec_string "from" "" fs;
    to ← dec_field dec_string "to" "" fs; amount ← dec_field dec_int64 "amount_mas" 0 fs;
    fee ← dec_field dec_int64 "fee_mas" 0 fs; nonce ← dec_field dec_int64 "nonce" 0 fs;
    cid ← dec_field dec_string "chain_id" "" fs; exp ← dec_field dec_int64 "expiry_height" 0 fs;
    mc ← dec_field dec_string "msg_commitment" "" fs; sig ← dec_field dec_string "sig" "" fs;
    Some (mkTxPre ty from to amount fee nonce cid exp mc sig)).
(** [json.Unmarshal(buf, &in)] *)
Definition read_txPre (b : bytes) : option txPre := j ← json_unmarshal b; txPre_of_json j.

Definition is_tx (r : request) : bool :=
  String.eqb (rq_Method r) "POST" && String.eqb (rq_Path r) "/tx".
Definition malformed : json := ok_false "reason" "malformed_json".

(** ** The checks *)
Definition int_text (l : list string) : string := String.concat "|" l.
Definition commit_text (i : txPre) : string :=
  int_text [fmt_int (tp_Type i); tp_From i; tp_To i; fmt_int (tp_AmountMas i); fmt_int (tp_FeeMas i);
            fmt_int (tp_Nonce i); tp_ChainID i; fmt_int (tp_ExpiryHeight i)].
Definition calcCommit (i : txPre) : string := hex_encode (sha256 (to_bytes (commit_text i))).

Definition tho1 (s : string) : bool :=
  (4 <=? String.length s)%nat && String.eqb (String.substring 0 4 s) "tho1".
Definition expFee (bps : Z) (i : txPre) : Z :=
  i64 (minFeeMas (if 0 <? tp_AmountMas i then u64 (tp_AmountMas i) else 1) bps).
(** The error list of [txPrecheckWith], in the order of its tests. *)
Definition precheck_errs (bps h : Z) (i : txPre) : list string :=
  (if negb (bool_decide (tp_ChainID i = "")) && negb (bool_decide (tp_ChainID i = expectedChainID))
   then ["bad_chain_id"] else []) ++
  (if tp_AmountMas i <=? 0 then ["amount_le_0"] else []) ++
  (if tp_FeeMas i <? expFee bps i then ["fee_below_min"] else []) ++
  (if negb (tho1 (tp_From i) && tho1 (tp_To i)) then ["addr_format"] else []) ++
  (if (0 <? tp_ExpiryHeight i) && (u64 (tp_ExpiryHeight i) <=? u64 h) then ["expired_height"] else []).

Section Checks.
Context `{GoRuntime, Ed25519}.

Definition precheckCommit (cfg : Config) (next : Handler) : Handler := fun rq n =>
  if is_tx rq then
    match read_txPre (rq_Body rq) with
    | None => (Replied (fail StatusBadRequest malformed), n)
    | Some i =>
        let expected := calcCommit i in
        let reject reason := Replied (fail StatusBadRequest
          (gomap [("ok", JBool false); ("reason", JStr reason); ("expected_message", JStr expected)])) in
        if bool_decide (tp_MsgCommitment i = "") then
          if must_commit cfg then (reject "commitment_required", n) else next rq n
        else if must_commit cfg && negb (bool_decide (tp_MsgCommitment i = expected))
        then (reject "bad_commitment", n)
        else next rq n
    end
  else next rq n.

Definition precheckSig (cfg : Config) (next : Handler) : Handler := fun rq n =>
  if is_tx rq then
    match read_txPre (rq_Body rq) with
    | None => (Replied (fail StatusBadRequest malformed), n)
    | Some i =>
        let commit := calcCommit i in
        let pkB64 := Header_Get "X-PubKey" rq in
        let sgB64 := Header_Get "X-Sig" rq in
        let sgB64 := if bool_decide (sgB64 = "") && negb (bool_decide (tp_Sig i = "")) then tp_Sig i else sgB64 in
        if bool_decide (pkB64 = "") || bool_decide (sgB64 = "") then
          if must_sig cfg then
            (Replied (fail StatusBadRequest
               (gomap [("ok", JBool false); ("reason", JStr "signature_required"); ("expected_message", JStr commit)])), n)
          else next rq n
        else
          match b64_decode false pkB64, b64_decode false sgB64 with
          | Some pk, Some sg =>
              if negb (bool_decide (length pk = 32%nat)) || negb (bool_decide (length sg = 64%nat))
              then (Replied (fail StatusBadRequest (ok_false "reason" "bad_signature_encoding")), n)
              else if negb (ed_verify pk (to_bytes commit) sg) then
                (Replied (fail StatusBadRequest
                   (gomap [("ok", JBool false); ("reason", JStr "bad_signature"); ("expected_message", JStr commit)])), n)
              else next rq n
          | _, _ => (Replied (fail StatusBadRequest (ok_false "reason" "bad_signature_encoding")), n)
          end
    end
  else next rq n.

(** The engine implements [VerifyFromBinding(string, []byte) bool], the first candidate. *)
Definition verifyFromBindingReflect (pubs : option bytes) (addr : string) (pk : bytes) : bool * bool :=
  (true, VerifyFromBinding pubs addr pk).
Definition precheckFromBindingWith (cfg : Config) (pubs : option bytes) (next : Handler) : Handler := fun rq n =>
  if is_tx rq then
    match read_txPre (rq_Body rq) with
    | None => (Replied (fail StatusBadRequest malformed), n)
    | Some i =>
        let pkB64 := Header_Get "X-PubKey" rq in
        if bool_decide (pkB64 = "") then
          if must_from cfg then (Replied (fail StatusBadRequest (ok_false "reason" "from_pubkey_required")), n)
          else next rq n
        else
          match b64_decode false pkB64 with
          | None => (Replied (fail StatusBadRequest (ok_false "reason" "bad_pubkey_encoding")), n)
          | Some pk =>
              if negb (bool_decide (length pk = 32%nat))
              then (Replied (fail StatusBadRequest (ok_false "reason" "bad_pubkey_encoding")), n)
              else
                let '(implemented, ok) := verifyFromBindingReflect pubs (tp_From i) pk in
                if negb implemented then
                  if must_from cfg
                  then (Replied (fail StatusNotImplemented (ok_false "reason" "from_binding_not_implemented")), n)
                  else next rq n
                else if negb ok
                then (Replied (fail StatusBadRequest (ok_false "reason" "from_pubkey_mismatch")), incBindMismatch n)
                else next rq n
          end
    end
  else next rq n.

(** The older variant, which compares the header with [THOMAS_PUBKEY_<from>]. *)
Definition precheckFromBinding (c : Ctx) (next : Handler) : Handler := fun rq n =>
  if is_tx rq then
    match read_txPre (rq_Body rq) with
    | None => (Replied (fail StatusBadRequest malformed), n)
    | Some i =>
        let expected := c_env c ("THOMAS_PUBKEY_" +:+ tp_From i) in
        let provided := Header_Get "X-PubKey" rq in
        if negb (bool_decide (expected = "")) && negb (bool_decide (provided = "")) &&
           negb (bool_decide (provided = expected))
        then (Replied (fail StatusOK
                (gomap [("ok", JBool true); ("applied", JBool false); ("reason", JStr "verify:from_pub_mismatch")])),
              incBindMismatch n)
        else next rq n
    end
  else next rq n.

(** Copying the buffered reply to the real writer. *)
Definition relay (cap : bufferingWriter) (w : response) : response :=
  let w := rs_headers (fun h => copyHeader h (bw_header cap)) w in
  let w := if bw_status cap =? 0 then w else rs_WriteHeader (bw_status cap) w in
  rs_Write (bw_body cap) w.
Definition sig_reason (s : string) : bool :=
  String.eqb s "bad_signature" || String.eqb s "bad_signature_encoding" ||
  String.eqb s "signature_required" || String.eqb s "verify:bad_signature".
Definition reason_of (body : bytes) : string :=
  match json_unmarshal body with Some (JObj l) => map_string "reason" l | _ => "" end.
Definition jsonizeSigErrors (next : Handler) : request -> St Node (outcome response) := fun rq n =>
  let '(o, n) := next rq n in
  match o with
  | Replied cap =>
      if negb (String.eqb (rq_Path rq) "/tx") || negb (bw_status cap =? StatusBadRequest)
      then (Replied (relay cap rs_new), n)
      else if sig_reason (reason_of (bw_body cap)) then
        (Replied (rs_Encode (gomap [("ok", JBool true); ("applied", JBool false); ("reason", JStr "verify:bad_signature")])
           (rs_WriteHeader StatusOK (rs_headers (h_Set "Content-Type" "application/json") rs_new))), incBadSigJSON n)
      else (Replied (rs_Write (bw_body cap) (rs_WriteHeader StatusBadRequest
              (rs_headers (fun h => copyHeader h (bw_header cap)) rs_new))), n)
  | Panicked => (Panicked, n) | Blocked => (Blocked, n) | Redirected => (Redirected, n)
  end.
Definition withJSONErrorFallback {A} (next : A) : A := next.
Definition debuglogRateLimit {A} (next : A) : A := next.

(** [getHeight] is [int64(eng.CurrentHeight())]. *)
Definition txPrecheckWith (cfg : Config) (next : Handler) : request -> St Node (outcome response) := fun rq n =>
  let next := withJSONErrorFallback (jsonizeSigErrors next) in
  if is_tx rq then
    match read_txPre (rq_Body rq) with
    | None => (Replied (rs_Encode malformed (rs_WriteHeader StatusBadRequest rs_new)), n)
    | Some i =>
        let h := i64 (CurrentHeight (eng n)) in
        let errs := precheck_errs (feeBps cfg) h i in
        if bool_decide (errs = []) then next rq n
        else (Replied (rs_Encode
                (gomap [("ok", JBool false); ("errors", JArr (JStr <$> errs)); ("reason", JStr "tx_precheck_failed");
                        ("expected_fee_mas", JInt (expFee (feeBps cfg) i));
                        ("expected_chain_id", JStr expectedChainID); ("current_height", JInt h)])
                (rs_WriteHeader StatusBadRequest (rs_headers (h_Set "Content-Type" "application/json") rs_new))), n)
    end
  else next rq n.
End Checks.

(** ** The handler *)
Section Post.
Context `{GoRuntime, GoSort, Blake3, Cbor, Ed25519, GoFloat}.

Definition transfer_of (i : txPre) : Transfer :=
  mkTransfer (tp_Type i) (tp_From i) (tp_To i) (u64 (tp_AmountMas i)) (u64 (tp_FeeMas i))
    (u64 (tp_Nonce i)) (tp_ChainID i) (u64 (tp_ExpiryHeight i)) "".
Definition txPostHandler (c : Ctx) : Handler := fun rq n =>
  if negb (String.eqb (rq_Method rq) "POST") then (Replied (only StatusMethodNotAllowed), n) else
  match read_txPre (rq_Body rq) with
  | None => (Replied (fail StatusBadRequest malformed), n)
  | Some i =>
      let t := transfer_of i in
      let '(r, n) := on_eng (Engine_ApplyTransfer (flag c "THOMAS_FEAT_ALIAS") (c_wr_state c) t) n in
      match r with
      | Err e =>
          let reason := "apply:" +:+ e in
          let '(rc, n) := on_eng (StoreReceipt (c_now c) (c_wr_ledger c) t false reason) n in
          (Replied (fail StatusBadRequest (gomap [("ok", JBool false); ("applied", JBool false);
             ("reason", JStr reason); ("receipt", receipt_json rc)])), n)
      | Ok _ =>
          let '(rc, n) := on_eng (StoreReceipt (c_now c) (c_wr_ledger c) t true "") n in
          (Replied (ok_json (gomap [("ok", JBool true); ("applied", JBool true); ("receipt", receipt_json rc)])), n)
      end
  end.

(** What a submission does to the engine. *)
Definition submit (c : Ctx) (i : txPre) (e : Engine) : Engine :=
  let t := transfer_of i in
  let '(r, e) := Engine_ApplyTransfer (flag c "THOMAS_FEAT_ALIAS") (c_wr_state c) t e in
  (StoreReceipt (c_now c) (c_wr_ledger c) t (is_ok r)
     (match r with Ok _ => "" | Err x => "apply:" +:+ x end) e).2.
Lemma txPostHandler_eng c rq n i : rq_Method rq = "POST" -> read_txPre (rq_Body rq) = Some i ->
  (txPostHandler c rq n).2 = set_eng (submit c i (eng n)) n.
Proof.
  intros Hm Hi. unfold txPostHandler, submit, on_eng. rewrite Hm, Hi. cbn [String.eqb negb].
  change (negb (String.eqb "POST" "POST")) with false. cbn iota.
  destruct (Engine_ApplyTransfer _ _ _ (eng n)) as [[u|x] e]; cbn [is_ok eng set_eng];
    destruct (StoreReceipt _ _ _ _ _ e) as [rc e2]; by destruct n.
Qed.
End Post.

(** ** The commitment binds its fields when they are free of the separator *)
Definition no_bar (s : string) : bool := str_forall (fun c => negb (Ascii.eqb c "|"%char)) s.
Lemma bar_split a b r s : no_bar a = true -> no_bar b = true ->
  a +:+ "|" +:+ r = b +:+ "|" +:+ s -> a = b /\ r = s.
Proof.
  revert b; induction a as [|c a IH]; intros [|d b] Ha Hb E; str_norm; cbn in *.
  - injection E as ->. done.
  - injection E as <- _. rewrite Ascii.eqb_refl in Hb. done.
  - injection E as -> _. rewrite Ascii.eqb_refl in Ha. done.
  - apply andb_true_iff in Ha as [_ Ha], Hb as [_ Hb]. injection E as -> E.
    destruct (IH b Ha Hb E) as [-> ->]. done.
Qed.
Lemma no_bar_digits s : str_forall is_digit s = true -> no_bar s = true.
Proof.
  apply str_forall_impl. intros c Hc. destruct (Ascii.eqb_spec c "|"%char); [|done]. by subst c.
Qed.
Lemma no_bar_int z : no_bar (fmt_int z) = true.
Proof.
  unfold fmt_int. pose proof (no_bar_digits _ (fmt_uint_digits z)).
  pose proof (no_bar_digits _ (fmt_uint_digits (- z))). case_match; done.
Qed.
Lemma fmt_int_nonempty z : fmt_int z <> "".
Proof. unfold fmt_int. case_match; [done|apply fmt_uint_nonempty]. Qed.
Record separated (i : txPre) : Prop := {
  sp_from : no_bar (tp_From i) = true; sp_to : no_bar (tp_To i) = true;
  sp_chain : no_bar (tp_ChainID i) = true;
  sp_type : in_i64 (tp_Type i); sp_amount : in_i64 (tp_AmountMas i); sp_fee : in_i64 (tp_FeeMas i);
  sp_nonce : in_i64 (tp_Nonce i); sp_expiry : in_i64 (tp_ExpiryHeight i)
}.
(** Everything a submission pays depends on: all fields but the commitment and signature. *)
Definition payload (i : txPre) : Z * string * string * Z * Z * Z * string * Z :=
  (tp_Type i, tp_From i, tp_To i, tp_AmountMas i, tp_FeeMas i, tp_Nonce i, tp_ChainID i, tp_ExpiryHeight i).
Lemma fmt_int_inj a b : in_i64 a -> in_i64 b -> fmt_int a = fmt_int b -> a = b.
Proof. intros Ha Hb E. apply (f_equal parse_int) in E. rewrite !parse_int_fmt in E by done. congruence. Qed.
Lemma commit_text_inj i j : separated i -> separated j -> commit_text i = commit_text j -> payload i = payload j.
Proof.
  intros [] [] E. unfold commit_text, int_text in E. cbn [String.concat] in E.
  apply bar_split in E as [E1 E]; [|apply no_bar_int..].
  apply bar_split in E as [E2 E]; [|done..].
  apply bar_split in E as [E3 E]; [|done..].
  apply bar_split in E as [E4 E]; [|apply no_bar_int..].
  apply bar_split in E as [E5 E]; [|apply no_bar_int..].
  apply bar_split in E as [E6 E]; [|apply no_bar_int..].
  apply bar_split in E as [E7 E8]; [|done..].
  apply fmt_int_inj in E1, E4, E5, E6, E8; [|done..]. unfold payload. congruence.
Qed.

(** ** Admission: the four checks as one condition *)
Section Admission.
Context `{GoRuntime, GoSort, Blake3, Cbor, Ed25519, GoFloat}.

Definition body_sig (rq : request) (i : txPre) : string :=
  if bool_decide (Header_Get "X-Sig" rq = "") then tp_Sig i else Header_Get "X-Sig" rq.
Definition sig_ok (cfg : Config) (rq : request) (i : txPre) : bool :=
  if bool_decide (Header_Get "X-PubKey" rq = "") || bool_decide (body_sig rq i = "") then negb (must_sig cfg)
  else match b64_decode false (Header_Get "X-PubKey" rq), b64_decode false (body_sig rq i) with
       | Some pk, Some sg => bool_decide (length pk = 32%nat) && bool_decide (length sg = 64%nat) &&
                             ed_verify pk (to_bytes (calcCommit i)) sg
       | _, _ => false
       end.
Definition from_ok (cfg : Config) (pubs : option bytes) (rq : request) (i : txPre) : bool :=
  if bool_decide (Header_Get "X-PubKey" rq = "") then negb (must_from cfg)
  else match b64_decode false (Header_Get "X-PubKey" rq) with
       | Some pk => bool_decide (length pk = 32%nat) && VerifyFromBinding pubs (tp_From i) pk
       | None => false
       end.
Definition commit_ok (cfg : Config) (i : txPre) : bool :=
  negb (must_commit cfg) || bool_decide (tp_MsgCommitment i = calcCommit i).
Definition admitted (cfg : Config) (c : Ctx) (rq : request) (n : Node) (i : txPre) : bool :=
  bool_decide (precheck_errs (feeBps cfg) (i64 (CurrentHeight (eng n))) i = []) &&
  sig_ok cfg rq i && from_ok cfg (c_pubs c) rq i && commit_ok cfg i.

(** The handler chain of the last lines of [init], around a handler for the paths. *)
Definition tx_chain (cfg : Config) (c : Ctx) (mux : Handler) : request -> St Node (outcome response) :=
  debuglogRateLimit (txPrecheckWith cfg
    (precheckSig cfg (precheckFromBindingWith cfg (c_pubs c) (precheckCommit cfg mux)))).

Lemma calcCommit_nonempty i : calcCommit i <> "".
Proof.
  intros E. apply (f_equal String.length) in E. unfold calcCommit in E.
  rewrite hex_encode_length, sha256_length in E. done.
Qed.
(** The node without its counters, which are all the checks change. *)
Definition core (n : Node) : Engine * list r2pRecord * gmap string (option loc) * string * option bytes * bool :=
  (eng n, r2p_heap n, r2pStore n, r2pPath n, r2p_file n, r2p_stuck n).
Lemma core_eng a b : core a = core b -> eng a = eng b.
Proof. intros E. exact (f_equal (fun x => x.1.1.1.1.1) E). Qed.
Lemma jsonize_core next rq n : core (jsonizeSigErrors next rq n).2 = core (next rq n).2.
Proof.
  unfold jsonizeSigErrors. destruct (next rq n) as [[cap| | |] n']; try done.
  destruct (_ || _); [done|]. by destruct (sig_reason _).
Qed.
Lemma precheckCommit_eng cfg mux rq n i : is_tx rq = true -> read_txPre (rq_Body rq) = Some i ->
  (precheckCommit cfg mux rq n).2 = if commit_ok cfg i then (mux rq n).2 else n.
Proof.
  intros Ht Hi. unfold precheckCommit, commit_ok. rewrite Ht, Hi. pose proof (calcCommit_nonempty i).
  destruct (must_commit cfg); cbn [negb orb andb]; repeat case_bool_decide; cbn [negb];
    done || congruence.
Qed.
Lemma precheckFrom_core cfg pubs mux rq n i : is_tx rq = true -> read_txPre (rq_Body rq) = Some i ->
  core (precheckFromBindingWith cfg pubs mux rq n).2 =
    if from_ok cfg pubs rq i then core (mux rq n).2 else core n.
Proof.
  intros Ht Hi. unfold precheckFromBindingWith, from_ok, verifyFromBindingReflect. rewrite Ht, Hi.
  case_bool_decide; [by destruct (must_from cfg)|].
  destruct (b64_decode _ _) as [pk|]; [|done]. case_bool_decide; cbn [negb andb]; [|done].
  by destruct (VerifyFromBinding _ _ _).
Qed.
(** The signature that [precheckSig] takes: the header, or else the body's member. *)
Lemma body_sig_code rq i : (if bool_decide (Header_Get "X-Sig" rq = "") && negb (bool_decide (tp_Sig i = ""))
   then tp_Sig i else Header_Get "X-Sig" rq) = body_sig rq i.
Proof. unfold body_sig. repeat case_bool_decide; cbn; congruence. Qed.
Lemma precheckSig_eng cfg mux rq n i : is_tx rq = true -> read_txPre (rq_Body rq) = Some i ->
  (precheckSig cfg mux rq n).2 = if sig_ok cfg rq i then (mux rq n).2 else n.
Proof.
  intros Ht Hi. unfold precheckSig, sig_ok. rewrite Ht, Hi. cbv zeta.
  rewrite body_sig_code. destruct (_ || _); [by destruct (must_sig cfg)|].
  destruct (b64_decode false (Header_Get "X-PubKey" rq)) as [pk|]; [|done].
  destruct (b64_decode false (body_sig rq i)) as [sg|]; [|done].
  case_bool_decide; case_bool_decide; cbn [negb orb andb]; try done.
  by destruct (ed_verify _ _ _).
Qed.
Lemma tx_chain_core cfg c mux rq n : is_tx rq = true ->
  core (tx_chain cfg c mux rq n).2 =
    match read_txPre (rq_Body rq) with
    | Some i => if admitted cfg c rq n i then core (mux rq n).2 else core n
    | None => core n
    end.
Proof.
  intros Ht. unfold tx_chain, debuglogRateLimit, txPrecheckWith, withJSONErrorFallback. rewrite Ht.
  destruct (read_txPre (rq_Body rq)) as [i|] eqn:Hi; [|done].
  unfold admitted. case_bool_decide; cbn [andb]; [|done].
  rewrite jsonize_core, (precheckSig_eng _ _ _ _ i) by done.
  destruct (sig_ok cfg rq i); cbn [andb]; [|done].
  rewrite (precheckFrom_core _ _ _ _ _ i) by done. destruct (from_ok _ _ _ _); cbn [andb]; [|done].
  rewrite (precheckCommit_eng _ _ _ _ i) by done. by destruct (commit_ok cfg i).
Qed.
Lemma tx_chain_other cfg c mux rq n : is_tx rq = false ->
  core (tx_chain cfg c mux rq n).2 = core (mux rq n).2.
Proof.
  intros Ht. unfold tx_chain, debuglogRateLimit, txPrecheckWith, withJSONErrorFallback. rewrite Ht, jsonize_core.
  unfold precheckSig, precheckFromBindingWith, precheckCommit. by rewrite Ht.
Qed.

(** What the first check guarantees of an admitted submission. *)
Lemma read_txPre_range b i : read_txPre b = Some i ->
  in_i64 (tp_AmountMas i) /\ in_i64 (tp_FeeMas i) /\ in_i64 (tp_Nonce i) /\ in_i64 (tp_Type i) /\ in_i64 (tp_ExpiryHeight i).
Proof.
  unfold read_txPre. intros (j & _ & Hj)%bind_Some. unfold txPre_of_json, dec_struct in Hj.
  assert (Hz : in_i64 0) by (unfold in_i64; lia).
  destruct j as [| | | | |l]; try done; [by injection Hj as <-|].
  repeat (apply bind_Some in Hj as (? & ? & Hj)). injection Hj as <-. cbn.
  repeat split_and; eapply (dec_field_inv in_i64); eauto using dec_int64_range.
Qed.
Lemma precheck_ok bps h i : in_i64 (tp_AmountMas i) -> precheck_errs bps h i = [] ->
  (tp_ChainID i = "" \/ tp_ChainID i = expectedChainID) /\ 0 < tp_AmountMas i /\
  minFeeMas (tp_AmountMas i) bps <= tp_FeeMas i /\ tho1 (tp_From i) = true /\ tho1 (tp_To i) = true.
Proof.
  intros Ha E. unfold precheck_errs in E. unfold in_i64 in Ha.
  apply app_nil in E as [E1 E]. apply app_nil in E as [E2 E]. apply app_nil in E as [E3 E].
  apply app_nil in E as [E4 _].
  destruct (Z.leb_spec (tp_AmountMas i) 0); [done|].
  destruct (Z.ltb_spec (tp_FeeMas i) (expFee bps i)) as [|Hfee]; [done|].
  unfold expFee in Hfee. destruct (Z.ltb_spec 0 (tp_AmountMas i)); [|lia].
  rewrite u64_small in Hfee by (unfold in_u64; lia).
  rewrite i64_small in Hfee by (pose proof (minFeeMas_range (tp_AmountMas i) bps); unfold in_i64, in_u64 in *; lia).
  split; [|split; [lia|split; [lia|]]].
  - destruct (bool_decide_reflect (tp_ChainID i = "")); [by left|].
    destruct (bool_decide_reflect (tp_ChainID i = expectedChainID)); [by right|done].
  - destruct (tho1 (tp_From i)), (tho1 (tp_To i)); done.
Qed.
End Admission.
