(* ===== verification/R2P.v ===== *)
(** * internal/rpc: requests to pay.

    A payee creates a request, the payer approves or declines it, the payee may cancel it.
    The handlers of router.go lock [r2pMu] for single map accesses only, so an approval
    is a program of several atomic steps ([approve_step]) and a decline or cancel one of
    two ([close_step]); running the steps without interruption gives the sequential
    handlers; R2PSpec.v interleaves several requests.  r2p_persist.go and r2p_cursor.go are
    modelled here too; the indentation of the store file is left out, as in Engine.v. *)
From S2P Require Export RpcTx.
From Stdlib Require Import Ascii.

(** ** Records in JSON *)
Definition omit_str (k s : string) : list (string * json) :=
  if bool_decide (s = "") then [] else [(k, JStr s)].
Definition omit_int (k : string) (z : Z) : list (string * json) :=
  if z =? 0 then [] else [(k, JInt z)].
Definition r2p_json (r : r2pRecord) : json :=
  JObj ([("id", JStr (rp_ID r)); ("from", JStr (rp_From r)); ("to", JStr (rp_To r));
         ("amount_mas", JUint (rp_AmountMas r))] ++ omit_str "memo" (rp_Memo r) ++
        [("status", JStr (rp_Status r)); ("created_utc", JInt (rp_CreatedUTC r))] ++
        omit_int "paid_utc" (rp_PaidUTC r) ++ omit_int "declined_utc" (rp_DeclinedUTC r) ++
        omit_int "canceled_utc" (rp_CanceledUTC r) ++ omit_str "tx_hash" (rp_TxHash r) ++
        omit_str "alias" (rp_Alias r) ++ omit_int "alias_version" (rp_AliasVersion r)).
Definition r2p_of_json : json -> option r2pRecord :=
  dec_struct r2p_zero (fun fs =>
    id ← dec_field dec_string "id" "" fs; from ← dec_field dec_string "from" "" fs;
    to ← dec_field dec_string "to" "" fs; amount ← dec_field dec_uint64 "amount_mas" 0 fs;
    memo ← dec_field dec_string "memo" "" fs; st ← dec_field dec_string "status" "" fs;
    cr ← dec_field dec_int64 "created_utc" 0 fs; pd ← dec_field dec_int64 "paid_utc" 0 fs;
    de ← dec_field dec_int64 "declined_utc" 0 fs; ca ← dec_field dec_int64 "canceled_utc" 0 fs;
    h ← dec_field dec_string "tx_hash" "" fs; al ← dec_field dec_string "alias" "" fs;
    av ← dec_field dec_int64 "alias_version" 0 fs;
    Some (mkR2P id from to amount memo st cr pd de ca h al av)).
(** A pointer: JSON [null] is nil. *)
Definition r2p_ptr_of_json (j : json) : option (option r2pRecord) :=
  match j with JNull => Some None | _ => r ← r2p_of_json j; Some (Some r) end.

(** ** The store *)
Definition r2p_get (p : option loc) (n : Node) : option r2pRecord := l ← p; r2p_heap n !! l.
Definition ptr_json (o : option r2pRecord) : json :=
  match o with Some r => r2p_json r | None => JNull end.
Definition r2p_ptr_json (p : option loc) (n : Node) : json := ptr_json (r2p_get p n).
(** The store without the pointers. *)
Definition r2p_view (n : Node) : gmap string (option r2pRecord) := (fun p => r2p_get p n) <$> r2pStore n.
Definition r2p_put (l : loc) (r : r2pRecord) (n : Node) : Node := set_r2p (<[l := r]> (r2p_heap n)) (r2pStore n) n.

(** [r2pSaveLocked]; the file is its content. *)
Definition store_json (m : gmap string (option r2pRecord)) : json :=
  JObj ((fun k => (k, ptr_json (default None (m !! k)))) <$> merge_sort str_le (map_to_list m).*1).
Definition r2pSaveLocked (c : Ctx) (n : Node) : Node :=
  if bool_decide (r2pPath n = "") then n else
  match c_save c with
  | SaveOk => set_file (r2pPath n) (Some (json_marshal (store_json (r2p_view n)))) n
  | TmpFails => n
  | RenameFails => set_file (r2pPath n) None n
  end.
Fixpoint alloc_all (l : list (string * option r2pRecord)) (h : list r2pRecord) (s : gmap string (option loc))
    : list r2pRecord * gmap string (option loc) :=
  match l with
  | [] => (h, s)
  | (k, None) :: l => alloc_all l h (<[k := None]> s)
  | (k, Some r) :: l => alloc_all l (h ++ [r]) (<[k := Some (length h)]> s)
  end.
(** [SetR2PStorage]; [file] is the content of the file [path]. *)
Definition SetR2PStorage (path : string) (file : option bytes) (n : Node) : Node :=
  if negb (bool_decide (r2pPath n = "")) then n else
  let n := set_file path file n in
  match file with
  | None => n
  | Some b =>
      if bool_decide (length b = 0%nat) then n else
      match json_unmarshal b with
      | None | Some JNull => n
      | Some j =>
          match dec_map r2p_ptr_of_json j with
          | None => n
          | Some m => let '(h, s) := alloc_all (map_to_list m) (r2p_heap n) ∅ in
                      if r2p_stuck n then n else set_r2p h s n
          end
      end
  end.

Definition genR2PID (c : Ctx) : string := hex_encode (c_rand c).
Definition r2pUpdatedAt (x : r2pRecord) : Z :=
  let m := rp_CreatedUTC x in
  let m := if m <? rp_PaidUTC x then rp_PaidUTC x else m in
  let m := if m <? rp_DeclinedUTC x then rp_DeclinedUTC x else m in
  if m <? rp_CanceledUTC x then rp_CanceledUTC x else m.

(** [strings.ReplaceAll] of a character by "_", [strings.Contains]. *)
Definition underscore (d c : ascii) : ascii := if Ascii.eqb c d then "_"%char else c.
Fixpoint contains (s sub : string) : bool :=
  has_prefix s sub || match s with "" => false | String _ s => contains s sub end.
Definition isInsufficientFunds `{GoRuntime} (err reason : string) : bool :=
  let s := to_lower reason in
  let s := if bool_decide (s = "") then to_lower err else s in
  contains (str_map (underscore "-"%char) (str_map (underscore " "%char) s)) "insufficient_funds".
Definition devFreeR2PEnabled (c : Ctx) (rq : request) : bool :=
  flag c "THOMAS_DEV_FREE_R2P" && c_loopback c (rq_RemoteAddr rq).

Definition not_implemented : json := err_json "not_implemented".
Definition done (o : bufferingWriter) (n : Node) : outcome bufferingWriter * Node := (Replied o, n).

(** ** Create and get *)
Section Handlers.
Context `{GoRuntime, GoSort, Blake3, Cbor, Ed25519, GoFloat}.

Definition create_in (b : bytes) : option (string * string * Z * string) :=
  j ← json_unmarshal b;
  dec_struct ("", "", 0, "") (fun fs =>
    from ← dec_field dec_string "from" "" fs; to ← dec_field dec_string "to" "" fs;
    amount ← dec_field dec_int64 "amount_mas" 0 fs; memo ← dec_field dec_string "memo" "" fs;
    Some (from, to, amount, memo)) j.
Definition r2p_create (c : Ctx) : Handler := fun rq n =>
  if negb (String.eqb (rq_Method rq) "POST") then done (only StatusMethodNotAllowed) n else
  if negb (flag c "THOMAS_FEAT_R2P") then done (fail StatusNotImplemented not_implemented) n else
  match create_in (rq_Body rq) with
  | None => done (fail StatusBadRequest (ok_false "error" "bad_json")) n
  | Some (from, to, amount, memo) =>
      match resolveAddressMaybeAlias (c_alias c) from, resolveAddressMaybeAlias (c_alias c) to with
      | Some (payeeAddr, aliasNorm, aliasVer), Some (payerAddr, _, _) =>
          if amount <=? 0 then done (fail StatusBadRequest (ok_false "error" "bad_params")) n
          else if r2p_stuck n then (Blocked, n) else
          let id := genR2PID c in
          let rec := mkR2P id payeeAddr payerAddr (u64 amount) memo "open" (c_now c) 0 0 0 ""
                       (if bool_decide (aliasNorm = "") then "" else aliasNorm)
                       (if bool_decide (aliasNorm = "") then 0 else aliasVer) in
          let n := set_r2p (r2p_heap n ++ [rec]) (<[id := Some (length (r2p_heap n))]> (r2pStore n)) n in
          let n := r2pSaveLocked c n in
          done (ok_json (gomap [("ok", JBool true); ("id", JStr id)])) n
      | _, _ => done (fail StatusBadRequest (ok_false "error" "bad_params")) n
      end
  end.

Definition r2p_get_handler : Handler := fun rq n =>
  if negb (String.eqb (rq_Method rq) "GET") then done (only StatusMethodNotAllowed) n else
  let id := Query_Get "id" rq in
  if bool_decide (id = "") then done (fail StatusBadRequest (ok_false "error" "missing_id")) n else
  if r2p_stuck n then (Blocked, n) else
  match r2pStore n !! id with
  | None => done (fail StatusNotFound (ok_false "error" "not_found")) n
  | Some p => done (ok_json (gomap [("ok", JBool true); ("record", r2p_ptr_json p n)])) n
  end.

(** ** Approve *)
Definition approve_in (b : bytes) : option (string * string * Z) :=
  j ← json_unmarshal b;
  dec_struct ("", "", 0) (fun fs =>
    id ← dec_field dec_string "id" "" fs; payer ← dec_field dec_string "payer" "" fs;
    fee ← dec_field dec_int64 "fee_mas" 0 fs; Some (id, payer, fee)) j.
Inductive approve_pc :=
  | AP_begin
  | AP_account (id : string) (l : loc) (payerAddr : string) (fee : Z)
  | AP_apply (id : string) (l : loc) (t : Transfer)
  | AP_receipt (id : string) (l : loc) (t : Transfer)
  | AP_reject (t : Transfer) (reason : string)
  | AP_mark (id : string) (l : loc) (txHash : string)
  | AP_done (o : outcome bufferingWriter).

Definition closed_reply (r : r2pRecord) : json :=
  gomap [("ok", JBool true); ("id", JStr (rp_ID r)); ("status", JStr (rp_Status r)); ("tx_hash", JStr (rp_TxHash r))].
Definition ok_utf8 (j : json) : bufferingWriter := Encode j (ct_json_utf8 bw_new).
Definition mark_paid (c : Ctx) (txHash : string) (r : r2pRecord) : r2pRecord :=
  mkR2P (rp_ID r) (rp_From r) (rp_To r) (rp_AmountMas r) (rp_Memo r) "paid" (rp_CreatedUTC r) (c_paid c)
    (rp_DeclinedUTC r) (rp_CanceledUTC r) txHash (rp_Alias r) (rp_AliasVersion r).
(** One atomic step.  Reading a field of [rec] follows the pointer [l] at that moment. *)
Definition approve_step (cfg : Config) (c : Ctx) (rq : request) (pc : approve_pc) : St Node approve_pc := fun n =>
  let reply w := (AP_done (Replied w), n) in
  match pc with
  | AP_begin =>
      if negb (String.eqb (rq_Method rq) "POST") then reply (only StatusMethodNotAllowed) else
      if negb (flag c "THOMAS_FEAT_R2P") then reply (fail StatusNotImplemented not_implemented) else
      match approve_in (rq_Body rq) with
      | None => reply (fail StatusBadRequest (err_json "bad_json"))
      | Some (id, payer, feeMas) =>
          if bool_decide (id = "") then reply (fail StatusBadRequest (err_json "bad_json")) else
          if r2p_stuck n then (AP_done Blocked, n) else
          match r2pStore n !! id with
          | None => reply (fail StatusNotFound (err_json "not_found"))
          | Some None => (AP_done Panicked, n)
          | Some (Some l) =>
              match r2p_heap n !! l with
              | None => (AP_done Panicked, n)
              | Some rec =>
                  if negb (bool_decide (rp_Status rec = "open")) then reply (ok_utf8 (closed_reply rec)) else
                  let payer := trim_space payer in
                  let payer := if bool_decide (payer = "") then rp_To rec else payer in
                  match resolveAddrMaybeAlias (c_alias c) payer with
                  | Ok payerAddr =>
                      if bool_decide (payerAddr = rp_To rec) then
                        let fee := if feeMas <=? 0 then i64 (minFeeMas (rp_AmountMas rec) (feeBps cfg)) else feeMas in
                        (AP_account id l payerAddr fee, n)
                      else reply (fail StatusBadRequest (err_json "payer_mismatch"))
                  | Err _ => reply (fail StatusBadRequest (err_json "payer_mismatch"))
                  end
              end
          end
      end
  | AP_account id l payerAddr fee =>
      let '(acc, n) := on_eng (Engine_GetAccount payerAddr) n in
      let rec := default r2p_zero (r2p_heap n !! l) in
      (AP_apply id l (mkTransfer 1 payerAddr (rp_From rec) (rp_AmountMas rec) (u64 fee) (Nonce acc +u 1)
                        expectedChainID 0 ""), n)
  | AP_apply id l t =>
      let '(r, n) := on_eng (Engine_ApplyTransfer (flag c "THOMAS_FEAT_ALIAS") (c_wr_state c) t) n in
      match r with
      | Ok _ => (AP_receipt id l t, n)
      | Err e =>
          let reason := "apply:" +:+ e in
          if devFreeR2PEnabled c rq && isInsufficientFunds e reason
          then (AP_mark id l ("dev-" +:+ rp_ID (default r2p_zero (r2p_heap n !! l))), n)
          else (AP_reject t reason, n)
      end
  | AP_reject t reason =>
      let '(rc, n) := on_eng (StoreReceipt (c_now c) (c_wr_ledger c) t false reason) n in
      (AP_done (Replied (fail StatusBadRequest
         (gomap [("ok", JBool false); ("error", JStr reason); ("receipt", receipt_json rc)]))), n)
  | AP_receipt id l t =>
      let '(rc, n) := on_eng (StoreReceipt (c_now c) (c_wr_ledger c) t true "") n in
      (AP_mark id l (r_TxHash rc), n)
  | AP_mark id l txHash =>
      if r2p_stuck n then (AP_done Blocked, n) else
      let rec := mark_paid c txHash (default r2p_zero (r2p_heap n !! l)) in
      let n := set_r2p (<[l := rec]> (r2p_heap n)) (<[id := Some l]> (r2pStore n)) n in
      let n := r2pSaveLocked c n in
      (AP_done (Replied (ok_utf8 (gomap [("ok", JBool true); ("id", JStr (rp_ID rec)); ("tx_hash", JStr txHash)]))), n)
  | AP_done o => (AP_done o, n)
  end.
(** The handler: the steps without interruption. *)
Fixpoint approve_run (fuel : nat) (cfg : Config) (c : Ctx) (rq : request) (pc : approve_pc)
    : St Node (option (outcome bufferingWriter)) := fun n =>
  match pc with
  | AP_done o => (Some o, n)
  | _ => match fuel with
         | O => (None, n)
         | S fuel => let '(pc, n) := approve_step cfg c rq pc n in approve_run fuel cfg c rq pc n
         end
  end.
Definition r2p_approve (cfg : Config) (c : Ctx) : Handler := fun rq n =>
  let '(o, n) := approve_run 5 cfg c rq AP_begin n in (default Panicked o, n).

(** ** Decline and cancel *)
Inductive close_kind := Decline | Cancel.
Definition close_party (k : close_kind) : string := match k with Decline => "payer" | Cancel => "payee" end.
Definition close_addr (k : close_kind) (r : r2pRecord) : string :=
  match k with Decline => rp_To r | Cancel => rp_From r end.
Definition close_mark (k : close_kind) (c : Ctx) (r : r2pRecord) : r2pRecord :=
  match k with
  | Decline => mkR2P (rp_ID r) (rp_From r) (rp_To r) (rp_AmountMas r) (rp_Memo r) "declined" (rp_CreatedUTC r)
                 (rp_PaidUTC r) (c_now c) (rp_CanceledUTC r) "" (rp_Alias r) (rp_AliasVersion r)
  | Cancel => mkR2P (rp_ID r) (rp_From r) (rp_To r) (rp_AmountMas r) (rp_Memo r) "canceled" (rp_CreatedUTC r)
                 (rp_PaidUTC r) (rp_DeclinedUTC r) (c_now c) "" (rp_Alias r) (rp_AliasVersion r)
  end.
Definition close_in (k : close_kind) (b : bytes) : option (string * string) :=
  j ← json_unmarshal b;
  dec_struct ("", "") (fun fs =>
    id ← dec_field dec_string "id" "" fs; party ← dec_field dec_string (close_party k) "" fs; Some (id, party)) j.
Inductive close_pc := CL_begin | CL_mark (l : loc) | CL_done (o : outcome bufferingWriter).
(** The store is saved when the record is looked up, before it is changed; the save after
    the change is the empty function [saveR2P]. *)
Definition close_step (k : close_kind) (c : Ctx) (rq : request) (pc : close_pc) : St Node close_pc := fun n =>
  let reply w := (CL_done (Replied w), n) in
  match pc with
  | CL_begin =>
      if negb (String.eqb (rq_Method rq) "POST") then reply (only StatusMethodNotAllowed) else
      if negb (flag c "THOMAS_FEAT_R2P") then reply (fail StatusNotImplemented not_implemented) else
      match close_in k (rq_Body rq) with
      | None => reply (fail StatusBadRequest (err_json "bad_json"))
      | Some (id, party) =>
          if bool_decide (id = "") then reply (fail StatusBadRequest (err_json "bad_json")) else
          if r2p_stuck n then (CL_done Blocked, n) else
          let n := r2pSaveLocked c n in
          match r2pStore n !! id with
          | None => (CL_done (Replied (fail StatusNotFound (err_json "not_found"))), n)
          | Some None => (CL_done Panicked, n)
          | Some (Some l) =>
              match r2p_heap n !! l with
              | None => (CL_done Panicked, n)
              | Some rec =>
                  if negb (bool_decide (rp_Status rec = "open"))
                  then (CL_done (Replied (ok_json (closed_reply rec))), n) else
                  let party := trim_space party in
                  let party := if bool_decide (party = "") then close_addr k rec else party in
                  match resolveAddrMaybeAlias (c_alias c) party with
                  | Ok addr =>
                      if bool_decide (addr = close_addr k rec) then (CL_mark l, n)
                      else (CL_done (Replied (fail StatusBadRequest (err_json (close_party k +:+ "_mismatch")))), n)
                  | Err _ => (CL_done (Replied (fail StatusBadRequest (err_json (close_party k +:+ "_mismatch")))), n)
                  end
              end
          end
      end
  | CL_mark l =>
      if r2p_stuck n then (CL_done Blocked, n) else
      let rec := close_mark k c (default r2p_zero (r2p_heap n !! l)) in
      (CL_done (Replied (ok_json (gomap [("ok", JBool true); ("id", JStr (rp_ID rec)); ("status", JStr (rp_Status rec))]))),
       r2p_put l rec n)
  | CL_done o => (CL_done o, n)
  end.
Definition close_handler (k : close_kind) (c : Ctx) : Handler := fun rq n =>
  let '(pc, n) := close_step k c rq CL_begin n in
  let '(pc, n) := close_step k c rq pc n in
  match pc with CL_done o => (o, n) | _ => (Panicked, n) end.
Definition r2p_decline (c : Ctx) : Handler := close_handler Decline c.
Definition r2p_cancel (c : Ctx) : Handler := close_handler Cancel c.
End Handlers.

(** ** List *)
Definition created_ge (a b : r2pRecord) : Prop := rp_CreatedUTC b <= rp_CreatedUTC a.
#[global] Instance created_ge_dec : RelDecision created_ge.
Proof. intros a b. unfold created_ge. apply _. Defined.
#[global] Instance created_ge_total : Total created_ge.
Proof. intros a b. unfold created_ge. lia. Qed.

Definition normalizeStatus (s : string) : option string :=
  if String.eqb s "open" || String.eqb s "paid" || String.eqb s "declined" || String.eqb s "canceled" then Some s
  else if String.eqb s "approved" then Some "paid" else None.
(** The filter of the loop: owner and role, status, sender and receiver. *)
Record r2p_filter := mkFilter {
  fl_owner : string; fl_role : string; fl_status : string; fl_from : string; fl_to : string
}.
Definition r2p_match (f : r2p_filter) (r : r2pRecord) : bool :=
  negb (String.eqb (fl_role f) "outbox" && negb (bool_decide (rp_From r = fl_owner f))) &&
  negb (String.eqb (fl_role f) "inbox" && negb (bool_decide (rp_To r = fl_owner f))) &&
  negb (String.eqb (fl_role f) "all" &&
        negb (bool_decide (rp_From r = fl_owner f) || bool_decide (rp_To r = fl_owner f))) &&
  negb (negb (bool_decide (fl_status f = "")) && negb (bool_decide (rp_Status r = fl_status f))) &&
  negb (negb (bool_decide (fl_from f = "")) && negb (bool_decide (rp_From r = fl_from f))) &&
  negb (negb (bool_decide (fl_to f = "")) && negb (bool_decide (rp_To r = fl_to f))).
(** [None]: a nil record is dereferenced. *)
Fixpoint r2p_select (f : r2p_filter) (n : Node) (entries : list (string * option loc)) : option (list r2pRecord) :=
  match entries with
  | [] => Some []
  | (_, p) :: rest =>
      r ← r2p_get p n; out ← r2p_select f n rest;
      Some (if r2p_match f r then r :: out else out)
  end.

Section List.
Context `{GoRuntime, GoSort}.

Definition lower_query (key : string) (rq : request) : string := to_lower (trim_space (Query_Get key rq)).
(** The status wanted, or the error. *)
Definition want_status (state status : string) : result string :=
  if negb (bool_decide (status = "")) then
    match normalizeStatus status with Some s => Ok s | None => Err "bad_status" end
  else if negb (bool_decide (state = "")) then
    if String.eqb state "all" then Ok "" else
    match normalizeStatus state with Some s => Ok s | None => Err "bad_state" end
  else Ok "open".
Definition addr_filter (c : Ctx) (v : string) : string :=
  if bool_decide (v = "") then "" else
  match resolveAddressMaybeAlias (c_alias c) v with Some (addr, _, _) => addr | None => v end.
Definition list_filter (c : Ctx) (rq : request) : result r2p_filter :=
  let owner := trim_space (Query_Get "owner" rq) in
  if bool_decide (owner = "") then Err "missing_owner" else
  match resolveAddressMaybeAlias (c_alias c) owner with
  | None => Err "bad_owner"
  | Some (ownerAddr, _, _) =>
      let role := lower_query "role" rq in
      let role := if bool_decide (role = "") then "outbox" else role in
      if negb (String.eqb role "outbox") && negb (String.eqb role "inbox") && negb (String.eqb role "all")
      then Err "bad_role" else
      let state := lower_query "state" rq in
      let status := lower_query "status" rq in
      if negb (bool_decide (state = "")) && negb (bool_decide (status = ""))
      then Err "conflicting_state_status" else
      match want_status state status with
      | Err e => Err e
      | Ok want => Ok (mkFilter ownerAddr role want (addr_filter c (trim_space (Query_Get "from" rq)))
                         (addr_filter c (trim_space (Query_Get "to" rq))))
      end
  end.
Definition r2pListHandlerOpaque (c : Ctx) : Handler := fun rq n =>
  if negb (String.eqb (rq_Method rq) "GET") then done (only StatusMethodNotAllowed) n else
  if negb (flag c "THOMAS_FEAT_R2P")
  then done (fail StatusNotImplemented (ok_false "error" "not_implemented")) n else
  match list_filter c rq with
  | Err e => done (fail StatusBadRequest (ok_false "error" e)) n
  | Ok f =>
      if r2p_stuck n then (Blocked, n) else
      match r2p_select f n (map_iter (r2pStore n)) with
      | None => (Panicked, set_stuck n)
      | Some out =>
          let out := sort_slice created_ge out in
          done (Encode (gomap [("ok", JBool true); ("records", JArr (r2p_json <$> out))]) bw_new) n
      end
  end.
End List.

(** ** Receipts by hash: [GET /tx] *)
Definition EqualFold (c : Ctx) (a b : string) : bool :=
  if str_forall is_ascii a || str_forall is_ascii b then String.eqb (fold_key a) (fold_key b) else c_fold c a b.
(** The loop under the lock: [None] is a nil record, then the record found, if any. *)
Fixpoint find_paid (c : Ctx) (hash : string) (n : Node) (entries : list (string * option loc))
    : option (option r2pRecord) :=
  match entries with
  | [] => Some None
  | (_, p) :: rest =>
      match r2p_get p n with
      | None => None
      | Some r => if negb (bool_decide (rp_TxHash r = "")) && EqualFold c (rp_TxHash r) hash
                  then Some (Some r) else find_paid c hash n rest
      end
  end.
Definition paid_json (r : r2pRecord) : json :=
  gomap [("ok", JBool true); ("hash", JStr (rp_TxHash r)); ("kind", JStr "r2p_payment");
         ("r2p", gomap ([("id", JStr (rp_ID r)); ("from", JStr (rp_From r)); ("to", JStr (rp_To r));
            ("amount_mas", JUint (rp_AmountMas r)); ("memo", JStr (rp_Memo r)); ("status", JStr (rp_Status r));
            ("created_utc", JInt (rp_CreatedUTC r))] ++
            (if 0 <? rp_PaidUTC r then [("paid_utc", JInt (rp_PaidUTC r))] else [])))].
(** [GetReceipt] is the first method of the engine among the candidates. *)
Definition findReceiptByHash (e : Engine) (hash : string) : list (string * json) * bool * bool :=
  match GetReceipt hash e with
  | Some r => (toMapFromAny (receipt_json r), true, true)
  | None => ([], true, false)
  end.
Definition txGetHandler `{GoRuntime} (c : Ctx) : Handler := fun rq n =>
  if String.eqb (rq_Method rq) "OPTIONS" then done (only StatusNoContent) n else
  if negb (String.eqb (rq_Method rq) "GET") then done (only StatusMethodNotAllowed) n else
  let w := bw_Set "Cache-Control" "no-store" (ct_json_utf8 bw_new) in
  let hash := trim_space (Query_Get "hash" rq) in
  if bool_decide (hash = "") then done (Encode (ok_false "error" "missing_hash") (bw_WriteHeader StatusBadRequest w)) n else
  let recMap := match GetReceipt hash (eng n) with Some r => toMapFromAny (receipt_json r) | None => [] end in
  if negb (bool_decide (recMap = []))
  then done (Encode (gomap [("ok", JBool true); ("receipt", gomap recMap)]) w) n else
  if r2p_stuck n then (Blocked, n) else
  match find_paid c hash n (map_iter (r2pStore n)) with
  | None => (Panicked, set_stuck n)
  | Some (Some r) => done (Encode (paid_json r) w) n
  | Some None => done (Encode (ok_false "error" "not_found") (bw_WriteHeader StatusNotFound w)) n
  end.
Definition txHandler `{GoRuntime, GoSort, Blake3, Cbor, Ed25519, GoFloat} (c : Ctx) : Handler := fun rq n =>
  if String.eqb (rq_Method rq) "POST" then txPostHandler c rq n
  else if String.eqb (rq_Method rq) "GET" then txGetHandler c rq n
  else if String.eqb (rq_Method rq) "OPTIONS" then done (only StatusNoContent) n
  else done (only StatusMethodNotAllowed) n.

(** ** Cursors (r2p_cursor.go) *)

Definition encodeR2PCursor (ts : Z) (id : string) : string :=
  b64_encode true (to_bytes (fmt_int ts +:+ "|" +:+ id)).
(** [strings.SplitN(s, "|", 2)]: the two parts when the separator occurs. *)
Fixpoint split2 (s : string) : option (string * string) :=
  match s with
  | "" => None
  | String c s' => if Ascii.eqb c "|"%char then Some ("", s')
                   else p ← split2 s'; Some (String c p.1, p.2)
  end.
Definition legacy_cursor (s : string) : Z * string * bool :=
  match parse_int s with Some t => (t, "", true) | None => (0, "", false) end.
Definition decodeR2PCursor (s : string) : Z * string * bool :=
  if bool_decide (s = "") then (0, "", true) else
  match b64_decode true s with
  | None => legacy_cursor s
  | Some b =>
      match split2 (of_bytes b) with
      | None => legacy_cursor s
      | Some (a, id) => match parse_int a with Some t => (t, id, true) | None => legacy_cursor s end
      end
  end.

Lemma split2_bar a id : no_bar a = true -> split2 (a +:+ "|" +:+ id) = Some (a, id).
Proof.
  induction a as [|c a IH]; [done|]. intros Ha. cbn in Ha. apply andb_true_iff in Ha as [Hc Ha].
  str_norm. cbn [split2]. destruct (Ascii.eqb_spec c "|"%char); [done|]. by rewrite IH.
Qed.

(** round trip of the paging cursor: decoding an encoded cursor gives back the time and
    the identifier, whatever characters the identifier has. *)
Theorem cursor_roundtrip (ts : Z) (id : string) : in_i64 ts ->
  decodeR2PCursor (encodeR2PCursor ts id) = (ts, id, true).
Proof.
  intros Hts. unfold decodeR2PCursor, encodeR2PCursor. rewrite b64_roundtrip, of_to_bytes.
  rewrite split2_bar by apply no_bar_int. rewrite parse_int_fmt by done. case_bool_decide as E; [|done].
  exfalso. apply (f_equal (b64_decode true)) in E. rewrite b64_roundtrip in E.
  injection E as E. apply (f_equal of_bytes) in E. rewrite of_to_bytes in E.
  pose proof (fmt_int_nonempty ts) as Hne. destruct (fmt_int ts); done.
Qed.
Lemma cursor_roundtrip_witness : decodeR2PCursor (encodeR2PCursor (-5) "a|b") = (-5, "a|b", true).
Proof. apply (cursor_roundtrip (-5) "a|b"). unfold in_i64. lia. Defined.
