(* ===== verification/RpcRead.v ===== *)
(** * internal/rpc/router.go: the read endpoints, round commits and the wallet.

    One definition per handler registered in [init].  Where the code looks methods or
    header fields up by reflection, the definition is what the lookup finds on
    [*app.Engine] and [types.EternityHeader]: [hdrEvidenceRoot] finds nothing, and so on. *)
From S2P Require Export R2P.

Definition MethodNotAllowed (n : Node) : outcome bufferingWriter * Node := done (only StatusMethodNotAllowed) n.
Definition is_get (rq : request) : bool := String.eqb (rq_Method rq) "GET".
Definition is_post (rq : request) : bool := String.eqb (rq_Method rq) "POST".

(** ** Header fields *)
Definition b32ToHex (b : bytes) : string := hex_encode b.
Definition hdrTimeUnix (h : EternityHeader) : Z := eh_TimeUTCUnix h.
Definition hdrProposerKey (h : EternityHeader) : option bytes := Some (eh_ProposerPubKey h).
Definition hdrProposerSetHash (h : EternityHeader) : option bytes := None.
Definition hdrCommitHash (h : EternityHeader) : option bytes := Some (eh_CommitRoot h).
Definition hdrPrevHash (h : EternityHeader) : option bytes := Some (eh_PrevHash h).
Definition hdrStateRoot (h : EternityHeader) : option bytes := Some (eh_StateRoot h).
Definition hdrTxRoot (h : EternityHeader) : option bytes := Some (eh_TxRoot h).
Definition hdrEvidenceRoot (h : EternityHeader) : option bytes := None.
Definition hdrSignature (h : EternityHeader) : option bytes := None.
Definition hdrBlockID32 `{Blake3, Cbor} (h : EternityHeader) : option bytes :=
  Some (match eh_Hash h with Ok id => id | Err _ => zero32 end).
Definition hex_member (key : string) (o : option bytes) : list (string * json) :=
  match o with Some b => [(key, JStr (b32ToHex b))] | None => [] end.
(** The members that the two header endpoints share; they name the validator root differently. *)
Definition header_members `{Blake3, Cbor} (set_key : string) (h : EternityHeader) : list (string * json) :=
  [("chain_id", JStr expectedChainID); ("height", JUint (eh_Height h)); ("round", JUint (eh_Round h))] ++
  (if hdrTimeUnix h =? 0 then [] else [("timestamp", JInt (hdrTimeUnix h))]) ++
  hex_member "prev_hash" (hdrPrevHash h) ++ hex_member "state_root" (hdrStateRoot h) ++
  hex_member "tx_root" (hdrTxRoot h) ++ hex_member "evidence_root" (hdrEvidenceRoot h) ++
  hex_member "proposer_key" (hdrProposerKey h) ++ hex_member "pubkey_hex" (hdrProposerKey h) ++
  hex_member set_key (hdrProposerSetHash h) ++ hex_member "commit_hash" (hdrCommitHash h) ++
  hex_member "block_id_hex" (hdrBlockID32 h) ++ hex_member "signature_hex" (hdrSignature h).

Section Handlers.
Context `{GoRuntime, GoSort, Blake3, Cbor, Ed25519, GoFloat}.

(** ** Receipts and echo *)
Definition receipt_get : Handler := fun rq n =>
  if negb (is_get rq) then MethodNotAllowed n else
  let hash := trim_space (Query_Get "hash" rq) in
  if bool_decide (hash = "") then done (fail StatusBadRequest (ok_false "error" "missing_hash")) n else
  let '(rec, implemented, found) := findReceiptByHash (eng n) hash in
  let w := ct_json_utf8 bw_new in
  if negb implemented then done (Encode (ok_false "error" "not_implemented") (bw_WriteHeader StatusNotImplemented w)) n else
  if negb found || bool_decide (rec = [])
  then done (Encode (ok_false "error" "not_found") (bw_WriteHeader StatusNotFound w)) n
  else done (Encode (gomap [("ok", JBool true); ("receipt", gomap rec)]) w) n.
Definition debug_echo : Handler := fun rq n =>
  done (bw_Write (rq_Body rq) (bw_Set "Content-Type" "application/octet-stream" bw_new)) n.
Definition debug_stack : Handler := fun rq n =>
  if negb (is_get rq) then MethodNotAllowed n
  else done (bw_Write [] (bw_Set "Content-Type" "text/plain; charset=utf-8" bw_new)) n.

(** ** Node, policy, health *)
Definition node_info : Handler := fun rq n =>
  if negb (is_get rq) then MethodNotAllowed n
  else done (ok_json (gomap [("algo", JStr "ed25519"); ("pubkey_hex", JStr (PubKeyHex (eng n)))])) n.
Definition height_handler : Handler := fun rq n =>
  if negb (is_get rq) then MethodNotAllowed n
  else done (ok_json (gomap [("height", JUint (CurrentHeight (eng n)))])) n.
Definition policy (cfg : Config) (c : Ctx) : Handler := fun rq n =>
  if negb (is_get rq) then MethodNotAllowed n else
  done (ok_json (gomap [
    ("unit", JStr "mas"); ("fee_bps", JInt (feeBps cfg)); ("min_fee_mas", JInt 1);
    ("max_msg_commit_len", JInt (maxMsgCommitLen cfg)); ("allowed_chain_id", JStr expectedChainID);
    ("alias_enabled", JBool (flag c "THOMAS_FEAT_ALIAS")); ("r2p_enabled", JBool (flag c "THOMAS_FEAT_R2P"));
    ("require", gomap [("commit", JBool (flag c "THOMAS_REQUIRE_COMMIT"));
                       ("signature", JBool (flag c "THOMAS_VERIFY_SIG"));
                       ("from_pubkey", JBool (flag c "THOMAS_REQUIRE_FROM_PUBKEY"))]);
    ("signing", gomap [("algo", JStr "ed25519"); ("pubkey_hex", JStr (PubKeyHex (eng n)));
       ("header_canonical", JArr (JStr <$> ["round"; "from_height"; "to_height"; "tx_count"; "root"; "time_utc"]))])])) n.
Definition health (c : Ctx) : Handler := fun rq n =>
  done (ok_json (gomap [("status", JStr "ok"); ("time_utc", JStr (c_time c))])) n.
Definition health_chain (c : Ctx) : Handler := fun rq n =>
  let e := eng n in
  let h := CurrentHeight e in
  let receiptCount := u64 (ReceiptCount e) in
  let st := if h =? receiptCount then (true, "") else (false, "height_mismatch") in
  let commit := LatestCommitRoot e in
  let st := match commit with Some _ => st | None => (false, "commit_root_unavailable") end in
  let hdr := LatestEternityHeader e in
  let st := match hdr with Some _ => st | None => (false, "header_unavailable") end in
  let validatorsRoot := match hdr with Some x => default zero32 (hdrProposerSetHash x) | None => zero32 end in
  let '(st, rootOK) :=
    match hdr with
    | None => (st, true)
    | Some x =>
        match Engine_ListValidatorScores e with
        | Ok scores =>
            if bool_decide (validatorsRoot = validators_ComputeValidatorsRoot (ArgRecords scores)) then (st, true)
            else ((false, "validators_root_mismatch"), false)
        | Err _ => ((false, "validator_state_unavailable"), false)
        end
    end in
  let st := match commit, hdr with
            | Some (root, _), Some x =>
                match hdrCommitHash x with
                | Some ch => if negb (bool_decide (ch = root)) then (false, "commit_root_mismatch") else st
                | None => st
                end
            | _, _ => st
            end in
  done (ok_json (gomap (
    [("ok", JBool st.1); ("reason", JStr st.2); ("height", JUint h); ("receipts_count", JUint receiptCount);
     ("commit_root_height", JUint (match commit with Some (_, ch) => ch | None => 0 end)); ("time_utc", JStr (c_time c))] ++
    hex_member "commit_root_hex" (fst <$> commit) ++
    hex_member "header_commit_root_hex" (x ← hdr; hdrCommitHash x) ++
    (if rootOK : bool then [("validators_root_hex", JStr (b32ToHex validatorsRoot))] else [])))) n.

(** ** Accounts *)
Definition account : Handler := fun rq n =>
  if negb (is_get rq) then MethodNotAllowed n else
  let addr := trim_prefix (rq_Path rq) "/account/" in
  let '(a, n) := on_eng (Engine_GetAccount addr) n in
  done (ok_json (gomap [("balance_mas", JUint (Balance a)); ("balance", JUint (Balance a / masPerMicro));
                        ("nonce", JUint (Nonce a)); ("unit", JStr "mas")])) n.
Definition nonce : Handler := fun rq n =>
  if negb (is_get rq) then MethodNotAllowed n else
  let addr := trim_prefix (rq_Path rq) "/nonce/" in
  let '(a, n) := on_eng (Engine_GetAccount addr) n in
  done (ok_json (gomap [("nonce", JUint (Nonce a)); ("expected_nonce", JUint (Nonce a +u 1))])) n.
Definition merkle_handler : Handler := fun rq n =>
  if negb (is_get rq) then MethodNotAllowed n
  else done (ok_json (gomap [("root", JStr (hex_encode (MerkleRoot (eng n)))); ("count", JInt (ReceiptCount (eng n)))])) n.

(** ** Supply *)
Definition supplyToJSON (st : SupplyState) (minted : Z) : json :=
  gomap [("height", JUint (LastUpdatedHeight st)); ("total_minted_mas", JUint (TotalMintedMas st));
         ("network_vault_mas", JUint (NetworkVaultMas st)); ("foundation_vault_mas", JUint (FoundationVaultMas st));
         ("exchange_vault_mas", JUint (ExchangeVaultMas st)); ("block_mint_mas", JUint minted)].
Definition supply_current : Handler := fun rq n =>
  if negb (is_get rq) then MethodNotAllowed n else
  let st := CurrentSupply (eng n) in
  done (ok_json (supplyToJSON st (BlockMintAt (LastUpdatedHeight st)))) n.
Definition supply_at : Handler := fun rq n =>
  if negb (is_get rq) then MethodNotAllowed n else
  match parse_uint (trim_prefix (rq_Path rq) "/supply/at/") with
  | None => done (fail StatusBadRequest (err_json "bad_height")) n
  | Some h =>
      let '(st, ok) := SupplyAt h (eng n) in
      if negb ok then done (fail StatusNotFound (err_json "not_found")) n
      else done (ok_json (supplyToJSON st (BlockMintAt h))) n
  end.
Definition mint_format (m : Z) : json :=
  gomap [("tho", JUint (m / masPerTHO)); ("mas", JUint (m mod masPerTHO)); ("mas_total", JUint m);
         ("display", JStr (fmt_uint (m / masPerTHO) +:+ " THO " +:+ fmt_uint (m mod masPerTHO) +:+ " mas"))].
Definition minting : Handler := fun rq n =>
  if negb (is_get rq) then MethodNotAllowed n else
  let '(aF, n) := on_eng (Engine_GetAccount "tho1foundation") n in
  let '(aX, n) := on_eng (Engine_GetAccount "tho1exchange") n in
  let '(aA, n) := on_eng (Engine_GetAccount "tho1alice") n in
  let '(aB, n) := on_eng (Engine_GetAccount "tho1bob") n in
  let totalMas := Balance aA +u Balance aB +u Balance aF +u Balance aX in
  done (ok_json (gomap [("basis", JStr "E_net"); ("epoch", JInt 0); ("foundation", mint_format (Balance aF));
    ("exchange", mint_format (Balance aX)); ("network", mint_format (totalMas -u Balance aF -u Balance aX));
    ("total", mint_format totalMas)])) n.

(** ** Rounds *)
Definition committed_reply (o : option RoundHeader) : bufferingWriter :=
  match o with
  | None => ok_json (gomap [("committed", JBool false); ("reason", JStr "no_pending")])
  | Some hdr => ok_json (gomap [("committed", JBool true); ("header", round_json hdr)])
  end.
Definition round_commit (c : Ctx) : Handler := fun rq n =>
  if negb (is_post rq) then MethodNotAllowed n else
  let '(o, n) := on_eng (CommitRound (c_now c) (c_wr_ledger c)) n in done (committed_reply o) n.
(** The guard of the two safe variants. *)
Definition inconsistent (n : Node) : bool := i64 (ReceiptCount (eng n)) <? i64 (CurrentHeight (eng n)).
Definition inconsistent_reply (n : Node) : bufferingWriter :=
  ok_json (gomap [("committed", JBool false);
    ("reason", JStr ("inconsistent_state: height=" +:+ fmt_uint (CurrentHeight (eng n)) +:+
                     " receipts_count=" +:+ fmt_uint (ReceiptCount (eng n))))]).
Definition round_commit_safe (c : Ctx) : Handler := fun rq n =>
  if negb (is_post rq) then MethodNotAllowed n else
  if inconsistent n then done (inconsistent_reply n) n else
  let '(o, n) := on_eng (CommitRound (c_now c) (c_wr_ledger c)) n in done (committed_reply o) n.
(** The engine has none of the four counting methods: (implemented, pending). *)
Definition hasPending (n : Node) : bool * bool := (false, true).
Definition round_commit_safe2 (c : Ctx) : Handler := fun rq n =>
  if negb (is_post rq) then MethodNotAllowed n else
  let '(impl, pend) := hasPending n in
  if impl && negb pend then done (committed_reply None) n else
  if inconsistent n then done (inconsistent_reply n) n else
  let '(o, n) := on_eng (CommitRound (c_now c) (c_wr_ledger c)) n in done (committed_reply o) n.
Definition round_latest : Handler := fun rq n =>
  if negb (is_get rq) then MethodNotAllowed n else
  match LatestRound (eng n) with
  | None => done (Encode (err_json "no_round") (bw_WriteHeader StatusNotFound (ct_json bw_new))) n
  | Some hdr => done (ok_json (round_json hdr)) n
  end.
Definition signed_reply (hdr : RoundHeader) (e : Engine) : bufferingWriter :=
  let sigHex := if bool_decide (rh_SignatureHex hdr = "")
                then match SignRoundHeader hdr e with Some sig => hex_encode sig | None => "" end
                else rh_SignatureHex hdr in
  ok_json (gomap [("header", round_json hdr); ("algo", JStr "ed25519"); ("pubkey_hex", JStr (PubKeyHex e));
                  ("signature_hex", JStr sigHex)]).
Definition round_latest_signed : Handler := fun rq n =>
  if negb (is_get rq) then MethodNotAllowed n else
  match LatestRound (eng n) with
  | None => done (Encode (err_json "no_round") (bw_WriteHeader StatusNotFound (ct_json bw_new))) n
  | Some hdr => done (signed_reply hdr (eng n)) n
  end.
(** [/round/{n}/header] and [/round/{n}/signed] *)
Definition round_numbered (suffix rest : string) (reply : RoundHeader -> Engine -> bufferingWriter)
    : St Node (outcome bufferingWriter) := fun n =>
  match parse_uint (trim_suffix rest suffix) with
  | None | Some 0 => done (fail StatusBadRequest (err_json "bad_round")) n
  | Some n64 =>
      match GetRound n64 (eng n) with
      | None => (Panicked, n)
      | Some (_, false) => done (Encode (err_json "not_found") (bw_WriteHeader StatusNotFound (ct_json bw_new))) n
      | Some (hdr, true) => done (reply hdr (eng n)) n
      end
  end.
Definition round_handler : Handler := fun rq n =>
  if negb (is_get rq) then MethodNotAllowed n else
  let rest := trim_prefix (rq_Path rq) "/round/" in
  if has_suffix rest "/header" then round_numbered "/header" rest (fun hdr _ => ok_json (round_json hdr)) n
  else if has_suffix rest "/signed" then round_numbered "/signed" rest signed_reply n
  else done (only StatusNotFound) n.

(** ** Headers *)
Definition eternity_latest : Handler := fun rq n =>
  if negb (is_get rq) then MethodNotAllowed n else
  match LatestEternityHeader (eng n) with
  | None => done (Encode (err_json "no_header") (bw_WriteHeader StatusNotFound (ct_json bw_new))) n
  | Some h => done (ok_json (gomap (header_members "proposer_set" h ++ [("algo", JStr "ed25519")]))) n
  end.
(** [Value.Addr]: [None] is the panic on a value that is not addressable. *)
Definition value_Addr {A} (addressable : bool) (v : A) : option A := if addressable then Some v else None.
(** The summary of the bundle that [CommitBundleAt] returns: of the members it looks for the
    bundle has only a round, and the result of a reflective call is not addressable.
    [None] is "no bundle", [Some None] the panic. *)
Definition light_bundle (height : Z) (e : Engine) : option (option (list (string * json))) :=
  match CommitBundleAt height e with
  | None => None
  | Some b =>
      let out := [("round", JStr (fmt_uint (cb_Round b)))] in
      Some (_ ← value_Addr false b; Some out)
  end.
Definition block_light_proof : Handler := fun rq n =>
  if negb (is_get rq) then MethodNotAllowed n else
  if negb (has_suffix (rq_Path rq) "/light-proof") then done (only StatusNotFound) n else
  match parse_uint (trim_suffix (trim_prefix (rq_Path rq) "/block/") "/light-proof") with
  | None => done (fail StatusBadRequest (err_json "bad_height")) n
  | Some height =>
      match EternityHeaderAt height (eng n) with
      | None => done (fail StatusNotFound (err_json "not_found")) n
      | Some hd =>
          match light_bundle height (eng n) with
          | Some None => (Panicked, n)
          | None => done (fail StatusNotFound (err_json "commit_not_found")) n
          | Some (Some bundleMap) =>
              done (ok_json (gomap ([("header", gomap (header_members "validators_root" hd))] ++
                hex_member "commit_root_hex" (hdrCommitHash hd) ++
                hex_member "validators_root_hex" (hdrProposerSetHash hd) ++
                [("commit_bundle", gomap bundleMap)]))) n
          end
      end
  end.

(** ** Aliases *)
Definition alias_resolve (c : Ctx) : Handler := fun rq n =>
  if negb (is_get rq) then MethodNotAllowed n else
  let name := Query_Get "name" rq in
  if bool_decide (name = "") then done (fail StatusBadRequest (err_json "missing_name")) n else
  let '(rec, ok) := callEngResolveAlias (c_alias c) name in
  if negb ok then done (Encode (err_json "not_implemented") (bw_WriteHeader StatusNotImplemented (ct_json bw_new))) n
  else done (ok_json (gomap [("ok", JBool true); ("record", gomap rec)])) n.
Definition alias_reverse (c : Ctx) : Handler := fun rq n =>
  if negb (is_get rq) then MethodNotAllowed n else
  let addr := Query_Get "addr" rq in
  if bool_decide (addr = "") then done (fail StatusBadRequest (err_json "missing_addr")) n else
  let '(name, implemented, found) := callEngReverseAlias (c_alias c) addr in
  if negb implemented then done (Encode (err_json "not_implemented") (bw_WriteHeader StatusNotImplemented (ct_json bw_new))) n
  else if negb found then done (Encode (err_json "not_found") (bw_WriteHeader StatusNotFound (ct_json bw_new))) n
  else done (ok_json (gomap [("ok", JBool true); ("alias", JStr name)])) n.

(** ** Wallet *)
Definition setSensitiveNoStoreHeaders (w : bufferingWriter) : bufferingWriter :=
  ct_json_utf8 (bw_Set "Referrer-Policy" "no-referrer" (bw_Set "Pragma" "no-cache" (bw_Set "Cache-Control" "no-store" w))).
Definition hexLower (b : bytes) : string := hex_encode b.
Definition walletCreateHandler `{WalletKdf} (c : Ctx) : Handler := fun rq n =>
  let w := setSensitiveNoStoreHeaders bw_new in
  if String.eqb (rq_Method rq) "OPTIONS" then done (bw_WriteHeader StatusNoContent w) n else
  if negb (is_post rq) then done (bw_WriteHeader StatusMethodNotAllowed w) n else
  let passphrase := best_string "passphrase" (rq_Body rq) in
  match NewRecoveryBundle (Ok (c_seed c)) (trim_space passphrase) with
  | Err _ => done (Encode (ok_false "error" "gen_failed") (bw_WriteHeader StatusInternalServerError w)) n
  | Ok b =>
      done (Encode (gomap [("ok", JBool true); ("algo", JStr "ed25519"); ("pubkey_hex", JStr (rec_PubKeyHex b));
        ("recovery", gomap [("mnemonic", JStr (rec_Mnemonic b)); ("fingerprint", JStr (rec_Fingerprint b));
                            ("passphrase_used", JBool (negb (bool_decide (passphrase = ""))))]);
        ("note", JStr "Store this mnemonic offline. It will not be shown again.")]) w) n
  end.
Definition restore_in (b : bytes) : option (string * string) :=
  j ← json_unmarshal b;
  dec_struct ("", "") (fun fs =>
    m ← dec_field dec_string "mnemonic" "" fs; p ← dec_field dec_string "passphrase" "" fs; Some (m, p)) j.
Definition walletRestoreHandler `{WalletKdf} : Handler := fun rq n =>
  let w := setSensitiveNoStoreHeaders bw_new in
  if String.eqb (rq_Method rq) "OPTIONS" then done (bw_WriteHeader StatusNoContent w) n else
  if negb (is_post rq) then done (bw_WriteHeader StatusMethodNotAllowed w) n else
  match restore_in (rq_Body rq) with
  | None => done (Encode (ok_false "error" "bad_json") (bw_WriteHeader StatusBadRequest w)) n
  | Some (mnemonic, passphrase) =>
      if bool_decide (trim_space mnemonic = "")
      then done (Encode (ok_false "error" "bad_json") (bw_WriteHeader StatusBadRequest w)) n
      else
        let '(pub, _) := DeriveFromMnemonic (trim_space mnemonic) (trim_space passphrase) in
        done (Encode (gomap [("ok", JBool true); ("algo", JStr "ed25519"); ("pubkey_hex", JStr (hexLower pub))]) w) n
  end.

(** ** Statistics *)
Definition stats_members (c : Ctx) (n : Node) : list (string * json) :=
  [("height", JUint (CurrentHeight (eng n))); ("receipts_count", JInt (ReceiptCount (eng n))); ("time_utc", JStr (c_time c))].
Definition stats_json (c : Ctx) : Handler := fun rq n =>
  if negb (is_get rq) then MethodNotAllowed n else done (ok_json (gomap (stats_members c n))) n.
(** Of the methods it tries, the engine has [MerkleRoot]; a byte slice is base64 in JSON. *)
Definition stats_plus (c : Ctx) : Handler := fun rq n =>
  if negb (is_get rq) then MethodNotAllowed n
  else done (ok_json (gomap (stats_members c n ++ [("tx_root", JStr (b64_encode false (MerkleRoot (eng n))))]))) n.
Definition stats_sys (c : Ctx) : Handler := fun rq n =>
  if negb (is_get rq) then MethodNotAllowed n
  else done (ok_json (gomap (stats_members c n ++ [("uptime_secs", JInt (c_uptime c));
    ("goroutines", JInt (c_goroutines c)); ("mem_alloc_kb", JInt (i64 (c_alloc c / 1024)))]))) n.
(** One sample in the text format of Prometheus.  The engine has none of the methods that
    would count the mempool or the validators, so both stay at -1 and are left out. *)
Definition metric (name kind : string) (v : Z) : bytes :=
  to_bytes ("# TYPE " +:+ name +:+ " " +:+ kind +:+ newline +:+ name +:+ " " +:+ fmt_int v +:+ newline).
Definition metrics (c : Ctx) : Handler := fun rq n =>
  if negb (is_get rq) then MethodNotAllowed n else
  let mempool := -1 in let validatorsCount := -1 in
  let h := CurrentHeight (eng n) in
  let sample name kind v w := bw_Write (metric name kind v) w in
  let w := sample "thomas_height" "gauge" h bw_new in
  let w := sample "thomas_receipts_total" "counter" (ReceiptCount (eng n)) w in
  let w := sample "thomas_uptime_seconds" "gauge" (c_uptime c) w in
  let w := sample "thomas_goroutines" "gauge" (c_goroutines c) w in
  let w := sample "thomas_mem_alloc_bytes" "gauge" (c_alloc c) w in
  let w := sample "thomas_ready" "gauge" (if 0 <? h then 1 else 0) w in
  let w := if 0 <=? mempool then sample "thomas_mempool_size" "gauge" mempool w else w in
  let w := if 0 <=? validatorsCount then sample "thomas_validators" "gauge" validatorsCount w else w in
  done w n.
(** The event stream needs a writer that can flush; [jsonizeSigErrors] hands every handler
    its buffer, whose methods are only [Header], [Write] and [WriteHeader]. *)
Definition is_Flusher (w : bufferingWriter) : bool := false.
Definition events_stream : Handler := fun rq n =>
  if negb (is_get rq) then MethodNotAllowed n else
  if negb (is_Flusher bw_new) then done (only StatusInternalServerError) n
  else (Blocked, n).
Definition readyz (c : Ctx) : Handler := fun rq n =>
  if negb (is_get rq) then MethodNotAllowed n else
  let h := CurrentHeight (eng n) in
  done (ok_json (gomap [("status", JStr (if 0 <? h then "ready" else "starting")); ("height", JUint h);
                        ("time_utc", JStr (c_time c)); ("uptime_secs", JInt (c_uptime c))])) n.
Definition version (c : Ctx) : Handler := fun rq n =>
  let '(go, os, arch) := c_platform c in
  done (ok_json (gomap [("version", JStr "dev"); ("commit", JStr ""); ("date", JStr ""); ("go", JStr go);
                        ("os", JStr os); ("arch", JStr arch)])) n.
Definition router_alive : Handler := fun rq n => done (bw_Write (to_bytes "router ok") bw_new) n.
End Handlers.
