(* ===== verification/R2PSpec.v ===== *)
(** * Requests to pay: what the handlers promise.

    Sequentially, an open request is closed at most once and never reopened, an approval
    moves exactly the amount and the fee, and the file restores the store.  Interleaved,
    two approvals of one request both pay; and a decline is saved before it is made. *)
From S2P Require Export R2P.

(** ** Cells: what may change in a record *)
Record same_terms (a b : r2pRecord) : Prop := {
  st_id : rp_ID b = rp_ID a; st_from : rp_From b = rp_From a; st_to : rp_To b = rp_To a;
  st_amount : rp_AmountMas b = rp_AmountMas a; st_memo : rp_Memo b = rp_Memo a;
  st_created : rp_CreatedUTC b = rp_CreatedUTC a; st_alias : rp_Alias b = rp_Alias a
}.
#[global] Instance same_terms_preorder : PreOrder same_terms.
Proof. split; [by split|]. intros a b c [] []. split; congruence. Qed.
(** Records keep their terms, and a record that is not open keeps everything. *)
Definition cells_le (n n' : Node) : Prop :=
  forall l r, r2p_heap n !! l = Some r ->
  exists r', r2p_heap n' !! l = Some r' /\ same_terms r r' /\ (rp_Status r <> "open" -> r' = r).
#[global] Instance cells_le_preorder : PreOrder cells_le.
Proof.
  split.
  - intros n l r Hl. by exists r.
  - intros a b c Hab Hbc l r Hl. destruct (Hab l r Hl) as (r1 & Hl1 & Ht1 & Ho1).
    destruct (Hbc l r1 Hl1) as (r2 & Hl2 & Ht2 & Ho2). exists r2. split; [done|].
    split; [by etransitivity|]. intros Hs. rewrite (Ho1 Hs) in Ho2. by apply Ho2.
Qed.
Lemma cells_le_heap n n' : r2p_heap n' = r2p_heap n -> cells_le n n'.
Proof. intros E l r Hl. exists r. by rewrite E. Qed.
Lemma cells_le_app n n' r : r2p_heap n' = r2p_heap n ++ [r] -> cells_le n n'.
Proof. intros E l q Hl. exists q. rewrite E. split; [by apply lookup_app_l_Some|done]. Qed.
Lemma cells_le_put n n' l r r' : r2p_heap n !! l = Some r -> rp_Status r = "open" -> same_terms r r' ->
  r2p_heap n' = <[l := r']> (r2p_heap n) -> cells_le n n'.
Proof.
  intros Hl Ho Ht E k q Hk. destruct (decide (k = l)) as [->|Hne].
  - rewrite Hl in Hk. injection Hk as <-. exists r'. rewrite E.
    rewrite list_lookup_insert_eq by by eapply lookup_lt_Some. by split; [|split].
  - exists q. rewrite E, list_lookup_insert_ne by done. done.
Qed.
Lemma r2pSaveLocked_frame c n : let n' := r2pSaveLocked c n in
  eng n' = eng n /\ r2p_heap n' = r2p_heap n /\ r2pStore n' = r2pStore n /\ r2p_stuck n' = r2p_stuck n /\
  r2pPath n' = r2pPath n.
Proof. unfold r2pSaveLocked. case_bool_decide; [done|]. by destruct (c_save c). Qed.
Lemma on_eng_frame {A} (m : St Engine A) n : let n' := (on_eng m n).2 in
  r2p_heap n' = r2p_heap n /\ r2pStore n' = r2pStore n /\ r2p_stuck n' = r2p_stuck n /\
  eng n' = (m (eng n)).2 /\ r2p_file n' = r2p_file n /\ r2pPath n' = r2pPath n.
Proof. unfold on_eng. by destruct (m (eng n)). Qed.

Section Spec.
Context `{GoRuntime, GoSort, Blake3, Cbor, Ed25519, GoFloat}.

(** ** The steps of an approval *)
Definition approve_rank (pc : approve_pc) : nat :=
  match pc with
  | AP_begin => 5 | AP_account _ _ _ _ => 4 | AP_apply _ _ _ => 3
  | AP_receipt _ _ _ => 2 | AP_reject _ _ => 1 | AP_mark _ _ _ => 1 | AP_done _ => 0
  end%nat.
Lemma approve_step_rank cfg c rq pc n : (0 < approve_rank pc)%nat ->
  (approve_rank (approve_step cfg c rq pc n).1 < approve_rank pc)%nat.
Proof.
  intros Hpc. destruct pc; cbn [approve_step approve_rank].
  - repeat case_match; cbn; lia.
  - destruct (on_eng _ n). cbn. lia.
  - destruct (on_eng _ n) as [[|] n']; [cbn; lia|]. destruct (_ && _); cbn; lia.
  - destruct (on_eng _ n). cbn. lia.
  - destruct (on_eng _ n). cbn. lia.
  - case_match; cbn; lia.
  - cbn in Hpc. lia.
Qed.
Lemma approve_run_done cfg c rq fuel pc n : (approve_rank pc <= fuel)%nat ->
  exists o, (approve_run fuel cfg c rq pc n).1 = Some o.
Proof.
  revert pc n. induction fuel as [|f IH]; intros pc n Hr.
  - destruct pc; cbn in Hr; try lia. by exists o.
  - destruct (Nat.eq_dec (approve_rank pc) 0%nat) as [E|E].
    { destruct pc; cbn in E; try lia. by exists o. }
    pose proof (approve_step_rank cfg c rq pc n ltac:(lia)).
    assert (Hs : approve_run (S f) cfg c rq pc n =
      let '(pc', n') := approve_step cfg c rq pc n in approve_run f cfg c rq pc' n') by (destruct pc; cbn in E; done).
    rewrite Hs. destruct (approve_step cfg c rq pc n) as [pc' n']. cbn [fst] in *. apply IH. lia.
Qed.

(** The point of a running approval whose record is still open. *)
Definition approve_inv (pc : approve_pc) (n : Node) : Prop :=
  match pc with
  | AP_account _ l _ _ | AP_apply _ l _ | AP_receipt _ l _ | AP_mark _ l _ =>
      exists r, r2p_heap n !! l = Some r /\ rp_Status r = "open"
  | _ => True
  end.
Lemma approve_begin cfg c rq n : (approve_step cfg c rq AP_begin n).2 = n /\
  approve_inv (approve_step cfg c rq AP_begin n).1 n.
Proof.
  cbn [approve_step]. repeat case_match; cbn; (split; [done|]); try done;
  match goal with Hb : negb (bool_decide (rp_Status ?r = "open")) = false |- _ =>
    exists r; split; [done|]; by destruct (bool_decide_reflect (rp_Status r = "open")) end.
Qed.
Lemma approve_step_cells cfg c rq pc n : approve_inv pc n -> 
  let '(pc', n') := approve_step cfg c rq pc n in cells_le n n' /\ approve_inv pc' n'.
Proof.
  intros Hi. destruct pc.
  - destruct (approve_begin cfg c rq n) as [E Hinv].
    destruct (approve_step cfg c rq AP_begin n) as [pc' n']. cbn in *. by subst n'.
  - cbn [approve_step]. destruct (on_eng_frame (Engine_GetAccount payerAddr) n) as (Eh & _).
    destruct (on_eng _ n) as [a n']. cbn [snd] in *. split; [by apply cells_le_heap|].
    cbn in *. by rewrite Eh.
  - cbn [approve_step]. destruct (on_eng_frame (Engine_ApplyTransfer (flag c "THOMAS_FEAT_ALIAS") (c_wr_state c) t) n) as (Eh & _).
    destruct (on_eng _ n) as [r n']. cbn [snd] in *.
    destruct r as [u|e]; [|destruct (_ && _)]; (split; [by apply cells_le_heap|]); cbn in *; rewrite ?Eh; done.
  - cbn [approve_step]. destruct (on_eng_frame (StoreReceipt (c_now c) (c_wr_ledger c) t true "") n) as (Eh & _).
    destruct (on_eng _ n) as [r n']. cbn [snd] in *. split; [by apply cells_le_heap|]. cbn in *. by rewrite Eh.
  - cbn [approve_step]. destruct (on_eng_frame (StoreReceipt (c_now c) (c_wr_ledger c) t false reason) n) as (Eh & _).
    destruct (on_eng _ n) as [r n']. cbn [snd] in *. split; [by apply cells_le_heap|done].
  - cbn [approve_step]. destruct (r2p_stuck n); [done|]. destruct Hi as (r & Hl & Ho).
    split; [|done]. rewrite Hl. eapply cells_le_put; [exact Hl|done| |].
    2: { by destruct (r2pSaveLocked_frame c (set_r2p (<[l := mark_paid c txHash (default r2p_zero (Some r))]> (r2p_heap n)) (<[id := Some l]> (r2pStore n)) n)) as (_ & -> & _). }
    by split.
  - done.
Qed.
(** What every step preserves, the whole handler preserves. *)
Lemma approve_run_ind (R : Node -> Node -> Prop) `{!PreOrder R} (P : approve_pc -> Node -> Prop) cfg c rq :
  (forall pc n, P pc n -> let '(pc', n') := approve_step cfg c rq pc n in R n n' /\ P pc' n') ->
  forall fuel pc n, P pc n -> R n (approve_run fuel cfg c rq pc n).2.
Proof.
  intros Hstep fuel. induction fuel as [|f IH]; intros pc n Hi; [by destruct pc|].
  destruct pc eqn:Epc; [..|done]; cbn [approve_run]; rewrite <- Epc in *;
    pose proof (Hstep pc n Hi) as Hs;
    destruct (approve_step cfg c rq pc n) as [pc' n']; destruct Hs as [Hs Hi'];
    (etransitivity; [exact Hs|by apply IH]).
Qed.
Lemma approve_handler_ind (R : Node -> Node -> Prop) `{!PreOrder R} (P : approve_pc -> Node -> Prop) cfg c rq n :
  (forall pc n, P pc n -> let '(pc', n') := approve_step cfg c rq pc n in R n n' /\ P pc' n') ->
  P AP_begin n -> R n (r2p_approve cfg c rq n).2.
Proof.
  intros Hstep Hp. unfold r2p_approve. pose proof (approve_run_ind R P cfg c rq Hstep 5 AP_begin n Hp) as Hc.
  by destruct (approve_run 5 cfg c rq AP_begin n) as [o n'].
Qed.
Lemma approve_cells cfg c rq n : cells_le n (r2p_approve cfg c rq n).2.
Proof.
  apply (approve_handler_ind cells_le approve_inv); [|done]. intros pc m. apply approve_step_cells.
Qed.

(** ** The other handlers *)
Lemma close_step_begin k c rq n : let '(pc, n') := close_step k c rq CL_begin n in
  r2p_heap n' = r2p_heap n /\ eng n' = eng n /\ r2pStore n' = r2pStore n /\
  match pc with
  | CL_begin => False
  | CL_mark l => exists r, r2p_heap n !! l = Some r /\ rp_Status r = "open"
  | CL_done _ => True
  end.
Proof.
  cbn [close_step]. destruct (r2pSaveLocked_frame c n) as (F1 & F2 & F3 & _).
  repeat case_match; simplify_eq; rewrite ?F1, ?F2, ?F3 in *; try done;
  (split; [done|]; split; [done|]; split; [done|]);
  match goal with Hb : negb (bool_decide (rp_Status ?r = "open")) = false |- _ =>
    exists r; split; [done|]; by destruct (bool_decide_reflect (rp_Status r = "open")) end.
Qed.
Lemma close_mark_terms k c r : same_terms r (close_mark k c r).
Proof. by destruct k. Qed.
Lemma close_cells k c rq n : cells_le n (close_handler k c rq n).2 /\ eng (close_handler k c rq n).2 = eng n.
Proof.
  unfold close_handler. pose proof (close_step_begin k c rq n) as Hb.
  destruct (close_step k c rq CL_begin n) as [pc n1]. destruct Hb as (Eh & Ee & _ & Hpc).
  destruct pc as [|l|o]; cbn [close_step].
  - done.
  - destruct (r2p_stuck n1); [split; [by apply cells_le_heap|done]|]. cbn [snd r2p_put]. split; [|done].
    destruct Hpc as (r & Hl & Ho). rewrite Eh, Hl. cbn [default].
    eapply cells_le_put; [exact Hl|done|apply close_mark_terms|]. cbn. by rewrite Eh.
  - split; [by apply cells_le_heap|done].
Qed.
Lemma create_cells c rq n : cells_le n (r2p_create c rq n).2 /\ eng (r2p_create c rq n).2 = eng n.
Proof.
  unfold r2p_create. repeat case_match; try (split; [by apply cells_le_heap|done]);
  cbn [snd done]; (match goal with |- context [r2pSaveLocked c ?m] =>
    destruct (r2pSaveLocked_frame c m) as (F1 & F2 & _) end);
  (split; [|by rewrite F1]); eapply cells_le_app; rewrite F2; reflexivity.
Qed.
Lemma get_frame rq n : (r2p_get_handler rq n).2 = n.
Proof. unfold r2p_get_handler. by repeat case_match. Qed.
Lemma list_frame c rq n : let n' := (r2pListHandlerOpaque c rq n).2 in
  r2p_heap n' = r2p_heap n /\ r2pStore n' = r2pStore n /\ eng n' = eng n.
Proof. unfold r2pListHandlerOpaque. by repeat case_match. Qed.
Lemma txGet_frame c rq n : let n' := (txGetHandler c rq n).2 in
  r2p_heap n' = r2p_heap n /\ r2pStore n' = r2pStore n /\ eng n' = eng n.
Proof. unfold txGetHandler. by repeat case_match. Qed.
Lemma txPost_frame c rq n : let n' := (txPostHandler c rq n).2 in
  r2p_heap n' = r2p_heap n /\ r2pStore n' = r2pStore n /\ r2p_stuck n' = r2p_stuck n.
Proof.
  unfold txPostHandler. destruct (negb _); [done|]. destruct (read_txPre _) as [i|]; [|done].
  destruct (on_eng_frame (Engine_ApplyTransfer (flag c "THOMAS_FEAT_ALIAS") (c_wr_state c) (transfer_of i)) n) as (E1 & E2 & E3 & _).
  destruct (on_eng _ n) as [r n1]. cbn [snd] in *.
  destruct r as [u|e];
    match goal with |- context [on_eng ?m n1] => destruct (on_eng_frame m n1) as (F1 & F2 & F3 & _);
      destruct (on_eng m n1) as [rc n2] end; cbn in *; rewrite F1, F2, F3; done.
Qed.

(** ** A complete approval *)
Lemma GetAccount_spec d a : db_wf d -> let d' := (GetAccount a d).2 in
  (GetAccount a d).1 = acct (Snapshot d) a /\ db_wf d' /\ Snapshot d' = touch (Snapshot d) a /\
  feeReceiver d' = feeReceiver d.
Proof.
  intros Hwf. destruct (get_spec d a Hwf) as (Hp & Hf & _). unfold GetAccount. rewrite st_exec_bind.
  rewrite (deref_spec _ _ _ _ Hp), acct_touch. cbn. split; [done|]. destruct Hp as [Hwf' _ Hv]. done.
Qed.
(** The engine's transfer on the ledger; when the ledger takes it and the state file cannot be
    written, the error of the write is the answer. *)
Lemma Engine_ApplyTransfer_spec fa wr t e : db_wf (db e) ->
  let r := Engine_ApplyTransfer fa wr t e in
  let s := transfer_spec (feeReceiver (db e)) (Snapshot (db e)) (t_From t) (t_To t)
      (t_AmountMas t) (t_FeeMas t) (t_Nonce t) in
  r.1 = match s.1 with Ok _ => if wr then Ok tt else Err "write" | Err x => Err x end /\
  Snapshot (db r.2) = s.2 /\ led r.2 = led e /\ db_wf (db r.2).
Proof.
  intros Hwf. destruct (ApplyTransfer_spec (db e) (t_From t) (t_To t) (t_AmountMas t) (t_FeeMas t) (t_Nonce t) Hwf)
    as (Hwf' & Hs & _).
  unfold Engine_ApplyTransfer, tryApplyAliasSetTx.
  assert (Hno : (if fa && bool_decide (t_To t = aliasSys) then (false, Ok tt) else (false, @Ok unit tt)) = (false, Ok tt))
    by by destruct (fa && _).
  rewrite Hno. destruct (ApplyTransfer _ _ _ _ _ (db e)) as [[u|x] d]; cbn [fst snd] in *; rewrite <- Hs; cbn [fst snd].
  - destruct (saveStateMas_frame wr (set_db d e)) as (F1 & _ & _ & F4 & _). rewrite F1, F4. split; [by destruct wr|done].
  - done.
Qed.
Definition approval_fee (cfg : Config) (rec : r2pRecord) (feeMas : Z) : Z :=
  u64 (if feeMas <=? 0 then i64 (minFeeMas (rp_AmountMas rec) (feeBps cfg)) else feeMas).
Definition approval (cfg : Config) (rec : r2pRecord) (feeMas : Z) (n : Node) : Transfer :=
  mkTransfer 1 (rp_To rec) (rp_From rec) (rp_AmountMas rec) (approval_fee cfg rec feeMas)
    (Nonce (acct (Snapshot (db (eng n))) (rp_To rec)) +u 1) expectedChainID 0 "".
(** A well-formed request to approve the open record [rec]. *)
Record approvable (c : Ctx) (rq : request) (n : Node) (id : string) (l : loc) (rec : r2pRecord) (feeMas : Z) : Prop := {
  ap_post : rq_Method rq = "POST"; ap_feat : flag c "THOMAS_FEAT_R2P" = true;
  ap_body : exists payer, approve_in (rq_Body rq) = Some (id, payer, feeMas) /\
              (trim_space payer = "" \/ trim_space payer = rp_To rec);
  ap_id : id <> ""; ap_free : r2p_stuck n = false; ap_store : r2pStore n !! id = Some (Some l);
  ap_heap : r2p_heap n !! l = Some rec; ap_open : rp_Status rec = "open";
  ap_to : rp_To rec <> ""; ap_plain : has_prefix (rp_To rec) "@" = false
}.
Lemma approve_begin_open cfg c rq n id l rec feeMas : approvable c rq n id l rec feeMas ->
  approve_step cfg c rq AP_begin n =
  (AP_account id l (rp_To rec) (if feeMas <=? 0 then i64 (minFeeMas (rp_AmountMas rec) (feeBps cfg)) else feeMas), n).
Proof.
  intros [Hm Hf (payer & Hb & Hp) Hid Hfree Hst Hh Ho Hto Hplain].
  cbn [approve_step]. rewrite Hm, Hf, Hb. cbn [String.eqb negb].
  change (negb (String.eqb "POST" "POST")) with false. cbn iota.
  rewrite (bool_decide_false _ Hid), Hfree, Hst, Hh, (bool_decide_true _ Ho). cbn [negb].
  assert (Hpay : (if bool_decide (trim_space payer = "") then rp_To rec else trim_space payer) = rp_To rec).
  { destruct Hp as [->| ->]; [done|]. by rewrite bool_decide_false. }
  rewrite Hpay. unfold resolveAddrMaybeAlias, resolveAddressMaybeAlias. rewrite Hplain.
  by rewrite (bool_decide_false _ Hto), bool_decide_true.
Qed.
Lemma transfer_spec_touch recv m a to amount fee nonce :
  transfer_spec recv (touch m a) a to amount fee nonce = transfer_spec recv m a to amount fee nonce.
Proof.
  unfold transfer_spec. rewrite acct_touch.
  assert (Ht : touch (touch m a) a = touch m a) by (unfold touch at 1; rewrite acct_touch; apply insert_insert_eq).
  assert (Hd : debit (touch m a) a (amount +u fee) = debit m a (amount +u fee))
    by (unfold debit; rewrite acct_touch; apply insert_insert_eq).
  by rewrite Ht, Hd.
Qed.
Lemma approve_unfold cfg c rq n : r2p_approve cfg c rq n =
  let '(o, n') := approve_run 5 cfg c rq AP_begin n in (default Panicked o, n').
Proof. done. Qed.
(** The state after the account and transfer steps. *)
Lemma approve_two_steps cfg c rq n id l rec feeMas : approvable c rq n id l rec feeMas ->
  db_wf (db (eng n)) ->
  exists n1, approve_step cfg c rq (AP_account id l (rp_To rec)
      (if feeMas <=? 0 then i64 (minFeeMas (rp_AmountMas rec) (feeBps cfg)) else feeMas)) n =
      (AP_apply id l (approval cfg rec feeMas n), n1) /\
    r2p_heap n1 = r2p_heap n /\ r2pStore n1 = r2pStore n /\ r2p_stuck n1 = r2p_stuck n /\
    led (eng n1) = led (eng n) /\ db_wf (db (eng n1)) /\
    Snapshot (db (eng n1)) = touch (Snapshot (db (eng n))) (rp_To rec) /\
    feeReceiver (db (eng n1)) = feeReceiver (db (eng n)).
Proof.
  intros Ha Hwf. cbn [approve_step]. unfold on_eng, Engine_GetAccount.
  destruct (GetAccount_spec (db (eng n)) (rp_To rec) Hwf) as (E1 & E2 & E3 & E4).
  destruct (GetAccount (rp_To rec) (db (eng n))) as [a d]. cbn [fst snd] in *. subst a.
  exists (set_eng (set_db d (eng n)) n). cbn. rewrite (ap_heap _ _ _ _ _ _ _ Ha). done.
Qed.

Lemma transfer_spec_next recv m a to amount fee e :
  (transfer_spec recv m a to amount fee (Nonce (acct m a) +u 1)).1 = Err e -> e = "insufficient_funds".
Proof.
  unfold transfer_spec. rewrite Z.eqb_refl. cbn [negb]. destruct (_ <? _); cbn; congruence.
Qed.
Lemma StoreReceipt_spec now wr t ok reason e : let '(rc, e') := StoreReceipt now wr t ok reason e in
  db e' = db e /\ GetReceipt (tx_Hash t) e' = Some rc /\ leaves_count e' = leaves_count e + 1 /\
  r_TxHash rc = tx_Hash t /\ r_From rc = t_From t /\ r_To rc = t_To t /\ r_Amount rc = t_AmountMas t /\
  r_Status rc = (if ok then "applied" else "rejected:" +:+ reason).
Proof.
  unfold StoreReceipt. cbv zeta.
  match goal with |- context [saveLedger wr ?x] => destruct (saveLedger_frame wr x) as (F1 & _ & _ & F4 & _) end.
  split; [by rewrite F4|]. unfold GetReceipt, leaves_count. rewrite F1. cbn [led set_led receipts leaves].
  split; [apply lookup_insert_eq|]. rewrite length_app. cbn [length]. split; [lia|done].
Qed.
Lemma approve_mark cfg c rq id l h n rec : r2p_stuck n = false -> r2p_heap n !! l = Some rec ->
  exists n', approve_step cfg c rq (AP_mark id l h) n =
    (AP_done (Replied (ok_utf8 (gomap [("ok", JBool true); ("id", JStr (rp_ID rec)); ("tx_hash", JStr h)]))), n') /\
    eng n' = eng n /\ r2p_heap n' !! l = Some (mark_paid c h rec).
Proof.
  intros Hfree Hl. cbn [approve_step]. rewrite Hfree, Hl. cbn [default].
  match goal with |- context [r2pSaveLocked c ?m] => destruct (r2pSaveLocked_frame c m) as (F1 & F2 & _) end.
  eexists. split; [reflexivity|]. rewrite F1, F2. split; [done|]. cbn.
  apply list_lookup_insert_eq. by eapply lookup_lt_Some.
Qed.

(** The tail of the handler once the ledger has taken the transfer: receipt, then mark. *)
Lemma approve_paid_tail cfg c rq id l t n rec : r2p_stuck n = false -> r2p_heap n !! l = Some rec ->
  exists n', approve_run 2 cfg c rq (AP_receipt id l t) n =
    (Some (Replied (ok_utf8 (gomap [("ok", JBool true); ("id", JStr (rp_ID rec)); ("tx_hash", JStr (tx_Hash t))]))), n') /\
    db (eng n') = db (eng n) /\ r2p_heap n' !! l = Some (mark_paid c (tx_Hash t) rec) /\
    exists rc, GetReceipt (tx_Hash t) (eng n') = Some rc /\ r_Status rc = "applied" /\
      r_From rc = t_From t /\ r_To rc = t_To t /\ r_Amount rc = t_AmountMas t.
Proof.
  intros Hfree Hl. cbn [approve_run approve_step]. unfold on_eng.
  pose proof (StoreReceipt_spec (c_now c) (c_wr_ledger c) t true "" (eng n)) as Hst.
  destruct (StoreReceipt _ _ t true "" (eng n)) as [rc e]. destruct Hst as (D1 & D2 & _ & D4 & D5 & D6 & D7 & D8).
  destruct (approve_mark cfg c rq id l (r_TxHash rc) (set_eng e n) rec) as (n' & -> & F1 & F2); [done..|].
  exists n'. cbn. rewrite F1, F2. cbn [eng set_eng]. rewrite D4. repeat (split; [done|]). by exists rc.
Qed.
(** The tail once the engine has answered with an error: the rejection is logged, the record
    untouched. *)
Lemma approve_rejected_tail cfg c rq t why n :
  exists w n', approve_run 2 cfg c rq (AP_reject t why) n = (Some (Replied w), n') /\ bw_status w = StatusBadRequest /\
    db (eng n') = db (eng n) /\ r2p_heap n' = r2p_heap n /\ leaves_count (eng n') = leaves_count (eng n) + 1 /\
    exists rc, GetReceipt (tx_Hash t) (eng n') = Some rc /\ r_Status rc = "rejected:" +:+ why.
Proof.
  cbn [approve_run approve_step]. unfold on_eng.
  pose proof (StoreReceipt_spec (c_now c) (c_wr_ledger c) t false why (eng n)) as Hst.
  destruct (StoreReceipt _ _ t false _ (eng n)) as [rc e]. destruct Hst as (D1 & D2 & D3 & _ & _ & _ & _ & D8).
  eexists _, _. split; [reflexivity|]. split; [done|]. cbn. repeat (split; [done|]). by exists rc.
Qed.
Lemma approve_run_next k cfg c rq pc n : (forall o, pc <> AP_done o) ->
  approve_run (S k) cfg c rq pc n =
  let '(pc', n') := approve_step cfg c rq pc n in approve_run k cfg c rq pc' n'.
Proof. destruct pc; intros Hpc; try done. by destruct (Hpc o). Qed.
Lemma approve_apply_step cfg c rq id l t n :
  approve_step cfg c rq (AP_apply id l t) n =
  let '(r, n2) := on_eng (Engine_ApplyTransfer (flag c "THOMAS_FEAT_ALIAS") (c_wr_state c) t) n in
  match r with
  | Ok _ => (AP_receipt id l t, n2)
  | Err e =>
      if devFreeR2PEnabled c rq && isInsufficientFunds e ("apply:" +:+ e)
      then (AP_mark id l ("dev-" +:+ rp_ID (default r2p_zero (r2p_heap n2 !! l))), n2)
      else (AP_reject t ("apply:" +:+ e), n2)
  end.
Proof. done. Qed.

Lemma write_not_funds : isInsufficientFunds "write" ("apply:" +:+ "write") = false.
Proof. vm_compute. reflexivity. Qed.
Lemma funds_are_funds : isInsufficientFunds "insufficient_funds" ("apply:" +:+ "insufficient_funds") = true.
Proof. vm_compute. reflexivity. Qed.

(** C9: a complete approval: a well-formed approval of an open request (a POST that names the
    request and no other payer than its own, a plain address, with the feature on and the lock
    of the requests free) moves its amount from payer to payee and the fee that was given, or
    the minimum fee, to the receiver exactly as one transfer of the ledger with the payer's
    next nonce, whether or not the state file can be written.  If the ledger accepts the
    transfer and the state file is written, the record is paid under the hash of that
    transfer, whose receipt is on file as applied.  If the ledger accepts it and the state
    file cannot be written, the payer has paid all the same, but the record stays open, the
    receipt on file under that hash says rejected and the reply is status 400.  If the
    payer's funds are too small, nothing is paid, the record stays open and a rejection is
    logged and answered with status 400, except that a loopback client of a development
    node has the request marked paid without any payment. *)
Theorem approve_correct (cfg : Config) (c : Ctx) (rq : request) (n : Node) (id : string) (l : loc)
    (rec : r2pRecord) (feeMas : Z) :
  approvable c rq n id l rec feeMas -> db_wf (db (eng n)) ->
  let t := approval cfg rec feeMas n in
  let '(r, m') := transfer_spec (feeReceiver (db (eng n))) (Snapshot (db (eng n)))
                    (rp_To rec) (rp_From rec) (rp_AmountMas rec) (t_FeeMas t) (t_Nonce t) in
  let '(o, n') := r2p_approve cfg c rq n in
  let rejected why := r2p_heap n' = r2p_heap n /\ leaves_count (eng n') = leaves_count (eng n) + 1 /\
    (exists rc, GetReceipt (tx_Hash t) (eng n') = Some rc /\ r_Status rc = "rejected:apply:" +:+ why) /\
    exists w, o = Replied w /\ bw_status w = StatusBadRequest in
  Snapshot (db (eng n')) = m' /\
  match r with
  | Ok _ =>
      if c_wr_state c
      then r2p_heap n' !! l = Some (mark_paid c (tx_Hash t) rec) /\
        (exists rc, GetReceipt (tx_Hash t) (eng n') = Some rc /\ r_Status rc = "applied" /\
                    r_From rc = rp_To rec /\ r_To rc = rp_From rec /\ r_Amount rc = rp_AmountMas rec) /\
        o = Replied (ok_utf8 (gomap [("ok", JBool true); ("id", JStr (rp_ID rec)); ("tx_hash", JStr (tx_Hash t))]))
      else rejected "write"
  | Err e => e = "insufficient_funds" /\
      if devFreeR2PEnabled c rq
      then r2p_heap n' !! l = Some (mark_paid c ("dev-" +:+ rp_ID rec) rec) /\ led (eng n') = led (eng n)
      else rejected e
  end.
Proof.
  intros Ha Hwf. cbv zeta. rewrite approve_unfold.
  rewrite approve_run_next, (approve_begin_open cfg c rq n id l rec feeMas Ha) by done.
  destruct (approve_two_steps cfg c rq n id l rec feeMas Ha Hwf)
    as (n1 & E1 & Hh1 & Hst1 & Hfree1 & Hl1 & Hwf1 & Hs1 & Hr1).
  set (t := approval cfg rec feeMas n) in *. rewrite approve_run_next, E1 by done. clear E1.
  destruct (Engine_ApplyTransfer_spec (flag c "THOMAS_FEAT_ALIAS") (c_wr_state c) t (eng n1) Hwf1) as (Er & Es & El & Ew).
  rewrite Hs1, Hr1 in Er, Es. change (t_From t) with (rp_To rec) in Er, Es. rewrite transfer_spec_touch in Er, Es.
  change (t_To t) with (rp_From rec) in Er, Es. change (t_AmountMas t) with (rp_AmountMas rec) in Er, Es.
  pose proof (transfer_spec_next (feeReceiver (db (eng n))) (Snapshot (db (eng n))) (rp_To rec) (rp_From rec)
    (rp_AmountMas rec) (t_FeeMas t)) as Hins.
  change (Nonce (acct (Snapshot (db (eng n))) (rp_To rec)) +u 1) with (t_Nonce t) in Hins.
  destruct (transfer_spec _ _ _ _ _ _ _) as [r m']. cbn [fst snd] in *.
  rewrite approve_run_next, approve_apply_step by done. unfold on_eng.
  destruct (Engine_ApplyTransfer _ _ t (eng n1)) as [r2 e2]. cbn [fst snd] in *. subst r2.
  pose proof (ap_heap _ _ _ _ _ _ _ Ha) as Hl. pose proof (ap_free _ _ _ _ _ _ _ Ha) as Hfree.
  assert (Hl2 : r2p_heap (set_eng e2 n1) !! l = Some rec) by (cbn; by rewrite Hh1).
  assert (Hf2 : r2p_stuck (set_eng e2 n1) = false) by (cbn; by rewrite Hfree1).
  destruct r as [u|e]; [destruct (c_wr_state c)|].
  - destruct (approve_paid_tail cfg c rq id l t _ rec Hf2 Hl2) as (n' & -> & F1 & F2 & F3).
    cbn. by rewrite F1.
  - rewrite write_not_funds, andb_false_r.
    destruct (approve_rejected_tail cfg c rq t ("apply:" +:+ "write") (set_eng e2 n1))
      as (w & n' & -> & F0 & F1 & F2 & F3 & F4).
    cbn. rewrite F1, F2, F3. cbn. rewrite Hh1. unfold leaves_count. rewrite El, Hl1. eauto 10.
  - pose proof (Hins e eq_refl) as ->. rewrite funds_are_funds, andb_true_r.
    destruct (devFreeR2PEnabled c rq).
    + rewrite Hl2. cbn [default approve_run Datatypes.id].
      destruct (approve_mark cfg c rq id l ("dev-" +:+ rp_ID rec) (set_eng e2 n1) rec) as (n' & -> & F1 & F2); [done..|].
      cbn. rewrite F1. cbn [eng set_eng]. by rewrite F2, El, Hl1.
    + destruct (approve_rejected_tail cfg c rq t ("apply:" +:+ "insufficient_funds") (set_eng e2 n1))
        as (w & n' & -> & F0 & F1 & F2 & F3 & F4).
      cbn. rewrite F1, F2, F3. cbn. rewrite Hh1. unfold leaves_count. rewrite El, Hl1. eauto 10.
Qed.
End Spec.

(** ** The file *)
Record record_ok (r : r2pRecord) : Prop := {
  ro_amount : in_u64 (rp_AmountMas r); ro_created : in_i64 (rp_CreatedUTC r); ro_paid : in_i64 (rp_PaidUTC r);
  ro_declined : in_i64 (rp_DeclinedUTC r); ro_canceled : in_i64 (rp_CanceledUTC r);
  ro_version : in_i64 (rp_AliasVersion r);
  ro_ascii : Forall (fun s => str_forall is_ascii s = true)
    [rp_ID r; rp_From r; rp_To r; rp_Memo r; rp_Status r; rp_TxHash r; rp_Alias r]
}.
Lemma dec_omit_str_miss {A} (dec : json -> option A) name def k s l :
  bool_decide (fold_key k = fold_key name) = false ->
  dec_field dec name def (omit_str k s ++ l) = dec_field dec name def l.
Proof. intros Hk. unfold omit_str. destruct (bool_decide (s = "")); [done|]. by apply dec_field_miss. Qed.
Lemma dec_omit_int_miss {A} (dec : json -> option A) name def k z l :
  bool_decide (fold_key k = fold_key name) = false ->
  dec_field dec name def (omit_int k z ++ l) = dec_field dec name def l.
Proof. intros Hk. unfold omit_int. destruct (z =? 0); [done|]. by apply dec_field_miss. Qed.
Lemma dec_omit_str_hit name s l : dec_field dec_string name "" (omit_str name s ++ l) = dec_field dec_string name s l.
Proof.
  unfold omit_str. case_bool_decide; [by subst s|]. cbn [app].
  apply dec_field_hit; [by apply bool_decide_true|done|done].
Qed.
Lemma dec_omit_int_hit name z l : in_i64 z ->
  dec_field dec_int64 name 0 (omit_int name z ++ l) = dec_field dec_int64 name z l.
Proof.
  intros Hz. unfold omit_int. destruct (Z.eqb_spec z 0); [by subst z|]. cbn [app].
  apply dec_field_hit; [by apply bool_decide_true|done|by apply dec_int64_JInt].
Qed.
Ltac omit_field :=
  match goal with
  | |- mbind _ (dec_field ?d ?n ?def (omit_str ?k ?s ++ ?l)) = _ =>
      rewrite (dec_omit_str_miss d n def k s l) by (vm_compute; reflexivity)
  | |- mbind _ (dec_field ?d ?n ?def (omit_int ?k ?s ++ ?l)) = _ =>
      rewrite (dec_omit_int_miss d n def k s l) by (vm_compute; reflexivity)
  | |- mbind _ (dec_field _ ?n _ (omit_str ?n ?s ++ ?l)) = _ => rewrite (dec_omit_str_hit n s l)
  | |- mbind _ (dec_field _ ?n _ (omit_int ?n ?s ++ ?l)) = _ => rewrite (dec_omit_int_hit n s l) by done
  | |- _ => json_field
  end.
Lemma r2p_roundtrip r : record_ok r -> r2p_of_json (r2p_json r) = Some r.
Proof.
  intros [? ? ? ? ? ? _]. unfold r2p_of_json, r2p_json, dec_struct.
  rewrite <- (app_nil_r (omit_int "alias_version" _)). cbn [app]. repeat omit_field. by destruct r.
Qed.
Lemma omit_str_ok k s : str_forall is_ascii k = true -> str_forall is_ascii s = true ->
  Forall (fun kv => str_forall is_ascii kv.1 = true /\ json_ok kv.2) (omit_str k s).
Proof. intros. unfold omit_str. case_bool_decide; [done|]. by apply Forall_singleton. Qed.
Lemma omit_int_ok k z : str_forall is_ascii k = true ->
  Forall (fun kv => str_forall is_ascii kv.1 = true /\ json_ok kv.2) (omit_int k z).
Proof. intros. unfold omit_int. destruct (z =? 0); [done|]. apply Forall_singleton. cbn. auto with go. Qed.
#[export] Hint Resolve omit_str_ok omit_int_ok : go.
Lemma r2p_json_ok r : record_ok r -> json_ok (r2p_json r).
Proof.
  intros [? ? ? ? ? ? Ha]. repeat (apply Forall_cons_1 in Ha as [? Ha]). unfold r2p_json. apply Forall_json_obj.
  repeat (apply Forall_app; split); auto with go; repeat (apply Forall_cons; split); cbn; auto with go.
Qed.
Definition view_ok (m : gmap string (option r2pRecord)) : Prop :=
  map_Forall (fun k o => str_forall is_ascii k = true /\ from_option record_ok True o) m.
Lemma store_json_ok m : view_ok m -> json_ok (store_json m).
Proof.
  intros Hm. unfold store_json. apply json_ok_obj, Forall_fmap, Forall_forall.
  intros k Hk. cbn [compose fst snd]. apply keys_elem in Hk as [o Hk]. destruct (Hm k o Hk) as [Ha Ho].
  split; [done|]. rewrite Hk. cbn. destruct o as [r|]; [by apply r2p_json_ok|done].
Qed.
Lemma ptr_roundtrip o : from_option record_ok True o -> r2p_ptr_of_json (ptr_json o) = Some o.
Proof.
  destruct o as [r|]; [|done]. cbn [from_option]. intros Hr. unfold r2p_ptr_of_json, ptr_json.
  rewrite r2p_roundtrip by done. done.
Qed.
Lemma store_roundtrip m : view_ok m ->
  (j ← json_unmarshal (json_marshal (store_json m)); dec_map r2p_ptr_of_json j) = Some m.
Proof.
  intros Hm. rewrite json_roundtrip by by apply store_json_ok. cbn [mbind option_bind].
  unfold dec_map, store_json. rewrite (dec_map_insert r2p_ptr_of_json ptr_json _ (fun k => default None (m !! k))).
  - f_equal. apply map_eq. intros a. rewrite foldl_insert_lookup. case_decide as Hin.
    + apply keys_elem in Hin as [x Hx]. by rewrite Hx.
    + rewrite lookup_empty. destruct (m !! a) eqn:Hx; [|done]. exfalso. apply Hin, keys_elem. eauto.
  - intros k [o Hk]%keys_elem. rewrite Hk. cbn. apply ptr_roundtrip. by apply (Hm k o).
Qed.

(** Loading allocates one cell per record. *)
Lemma alloc_all_view l : forall h s, NoDup l.*1 ->
  let r := alloc_all l h s in h `prefix_of` r.1 /\
  forall k, match (list_to_map l : gmap string (option r2pRecord)) !! k with
    | Some (Some x) => exists i, r.2 !! k = Some (Some i) /\ r.1 !! i = Some x
    | Some None => r.2 !! k = Some None
    | None => r.2 !! k = s !! k
    end.
Proof.
  induction l as [|[k o] l IH]; intros h s Hnd; cbn [alloc_all fst snd].
  - split; [done|]. intros k. cbn. by rewrite lookup_empty.
  - apply NoDup_cons in Hnd as [Hk Hnd]. cbn [list_to_map fst snd foldr].
    assert (Hnone : (list_to_map l : gmap string (option r2pRecord)) !! k = None) by by apply not_elem_of_list_to_map.
    destruct o as [x|].
    + destruct (IH (h ++ [x]) (<[k := Some (length h)]> s) Hnd) as [Hp Hv].
      split; [etransitivity; [|exact Hp]; by eexists|]. intros j. specialize (Hv j).
      destruct (decide (j = k)) as [->|Hne].
      * rewrite Hnone in Hv. rewrite lookup_insert_eq. exists (length h). rewrite Hv, lookup_insert_eq.
        split; [done|]. eapply prefix_lookup_Some; [|exact Hp]. by rewrite lookup_app_r, Nat.sub_diag by lia.
      * rewrite lookup_insert_ne by done. destruct (_ !! j) as [[y|]|]; [done..|]. by rewrite Hv, lookup_insert_ne.
    + destruct (IH h (<[k := None]> s) Hnd) as [Hp Hv]. split; [done|]. intros j. specialize (Hv j).
      destruct (decide (j = k)) as [->|Hne].
      * rewrite Hnone in Hv. by rewrite lookup_insert_eq, Hv, lookup_insert_eq.
      * rewrite lookup_insert_ne by done. destruct (_ !! j) as [[y|]|]; [done..|]. by rewrite Hv, lookup_insert_ne.
Qed.
Lemma load_view path m n : view_ok m -> r2pPath n = "" -> r2p_stuck n = false ->
  r2p_view (SetR2PStorage path (Some (json_marshal (store_json m))) n) = m.
Proof.
  intros Hm Hp Hs. unfold SetR2PStorage. rewrite Hp, bool_decide_true by done. cbn [negb].
  pose proof (store_roundtrip m Hm) as Hrt.
  assert (Hne : length (json_marshal (store_json m)) <> 0%nat).
  { intros E. apply length_zero_iff_nil in E. rewrite E in Hrt. done. }
  rewrite (bool_decide_false _ Hne).
  destruct (json_unmarshal (json_marshal (store_json m))) as [j|] eqn:Ej; [|done]. cbn [mbind option_bind] in Hrt.
  assert (Hj : j <> JNull). { intros ->. rewrite json_roundtrip in Ej by by apply store_json_ok. done. }
  destruct j; try done. rewrite Hrt. cbn [r2p_stuck set_file r2p_heap].
  destruct (alloc_all_view (map_to_list m) (r2p_heap n) ∅ (NoDup_fst_map_to_list m)) as [_ Hv].
  destruct (alloc_all (map_to_list m) (r2p_heap n) ∅) as [h s]. cbn [fst snd] in Hv. rewrite Hs.
  apply map_eq. intros k. unfold r2p_view. rewrite lookup_fmap. cbn [r2pStore set_r2p].
  specialize (Hv k). rewrite list_to_map_to_list in Hv. destruct (m !! k) as [[x|]|].
  - destruct Hv as (i & -> & Hi). cbn. by rewrite Hi.
  - by rewrite Hv.
  - by rewrite Hv, lookup_empty.
Qed.

(** ** Interleaved requests *)
Section Schedule.
Context `{GoRuntime, GoSort, Blake3, Cbor, Ed25519, GoFloat}.

(** A request being served, at the step it has reached. *)
Inductive job :=
  | JApprove (cfg : Config) (c : Ctx) (rq : request) (pc : approve_pc)
  | JClose (k : close_kind) (c : Ctx) (rq : request) (pc : close_pc).
Definition job_step (j : job) : St Node job := fun n =>
  match j with
  | JApprove cfg c rq pc => let '(pc, n) := approve_step cfg c rq pc n in (JApprove cfg c rq pc, n)
  | JClose k c rq pc => let '(pc, n) := close_step k c rq pc n in (JClose k c rq pc, n)
  end.
Definition close_rank (pc : close_pc) : nat :=
  match pc with CL_begin => 2 | CL_mark _ => 1 | CL_done _ => 0 end%nat.
Definition job_rank (j : job) : nat :=
  match j with JApprove _ _ _ pc => approve_rank pc | JClose _ _ _ pc => close_rank pc end.
Definition job_outcome (j : job) : option (outcome bufferingWriter) :=
  match j with JApprove _ _ _ (AP_done o) | JClose _ _ _ (CL_done o) => Some o | _ => None end.
(** Any unfinished request makes its next atomic step. *)
Inductive sys_step : list job * Node -> list job * Node -> Prop :=
  | sys_job i js j n : js !! i = Some j -> job_outcome j = None ->
      sys_step (js, n) (<[i := (job_step j n).1]> js, (job_step j n).2).
Definition ranks (js : list job) : nat := sum_list_with job_rank js.
(** The status a finished request was answered with. *)
Definition job_status (j : job) : option Z :=
  match job_outcome j with Some (Replied w) => Some (bw_status w) | _ => None end.
(** A schedule names the request that moves. *)
Fixpoint run_sched (sched : list nat) (s : list job * Node) : list job * Node :=
  match sched with
  | [] => s
  | i :: sched => match s.1 !! i with
                  | Some j => match job_outcome j with
                              | None => run_sched sched (<[i := (job_step j s.2).1]> s.1, (job_step j s.2).2)
                              | Some _ => run_sched sched s
                              end
                  | None => run_sched sched s
                  end
  end.

Lemma job_step_rank j n : job_outcome j = None -> (job_rank (job_step j n).1 < job_rank j)%nat.
Proof.
  destruct j as [cfg c rq pc|k c rq pc]; cbn [job_step job_rank]; intros Hj.
  - pose proof (approve_step_rank cfg c rq pc n) as Hr.
    destruct (approve_step cfg c rq pc n) as [pc' n']. cbn [fst job_rank] in *. apply Hr.
    destruct pc; cbn in *; try lia. done.
  - destruct pc; [| |done]; cbn [close_step].
    + pose proof (close_step_begin k c rq n) as Hb. cbn [close_step] in Hb.
      match goal with |- context [let '(pc, n0) := ?x in _] => destruct x as [pc' n'] end.
      destruct Hb as (_ & _ & _ & Hb). destruct pc'; cbn; [done|lia..].
    + destruct (r2p_stuck n); cbn; lia.
Qed.
Lemma ranks_insert js i j j' : js !! i = Some j -> (job_rank j' < job_rank j)%nat ->
  (ranks (<[i := j']> js) < ranks js)%nat.
Proof. apply sum_insert_lt. Qed.
Lemma sys_step_ranks s s' : sys_step s s' -> (ranks s'.1 < ranks s.1)%nat.
Proof. intros [i js j n Hi Hj]. cbn. eapply ranks_insert; [exact Hi|by apply job_step_rank]. Qed.

Lemma nsteps_ranks k s s' : nsteps sys_step k s s' -> (k + ranks s'.1 <= ranks s.1)%nat.
Proof. induction 1 as [s|k s s1 s' Hs%sys_step_ranks _ IH]; lia. Qed.
Lemma job_rank_bound j : (job_rank j <= 5)%nat.
Proof. destruct j as [? ? ? []|? ? ? []]; cbn; lia. Qed.
Lemma ranks_bound js : (ranks js <= 5 * length js)%nat.
Proof.
  apply sum_list_bound, job_rank_bound.
Qed.
Lemma run_sched_steps sched s : rtc sys_step s (run_sched sched s).
Proof.
  revert s. induction sched as [|i sched IH]; intros [js n]; cbn; [done|].
  destruct (js !! i) as [j|] eqn:Hj; [|by apply IH]. destruct (job_outcome j) eqn:E; [by apply IH|].
  eapply rtc_l; [by apply (sys_job i js j n Hj)|by apply IH].
Qed.

(** termination under every schedule: requests to approve, decline or cancel, however
    their steps interleave, make at most five steps each on average, and when no step is
    left every one of them has its outcome. *)
Theorem schedule_terminates (js : list job) (n : Node) (k : nat) (js' : list job) (n' : Node) :
  nsteps sys_step k (js, n) (js', n') ->
  (k <= 5 * length js)%nat /\
  ((forall s, ~ sys_step (js', n') s) -> Forall (fun j => is_Some (job_outcome j)) js').
Proof.
  intros Hk. split.
  - pose proof (nsteps_ranks k _ _ Hk). cbn [fst] in *. pose proof (ranks_bound js). lia.
  - intros Hno. apply Forall_lookup. intros i j Hj. destruct (job_outcome j) as [o|] eqn:E; [by exists o|].
    exfalso. eapply Hno. by apply (sys_job i js' j n').
Qed.
End Schedule.

(** ** Properties *)
Section Properties.
Context `{GoRuntime, GoSort, Blake3, Cbor, Ed25519, GoFloat}.

(** One request served from beginning to end. *)
Inductive served (cfg : Config) : Node -> Node -> Prop :=
  | sv_create c rq n : served cfg n (r2p_create c rq n).2
  | sv_get rq n : served cfg n (r2p_get_handler rq n).2
  | sv_approve c rq n : served cfg n (r2p_approve cfg c rq n).2
  | sv_decline c rq n : served cfg n (r2p_decline c rq n).2
  | sv_cancel c rq n : served cfg n (r2p_cancel c rq n).2
  | sv_list c rq n : served cfg n (r2pListHandlerOpaque c rq n).2
  | sv_tx c rq n : served cfg n (txHandler c rq n).2.
Lemma txHandler_heap c rq n : r2p_heap (txHandler c rq n).2 = r2p_heap n.
Proof.
  unfold txHandler. destruct (_ =? _)%string; [apply txPost_frame|].
  destruct (_ =? _)%string; [apply txGet_frame|]. by destruct (_ =? _)%string.
Qed.
Lemma served_cells cfg n n' : served cfg n n' -> cells_le n n'.
Proof.
  intros Hs; destruct Hs.
  - apply create_cells.
  - by rewrite get_frame.
  - apply approve_cells.
  - apply close_cells.
  - apply close_cells.
  - apply cells_le_heap, list_frame.
  - apply cells_le_heap, txHandler_heap.
Qed.

(** C8: a request to pay has one life: when requests are served one after the other, a record
    keeps its parties, amount, memo and date, and from the moment it is paid, declined or
    canceled nothing about it changes any more. *)
Theorem r2p_lifecycle (cfg : Config) (n n' : Node) : rtc (served cfg) n n' ->
  forall l r, r2p_heap n !! l = Some r ->
  exists r', r2p_heap n' !! l = Some r' /\ same_terms r r' /\ (rp_Status r <> "open" -> r' = r).
Proof.
  intros Hs. change (cells_le n n'). induction Hs as [|n n1 n' Hs _ IH]; [done|].
  etransitivity; [by eapply served_cells|done].
Qed.

(** C17: the file restores the store: a node started on the file that a save wrote has the same
    records under the same identifiers. *)
Theorem r2p_restart (c : Ctx) (n n0 : Node) (path : string) :
  r2pPath n <> "" -> c_save c = SaveOk -> view_ok (r2p_view n) ->
  r2pPath n0 = "" -> r2p_stuck n0 = false ->
  r2p_view (SetR2PStorage path (r2p_file (r2pSaveLocked c n)) n0) = r2p_view n.
Proof.
  intros Hp Hs Hv Hp0 Hs0. unfold r2pSaveLocked. rewrite bool_decide_false by done. rewrite Hs.
  cbn [r2p_file set_file]. by apply load_view.
Qed.

(** A well-formed request to decline or cancel the open record [rec]. *)
Record closable (k : close_kind) (c : Ctx) (rq : request) (n : Node) (id : string) (l : loc) (rec : r2pRecord) : Prop := {
  cb_post : rq_Method rq = "POST"; cb_feat : flag c "THOMAS_FEAT_R2P" = true;
  cb_body : exists party, close_in k (rq_Body rq) = Some (id, party) /\
              (trim_space party = "" \/ trim_space party = close_addr k rec);
  cb_id : id <> ""; cb_free : r2p_stuck n = false; cb_store : r2pStore n !! id = Some (Some l);
  cb_heap : r2p_heap n !! l = Some rec; cb_open : rp_Status rec = "open";
  cb_addr : close_addr k rec <> ""; cb_plain : has_prefix (close_addr k rec) "@" = false
}.
Lemma close_open k c rq n id l rec : closable k c rq n id l rec ->
  close_step k c rq CL_begin n = (CL_mark l, r2pSaveLocked c n).
Proof.
  intros [Hm Hf (party & Hb & Hp) Hid Hfree Hst Hh Ho Ha Hplain].
  destruct (r2pSaveLocked_frame c n) as (_ & F2 & F3 & _). cbn [close_step]. rewrite Hm, Hf, Hb.
  change (negb (String.eqb "POST" "POST")) with false. cbn [negb]. cbn iota.
  rewrite (bool_decide_false _ Hid), Hfree, F3, Hst, F2, Hh, (bool_decide_true _ Ho). cbn [negb].
  assert (Hpay : (if bool_decide (trim_space party = "") then close_addr k rec else trim_space party) = close_addr k rec).
  { destruct Hp as [->| ->]; [done|]. by rewrite bool_decide_false. }
  rewrite Hpay. unfold resolveAddrMaybeAlias, resolveAddressMaybeAlias. rewrite Hplain.
  by rewrite (bool_decide_false _ Ha), bool_decide_true.
Qed.

(** a decline or cancel is answered with success and closes the record in memory, but what
    it writes to disk is the store of before: a node started on the file finds the record
    open, and payable, again. *)
Theorem close_not_saved (k : close_kind) (c : Ctx) (rq : request) (n n0 : Node) (id : string) (l : loc)
    (rec : r2pRecord) (path : string) :
  closable k c rq n id l rec -> r2pPath n <> "" -> c_save c = SaveOk -> view_ok (r2p_view n) ->
  r2pPath n0 = "" -> r2p_stuck n0 = false ->
  let '(o, n') := close_handler k c rq n in
  o = Replied (ok_json (gomap [("ok", JBool true); ("id", JStr (rp_ID rec));
                               ("status", JStr (rp_Status (close_mark k c rec)))])) /\
  r2p_view n' !! id = Some (Some (close_mark k c rec)) /\
  r2p_view (SetR2PStorage path (r2p_file n') n0) !! id = Some (Some rec).
Proof.
  intros Hc Hp Hs Hv Hp0 Hs0. unfold close_handler. rewrite (close_open k c rq n id l rec Hc).
  destruct Hc as [_ _ _ _ Hfree Hst Hh _ _ _].
  destruct (r2pSaveLocked_frame c n) as (_ & F2 & F3 & F4 & _). cbn [close_step]. rewrite F4, Hfree, F2, Hh.
  cbn [default Datatypes.id]. split; [by destruct k|]. split.
  - unfold r2p_view. rewrite lookup_fmap. cbn [r2p_put set_r2p r2pStore]. rewrite F3, Hst. cbn.
    rewrite F2, list_lookup_insert_eq by by eapply lookup_lt_Some. done.
  - cbn [r2p_put set_r2p r2p_file]. unfold r2pSaveLocked. rewrite bool_decide_false by done. rewrite Hs.
    cbn [r2p_file set_file]. rewrite load_view by done. unfold r2p_view. rewrite lookup_fmap, Hst. cbn. by rewrite Hh.
Qed.

Lemma r2p_select_spec f n entries : (forall k p, (k, p) ∈ entries -> r2p_get p n <> None) ->
  exists out, r2p_select f n entries = Some out /\
  forall r, r ∈ out <-> exists k p, (k, p) ∈ entries /\ r2p_get p n = Some r /\ r2p_match f r = true.
Proof.
  induction entries as [|[k p] entries IH]; intros Hnil.
  - exists []. split; [done|]. intros r. split; [by intros ?%elem_of_nil|]. intros (? & ? & ?%elem_of_nil & _). done.
  - destruct IH as (out & Hout & Hspec). { intros k' p' Hin. apply (Hnil k'). set_solver. }
    destruct (r2p_get p n) as [q|] eqn:Hq; [|exfalso; by apply (Hnil k p); [set_solver|]].
    cbn [r2p_select]. rewrite Hq, Hout. cbn [mbind option_bind]. eexists. split; [reflexivity|]. intros r.
    assert (Hcons : r ∈ (if r2p_match f q then q :: out else out) <->
                    (r = q /\ r2p_match f q = true) \/ r ∈ out).
    { destruct (r2p_match f q); [rewrite elem_of_cons; naive_solver|naive_solver]. }
    rewrite Hcons, Hspec. split.
    + intros [[-> Hm]|(k' & p' & Hin & Hr & Hm)]; [exists k, p; set_solver|exists k', p'; set_solver].
    + intros (k' & p' & [Heq|Hin]%elem_of_cons & Hr & Hm); [injection Heq as -> ->; left|right; eauto].
      split; [congruence|]. congruence.
Qed.

(** listing is exact: on a store without nil records a well-formed query is answered with
    all the records its owner, role, status and address filters select and no others, the
    newest first, and the node is unchanged. *)
Theorem r2p_list_correct (c : Ctx) (rq : request) (n : Node) (f : r2p_filter) :
  rq_Method rq = "GET" -> flag c "THOMAS_FEAT_R2P" = true -> list_filter c rq = Ok f ->
  r2p_stuck n = false -> map_Forall (fun _ o => o <> None) (r2p_view n) ->
  exists out, r2pListHandlerOpaque c rq n =
    (Replied (Encode (gomap [("ok", JBool true); ("records", JArr (r2p_json <$> out))]) bw_new), n) /\
    Sorted created_ge out /\
    forall r, r ∈ out <-> exists id, r2p_view n !! id = Some (Some r) /\ r2p_match f r = true.
Proof.
  intros Hm Hf Hl Hs Hnil. unfold r2pListHandlerOpaque. rewrite Hm, Hf, Hl, Hs.
  change (negb (String.eqb "GET" "GET")) with false. cbn [negb]. cbn iota.
  assert (Hin : forall k p, (k, p) ∈ map_iter (r2pStore n) <-> r2pStore n !! k = Some p).
  { intros k p. rewrite map_iter_perm. apply elem_of_map_to_list. }
  destruct (r2p_select_spec f n (map_iter (r2pStore n))) as (out & -> & Hout).
  { intros k p Hk%Hin. apply (Hnil k). unfold r2p_view. by rewrite lookup_fmap, Hk. }
  exists (sort_slice created_ge out). split; [done|]. split; [apply sort_slice_sorted; apply _|].
  intros r. rewrite (sort_slice_perm created_ge out), Hout. unfold r2p_view. split.
  - intros (k & p & Hk%Hin & Hr & Hmt). exists k. rewrite lookup_fmap, Hk. cbn. by rewrite Hr.
  - intros (k & Hk & Hmt). rewrite lookup_fmap in Hk. destruct (r2pStore n !! k) as [p|] eqn:Hp; [|done].
    cbn in Hk. exists k, p. rewrite Hin. split; [done|]. split; [congruence|done].
Qed.
End Properties.

(** ** A node with one open request: tho1bob asks tho1alice for 100 mas *)
Section Witnesses.
#[local] Existing Instance runtime0.
#[local] Existing Instance gosort0.
#[local] Existing Instance blake3_0.
#[local] Existing Instance cbor0.
#[local] Existing Instance ed0.
#[local] Existing Instance float_amd64.

Definition r2p_env (name : string) : string := if String.eqb name "THOMAS_FEAT_R2P" then "1" else "".
Definition ctx0 : Ctx :=
  mkCtx r2p_env 100 101 "1970-01-01T00:01:40Z" (take 8 (h32 3)) true true SaveOk None None
    (fun _ => false) (fun _ _ => false) 9 ("go1.22", "linux", "amd64") (h32 5) 12 4000000.
(** The same process when the state file cannot be written. *)
Definition ctx_ro0 : Ctx :=
  mkCtx r2p_env 100 101 "1970-01-01T00:01:40Z" (take 8 (h32 3)) false true SaveOk None None
    (fun _ => false) (fun _ _ => false) 9 ("go1.22", "linux", "amd64") (h32 5) 12 4000000.
Definition cfg0 : Config := init_config r2p_env.
Definition rec0 : r2pRecord := mkR2P "a1" "tho1bob" "tho1alice" 100 "" "open" 50 0 0 0 "" "" 0.
Definition boot0 : Engine := boot (h32 9) (h32 9) true no_files.
Definition eng0 : Engine := set_db (InitGenesis genesis (db boot0)).2 boot0.
Definition asked0 : Node := mkNode eng0 [rec0] {["a1" := Some 0%nat]} "data/r2p.json" None false 0 0.
Definition empty0 : Node := mkNode eng0 [] ∅ "" None false 0 0.
Definition post0 (path : string) (members : list (string * json)) : request :=
  mkRequest "POST" path [] [] (json_marshal (JObj members)) "127.0.0.1:5000".
Definition approve0 : request := post0 "/r2p/approve" [("id", JStr "a1"); ("fee_mas", JInt 7)].
Definition decline0 : request := post0 "/r2p/decline" [("id", JStr "a1")].
Definition list0 : request := mkRequest "GET" "/r2p/list" [("owner", "tho1alice"); ("role", "inbox")] [] [] "".

Lemma eng0_wf : db_wf (db eng0).
Proof. apply InitGenesis_wf, (eo_db boot0), boot_ok. Qed.
Lemma approvable0 : Forall (fun c => approvable c approve0 asked0 "a1" 0 rec0 7) [ctx0; ctx_ro0].
Proof.
  repeat constructor; try done; (exists ""; split; [vm_compute; reflexivity|left; vm_compute; reflexivity]).
Qed.
Lemma view0_ok : view_ok (r2p_view asked0).
Proof.
  assert (E : r2p_view asked0 = {["a1" := Some rec0]}) by (vm_compute; reflexivity).
  rewrite E. apply map_Forall_singleton. split; [done|]. cbn.
  split; unfold in_u64, in_i64; cbn; try lia. repeat constructor.
Qed.

Lemma approve_correct_witness :
  (Balance (acct (Snapshot (db (eng (r2p_approve cfg0 ctx0 approve0 asked0).2))) "tho1bob") = 100 /\
   rp_Status <$> (r2p_heap (r2p_approve cfg0 ctx0 approve0 asked0).2 !! 0%nat) = Some "paid") /\
  (Balance (acct (Snapshot (db (eng (r2p_approve cfg0 ctx_ro0 approve0 asked0).2))) "tho1bob") = 100 /\
   r2p_heap (r2p_approve cfg0 ctx_ro0 approve0 asked0).2 = r2p_heap asked0).
Proof.
  pose proof (proj1 (Forall_cons _ _ _) approvable0) as [Ha [Hb _]%Forall_cons].
  pose proof (approve_correct cfg0 ctx0 approve0 asked0 "a1" 0 rec0 7 Ha eng0_wf) as Hc.
  pose proof (approve_correct cfg0 ctx_ro0 approve0 asked0 "a1" 0 rec0 7 Hb eng0_wf) as Hd.
  cbv zeta in Hc, Hd.
  destruct (transfer_spec _ _ _ _ _ _ _) as [r m'] eqn:Et.
  destruct (r2p_approve cfg0 ctx0 approve0 asked0) as [o n'], (r2p_approve cfg0 ctx_ro0 approve0 asked0) as [o2 n2].
  destruct Hc as [Hs Hr], Hd as [Hs2 Hr2]. cbn [snd].
  assert (Er : r = Ok tt) by (apply (f_equal fst) in Et; cbn [fst] in Et; rewrite <- Et; vm_compute; reflexivity).
  rewrite Er in Hr, Hr2. destruct Hr as (Hl & _), Hr2 as (Hl2 & _).
  assert (Em : Balance (acct m' "tho1bob") = 100)
    by (apply (f_equal snd) in Et; cbn [snd] in Et; rewrite <- Et; vm_compute; reflexivity).
  rewrite Hs, Hs2, Hl. split; (split; [exact Em|]); [reflexivity|exact Hl2].
Defined.
Lemma r2p_lifecycle_witness : exists r', r2p_heap (r2p_approve cfg0 ctx0 approve0 asked0).2 !! 0%nat = Some r' /\
  same_terms rec0 r'.
Proof.
  destruct (r2p_lifecycle cfg0 asked0 (r2p_approve cfg0 ctx0 approve0 asked0).2) with (l := 0%nat) (r := rec0)
    as (r' & Hl & Ht & _).
  - apply rtc_once, sv_approve.
  - reflexivity.
  - exists r'. exact (conj Hl Ht).
Defined.
Lemma r2p_restart_witness :
  r2p_view (SetR2PStorage "data/r2p.json" (r2p_file (r2pSaveLocked ctx0 asked0)) empty0) = r2p_view asked0.
Proof. exact (r2p_restart ctx0 asked0 empty0 "data/r2p.json" ltac:(done) eq_refl view0_ok eq_refl eq_refl). Defined.
Lemma closable0 : closable Decline ctx0 decline0 asked0 "a1" 0 rec0.
Proof.
  split; try done. exists "". split; [vm_compute; reflexivity|left; vm_compute; reflexivity].
Qed.
Lemma close_not_saved_witness :
  r2p_view (SetR2PStorage "data/r2p.json" (r2p_file (close_handler Decline ctx0 decline0 asked0).2) empty0) !! "a1"
  = Some (Some rec0).
Proof.
  pose proof (close_not_saved Decline ctx0 decline0 asked0 empty0 "a1" 0 rec0 "data/r2p.json" closable0
    ltac:(done) eq_refl view0_ok eq_refl eq_refl) as Hc.
  destruct (close_handler Decline ctx0 decline0 asked0) as [o n']. exact (proj2 (proj2 Hc)).
Defined.
Lemma r2p_list_correct_witness : exists out,
  (r2pListHandlerOpaque ctx0 list0 asked0).1 =
  Replied (Encode (gomap [("ok", JBool true); ("records", JArr (r2p_json <$> out))]) bw_new) /\ rec0 ∈ out.
Proof.
  assert (E : r2p_view asked0 = {["a1" := Some rec0]}) by (vm_compute; reflexivity).
  destruct (r2p_list_correct ctx0 list0 asked0 (mkFilter "tho1alice" "inbox" "open" "" "")) as (out & Ho & _ & Hin).
  - reflexivity.
  - reflexivity.
  - vm_compute. reflexivity.
  - reflexivity.
  - rewrite E. by apply map_Forall_singleton.
  - exists out. split; [by rewrite Ho|]. apply Hin. exists "a1". split; [vm_compute; reflexivity|vm_compute; reflexivity].
Defined.
Definition job0 : job := JApprove cfg0 ctx0 approve0 AP_begin.
Lemma schedule_terminates_witness : exists k s, nsteps sys_step k ([job0], asked0) s /\ (k <= 5)%nat.
Proof.
  exists 1%nat. eexists. assert (Hs : nsteps sys_step 1 ([job0], asked0)
    (<[0%nat := (job_step job0 asked0).1]> [job0], (job_step job0 asked0).2)).
  { eapply nsteps_l; [|apply nsteps_O]. by apply (sys_job 0 [job0] job0 asked0). }
  split; [exact Hs|]. exact (proj1 (schedule_terminates [job0] asked0 1 _ _ Hs)).
Defined.

(** two approvals of one request can both pay: when the second is looked up before the
    first has marked the record, both are answered with success and the payer pays the
    100 mas and the fee twice. *)
Theorem approve_race :
  let '(js, n') := run_sched [0; 1; 0; 0; 0; 0; 1; 1; 1; 1]%nat ([job0; job0], asked0) in
  rtc sys_step ([job0; job0], asked0) (js, n') /\
  job_status <$> js = [Some StatusOK; Some StatusOK] /\
  Balance (acct (Snapshot (db (eng asked0))) "tho1bob") = 0 /\
  Balance (acct (Snapshot (db (eng n'))) "tho1bob") = 2 * rp_AmountMas rec0 /\
  rp_Status <$> (r2p_heap n' !! 0%nat) = Some "paid".
Proof.
  pose proof (run_sched_steps [0; 1; 0; 0; 0; 0; 1; 1; 1; 1]%nat ([job0; job0], asked0)) as Hrun.
  destruct (run_sched _ _) as [js n'] eqn:E. split; [done|].
  assert (Ejs : (run_sched [0; 1; 0; 0; 0; 0; 1; 1; 1; 1]%nat ([job0; job0], asked0)).1 = js) by by rewrite E.
  assert (En : (run_sched [0; 1; 0; 0; 0; 0; 1; 1; 1; 1]%nat ([job0; job0], asked0)).2 = n') by by rewrite E.
  rewrite <- Ejs, <- En. clear. split; [|split; [|split]]; vm_compute; reflexivity.
Qed.
End Witnesses.
