(* ===== verification/Router.v ===== *)
(** * internal/rpc/router.go: the mux, the handler chain, and what a request can do.

    [mux] dispatches like the ServeMux that [init] fills; [root] is the handler main.go
    serves.  Two handlers are not code of this repository and are the argument [other]:
    the standard library's expvar, and the report of the package internal/health, which
    router.go imports and the repository lacks. *)
From S2P Require Export RpcRead R2PSpec.

(** ** ServeMux *)
Definition notFound : bufferingWriter :=
  bw_Write (to_bytes ("404 page not found" +:+ newline))
    (bw_WriteHeader StatusNotFound (bw_Set "X-Content-Type-Options" "nosniff"
      (bw_Set "Content-Type" "text/plain; charset=utf-8" bw_new))).
(** A path that [path.Clean] would change; the mux answers such requests with a redirect. *)
Definition unclean (p : string) : bool :=
  negb (has_prefix p "/") || contains p "//" || contains p "/./" || contains p "/../" ||
  has_suffix p "/." || has_suffix p "/..".
Definition subtree_roots : list string := ["/account"; "/nonce"; "/supply/at"; "/round"; "/block"].

Section Router.
Context `{GoRuntime, GoSort, Blake3, Cbor, Ed25519, GoFloat, WalletKdf}.
Context (other : Handler).

Definition exact_routes (cfg : Config) (c : Ctx) : list (string * Handler) :=
  [("/r2p/list", r2pListHandlerOpaque c); ("/tx", txHandler c); ("/tx/get", txGetHandler c);
   ("/receipt/get", receipt_get); ("/debug/echo", debug_echo); ("/debug/stack", debug_stack);
   ("/node/info", node_info); ("/height", height_handler); ("/policy", policy cfg c); ("/health", health c);
   ("/health/chain", health_chain c); ("/merkle", merkle_handler); ("/supply/current", supply_current);
   ("/minting", minting); ("/round/commit", round_commit c); ("/round/latest", round_latest);
   ("/eternity/header/latest", eternity_latest); ("/round/latest/signed", round_latest_signed);
   ("/alias/resolve", alias_resolve c); ("/alias/reverse", alias_reverse c);
   ("/wallet/create", walletCreateHandler c); ("/wallet/restore", walletRestoreHandler);
   ("/r2p/create", r2p_create c); ("/r2p/get", r2p_get_handler); ("/r2p/approve", r2p_approve cfg c);
   ("/r2p/decline", r2p_decline c); ("/r2p/cancel", r2p_cancel c); ("/stats.json", stats_json c);
   ("/stats.plus", stats_plus c); ("/readyz", readyz c); ("/version", version c);
   ("/round/commit_safe", round_commit_safe c); ("/round/commit_safe2", round_commit_safe2 c);
   ("/diag/router-alive", router_alive); ("/stats.sys", stats_sys c); ("/metrics", metrics c);
   ("/events/stream", events_stream); ("/health/invariants", other)] ++
  (if varz cfg then [("/debug/vars", other)] else []).
Definition prefix_routes : list (string * Handler) :=
  [("/account/", account); ("/nonce/", nonce); ("/supply/at/", supply_at); ("/round/", round_handler);
   ("/block/", block_light_proof)].
Definition mux (cfg : Config) (c : Ctx) : Handler := fun rq n =>
  let p := rq_Path rq in
  if unclean p then (Redirected, n) else
  match List.find (fun r => String.eqb r.1 p) (exact_routes cfg c) with
  | Some (_, h) => h rq n
  | None =>
      match List.find (fun r => has_prefix p r.1) prefix_routes with
      | Some (_, h) => h rq n
      | None => if existsb (String.eqb p) subtree_roots then (Redirected, n) else done notFound n
      end
  end.
Definition root (cfg : Config) (c : Ctx) : request -> St Node (outcome response) := tx_chain cfg c (mux cfg c).

(** ** A request runs engine methods *)
Lemma mux_tx cfg c rq n : is_tx rq = true -> mux cfg c rq n = txPostHandler c rq n.
Proof.
  unfold is_tx. intros [Hm Hp]%andb_true_iff. apply String.eqb_eq in Hm, Hp.
  unfold mux. rewrite Hp. change (unclean "/tx") with false. cbn iota.
  change (List.find (fun r : string * Handler => String.eqb r.1 "/tx") (exact_routes cfg c))
    with (Some ("/tx", txHandler c)). cbn iota.
  unfold txHandler. by rewrite Hm.
Qed.
End Router.

(** ** What requests leave alone *)

(** A handler that only reads: the node may grow by zero accounts, which [GetAccount]
    inserts for unknown addresses, and by the lock that a panic leaves behind. *)
Section Quiet.
Context `{GoRuntime, GoSort, Blake3, Cbor, Ed25519, GoFloat}.

Definition touched (d d' : DB) : Prop :=
  db_wf d -> db_wf d' /\ feeReceiver d' = feeReceiver d /\
  exists l : list string, Snapshot d' = foldl touch (Snapshot d) l.
Record quiet (n n' : Node) : Prop := {
  q_heap : r2p_heap n' = r2p_heap n; q_store : r2pStore n' = r2pStore n; q_file : r2p_file n' = r2p_file n;
  q_led : led (eng n') = led (eng n); q_chain : chain (eng n') = chain (eng n);
  q_mint : mint (eng n') = mint (eng n); q_files : files (eng n') = files (eng n);
  q_steps : rtc step (eng n) (eng n'); q_db : touched (db (eng n)) (db (eng n'))
}.
Lemma touched_refl d : touched d d.
Proof. intros Hd. split; [done|]. split; [done|]. by exists []. Qed.
Lemma touched_trans a b d : touched a b -> touched b d -> touched a d.
Proof.
  intros Hab Hbd Ha. destruct (Hab Ha) as (Hb & F & l & E). destruct (Hbd Hb) as (Hd & F2 & l2 & E2).
  split; [done|]. split; [congruence|]. exists (l ++ l2). by rewrite foldl_app, <- E.
Qed.
#[global] Instance quiet_preorder : PreOrder quiet.
Proof.
  split; [split; try done; apply touched_refl|].
  intros a b d [] []. split; try congruence; [by etransitivity|by eapply touched_trans].
Qed.
Lemma quiet_eng n n' : eng n' = eng n -> r2p_heap n' = r2p_heap n -> r2pStore n' = r2pStore n ->
  r2p_file n' = r2p_file n -> quiet n n'.
Proof. intros E ? ? ?. split; rewrite ?E; done || apply touched_refl. Qed.
Lemma quiet_account addr n : quiet n (on_eng (Engine_GetAccount addr) n).2.
Proof.
  destruct (on_eng_frame (Engine_GetAccount addr) n) as (F1 & F2 & F3 & F4 & F5 & _).
  assert (Hs : step (eng n) (Engine_GetAccount addr (eng n)).2) by constructor.
  split; rewrite ?F4; try done; [..|by apply rtc_once|];
    unfold Engine_GetAccount; try by destruct (GetAccount addr (db (eng n))).
  intros Hd. destruct (GetAccount_spec (db (eng n)) addr Hd) as (_ & E2 & E3 & E4).
  destruct (GetAccount addr (db (eng n))) as [a d]. cbn [snd db set_db] in *.
  split; [done|]. split; [done|]. by exists [addr].
Qed.

Lemma foldl_touch_acct l m a : acct (foldl touch m l) a = acct m a.
Proof. revert m. induction l as [|b l IH]; intros m; [done|]. cbn. by rewrite IH, acct_touch. Qed.
Lemma foldl_touch_total l m : State.total (foldl touch m l) = State.total m.
Proof. revert m. induction l as [|b l IH]; intros m; [done|]. cbn. by rewrite IH, total_touch. Qed.
Lemma foldl_touch_ledger l m : ledger_ok m -> ledger_ok (foldl touch m l).
Proof. revert m. induction l as [|b l IH]; intros m Hm; [done|]. cbn. by apply IH, ledger_ok_touch. Qed.

(** ** What requests do to the money *)

(** Every record's amount is below 2^63, as [r2p_create] makes them. *)
Definition amount_ok (r : r2pRecord) : Prop := 0 <= rp_AmountMas r < M63.
Record funds_ok (n : Node) : Prop := {
  fo_db : db_wf (db (eng n)); fo_ledger : ledger_ok (Snapshot (db (eng n)));
  fo_fee : feeReceiver (db (eng n)) <> ""; fo_cap : State.total (Snapshot (db (eng n))) < M64;
  fo_asked : Forall amount_ok (r2p_heap n)
}.
Definition supply_of (n : Node) : Z := State.total (Snapshot (db (eng n))).
Definition keeps (n n' : Node) : Prop := funds_ok n -> funds_ok n' /\ supply_of n' = supply_of n.
#[global] Instance keeps_preorder : PreOrder keeps.
Proof.
  split; [by intros n Hn|]. intros a b d Hab Hbd Ha. destruct (Hab Ha) as [Hb E].
  destruct (Hbd Hb) as [Hd E2]. split; [done|congruence].
Qed.
Lemma keeps_db n n' : Snapshot (db (eng n')) = Snapshot (db (eng n)) -> feeReceiver (db (eng n')) = feeReceiver (db (eng n)) ->
  (db_wf (db (eng n)) -> db_wf (db (eng n'))) -> (Forall amount_ok (r2p_heap n) -> Forall amount_ok (r2p_heap n')) ->
  keeps n n'.
Proof. intros Es Ef Hwf Hh []. unfold supply_of. split; [split; rewrite ?Es, ?Ef; auto|by rewrite Es]. Qed.
Lemma quiet_keeps n n' : quiet n n' -> keeps n n'.
Proof.
  intros [Eh _ _ _ _ _ _ _ Hd] [Hwf Hl Hf Hc Ha]. destruct (Hd Hwf) as (Hwf' & Ef & l & E).
  unfold supply_of. split; [split|].
  - done.
  - rewrite E. by apply foldl_touch_ledger.
  - by rewrite Ef.
  - by rewrite E, foldl_touch_total.
  - by rewrite Eh.
  - by rewrite E, foldl_touch_total.
Qed.
End Quiet.
