(* ===== verification/RouterSpec.v ===== *)
(** * What a request can do to a node.

    Every route is classified once: most only read; those that write run engine methods
    and keep the money together.  From this follow the properties of [root], the handler
    that main.go serves. *)
From S2P Require Export Router.

Section Spec.
Context `{GoRuntime, GoSort, Blake3, Cbor, Ed25519, GoFloat, WalletKdf}.

(** ** Handlers that only read *)
Definition reader (h : Handler) : Prop := forall rq n, quiet n (h rq n).2.
Ltac reads := intros rq n; cbv beta; repeat case_match; simplify_eq; try done; by apply quiet_eng.
Lemma reader_pure h : (forall rq n, (h rq n).2 = n) -> reader h.
Proof. intros Hh rq n. by rewrite Hh. Qed.
Lemma r2p_list_reader c : reader (r2pListHandlerOpaque c).
Proof. unfold r2pListHandlerOpaque. reads. Qed.
Lemma txGet_reader c : reader (txGetHandler c).
Proof. unfold txGetHandler. reads. Qed.
Lemma r2p_get_reader : reader r2p_get_handler.
Proof. apply reader_pure, get_frame. Qed.
Lemma account_reader : reader account.
Proof.
  intros rq n. unfold account. destruct (negb _); [done|].
  pose proof (quiet_account (trim_prefix (rq_Path rq) "/account/") n) as Hq.
  by destruct (on_eng _ n) as [a n'].
Qed.
Lemma nonce_reader : reader nonce.
Proof.
  intros rq n. unfold nonce. destruct (negb _); [done|].
  pose proof (quiet_account (trim_prefix (rq_Path rq) "/nonce/") n) as Hq.
  by destruct (on_eng _ n) as [a n'].
Qed.
Lemma minting_reader : reader minting.
Proof.
  intros rq n. unfold minting. destruct (negb _); [done|].
  pose proof (quiet_account "tho1foundation" n) as Q1. destruct (on_eng _ n) as [a1 n1].
  pose proof (quiet_account "tho1exchange" n1) as Q2. destruct (on_eng _ n1) as [a2 n2].
  pose proof (quiet_account "tho1alice" n2) as Q3. destruct (on_eng _ n2) as [a3 n3].
  pose proof (quiet_account "tho1bob" n3) as Q4. destruct (on_eng _ n3) as [a4 n4].
  cbn [snd done] in *. by rewrite Q1, Q2, Q3.
Qed.
Lemma round_numbered_pure suffix rest reply n : (round_numbered suffix rest reply n).2 = n.
Proof. unfold round_numbered. by repeat case_match. Qed.
Lemma round_reader : reader round_handler.
Proof.
  apply reader_pure. intros rq n. unfold round_handler.
  repeat case_match; try done; by rewrite round_numbered_pure.
Qed.
Lemma health_chain_reader c : reader (health_chain c).
Proof. apply reader_pure. intros rq n. unfold health_chain. by repeat case_match. Qed.

(** ** Engine methods and the money *)
Definition same_money (d d' : DB) : Prop :=
  Snapshot d' = Snapshot d /\ feeReceiver d' = feeReceiver d /\ (db_wf d -> db_wf d').
#[local] Instance same_money_preorder : PreOrder same_money.
Proof. split; [done|]. intros a b d (? & ? & ?) (? & ? & ?). split; [congruence|]. split; [congruence|auto]. Qed.
Lemma same_money_keeps n n' : same_money (db (eng n)) (db (eng n')) -> r2p_heap n' = r2p_heap n -> keeps n n'.
Proof. intros (? & ? & ?) E. apply keeps_db; [done..|by rewrite E]. Qed.
Lemma persist_money h st d : same_money d (persistSupplyState h st d).2.
Proof. split; [done|]. split; [done|]. by intros []. Qed.
Lemma applyBlockMint_money h e : same_money (db e) (db (applyBlockMint h e).2).
Proof.
  unfold applyBlockMint. destruct (ApplyBlockMint h (supply (mint e))) as [[? ?] s].
  pose proof (persist_money h s (db e)) as Hp. by destruct (persistSupplyState h s (db e)) as [[] d].
Qed.
Lemma buildEternityHeader_db raw hdr e : db (buildEternityHeader raw hdr e).2 = db e.
Proof. unfold buildEternityHeader. by repeat case_match. Qed.
Lemma CommitRound_money now wr e : same_money (db e) (db (CommitRound now wr e).2).
Proof.
  unfold CommitRound. cbv zeta. set (e0 := set_led _ e). destruct (_ <? _) at 1; [done|].
  match goal with |- context [applyBlockMint ?h e0] => pose proof (applyBlockMint_money h e0) as Hm;
    destruct (applyBlockMint h e0) as [[u|r] e1] end; [|done].
  change (db e0) with (db e) in Hm. rewrite Hm. cbn [snd].
  match goal with |- context [saveLedger wr ?x] => destruct (saveLedger_frame wr x) as (_ & _ & _ & Fd & _);
    destruct (saveLedger wr x) as [r e2] end. cbn [snd] in *.
  match goal with |- context [buildEternityHeader ?a ?b e2] => pose proof (buildEternityHeader_db a b e2) as Hb;
    destruct (buildEternityHeader a b e2) as [[[hd b']|] e3] end; cbn [snd db set_chain] in *; by rewrite Hb, Fd.
Qed.
Lemma StoreReceipt_money now wr t ok reason e : same_money (db e) (db (StoreReceipt now wr t ok reason e).2).
Proof.
  pose proof (StoreReceipt_spec now wr t ok reason e) as Hs. destruct (StoreReceipt now wr t ok reason e) as [r e'].
  cbn [snd]. by rewrite (proj1 Hs).
Qed.
Lemma Engine_ApplyTransfer_db fa wr t e : let d := ApplyTransfer (t_From t) (t_To t) (t_AmountMas t) (t_FeeMas t) (t_Nonce t) (db e) in
  db (Engine_ApplyTransfer fa wr t e).2 = d.2 /\ led (Engine_ApplyTransfer fa wr t e).2 = led e.
Proof.
  unfold Engine_ApplyTransfer, tryApplyAliasSetTx.
  assert (Hno : (if fa && bool_decide (t_To t = aliasSys) then (false, Ok tt) else (false, @Ok unit tt)) = (false, Ok tt))
    by by destruct (fa && _).
  rewrite Hno. destruct (ApplyTransfer _ _ _ _ _ (db e)) as [[u|x] d]; [|done].
  by destruct (saveStateMas_frame wr (set_db d e)) as (-> & _ & _ & -> & _).
Qed.
Definition payable (t : Transfer) : Prop :=
  0 <= t_AmountMas t /\ 0 <= t_FeeMas t /\ t_AmountMas t + t_FeeMas t < M64.
(** A transfer of the database keeps the sum, whatever else happens to the engine. *)
Lemma transfer_keeps t n n' : payable t -> r2p_heap n' = r2p_heap n ->
  db (eng n') = (ApplyTransfer (t_From t) (t_To t) (t_AmountMas t) (t_FeeMas t) (t_Nonce t) (db (eng n))).2 ->
  keeps n n'.
Proof.
  intros (Ha & Hf & Hs) F1 Ed [Hwf Hl Hfee Hc Hh].
  destruct (ApplyTransfer_spec (db (eng n)) (t_From t) (t_To t) (t_AmountMas t) (t_FeeMas t) (t_Nonce t) Hwf)
    as (Hwf' & Hsp & Hr & _).
  assert (Hl' := transfer_spec_ledger_ok (feeReceiver (db (eng n))) (Snapshot (db (eng n))) (t_From t) (t_To t)
    (t_AmountMas t) (t_FeeMas t) (t_Nonce t) Hl). rewrite <- Hsp in Hl'. cbn [snd] in Hl'.
  assert (Ht : State.total (Snapshot (ApplyTransfer (t_From t) (t_To t) (t_AmountMas t) (t_FeeMas t) (t_Nonce t) (db (eng n))).2)
               = State.total (Snapshot (db (eng n)))).
  { clear Ed Hwf' Hr Hl'. destruct (ApplyTransfer _ _ _ _ _ (db (eng n))) as [[[]|x] d]; cbn [fst snd] in *; symmetry in Hsp.
    - apply transfer_spec_total in Hsp; [|done..]. rewrite bool_decide_false in Hsp by done. lia.
    - unfold transfer_spec in Hsp. repeat case_match; try done;
        apply (f_equal snd) in Hsp; cbn [snd] in Hsp; rewrite <- Hsp; apply total_touch. }
  unfold supply_of. split; [split|]; rewrite ?Ed, ?F1; [done|done|by rewrite Hr|by rewrite Ht|done|done].
Qed.
Lemma Engine_ApplyTransfer_keeps fa wr t n : payable t ->
  keeps n (on_eng (Engine_ApplyTransfer fa wr t) n).2.
Proof.
  intros Hp. destruct (on_eng_frame (Engine_ApplyTransfer fa wr t) n) as (F1 & _ & _ & F4 & _).
  apply (transfer_keeps t); [done..|]. rewrite F4. apply Engine_ApplyTransfer_db.
Qed.
Lemma receipt_keeps now wr t ok reason n : keeps n (on_eng (StoreReceipt now wr t ok reason) n).2.
Proof.
  destruct (on_eng_frame (StoreReceipt now wr t ok reason) n) as (F1 & _ & _ & F4 & _).
  apply same_money_keeps; [rewrite F4; apply StoreReceipt_money|done].
Qed.

(** ** An approval *)
Definition approve_funds (pc : approve_pc) : Prop :=
  match pc with
  | AP_account _ _ _ fee => 0 <= fee < M63
  | AP_apply _ _ t => payable t
  | _ => True
  end.
Lemma approve_in_range b id payer fee : approve_in b = Some (id, payer, fee) -> in_i64 fee.
Proof.
  unfold approve_in. intros (j & _ & Hj)%bind_Some. unfold dec_struct in Hj.
  destruct j as [| | | | |l]; try done; [injection Hj as _ _ <-; unfold in_i64; lia|].
  repeat (apply bind_Some in Hj as (? & ? & Hj)). injection Hj as <- <- <-.
  eapply (dec_field_inv in_i64); [|eapply dec_int64_range|eassumption]; unfold in_i64; lia.
Qed.
Lemma heap_amount n l : Forall amount_ok (r2p_heap n) -> amount_ok (default r2p_zero (r2p_heap n !! l)).
Proof.
  intros Hh. destruct (r2p_heap n !! l) as [r|] eqn:E; [|unfold amount_ok; cbn; lia].
  by eapply Forall_lookup_1 in E.
Qed.
Lemma approve_begin_funds cfg c rq n : funds_ok n -> approve_funds (approve_step cfg c rq AP_begin n).1.
Proof.
  intros [_ _ _ _ Hh]. cbn [approve_step].
  destruct (negb _); [done|]. destruct (negb _); [done|].
  destruct (approve_in _) as [[[id payer] fee]|] eqn:Ein; [|done]. apply approve_in_range in Ein.
  repeat (case_match; try done); cbn [fst approve_funds]; bool_cases; unfold in_i64 in *; try lia;
    (match goal with Hl : r2p_heap n !! _ = Some ?r |- context [minFeeMas (rp_AmountMas ?r) _] =>
      eapply Forall_lookup_1 in Hl; [|exact Hh]; unfold amount_ok in Hl;
      pose proof (minFeeMas_range (rp_AmountMas r) (feeBps cfg)) as Hm end);
    rewrite i64_small; unfold in_i64, in_u64 in *; lia.
Qed.
Lemma set_asked_keeps n h s : (Forall amount_ok (r2p_heap n) -> Forall amount_ok h) -> keeps n (set_r2p h s n).
Proof. intros Hh. by apply keeps_db. Qed.
Lemma save_keeps c n : keeps n (r2pSaveLocked c n).
Proof.
  destruct (r2pSaveLocked_frame c n) as (F1 & F2 & _). apply same_money_keeps; [by rewrite F1|done].
Qed.
Lemma mark_keeps c n l h s : keeps n (set_r2p (<[l := mark_paid c h (default r2p_zero (r2p_heap n !! l))]> (r2p_heap n)) s n).
Proof. apply set_asked_keeps. intros Hh. apply Forall_insert; [done|]. exact (heap_amount n l Hh). Qed.
Lemma approve_step_keeps cfg c rq pc n : approve_funds pc -> funds_ok n ->
  let '(pc', n') := approve_step cfg c rq pc n in keeps n n' /\ approve_funds pc'.
Proof.
  intros Hp Hn. destruct pc.
  - destruct (approve_begin cfg c rq n) as [E _]. pose proof (approve_begin_funds cfg c rq n Hn).
    destruct (approve_step cfg c rq AP_begin n) as [pc' n']. cbn [fst snd] in *. by subst n'.
  - cbn [approve_step]. pose proof (quiet_keeps _ _ (quiet_account payerAddr n)) as Hq.
    pose proof (proj1 (on_eng_frame (Engine_GetAccount payerAddr) n)) as Fh.
    destruct (on_eng _ n) as [a n']. cbn [snd] in *. split; [done|]. cbn [approve_funds] in *.
    pose proof (heap_amount n l (fo_asked _ Hn)) as Ha. rewrite Fh. unfold amount_ok, payable in *. cbn.
    rewrite u64_small by (unfold in_u64; lia). lia.
  - cbn [approve_step]. pose proof (Engine_ApplyTransfer_keeps (flag c "THOMAS_FEAT_ALIAS") (c_wr_state c) t n Hp) as Hk.
    destruct (on_eng _ n) as [r n']. cbn [snd] in *. destruct r; [done|]. by destruct (_ && _).
  - cbn [approve_step].
    pose proof (receipt_keeps (c_now c) (c_wr_ledger c) t true "" n) as Hk. by destruct (on_eng _ n).
  - cbn [approve_step].
    pose proof (receipt_keeps (c_now c) (c_wr_ledger c) t false reason n) as Hk. by destruct (on_eng _ n).
  - cbn [approve_step]. destruct (r2p_stuck n); [done|]. split; [|done].
    etransitivity; [apply mark_keeps|apply save_keeps].
  - done.
Qed.
Lemma approve_keeps cfg c rq n : keeps n (r2p_approve cfg c rq n).2.
Proof.
  intros Hn. apply (approve_handler_ind keeps (fun pc n => approve_funds pc /\ funds_ok n)); [|done|done].
  intros pc m [Hp Hm]. pose proof (approve_step_keeps cfg c rq pc m Hp Hm) as Hs.
  destruct (approve_step cfg c rq pc m) as [pc' m']. destruct Hs as [Hk Hp']. split; [done|].
  split; [done|]. by apply Hk.
Qed.
(** Room for one more receipt, as long as none is stored. *)
Definition approve_room (pc : approve_pc) (n : Node) : Prop :=
  match pc with AP_mark _ _ _ | AP_done _ => True | _ => leaves_count (eng n) < M64 - 2 end.
Definition engine_steps (n n' : Node) : Prop := rtc step (eng n) (eng n').
#[local] Instance engine_steps_preorder : PreOrder engine_steps.
Proof. unfold engine_steps. split; [by intros n|]. intros a b d Hab Hbd. by etransitivity. Qed.
Lemma engine_steps_same n n' : eng n' = eng n -> engine_steps n n'.
Proof. intros E. unfold engine_steps. by rewrite E. Qed.
Lemma on_eng_step {A} (m : St Engine A) n : step (eng n) (m (eng n)).2 -> engine_steps n (on_eng m n).2.
Proof. intros Hs. unfold engine_steps, on_eng. destruct (m (eng n)). by apply rtc_once. Qed.
Lemma approve_step_steps cfg c rq pc n : approve_room pc n ->
  let '(pc', n') := approve_step cfg c rq pc n in engine_steps n n' /\ approve_room pc' n'.
Proof.
  intros Hp. destruct pc.
  - destruct (approve_begin cfg c rq n) as [E _].
    destruct (approve_step cfg c rq AP_begin n) as [pc' n']. cbn [fst snd] in *. subst n'.
    split; [done|]. by destruct pc'.
  - cbn [approve_step]. pose proof (on_eng_step (Engine_GetAccount payerAddr) n (step_account _ _)) as Hs.
    pose proof (q_led _ _ (quiet_account payerAddr n)) as El.
    destruct (on_eng _ n) as [a n']. cbn [snd] in *. split; [done|]. cbn in *. unfold leaves_count. by rewrite El.
  - cbn [approve_step].
    pose proof (on_eng_step (Engine_ApplyTransfer (flag c "THOMAS_FEAT_ALIAS") (c_wr_state c) t) n (step_transfer _ _ _ _)) as Hs.
    destruct (on_eng_frame (Engine_ApplyTransfer (flag c "THOMAS_FEAT_ALIAS") (c_wr_state c) t) n) as (_ & _ & _ & F4 & _).
    destruct (Engine_ApplyTransfer_db (flag c "THOMAS_FEAT_ALIAS") (c_wr_state c) t (eng n)) as [_ El].
    rewrite <- F4 in El. destruct (on_eng _ n) as [r n']. cbn [snd] in *. cbn in Hp. unfold leaves_count in *.
    rewrite <- El in Hp. destruct r; [done|]. by destruct (_ && _).
  - cbn [approve_step].
    pose proof (on_eng_step (StoreReceipt (c_now c) (c_wr_ledger c) t true "") n (step_receipt _ _ _ _ _ _ Hp)) as Hs.
    by destruct (on_eng _ n).
  - cbn [approve_step].
    pose proof (on_eng_step (StoreReceipt (c_now c) (c_wr_ledger c) t false reason) n (step_receipt _ _ _ _ _ _ Hp)) as Hs.
    by destruct (on_eng _ n).
  - cbn [approve_step]. destruct (r2p_stuck n); [done|]. split; [|done]. apply engine_steps_same.
    by rewrite (proj1 (r2pSaveLocked_frame c _)).
  - done.
Qed.
Lemma approve_steps cfg c rq n : leaves_count (eng n) < M64 - 2 -> engine_steps n (r2p_approve cfg c rq n).2.
Proof.
  intros Hn. apply (approve_handler_ind engine_steps approve_room); [|done].
  intros pc m. apply approve_step_steps.
Qed.

(** ** The routes *)
Record tame (p : string) (h : Handler) : Prop := {
  tm_read : forall rq n, rq_Method rq <> "POST" -> quiet n (h rq n).2;
  tm_steps : forall rq n, leaves_count (eng n) < M64 - 2 -> engine_steps n (h rq n).2;
  tm_keeps : forall rq n, rq_Path rq = p -> is_tx rq = false -> keeps n (h rq n).2
}.
Lemma reader_tame p h : reader h -> tame p h.
Proof.
  intros Hh. split.
  - intros rq n _. apply Hh.
  - intros rq n _. apply q_steps, Hh.
  - intros rq n _ _. apply quiet_keeps, Hh.
Qed.
Lemma not_post rq : rq_Method rq <> "POST" -> String.eqb (rq_Method rq) "POST" = false.
Proof. by intros ?%String.eqb_neq. Qed.
(** A handler that refuses all methods but POST. *)
Lemma post_tame p h : (forall rq n, rq_Method rq <> "POST" -> (h rq n).2 = n) ->
  (forall rq n, leaves_count (eng n) < M64 - 2 -> engine_steps n (h rq n).2) ->
  (forall rq n, keeps n (h rq n).2) -> tame p h.
Proof. intros Hr Hs Hk. split; [|done|auto]. intros rq n Hm. by rewrite Hr. Qed.
Lemma create_in_range b from to amount memo : create_in b = Some (from, to, amount, memo) -> in_i64 amount.
Proof.
  unfold create_in. intros (j & _ & Hj)%bind_Some. unfold dec_struct in Hj.
  destruct j as [| | | | |l]; try done; [injection Hj as _ _ <- _; unfold in_i64; lia|].
  repeat (apply bind_Some in Hj as (? & ? & Hj)). injection Hj as <- <- <- <-.
  eapply (dec_field_inv in_i64); [|eapply dec_int64_range|eassumption]; unfold in_i64; lia.
Qed.
Lemma create_keeps c rq n : keeps n (r2p_create c rq n).2.
Proof.
  unfold r2p_create. repeat case_match; try done; cbn [snd done];
  (etransitivity; [|apply save_keeps]); apply set_asked_keeps; intros Hh;
  (apply Forall_app; split; [done|]); apply Forall_singleton; unfold amount_ok; cbn;
  (match goal with Hc : create_in (rq_Body rq) = Some _ |- _ => apply create_in_range in Hc end);
  bool_cases; unfold in_i64 in *; (rewrite u64_small by (unfold in_u64; lia)); lia.
Qed.
Lemma create_tame p c : tame p (r2p_create c).
Proof.
  apply post_tame.
  - intros rq n Hm. unfold r2p_create. by rewrite not_post.
  - intros rq n _. apply engine_steps_same, create_cells.
  - intros rq n. apply create_keeps.
Qed.
Lemma approve_tame p cfg c : tame p (r2p_approve cfg c).
Proof.
  apply post_tame.
  - intros rq n Hm. unfold r2p_approve. cbn [approve_run approve_step]. by rewrite not_post.
  - intros rq n Hn. by apply approve_steps.
  - intros rq n. apply approve_keeps.
Qed.
Lemma close_keeps k c rq n : keeps n (close_handler k c rq n).2.
Proof.
  intros Hn. pose proof (close_cells k c rq n) as [_ Ee]. revert Hn. apply keeps_db; [by rewrite Ee..|].
  intros Hh. unfold close_handler. pose proof (close_step_begin k c rq n) as Hb.
  destruct (close_step k c rq CL_begin n) as [pc n1]. destruct Hb as (Eh & _ & _ & Hpc). rewrite <- Eh in Hh.
  destruct pc as [|l|o]; [done| |done]. cbn [close_step]. destruct (r2p_stuck n1); [done|].
  cbn. apply Forall_insert; [done|]. pose proof (heap_amount n1 l Hh). by destruct k.
Qed.
Lemma close_tame p k c : tame p (close_handler k c).
Proof.
  apply post_tame.
  - intros rq n Hm. unfold close_handler. cbn [close_step]. by rewrite not_post.
  - intros rq n _. apply engine_steps_same, close_cells.
  - intros rq n. apply close_keeps.
Qed.
Lemma commit_steps c n : engine_steps n (on_eng (CommitRound (c_now c) (c_wr_ledger c)) n).2.
Proof. apply on_eng_step. constructor. Qed.
Lemma commit_keeps c n : keeps n (on_eng (CommitRound (c_now c) (c_wr_ledger c)) n).2.
Proof.
  destruct (on_eng_frame (CommitRound (c_now c) (c_wr_ledger c)) n) as (F1 & _ & _ & F4 & _).
  apply same_money_keeps; [rewrite F4; apply CommitRound_money|done].
Qed.
Lemma commit_tame p c h :
  (forall rq n, (h rq n).2 = n \/
     rq_Method rq = "POST" /\ (h rq n).2 = (on_eng (CommitRound (c_now c) (c_wr_ledger c)) n).2) -> tame p h.
Proof.
  intros Hh. apply post_tame; intros rq n; destruct (Hh rq n) as [E|[Em E]]; rewrite E; try done.
  - intros _. apply commit_steps.
  - apply commit_keeps.
Qed.
Ltac commits := intros rq n; unfold is_post; destruct (String.eqb_spec (rq_Method rq) "POST"); [|by left];
  cbn [negb andb]; repeat case_match; first [by left|by right].
Lemma round_commit_tame p c : tame p (round_commit c).
Proof. apply (commit_tame p c). unfold round_commit. commits. Qed.
Lemma round_commit_safe_tame p c : tame p (round_commit_safe c).
Proof. apply (commit_tame p c). unfold round_commit_safe. commits. Qed.
Lemma round_commit_safe2_tame p c : tame p (round_commit_safe2 c).
Proof. apply (commit_tame p c). unfold round_commit_safe2, hasPending. commits. Qed.

(** [POST /tx] reaches the mux only through the checks. *)
Lemma tx_steps c rq n : leaves_count (eng n) < M64 - 2 -> engine_steps n (txPostHandler c rq n).2.
Proof.
  intros Hn. destruct (String.eqb_spec (rq_Method rq) "POST") as [Hm|Hm];
    [|unfold txPostHandler; apply String.eqb_neq in Hm; by rewrite Hm].
  destruct (read_txPre (rq_Body rq)) as [i|] eqn:Hi;
    [|unfold txPostHandler; rewrite Hi; by destruct (negb _)].
  rewrite (txPostHandler_eng c rq n i Hm Hi). unfold engine_steps, submit. cbn [eng set_eng].
  pose proof (step_transfer (flag c "THOMAS_FEAT_ALIAS") (c_wr_state c) (transfer_of i) (eng n)) as Hs.
  destruct (Engine_ApplyTransfer_db (flag c "THOMAS_FEAT_ALIAS") (c_wr_state c) (transfer_of i) (eng n)) as [_ El].
  destruct (Engine_ApplyTransfer _ _ _ (eng n)) as [r e]. cbn [snd] in *.
  eapply rtc_l; [exact Hs|]. apply rtc_once, step_receipt. unfold leaves_count. by rewrite El.
Qed.
Lemma tx_payable b i : read_txPre b = Some i -> 0 < tp_AmountMas i -> 0 < tp_FeeMas i -> payable (transfer_of i).
Proof.
  intros Hi Ha Hf. destruct (read_txPre_range _ _ Hi) as (Ra & Rf & _). unfold in_i64 in *.
  unfold payable, transfer_of. cbn. rewrite !u64_small by (unfold in_u64; lia). lia.
Qed.
Lemma tx_keeps c rq n i : rq_Method rq = "POST" -> read_txPre (rq_Body rq) = Some i ->
  0 < tp_AmountMas i -> 0 < tp_FeeMas i -> keeps n (txPostHandler c rq n).2.
Proof.
  intros Hm Hi Ha Hf. rewrite (txPostHandler_eng c rq n i Hm Hi). unfold submit.
  pose proof (Engine_ApplyTransfer_keeps (flag c "THOMAS_FEAT_ALIAS") (c_wr_state c) (transfer_of i) n) as Hk.
  unfold on_eng in Hk. destruct (Engine_ApplyTransfer _ _ _ (eng n)) as [r e]. cbn [snd] in Hk.
  etransitivity; [apply Hk; by eapply tx_payable|].
  apply same_money_keeps; [|done]. apply StoreReceipt_money.
Qed.
Lemma tx_tame c : tame "/tx" (txHandler c).
Proof.
  split.
  - intros rq n Hm. unfold txHandler. rewrite not_post by done.
    destruct (_ =? _)%string; [apply txGet_reader|]. by destruct (_ =? _)%string.
  - intros rq n Hn. unfold txHandler. destruct (_ =? _)%string; [by apply tx_steps|].
    destruct (_ =? _)%string; [apply q_steps, txGet_reader|]. by destruct (_ =? _)%string.
  - intros rq n Hp Ht. unfold is_tx in Ht. rewrite Hp, andb_true_r in Ht. unfold txHandler. rewrite Ht.
    destruct (rq_Method rq =? "GET")%string; [apply quiet_keeps, txGet_reader|]. destruct (rq_Method rq =? "OPTIONS")%string; reflexivity.
Qed.

Section Mux.
Context (other : Handler) (other_reader : reader other).
Lemma exact_tame cfg c : Forall (fun r => tame r.1 r.2) (exact_routes other cfg c).
Proof.
  unfold exact_routes. apply Forall_app. split; [|destruct (varz cfg); [|done]];
  repeat (apply Forall_cons; split); cbn [fst snd]; try apply Forall_nil; try done;
  first [ by apply reader_tame | apply tx_tame | apply create_tame | apply approve_tame | apply close_tame
        | apply round_commit_tame | apply round_commit_safe_tame | apply round_commit_safe2_tame
        | apply reader_tame, r2p_list_reader | apply reader_tame, txGet_reader
        | apply reader_tame, r2p_get_reader | apply reader_tame, minting_reader
        | apply reader_tame, health_chain_reader
        | apply reader_tame, reader_pure; intros rq n ];
  unfold receipt_get, debug_stack, node_info, height_handler, policy, merkle_handler, supply_current, round_latest,
    eternity_latest, round_latest_signed, alias_resolve, alias_reverse, walletCreateHandler, walletRestoreHandler,
    stats_json, stats_plus, readyz, version, stats_sys, metrics, events_stream; by repeat case_match.
Qed.
Lemma prefix_reader : Forall (fun r : string * Handler => reader r.2) prefix_routes.
Proof.
  unfold prefix_routes. repeat (apply Forall_cons; split); cbn [snd]; try apply Forall_nil; try done;
  first [ apply account_reader | apply nonce_reader | apply round_reader | apply reader_pure; intros rq n ];
  unfold supply_at, block_light_proof; by repeat case_match.
Qed.
(** A request goes to one tame handler under its own path, or changes nothing. *)
Lemma mux_tame cfg c rq n : exists h, tame (rq_Path rq) h /\ mux other cfg c rq n = h rq n.
Proof.
  assert (Hid : forall o, tame (rq_Path rq) (fun _ n => (o, n))).
  { intros o. by apply reader_tame, reader_pure. }
  unfold mux. destruct (unclean _); [by eexists|].
  destruct (List.find _ (exact_routes other cfg c)) as [[p h]|] eqn:Ef.
  - apply List.find_some in Ef as [Hin Hp]. apply String.eqb_eq in Hp. cbn [fst] in Hp. subst p.
    pose proof (exact_tame cfg c) as Ha. rewrite List.Forall_forall in Ha. exists h. split; [exact (Ha _ Hin)|done].
  - destruct (List.find _ prefix_routes) as [[p h]|] eqn:Ep.
    + apply List.find_some in Ep as [Hin _]. pose proof prefix_reader as Ha. rewrite List.Forall_forall in Ha.
      exists h. split; [apply reader_tame; exact (Ha _ Hin)|done].
    + destruct (existsb _ _); by eexists.
Qed.
Lemma core_quiet n n' : core n' = core n -> quiet n n'.
Proof. intros E. unfold core in E. simplify_eq. by apply quiet_eng. Qed.
Lemma root_other cfg c rq n : is_tx rq = false ->
  core (root other cfg c rq n).2 = core (mux other cfg c rq n).2.
Proof. intros Ht. exact (tx_chain_other cfg c (mux other cfg c) rq n Ht). Qed.
Lemma root_tx cfg c rq n : is_tx rq = true ->
  core (root other cfg c rq n).2 =
    match read_txPre (rq_Body rq) with
    | Some i => if admitted cfg c rq n i then core (txPostHandler c rq n).2 else core n
    | None => core n
    end.
Proof. intros Ht. rewrite <- (mux_tx other cfg c rq n Ht). exact (tx_chain_core cfg c (mux other cfg c) rq n Ht). Qed.
Lemma is_tx_post rq : is_tx rq = true -> rq_Method rq = "POST".
Proof. intros [Hm _]%andb_true_iff. by apply String.eqb_eq. Qed.

(** ** Properties of the handler that is served *)

(** C7: admission: a [POST /tx] reaches the ledger exactly when its body decodes and passes
    the chain, amount, fee, address, expiry, signature, key binding and commitment checks;
    then the engine applies the transfer and logs one receipt, and in all other cases the
    engine is untouched.  Whatever is admitted has a positive amount and at least the
    minimum fee, for this chain, between addresses of the right form. *)
Theorem tx_admission (cfg : Config) (c : Ctx) (rq : request) (n : Node) : is_tx rq = true ->
  eng (root other cfg c rq n).2 =
    match read_txPre (rq_Body rq) with
    | Some i => if admitted cfg c rq n i then submit c i (eng n) else eng n
    | None => eng n
    end /\
  forall i, read_txPre (rq_Body rq) = Some i -> admitted cfg c rq n i = true ->
    (tp_ChainID i = "" \/ tp_ChainID i = expectedChainID) /\ 0 < tp_AmountMas i /\
    minFeeMas (tp_AmountMas i) (feeBps cfg) <= tp_FeeMas i /\ tho1 (tp_From i) = true /\ tho1 (tp_To i) = true.
Proof.
  intros Ht. split.
  - pose proof (root_tx cfg c rq n Ht) as E.
    destruct (read_txPre (rq_Body rq)) as [i|] eqn:Hi; [|exact (core_eng _ _ E)].
    destruct (admitted cfg c rq n i); [|exact (core_eng _ _ E)].
    rewrite (txPostHandler_eng c rq n i (is_tx_post rq Ht) Hi) in E.
    exact (core_eng _ (set_eng _ n) E).
  - intros i Hi Had. unfold admitted in Had. rewrite !andb_true_iff in Had.
    destruct Had as [[[Hp _] _] _]. apply bool_decide_eq_true in Hp.
    eapply precheck_ok; [|exact Hp]. by apply (read_txPre_range _ _ Hi).
Qed.

(** C19: reading changes nothing: a request with any method but POST leaves receipts, rounds,
    headers, supply, files, payment requests and the balance and nonce of every address as
    they were. *)
Theorem reads_only (cfg : Config) (c : Ctx) (rq : request) (n : Node) : rq_Method rq <> "POST" ->
  let n' := (root other cfg c rq n).2 in
  led (eng n') = led (eng n) /\ chain (eng n') = chain (eng n) /\ mint (eng n') = mint (eng n) /\
  files (eng n') = files (eng n) /\ r2p_heap n' = r2p_heap n /\ r2pStore n' = r2pStore n /\
  r2p_file n' = r2p_file n /\
  (db_wf (db (eng n)) -> forall a, acct (Snapshot (db (eng n'))) a = acct (Snapshot (db (eng n))) a).
Proof.
  intros Hm n'. assert (Hq : quiet n n').
  { assert (Ht : is_tx rq = false) by (unfold is_tx; by rewrite not_post).
    transitivity (mux other cfg c rq n).2; [|apply core_quiet, root_other, Ht].
    destruct (mux_tame cfg c rq n) as (h & Hh & ->). by apply (tm_read _ _ Hh). }
  destruct Hq as [? ? ? ? ? ? ? _ Hd]. repeat (split; [done|]).
  intros Hwf a. destruct (Hd Hwf) as (_ & _ & l & ->). apply foldl_touch_acct.
Qed.

(** C1: refinement: whatever a request does to the engine is a sequence of the engine's own
    atomic methods, so the engine's invariant holds after every request. *)
Theorem root_refines (cfg : Config) (c : Ctx) (rq : request) (n : Node) : leaves_count (eng n) < M64 - 2 ->
  let n' := (root other cfg c rq n).2 in
  rtc step (eng n) (eng n') /\ (engine_ok (eng n) -> engine_ok (eng n')).
Proof.
  intros Hn n'. assert (Hs : engine_steps n n').
  { destruct (is_tx rq) eqn:Ht.
    - pose proof (root_tx cfg c rq n Ht) as E. fold n' in E.
      destruct (read_txPre (rq_Body rq)) as [i|]; [|exact (engine_steps_same _ _ (core_eng _ _ E))].
      destruct (admitted cfg c rq n i); [|exact (engine_steps_same _ _ (core_eng _ _ E))].
      transitivity (txPostHandler c rq n).2; [by apply tx_steps|exact (engine_steps_same _ _ (core_eng _ _ E))].
    - transitivity (mux other cfg c rq n).2.
      + destruct (mux_tame cfg c rq n) as (h & Hh & ->). by apply (tm_steps _ _ Hh).
      + apply engine_steps_same, core_eng, root_other, Ht. }
  split; [done|]. by apply steps_ok.
Qed.

(** One request served by [root]. *)
Inductive handled (cfg : Config) : Node -> Node -> Prop :=
  | handled_root c rq n : handled cfg n (root other cfg c rq n).2.
Lemma root_keeps cfg c rq n : keeps n (root other cfg c rq n).2.
Proof.
  destruct (is_tx rq) eqn:Ht.
  - pose proof (root_tx cfg c rq n Ht) as E. destruct (tx_admission cfg c rq n Ht) as [_ Had].
    destruct (read_txPre (rq_Body rq)) as [i|] eqn:Hi; [|by apply quiet_keeps, core_quiet].
    destruct (admitted cfg c rq n i) eqn:Hadm; [|by apply quiet_keeps, core_quiet].
    destruct (Had i eq_refl Hadm) as (_ & Ha & Hf & _).
    transitivity (txPostHandler c rq n).2; [|by apply quiet_keeps, core_quiet].
    destruct (read_txPre_range _ _ Hi) as (Ra & _ & _). unfold in_i64 in Ra.
    pose proof (minFeeMas_range (tp_AmountMas i) (feeBps cfg)) as Hm. unfold in_u64 in Hm.
    apply (tx_keeps c rq n i (is_tx_post rq Ht) Hi Ha). lia.
  - transitivity (mux other cfg c rq n).2; [|apply quiet_keeps, core_quiet, root_other, Ht].
    destruct (mux_tame cfg c rq n) as (h & Hh & ->). by apply (tm_keeps _ _ Hh).
Qed.

(** C2: conservation end to end: no sequence of HTTP requests, whatever their bodies, creates
    or destroys money: with a fee receiver set and a total supply below 2^64, the sum of all
    balances stays the same, because the amounts and fees that get past the checks are
    too small to wrap around. *)
Theorem requests_conserve (cfg : Config) (n n' : Node) : rtc (handled cfg) n n' -> funds_ok n ->
  funds_ok n' /\ supply_of n' = supply_of n.
Proof.
  intros Hs. change (keeps n n'). induction Hs as [|n n1 n' Hs _ IH]; [reflexivity|].
  transitivity n1; [|exact IH]. destruct Hs as [c rq n]. apply root_keeps.
Qed.
End Mux.

Definition with_nonce (z : Z) (i : txPre) : txPre :=
  mkTxPre (tp_Type i) (tp_From i) (tp_To i) (tp_AmountMas i) (tp_FeeMas i) z (tp_ChainID i) (tp_ExpiryHeight i)
    (tp_MsgCommitment i) (tp_Sig i).
Definition with_expiry (z : Z) (i : txPre) : txPre :=
  mkTxPre (tp_Type i) (tp_From i) (tp_To i) (tp_AmountMas i) (tp_FeeMas i) (tp_Nonce i) (tp_ChainID i) z
    (tp_MsgCommitment i) (tp_Sig i).
(** The conversion of a signed number to an unsigned field. *)
Lemma u64_signed z : in_i64 z -> u64 z = if z <? 0 then z + M64 else z.
Proof.
  unfold in_i64, u64. intros Hz. destruct (Z.ltb_spec z 0); [|by apply Z.mod_small; lia].
  rewrite <- (Z.mod_add z 1 M64) by lia. apply Z.mod_small. lia.
Qed.

(** C18: types: the five numbers of a body that decodes are signed 64-bit numbers.  When it
    passes the first check, its amount is positive, its fee is at least the minimum, both
    are carried over exactly to the unsigned fields of the transfer, and amount plus fee
    does not wrap.  Nonce and expiry height are carried over exactly only when they are not
    negative: a negative one becomes itself plus 2^64, and the first check does not prevent
    it, since it returns the same errors whatever the nonce, and the same errors for every
    expiry height that is not positive. *)
Theorem tx_typed (bps h : Z) (b : bytes) (i : txPre) : read_txPre b = Some i ->
  let t := transfer_of i in
  (in_i64 (tp_Type i) /\ in_i64 (tp_AmountMas i) /\ in_i64 (tp_FeeMas i) /\ in_i64 (tp_Nonce i) /\
   in_i64 (tp_ExpiryHeight i)) /\
  (precheck_errs bps h i = [] ->
     0 < tp_AmountMas i /\ minFeeMas (tp_AmountMas i) bps <= tp_FeeMas i /\
     t_AmountMas t = tp_AmountMas i /\ t_FeeMas t = tp_FeeMas i /\ payable t) /\
  (t_Type t = tp_Type i /\
   t_Nonce t = (if tp_Nonce i <? 0 then tp_Nonce i + 2 ^ 64 else tp_Nonce i) /\
   t_ExpiryHeight t = (if tp_ExpiryHeight i <? 0 then tp_ExpiryHeight i + 2 ^ 64 else tp_ExpiryHeight i)) /\
  (forall z, precheck_errs bps h (with_nonce z i) = precheck_errs bps h i) /\
  (forall z, z <= 0 -> tp_ExpiryHeight i <= 0 -> precheck_errs bps h (with_expiry z i) = precheck_errs bps h i).
Proof.
  intros Hi. destruct (read_txPre_range _ _ Hi) as (Ra & Rf & Rn & Rt & Re). cbv zeta.
  split; [done|split; [|split; [|split; [done|]]]].
  - intros Hp. destruct (precheck_ok bps h i Ra Hp) as (_ & Ha & Hf & _). unfold in_i64 in *.
    pose proof (minFeeMas_range (tp_AmountMas i) bps) as Hm. unfold in_u64 in Hm.
    unfold payable, transfer_of. cbn. rewrite !u64_small by (unfold in_u64; lia). lia.
  - split; [done|]. split; by apply u64_signed.
  - intros z Hz He. unfold precheck_errs, with_expiry. cbn [tp_ExpiryHeight tp_ChainID tp_AmountMas tp_FeeMas tp_From tp_To].
    destruct (Z.ltb_spec 0 z), (Z.ltb_spec 0 (tp_ExpiryHeight i)); done || lia.
Qed.

(** ** The light proof *)

(** [GET /block/{h}/light-proof] never delivers a proof: it answers with an error, or, in
    exactly the case where header and commit bundle of the height are both known, panics,
    because it takes the address of a reflected call result. *)
Theorem light_proof_panics (rq : request) (n : Node) :
  (forall w, (block_light_proof rq n).1 = Replied w ->
     bw_status w = StatusMethodNotAllowed \/ bw_status w = StatusNotFound \/ bw_status w = StatusBadRequest) /\
  ((block_light_proof rq n).1 = Panicked <->
     rq_Method rq = "GET" /\ has_suffix (rq_Path rq) "/light-proof" = true /\
     exists h, parse_uint (trim_suffix (trim_prefix (rq_Path rq) "/block/") "/light-proof") = Some h /\
       is_Some (EternityHeaderAt h (eng n)) /\ is_Some (CommitBundleAt h (eng n))).
Proof.
  unfold block_light_proof, is_get, light_bundle, value_Addr.
  destruct (String.eqb_spec (rq_Method rq) "GET") as [Hm|Hm]; cbn [negb];
    [|split; [intros w [= <-]; by left|split; [done|by intros [? _]]]].
  destruct (has_suffix _ _) eqn:Hs; cbn [negb];
    [|split; [intros w [= <-]; by right; left|split; [done|by intros (_ & ? & _)]]].
  destruct (parse_uint _) as [h|] eqn:Hp;
    [|split; [intros w [= <-]; by right; right|split; [done|by intros (_ & _ & ? & ? & _)]]].
  destruct (EternityHeaderAt h (eng n)) as [hd|] eqn:He.
  2: { split; [intros w [= <-]; by right; left|split; [done|]].
       intros (_ & _ & h' & [= <-] & [? E] & _). congruence. }
  destruct (CommitBundleAt h (eng n)) as [b|] eqn:Hb; cbn [mbind option_bind].
  - split; [done|]. split; [|done]. intros _. split; [done|]. split; [done|]. exists h. rewrite He, Hb. eauto.
  - split; [intros w [= <-]; by right; left|split; [done|]].
    intros (_ & _ & h' & [= <-] & _ & [? E]). congruence.
Qed.

(** ** A failed signature *)
Lemma hex_ascii b : str_forall is_ascii (hex_encode b) = true.
Proof.
  apply (str_forall_impl graph); [|apply hex_graph]. intros c. unfold graph, is_ascii. intros Hc.
  apply andb_true_iff in Hc as [_ Hc%N.leb_le]. apply N.ltb_lt. lia.
Qed.
Definition sig_failures : list string := ["signature_required"; "bad_signature_encoding"; "bad_signature"].
(** What [precheckSig] answers when it does not pass the request on. *)
Lemma precheckSig_rejects cfg mux rq n i : is_tx rq = true -> read_txPre (rq_Body rq) = Some i ->
  sig_ok cfg rq i = false -> exists w, precheckSig cfg mux rq n = (Replied w, n) /\
    bw_status w = StatusBadRequest /\ sig_reason (reason_of (bw_body w)) = true.
Proof.
  intros Ht Hi Hs. unfold precheckSig, sig_ok in *. rewrite Ht, Hi. cbv zeta.
  rewrite body_sig_code.
  assert (Hmsg : forall r, r = "signature_required" \/ r = "bad_signature" ->
    reason_of (encoded (gomap [("ok", JBool false); ("reason", JStr r); ("expected_message", JStr (calcCommit i))])) = r).
  { intros r Hr. unfold reason_of. rewrite encoded_parses.
    - by destruct Hr as [-> | ->].
    - gomap_solve; apply json_ok_str; [by destruct Hr as [-> | ->]|apply hex_ascii]. }
  assert (Henc : reason_of (encoded (ok_false "reason" "bad_signature_encoding")) = "bad_signature_encoding").
  { unfold reason_of, ok_false. rewrite encoded_parses; [done|]. gomap_solve. }
  destruct (_ || _).
  - destruct (must_sig cfg); [|discriminate Hs]. eexists. split; [reflexivity|]. split; [done|].
    cbn [bw_body fail Encode bw_Write only bw_WriteHeader bw_new app]. rewrite Hmsg by auto. done.
  - destruct (b64_decode false (Header_Get "X-PubKey" rq)) as [pk|].
    2: { eexists. split; [reflexivity|]. split; [done|].
         cbn [bw_body fail Encode bw_Write only bw_WriteHeader bw_new app]. by rewrite Henc. }
    destruct (b64_decode false (body_sig rq i)) as [sg|].
    2: { eexists. split; [reflexivity|]. split; [done|].
         cbn [bw_body fail Encode bw_Write only bw_WriteHeader bw_new app]. by rewrite Henc. }
    destruct (bool_decide (length pk = 32%nat)), (bool_decide (length sg = 64%nat)); cbn [negb orb andb] in *;
      try (eexists; split; [reflexivity|]; split; [done|];
           cbn [bw_body fail Encode bw_Write only bw_WriteHeader bw_new app]; by rewrite Henc).
    rewrite Hs. cbn [negb]. eexists. split; [reflexivity|]. split; [done|].
    cbn [bw_body fail Encode bw_Write only bw_WriteHeader bw_new app]. rewrite Hmsg by auto. done.
Qed.

(** a failed signature is reported as success: a transfer whose signature is missing where
    it is required, undecodable or wrong changes nothing in the node but a counter, and its
    sender reads status 200 with [ok] true, where every other rejection is a 400. *)
Theorem bad_signature_is_ok (other : Handler) (cfg : Config) (c : Ctx) (rq : request) (n : Node) (i : txPre) :
  is_tx rq = true -> read_txPre (rq_Body rq) = Some i ->
  precheck_errs (feeBps cfg) (i64 (CurrentHeight (eng n))) i = [] -> sig_ok cfg rq i = false ->
  root other cfg c rq n =
    (Replied (mkResponse [("Content-Type", "application/json")]
       (encoded (gomap [("ok", JBool true); ("applied", JBool false); ("reason", JStr "verify:bad_signature")])) StatusOK),
     incBadSigJSON n).
Proof.
  intros Ht Hi Hp Hs. unfold root, tx_chain, debuglogRateLimit, txPrecheckWith, withJSONErrorFallback.
  rewrite Ht, Hi, bool_decide_true by done. unfold jsonizeSigErrors.
  destruct (precheckSig_rejects cfg (precheckFromBindingWith cfg (c_pubs c) (precheckCommit cfg (mux other cfg c)))
    rq n i Ht Hi Hs) as (w & -> & Hst & Hr).
  unfold is_tx in Ht. apply andb_true_iff in Ht as [_ Hpath]. rewrite Hpath, Hst, Hr. reflexivity.
Qed.

(** ** Committing *)
Lemma rounds_cover lv k from rs lst x : rounds_ok lv k from rs lst -> from <= x <= lst ->
  exists h, h ∈ rs /\ rh_FromHeight h <= x <= rh_ToHeight h /\ rh_ToHeight h <= Z.of_nat (length lv) /\
    rh_Root h = hex_encode (Sha256Tree.Root (slice lv (rh_FromHeight h) (rh_ToHeight h))).
Proof.
  revert k from. induction rs as [|g rs IH]; intros k from; cbn; [intros -> ?; lia|].
  intros (_ & Hf & Hto & _ & Hr & Hrs) Hx. destruct (Z.leb_spec x (rh_ToHeight g)).
  - exists g. rewrite Hf. split; [apply list_elem_of_here|]. split; [lia|]. split; [lia|done].
  - destruct (IH _ _ Hrs ltac:(lia)) as (h & Hh & ?). exists h. split; [by apply list_elem_of_further|done].
Qed.
Lemma slice_elem lv from to x b : 1 <= from <= x -> x <= to -> lv !! Z.to_nat (x - 1) = Some b -> b ∈ slice lv from to.
Proof.
  intros Hf Hx Hb. unfold slice. apply (list_elem_of_lookup_2 _ (Z.to_nat (x - 1) - Z.to_nat (from - 1))).
  rewrite lookup_drop, lookup_take_lt by lia. rewrite <- Hb. f_equal. lia.
Qed.
Lemma mux_commit other cfg c rq n : rq_Path rq = "/round/commit" -> mux other cfg c rq n = round_commit c rq n.
Proof.
  intros Hp. unfold mux. rewrite Hp. change (unclean "/round/commit") with false. cbn iota.
  change (List.find (fun r : string * Handler => String.eqb r.1 "/round/commit") (exact_routes other cfg c))
    with (Some ("/round/commit", round_commit c)). done.
Qed.
Lemma root_plain other cfg c rq n w n' : rq_Path rq <> "/tx" -> mux other cfg c rq n = (Replied w, n') ->
  root other cfg c rq n = (Replied (relay w rs_new), n').
Proof.
  intros Hp Hm. apply String.eqb_neq in Hp.
  assert (Ht : is_tx rq = false) by (unfold is_tx; by rewrite Hp, andb_false_r).
  unfold root, tx_chain, debuglogRateLimit, txPrecheckWith, withJSONErrorFallback. rewrite Ht.
  unfold jsonizeSigErrors, precheckSig, precheckFromBindingWith, precheckCommit. by rewrite Ht, Hm, Hp.
Qed.

(** C14: liveness: one [POST /round/commit] commits everything that is pending: it is answered
    with the header of the round it makes (or [no_pending] when there is nothing to do), no
    receipt stays behind, and every receipt on file is then a leaf of a committed round,
    under the Merkle root that its header names. *)
Theorem commit_covers_all (other : Handler) (cfg : Config) (c : Ctx) (rq : request) (n : Node) :
  engine_ok (eng n) -> rq_Method rq = "POST" -> rq_Path rq = "/round/commit" ->
  let '(o, n') := root other cfg c rq n in
  (if lastCommittedHeight (led (eng n)) <? leaves_count (eng n)
   then exists h, o = Replied (relay (committed_reply (Some h)) rs_new) /\ round_of (c_now c) (eng n) h /\
          rounds (led (eng n')) = rounds (led (eng n)) ++ [h]
   else o = Replied (relay (committed_reply None) rs_new) /\ eng n' = eng n) /\
  lastCommittedHeight (led (eng n')) = leaves_count (eng n') /\
  (forall hash r, GetReceipt hash (eng n) = Some r -> GetReceipt hash (eng n') = Some r /\
     exists h, h ∈ rounds (led (eng n')) /\
       json_marshal (receipt_json r) ∈ slice (leaves (led (eng n'))) (rh_FromHeight h) (rh_ToHeight h) /\
       rh_Root h = hex_encode (Sha256Tree.Root (slice (leaves (led (eng n'))) (rh_FromHeight h) (rh_ToHeight h)))).
Proof.
  intros He Hm Hp. set (e := eng n) in *.
  pose proof (CommitRound_spec (c_now c) (c_wr_ledger c) e (eo_led e He)) as Hs.
  pose proof (eo_led _ (CommitRound_ok (c_now c) (c_wr_ledger c) e He)) as Hl'.
  assert (Hroot : root other cfg c rq n = (Replied (relay (committed_reply (CommitRound (c_now c) (c_wr_ledger c) e).1) rs_new),
                                           set_eng (CommitRound (c_now c) (c_wr_ledger c) e).2 n)).
  { apply root_plain; [by rewrite Hp|]. rewrite mux_commit by done. unfold round_commit, is_post, on_eng. rewrite Hm.
    change (negb (String.eqb "POST" "POST")) with false. cbn iota. fold e. by destruct (CommitRound _ _ e). }
  rewrite Hroot. clear Hroot. cbn [eng set_eng]. destruct (CommitRound (c_now c) (c_wr_ledger c) e) as [o e'].
  cbn [fst snd] in *.
  assert (Hlast : lastCommittedHeight (led e') = leaves_count e' /\ receipts (led e') = receipts (led e) /\
                  leaves (led e') = leaves (led e)).
  { destruct o as [h|]; [|by destruct Hs as [? ->]]. destruct Hs as (_ & _ & El & _). unfold leaves_count. by rewrite El. }
  destruct Hlast as (Hlast & Hrec & Hlv). split; [|split; [done|]].
  - destruct o as [h|].
    + destruct Hs as (Hlt & Hround & -> & _). rewrite (proj2 (Z.ltb_lt _ _) Hlt). by exists h.
    + destruct Hs as (E & ->). rewrite E, Z.ltb_irrefl. done.
  - intros hash r Hr. unfold GetReceipt in *. rewrite Hrec. split; [done|].
    rewrite <- Hrec in Hr. destruct (lo_receipts _ Hl' hash r Hr) as (_ & H0r & Hlf).
    pose proof (lookup_lt_Some _ _ _ Hlf) as Hlen. unfold leaves_count in Hlast.
    destruct (rounds_cover _ _ _ _ _ (r_Height r + 1) (lo_rounds _ Hl')) as (h & Hin & Hx & Hto & Hroot); [lia|].
    exists h. split; [done|]. split; [|done].
    assert (Hf1 : 1 <= rh_FromHeight h).
    { clear -Hl' Hin. destruct Hl' as [_ _ _ Hrs _]. revert Hrs. generalize 1 at 1. intros k. revert k.
      assert (Hg : 1 <= 1) by lia. revert Hg. generalize 1 at 2 3. revert h Hin.
      induction (rounds (led e')) as [|g rs IH]; intros h Hin from Hf k Hrs; [by apply elem_of_nil in Hin|].
      cbn in Hrs. destruct Hrs as (_ & Hfg & Hto & _ & _ & Hrs).
      apply elem_of_cons in Hin as [->|Hin]; [lia|]. eapply IH; [exact Hin| |exact Hrs]. lia. }
    eapply slice_elem; [|apply Hx|replace (r_Height r + 1 - 1) with (r_Height r) by lia; exact Hlf]. lia.
Qed.

(** ** Wallets *)

(** C26: a wallet comes back: the mnemonic that [/wallet/create] hands out, sent to
    [/wallet/restore] with the same passphrase, yields the public key that the creation
    reported; both replies forbid caching, and neither request changes the node.  (The
    mnemonic must have no blanks at its ends, as those of BIP-39 have.) *)
Theorem wallet_roundtrip (c : Ctx) (create restore : request) (n : Node) (b : RecoveryBundle) (pass : string) :
  rq_Method create = "POST" -> best_string "passphrase" (rq_Body create) = pass ->
  NewRecoveryBundle (Ok (c_seed c)) (trim_space pass) = Ok b ->
  rec_Mnemonic b <> "" -> trim_space (rec_Mnemonic b) = rec_Mnemonic b ->
  rq_Method restore = "POST" -> restore_in (rq_Body restore) = Some (rec_Mnemonic b, pass) ->
  let key := rec_PubKeyHex b in
  let w := setSensitiveNoStoreHeaders bw_new in
  walletCreateHandler c create n =
    done (Encode (gomap [("ok", JBool true); ("algo", JStr "ed25519"); ("pubkey_hex", JStr key);
      ("recovery", gomap [("mnemonic", JStr (rec_Mnemonic b)); ("fingerprint", JStr (rec_Fingerprint b));
                          ("passphrase_used", JBool (negb (bool_decide (pass = ""))))]);
      ("note", JStr "Store this mnemonic offline. It will not be shown again.")]) w) n /\
  walletRestoreHandler restore n =
    done (Encode (gomap [("ok", JBool true); ("algo", JStr "ed25519"); ("pubkey_hex", JStr key)]) w) n /\
  Header_Get "Cache-Control" (mkRequest "" "" [] (bw_header w) [] "") = "no-store".
Proof.
  intros Hc Hp Hb Hne Htrim Hr Hin. cbv zeta.
  assert (Hkey : hexLower (DeriveFromMnemonic (rec_Mnemonic b) (trim_space pass)).1 = rec_PubKeyHex b).
  { unfold NewRecoveryBundle in Hb. cbn [mbind result_bind] in Hb.
    destruct (new_mnemonic (c_seed c)) as [m|]; [|done]. cbn [mbind result_bind] in Hb.
    destruct (DeriveFromMnemonic m (trim_space pass)) as [pub priv] eqn:E. injection Hb as <-.
    cbn [rec_Mnemonic rec_PubKeyHex]. by rewrite E. }
  split; [|split; [|reflexivity]].
  - unfold walletCreateHandler, is_post. rewrite Hc, Hp, Hb. reflexivity.
  - unfold walletRestoreHandler, is_post. rewrite Hr, Hin, Htrim, (bool_decide_false _ Hne).
    destruct (DeriveFromMnemonic (rec_Mnemonic b) (trim_space pass)) as [pub priv]. cbn [fst] in Hkey. rewrite Hkey.
    reflexivity.
Qed.

(** ** Fees and commitments *)

(** the minimum fee: without overflow it is the least fee of at least one that covers the
    share of the amount in basis points; the product is taken modulo 2^64 though, so that
    for an amount of 737869762948382065 mas, whose share at 25 points is over 10^15, the
    minimum is 1. *)
Theorem min_fee_exact (a b : Z) : 0 <= a -> 0 <= b -> a * b + 9999 < M64 ->
  let f := minFeeMas a b in
  (1 <= f /\ a * b <= 10000 * f /\ (f = 1 \/ 10000 * (f - 1) < a * b)) /\
  minFeeMas 737869762948382065 25 = 1.
Proof.
  intros Ha Hb Hlt. cbv zeta. rewrite minFeeMas_exact by done. split; [|reflexivity].
  pose proof (Z.div_mod (a * b + 9999) 10000 ltac:(lia)). pose proof (Z.mod_pos_bound (a * b + 9999) 10000 ltac:(lia)).
  assert (0 <= a * b) by nia. lia.
Qed.

(** C25: the commitment binds a transfer: two requests whose addresses and chain id are free of
    the separator and whose commitments agree are the same in all signed fields, unless
    SHA-256 itself collides on their texts. *)
Theorem commitment_binding (i j : txPre) : separated i -> separated j -> calcCommit i = calcCommit j ->
  payload i = payload j \/
  (commit_text i <> commit_text j /\ sha256 (to_bytes (commit_text i)) = sha256 (to_bytes (commit_text j))).
Proof.
  intros Hi Hj E. destruct (decide (commit_text i = commit_text j)) as [Et|Hne].
  - left. by apply commit_text_inj.
  - right. split; [done|]. unfold calcCommit in E. apply (f_equal hex_decode) in E.
    rewrite !hex_roundtrip in E. congruence.
Qed.

(** addresses with the separator break the binding: a payment from "tho1a|tho1b" to "tho1c"
    and one from "tho1a" to "tho1b|tho1c" both pass the first check and have one commitment,
    so one signature covers both. *)
Theorem commitment_ambiguous :
  let i := mkTxPre 1 "tho1a|tho1b" "tho1c" 100 10 1 expectedChainID 0 "" "" in
  let j := mkTxPre 1 "tho1a" "tho1b|tho1c" 100 10 1 expectedChainID 0 "" "" in
  payload i <> payload j /\ calcCommit i = calcCommit j /\
  precheck_errs 25 0 i = [] /\ precheck_errs 25 0 j = [].
Proof.
  cbv zeta. split; [by intros [=]|]. split; [|by split].
  unfold calcCommit. do 3 f_equal.
Qed.

(** no alias resolves: whatever the alias file says, an address of the form "@name" is
    never resolved, since the engine calls the member "owner" and the router reads
    "address"; a payment request to or from an alias is always refused. *)
Theorem alias_never_resolves (c : Ctx) (inp : string) :
  (forall m, alias_file (c_alias c) = Some m -> map_Forall (fun _ o => str_forall is_ascii o = true) m) ->
  has_prefix inp "@" = true ->
  resolveAddressMaybeAlias (c_alias c) inp = None /\
  resolveAddrMaybeAlias (c_alias c) inp = Err "bad_owner_or_alias" /\
  forall rq n to amount memo, rq_Method rq = "POST" -> flag c "THOMAS_FEAT_R2P" = true ->
    create_in (rq_Body rq) = Some (inp, to, amount, memo) ->
    r2p_create c rq n = (Replied (fail StatusBadRequest (ok_false "error" "bad_params")), n).
Proof.
  intros Hf Hat.
  assert (Hnone : resolveAddressMaybeAlias (c_alias c) inp = None).
  { unfold resolveAddressMaybeAlias, callEngResolveAlias. rewrite Hat.
    destruct (ResolveAliasFile (c_alias c) inp) as [owner ok] eqn:Er. destruct ok; [|done]. cbn [negb].
    rewrite alias_record_no_address; [done|]. intros o ->. unfold ResolveAliasFile in Er.
    case_bool_decide; [done|]. cbv zeta in Er. destruct (alias_file (c_alias c)) as [m|]; [|done].
    destruct (m !! _) as [q|] eqn:Em; [|done]. destruct (negb _); [|done]. injection Er as ->.
    exact (Hf m eq_refl _ _ Em). }
  split; [done|]. split; [unfold resolveAddrMaybeAlias; by rewrite Hnone|].
  intros rq n to amount memo Hm Hfl Hin. unfold r2p_create. rewrite Hm, Hfl, Hin.
  change (negb (String.eqb "POST" "POST")) with false. cbn [negb]. cbn iota. by rewrite Hnone.
Qed.
End Spec.

(** ** Witnesses *)
Section Witnesses.
#[local] Existing Instance runtime0.
#[local] Existing Instance gosort0.
#[local] Existing Instance blake3_0.
#[local] Existing Instance cbor0.
#[local] Existing Instance ed0.
#[local] Existing Instance float_amd64.
#[local] Existing Instance kdf0.

Definition other0 : Handler := fun rq n => done notFound n.
Lemma other0_reader : reader other0.
Proof. by apply reader_pure. Qed.
Definition pay_body (amount fee nonce : Z) : list (string * json) :=
  [("type", JInt 1); ("from", JStr "tho1alice"); ("to", JStr "tho1bob"); ("amount_mas", JInt amount);
   ("fee_mas", JInt fee); ("nonce", JInt nonce); ("chain_id", JStr "thomas-dev-1")].
Definition tx0 : request := post0 "/tx" (pay_body 1000 10 1).
Definition commit0 : request := post0 "/round/commit" [].
Definition i0 : txPre := mkTxPre 1 "tho1alice" "tho1bob" 1000 10 1 "thomas-dev-1" 0 "" "".
Lemma read_tx0 : read_txPre (rq_Body tx0) = Some i0.
Proof. vm_compute. reflexivity. Qed.
Lemma eng0_ok : engine_ok eng0.
Proof.
  apply set_db_ok; [apply boot_ok|apply eng0_wf|].
  apply InitGenesis_ledger; [|apply (eo_db boot0), boot_ok|apply (eo_accounts boot0), boot_ok].
  repeat constructor; unfold in_u64; cbn; lia.
Qed.
Lemma asked0_room : leaves_count (eng asked0) < M64 - 2.
Proof. vm_compute. reflexivity. Qed.
Lemma asked0_funds : funds_ok asked0.
Proof.
  split.
  - exact eng0_wf.
  - exact (eo_accounts _ eng0_ok).
  - vm_compute. discriminate.
  - vm_compute. reflexivity.
  - apply Forall_singleton. unfold amount_ok. cbn. lia.
Qed.

Lemma tx_admission_witness :
  eng (root other0 cfg0 ctx0 tx0 asked0).2 = submit ctx0 i0 (eng asked0) /\ 0 < tp_AmountMas i0.
Proof.
  destruct (tx_admission other0 cfg0 ctx0 tx0 asked0 eq_refl) as [E Had]. rewrite read_tx0 in E.
  assert (Hadm : admitted cfg0 ctx0 tx0 asked0 i0 = true) by (vm_compute; reflexivity).
  rewrite Hadm in E. split; [exact E|]. exact (proj1 (proj2 (Had i0 read_tx0 Hadm))).
Defined.
Lemma reads_only_witness : led (eng (root other0 cfg0 ctx0 list0 asked0).2) = led (eng asked0).
Proof. exact (proj1 (reads_only other0 other0_reader cfg0 ctx0 list0 asked0 ltac:(done))). Defined.
Lemma root_refines_witness : engine_ok (eng (root other0 cfg0 ctx0 tx0 asked0).2).
Proof. exact (proj2 (root_refines other0 other0_reader cfg0 ctx0 tx0 asked0 asked0_room) eng0_ok). Defined.
Lemma requests_conserve_witness :
  supply_of (root other0 cfg0 ctx0 approve0 (root other0 cfg0 ctx0 tx0 asked0).2).2 = supply_of asked0.
Proof.
  refine (proj2 (requests_conserve other0 other0_reader cfg0 asked0 _ _ asked0_funds)).
  exact (rtc_l _ _ _ _ (handled_root other0 cfg0 ctx0 tx0 asked0)
    (rtc_once _ _ (handled_root other0 cfg0 ctx0 approve0 (root other0 cfg0 ctx0 tx0 asked0).2))).
Defined.
(** The submission of [tx0] with the nonce -1. *)
Definition minus0 : request := post0 "/tx" (pay_body 1000 10 (-1)).
Lemma tx_typed_witness :
  payable (transfer_of i0) /\
  (precheck_errs 25 0 (with_nonce (-1) i0) = [] /\ t_Nonce (transfer_of (with_nonce (-1) i0)) = 2 ^ 64 - 1).
Proof.
  split; [|split].
  - pose proof (proj1 (proj2 (tx_typed 25 0 (rq_Body tx0) i0 read_tx0)) eq_refl) as (_ & _ & _ & _ & Hp). exact Hp.
  - etransitivity; [exact (proj1 (proj2 (proj2 (proj2 (tx_typed 25 0 (rq_Body tx0) i0 read_tx0)))) (-1))|].
    vm_compute. reflexivity.
  - assert (Hr : read_txPre (rq_Body minus0) = Some (with_nonce (-1) i0)) by (vm_compute; reflexivity).
    etransitivity; [exact (proj1 (proj2 (proj1 (proj2 (proj2 (tx_typed 25 0 (rq_Body minus0) _ Hr))))))|].
    vm_compute. reflexivity.
Defined.
(** A signature header without the key that is needed to check it. *)
Definition signed_tx0 : request :=
  mkRequest "POST" "/tx" [] [("X-PubKey", "AAAA"); ("X-Sig", "AAAA")] (rq_Body tx0) "127.0.0.1:5000".
Lemma bad_signature_is_ok_witness : (root other0 cfg0 ctx0 signed_tx0 asked0).2 = incBadSigJSON asked0.
Proof.
  exact (f_equal snd (bad_signature_is_ok other0 cfg0 ctx0 signed_tx0 asked0 i0 eq_refl read_tx0
    ltac:(vm_compute; reflexivity) ltac:(vm_compute; reflexivity))).
Defined.
Definition logged0 : Node := set_eng (submit ctx0 i0 (eng asked0)) asked0.
Lemma logged0_ok : engine_ok (eng logged0).
Proof.
  pose proof root_refines_witness as Hok. by rewrite (proj1 tx_admission_witness) in Hok.
Qed.
Lemma commit_covers_all_witness :
  let e' := eng (root other0 cfg0 ctx0 commit0 logged0).2 in lastCommittedHeight (led e') = leaves_count e'.
Proof.
  pose proof (commit_covers_all other0 cfg0 ctx0 commit0 logged0 logged0_ok eq_refl eq_refl) as Hc.
  cbv zeta. destruct (root other0 cfg0 ctx0 commit0 logged0) as [o n']. exact (proj1 (proj2 Hc)).
Defined.
Definition bundle0 : RecoveryBundle :=
  match NewRecoveryBundle (Ok (c_seed ctx0)) "pw" with Ok b => b | Err _ => mkRecoveryBundle "" "" "" [] end.
Definition create0 : request := post0 "/wallet/create" [("passphrase", JStr " pw")].
Definition restore0 : request :=
  post0 "/wallet/restore" [("mnemonic", JStr (rec_Mnemonic bundle0)); ("passphrase", JStr " pw")].
Lemma wallet_roundtrip_witness : walletRestoreHandler restore0 asked0 =
  done (Encode (gomap [("ok", JBool true); ("algo", JStr "ed25519"); ("pubkey_hex", JStr (rec_PubKeyHex bundle0))])
    (setSensitiveNoStoreHeaders bw_new)) asked0.
Proof.
  refine (proj1 (proj2 (wallet_roundtrip ctx0 create0 restore0 asked0 bundle0 " pw" eq_refl _ _ _ _ eq_refl _))).
  - vm_compute. reflexivity.
  - vm_compute. reflexivity.
  - vm_compute. discriminate.
  - vm_compute. reflexivity.
  - vm_compute. reflexivity.
Defined.
Lemma min_fee_exact_witness : 1 <= minFeeMas 1000 25.
Proof. exact (proj1 (proj1 (min_fee_exact 1000 25 ltac:(lia) ltac:(lia) ltac:(lia)))). Defined.
Lemma separated0 : separated i0.
Proof. split; unfold in_i64; cbn; lia || reflexivity. Qed.
Lemma commitment_binding_witness : payload i0 = payload i0 \/
  (commit_text i0 <> commit_text i0 /\ sha256 (to_bytes (commit_text i0)) = sha256 (to_bytes (commit_text i0))).
Proof. exact (commitment_binding i0 i0 separated0 separated0 eq_refl). Defined.
Definition ctx_alias : Ctx :=
  mkCtx r2p_env 100 101 "1970-01-01T00:01:40Z" (take 8 (h32 3)) true true SaveOk
    (Some (json_marshal (JObj [("bob", JStr "tho1bob")]))) None
    (fun _ => false) (fun _ _ => false) 9 ("go1.22", "linux", "amd64") (h32 5) 12 4000000.
Lemma alias_never_resolves_witness : resolveAddressMaybeAlias (c_alias ctx_alias) "@bob" = None.
Proof.
  refine (proj1 (alias_never_resolves ctx_alias "@bob" _ eq_refl)). intros m Hm.
  assert (E : alias_file (c_alias ctx_alias) = Some {["bob" := "tho1bob"]}) by (vm_compute; reflexivity).
  rewrite E in Hm. injection Hm as <-. by apply map_Forall_singleton.
Defined.
End Witnesses.
