(* ===== verification/Concurrent.v ===== *)
(** * Requests served at the same time.

    net/http runs every request in a goroutine of its own.  A handler holds a mutex only
    for single accesses, so requests interleave: here each is a program of the accesses
    its handler makes, every one atomic under its lock, and a system is a list of such
    programs over one node.  In particular [Engine.ApplyTransfer] holds no lock of the
    engine: it changes the database, takes a snapshot and writes the state file in three
    accesses.  ([CommitRound] holds the engine's lock throughout and looks at the accounts
    once, for the state root, so it is one access; writing a file is taken to be one too.) *)
From S2P Require Export RouterSpec.

(** ** [Engine.ApplyTransfer] *)
Inductive apply_pc :=
  | EA_apply
  | EA_snapshot
  | EA_write (m : gmap string Account)
  | EA_done (r : result unit).
Definition write_state (m : gmap string Account) (e : Engine) : Engine :=
  set_files (mkFiles (f_state_v1 (files e)) (Some (json_marshal (snapshot_json m))) (f_ledger (files e))
               (f_key (files e))) e.

Section Threads.
Context `{GoRuntime, GoSort, Blake3, Cbor, Ed25519, GoFloat, WalletKdf}.

Definition apply_step (fa wr : bool) (t : Transfer) (pc : apply_pc) : St Engine apply_pc := fun e =>
  match pc with
  | EA_apply =>
      let '(handled, err) :=
        if fa && bool_decide (t_To t = aliasSys)
        then tryApplyAliasSetTx t (i64 (CurrentHeight e)) else (false, Ok tt) in
      if handled : bool then
        match err with Err r => (EA_done (Err r), e) | Ok _ => (EA_snapshot, e) end
      else
        match ApplyTransfer (t_From t) (t_To t) (t_AmountMas t) (t_FeeMas t) (t_Nonce t) (db e) with
        | (Err r, d) => (EA_done (Err r), set_db d e)
        | (Ok _, d) => (EA_snapshot, set_db d e)
        end
  | EA_snapshot => (EA_write (Snapshot (db e)), e)
  | EA_write m => if wr then (EA_done (Ok tt), write_state m e) else (EA_done (Err "write"), e)
  | EA_done r => (EA_done r, e)
  end.

(** ** [POST /tx] *)
Inductive tx_pc :=
  | TX_begin
  | TX_apply (t : Transfer) (pc : apply_pc)
  | TX_receipt (t : Transfer)
  | TX_reject (t : Transfer) (reason : string)
  | TX_done (o : outcome response).
(** What [txPostHandler] answers goes through [jsonizeSigErrors]. *)
Definition tx_reply (rq : request) (w : bufferingWriter) : St Node tx_pc := fun n =>
  let '(o, n) := jsonizeSigErrors (fun _ n => (Replied w, n)) rq n in (TX_done o, n).
Definition tx_step (cfg : Config) (c : Ctx) (rq : request) (pc : tx_pc) : St Node tx_pc := fun n =>
  match pc with
  | TX_begin =>
      let refused := let '(o, n) := tx_chain cfg c (fun _ n => (Panicked, n)) rq n in (TX_done o, n) in
      match read_txPre (rq_Body rq) with
      | Some i => if admitted cfg c rq n i then (TX_apply (transfer_of i) EA_apply, n) else refused
      | None => refused
      end
  | TX_apply t pc =>
      let '(pc, n) := on_eng (apply_step (flag c "THOMAS_FEAT_ALIAS") (c_wr_state c) t pc) n in
      (match pc with
       | EA_done (Ok _) => TX_receipt t
       | EA_done (Err e) => TX_reject t ("apply:" +:+ e)
       | pc => TX_apply t pc
       end, n)
  | TX_reject t reason =>
      let '(rc, n) := on_eng (StoreReceipt (c_now c) (c_wr_ledger c) t false reason) n in
      tx_reply rq (fail StatusBadRequest (gomap [("ok", JBool false); ("applied", JBool false);
                     ("reason", JStr reason); ("receipt", receipt_json rc)])) n
  | TX_receipt t =>
      let '(rc, n) := on_eng (StoreReceipt (c_now c) (c_wr_ledger c) t true "") n in
      tx_reply rq (ok_json (gomap [("ok", JBool true); ("applied", JBool true); ("receipt", receipt_json rc)])) n
  | TX_done o => (TX_done o, n)
  end.

(** ** [/r2p/approve], with its transfer in three accesses *)
Inductive ap_pc :=
  | AP_at (pc : approve_pc)
  | AP_saving (id : string) (l : loc) (t : Transfer) (pc : apply_pc).
Definition approve_after (c : Ctx) (rq : request) (id : string) (l : loc) (t : Transfer) (r : result unit)
    (n : Node) : approve_pc :=
  match r with
  | Ok _ => AP_receipt id l t
  | Err e =>
      let reason := "apply:" +:+ e in
      if devFreeR2PEnabled c rq && isInsufficientFunds e reason
      then AP_mark id l ("dev-" +:+ rp_ID (default r2p_zero (r2p_heap n !! l)))
      else AP_reject t reason
  end.
Definition ap_save (c : Ctx) (rq : request) (id : string) (l : loc) (t : Transfer) (pc : apply_pc)
    : St Node ap_pc := fun n =>
  let '(pc, n) := on_eng (apply_step (flag c "THOMAS_FEAT_ALIAS") (c_wr_state c) t pc) n in
  (match pc with EA_done r => AP_at (approve_after c rq id l t r n) | pc => AP_saving id l t pc end, n).
Definition ap_step (cfg : Config) (c : Ctx) (rq : request) (pc : ap_pc) : St Node ap_pc := fun n =>
  match pc with
  | AP_at (AP_apply id l t) => ap_save c rq id l t EA_apply n
  | AP_saving id l t pc => ap_save c rq id l t pc n
  | AP_at pc => let '(pc, n) := approve_step cfg c rq pc n in (AP_at pc, n)
  end.

(** ** Requests in progress *)

(** Handlers that make one access and need no steps. *)
Inductive single := S_create | S_commit | S_account | S_nonce | S_get | S_list.
Definition single_handler (s : single) (c : Ctx) : Handler :=
  match s with
  | S_create => r2p_create c | S_commit => round_commit c | S_account => account | S_nonce => nonce
  | S_get => r2p_get_handler | S_list => r2pListHandlerOpaque c
  end.
Inductive thread :=
  | T_tx (cfg : Config) (c : Ctx) (rq : request) (pc : tx_pc)
  | T_approve (cfg : Config) (c : Ctx) (rq : request) (pc : ap_pc)
  | T_close (k : close_kind) (c : Ctx) (rq : request) (pc : close_pc)
  | T_single (s : single) (c : Ctx) (rq : request) (o : option (outcome bufferingWriter)).
Definition thread_step (th : thread) : St Node thread := fun n =>
  match th with
  | T_tx cfg c rq pc => let '(pc, n) := tx_step cfg c rq pc n in (T_tx cfg c rq pc, n)
  | T_approve cfg c rq pc => let '(pc, n) := ap_step cfg c rq pc n in (T_approve cfg c rq pc, n)
  | T_close k c rq pc => let '(pc, n) := close_step k c rq pc n in (T_close k c rq pc, n)
  | T_single s c rq _ => let '(o, n) := single_handler s c rq n in (T_single s c rq (Some o), n)
  end.
(** It takes no further step: it has its outcome, which is [Blocked] when it has come to a
    lock that a panic left locked, and never a reply then. *)
Definition finished (th : thread) : bool :=
  match th with
  | T_tx _ _ _ (TX_done _) | T_approve _ _ _ (AP_at (AP_done _)) | T_close _ _ _ (CL_done _)
  | T_single _ _ _ (Some _) => true
  | _ => false
  end.
(** A request that has just arrived. *)
Definition arrived (th : thread) : Prop :=
  match th with
  | T_tx _ _ rq pc => is_tx rq = true /\ pc = TX_begin
  | T_approve _ _ _ pc => pc = AP_at AP_begin
  | T_close _ _ _ pc => pc = CL_begin
  | T_single _ _ _ o => o = None
  end.
(** The transfer that the next step would apply, and what it applies. *)
Definition next_transfer (th : thread) : option Transfer :=
  match th with
  | T_tx _ _ _ (TX_apply t EA_apply) => Some t
  | T_approve _ _ _ (AP_at (AP_apply _ _ t)) | T_approve _ _ _ (AP_saving _ _ t EA_apply) => Some t
  | _ => None
  end.
Definition pays (th : thread) (n : Node) : list Transfer :=
  match next_transfer th with
  | Some t => if is_ok (ApplyTransfer (t_From t) (t_To t) (t_AmountMas t) (t_FeeMas t) (t_Nonce t) (db (eng n))).1
              then [t] else []
  | None => []
  end.
(** Any unfinished request makes its next step; with what it pays by it. *)
Inductive moves : list (nat * Transfer) -> list thread * Node -> list thread * Node -> Prop :=
  | moves_at i th js n : js !! i = Some th -> finished th = false ->
      moves (pair i <$> pays th n) (js, n) (<[i := (thread_step th n).1]> js, (thread_step th n).2).
(** A run collects which requests have applied which transfers, in their order. *)
Inductive runs (s : list thread * Node) : list (nat * Transfer) -> list thread * Node -> Prop :=
  | runs_none : runs s [] s
  | runs_next tr s1 ev s2 : runs s tr s1 -> moves ev s1 s2 -> runs s (tr ++ ev) s2.
(** A schedule names the request that moves. *)
Fixpoint run_threads (sched : list nat) (s : list thread * Node) : list thread * Node :=
  match sched with
  | [] => s
  | i :: sched =>
      match s.1 !! i with
      | Some th => if finished th then run_threads sched s
                   else run_threads sched (<[i := (thread_step th s.2).1]> s.1, (thread_step th s.2).2)
      | None => run_threads sched s
      end
  end.
(** One request making its steps without interruption. *)
Definition alone_step (s s' : thread * Node) : Prop := finished s.1 = false /\ thread_step s.1 s.2 = s'.
End Threads.

(** ** Alone, a program is its handler *)
Section Alone.
Context `{GoRuntime, GoSort, Blake3, Cbor, Ed25519, GoFloat, WalletKdf}.

Lemma no_alias_tx (fa : bool) (t : Transfer) e :
  (if fa && bool_decide (t_To t = aliasSys) then tryApplyAliasSetTx t (i64 (CurrentHeight e)) else (false, Ok tt))
  = (false, Ok tt).
Proof. unfold tryApplyAliasSetTx. by destruct (fa && _). Qed.
(** The three accesses of [Engine.ApplyTransfer], uninterrupted. *)
Lemma apply_alone fa wr t e :
  let '(pc, e1) := apply_step fa wr t EA_apply e in
  let '(pc, e2) := apply_step fa wr t pc e1 in
  let '(pc, e3) := apply_step fa wr t pc e2 in
  (pc, e3) = let '(r, e') := Engine_ApplyTransfer fa wr t e in (EA_done r, e').
Proof.
  cbn [apply_step]. unfold Engine_ApplyTransfer. rewrite no_alias_tx.
  destruct (ApplyTransfer _ _ _ _ _ (db e)) as [[u|x] d]; [|done]. cbn. unfold saveStateMas. by destruct wr.
Qed.

(** The checks pass an admitted submission on unchanged and answer all others themselves. *)
Lemma sig_pass cfg rq i mux : is_tx rq = true -> read_txPre (rq_Body rq) = Some i -> sig_ok cfg rq i = true ->
  forall n, precheckSig cfg mux rq n = mux rq n.
Proof.
  intros Ht Hi Hs n. unfold precheckSig, sig_ok in *. rewrite Ht, Hi. cbv zeta.
  rewrite body_sig_code. destruct (_ || _); [by destruct (must_sig cfg)|].
  destruct (b64_decode false (Header_Get "X-PubKey" rq)) as [pk|]; [|done].
  destruct (b64_decode false (body_sig rq i)) as [sg|]; [|done].
  apply andb_true_iff in Hs as [[-> ->]%andb_true_iff ->]. done.
Qed.
Lemma from_pass cfg pubs rq i mux : is_tx rq = true -> read_txPre (rq_Body rq) = Some i ->
  from_ok cfg pubs rq i = true -> forall n, precheckFromBindingWith cfg pubs mux rq n = mux rq n.
Proof.
  intros Ht Hi Hs n. unfold precheckFromBindingWith, from_ok, verifyFromBindingReflect in *. rewrite Ht, Hi.
  destruct (bool_decide _); [by destruct (must_from cfg)|].
  destruct (b64_decode _ _) as [pk|]; [|done]. apply andb_true_iff in Hs as [-> ->]. done.
Qed.
Lemma commit_pass cfg rq i mux : is_tx rq = true -> read_txPre (rq_Body rq) = Some i -> commit_ok cfg i = true ->
  forall n, precheckCommit cfg mux rq n = mux rq n.
Proof.
  intros Ht Hi Hs n. unfold precheckCommit, commit_ok in *. rewrite Ht, Hi.
  pose proof (calcCommit_nonempty i) as Hne. destruct (bool_decide_reflect (tp_MsgCommitment i = "")) as [E|E].
  - destruct (must_commit cfg); [|done]. apply bool_decide_eq_true in Hs. congruence.
  - destruct (must_commit cfg); [|done]. cbn [negb orb andb] in *. by rewrite Hs.
Qed.
Lemma chain_pass cfg c mux rq n i : is_tx rq = true -> read_txPre (rq_Body rq) = Some i ->
  admitted cfg c rq n i = true -> tx_chain cfg c mux rq n = jsonizeSigErrors mux rq n.
Proof.
  intros Ht Hi Had. unfold admitted in Had. rewrite !andb_true_iff in Had. destruct Had as [[[Hp Hs] Hf] Hc].
  unfold tx_chain, debuglogRateLimit, txPrecheckWith, withJSONErrorFallback. rewrite Ht, Hi, Hp.
  unfold jsonizeSigErrors. rewrite (sig_pass cfg rq i _ Ht Hi Hs), (from_pass cfg (c_pubs c) rq i _ Ht Hi Hf).
  by rewrite (commit_pass cfg rq i _ Ht Hi Hc).
Qed.
Lemma commit_refuse cfg rq i mux mux' n : read_txPre (rq_Body rq) = Some i -> commit_ok cfg i = false ->
  is_tx rq = true -> precheckCommit cfg mux rq n = precheckCommit cfg mux' rq n.
Proof.
  intros Hi Hs Ht. unfold precheckCommit, commit_ok in *. rewrite Ht, Hi.
  apply orb_false_iff in Hs as [Hm Hb]. apply negb_false_iff in Hm. rewrite Hm, Hb. by case_bool_decide.
Qed.
Lemma from_refuse cfg pubs rq i mux mux' n : read_txPre (rq_Body rq) = Some i -> from_ok cfg pubs rq i = false ->
  is_tx rq = true -> precheckFromBindingWith cfg pubs mux rq n = precheckFromBindingWith cfg pubs mux' rq n.
Proof.
  intros Hi Hs Ht. unfold precheckFromBindingWith, from_ok, verifyFromBindingReflect in *. rewrite Ht, Hi.
  destruct (bool_decide _) eqn:E; [apply negb_false_iff in Hs; by rewrite Hs|].
  destruct (b64_decode _ _) as [pk|]; [|done]. revert Hs.
  by destruct (bool_decide (length pk = 32%nat)), (VerifyFromBinding _ _ _).
Qed.
Lemma sig_refuse cfg rq i mux mux' n : read_txPre (rq_Body rq) = Some i -> sig_ok cfg rq i = false ->
  is_tx rq = true -> precheckSig cfg mux rq n = precheckSig cfg mux' rq n.
Proof.
  intros Hi Hs Ht.
  unfold precheckSig, sig_ok in *. rewrite Ht, Hi. cbv zeta in *.
  rewrite body_sig_code. destruct (_ || _); [apply negb_false_iff in Hs; by rewrite Hs|].
  destruct (b64_decode false (Header_Get "X-PubKey" rq)) as [pk|]; [|done].
  destruct (b64_decode false (body_sig rq i)) as [sg|]; [|done].
  revert Hs. by destruct (bool_decide (length pk = 32%nat)), (bool_decide (length sg = 64%nat)), (ed_verify _ _ _).
Qed.
Lemma chain_refuse cfg c mux mux' rq n : is_tx rq = true ->
  match read_txPre (rq_Body rq) with Some i => admitted cfg c rq n i = false | None => True end ->
  tx_chain cfg c mux rq n = tx_chain cfg c mux' rq n.
Proof.
  intros Ht. unfold tx_chain, debuglogRateLimit, txPrecheckWith, withJSONErrorFallback. rewrite Ht.
  destruct (read_txPre (rq_Body rq)) as [i|] eqn:Hi; [|done]. unfold admitted.
  destruct (bool_decide _); [|done]. cbn [andb]. intros Had. unfold jsonizeSigErrors.
  destruct (sig_ok cfg rq i) eqn:Hs; [|by erewrite sig_refuse]. rewrite !(sig_pass cfg rq i _ Ht Hi Hs).
  destruct (from_ok cfg (c_pubs c) rq i) eqn:Hf; [|by erewrite from_refuse].
  rewrite !(from_pass cfg (c_pubs c) rq i _ Ht Hi Hf). by erewrite commit_refuse.
Qed.

Lemma alone_next th n th' n' s : finished th = false -> thread_step th n = (th', n') ->
  rtc alone_step (th', n') s -> rtc alone_step (th, n) s.
Proof. intros Hf Hs Hr. by eapply rtc_l; [split; [exact Hf|exact Hs]|]. Qed.
Lemma alone_same a b n s : finished a = false -> finished b = false -> finished s.1 = true ->
  thread_step a n = thread_step b n -> rtc alone_step (a, n) s -> rtc alone_step (b, n) s.
Proof.
  intros Ha Hb Hs E Hr. apply rtc_inv in Hr as [<-|(s1 & [_ Hstep] & Hr)]; [cbn in Hs; congruence|].
  eapply rtc_l; [|exact Hr]. split; [exact Hb|]. cbn in *. by rewrite <- E.
Qed.
(** A thread at its transfer runs the engine's method and goes on with the result; [at_] is
    the thread at a step of the method and [after] at its end. *)
Lemma saving_alone (fa wr : bool) t (at_ : apply_pc -> thread) (after : result unit -> Node -> thread) n s :
  (forall pc, finished (at_ pc) = false) ->
  (forall pc n, thread_step (at_ pc) n =
     let '(pc, n) := on_eng (apply_step fa wr t pc) n in
     (match pc with EA_done r => after r n | pc => at_ pc end, n)) ->
  (let '(r, n') := on_eng (Engine_ApplyTransfer fa wr t) n in rtc alone_step (after r n', n') s) ->
  rtc alone_step (at_ EA_apply, n) s.
Proof.
  intros Hf Hs. unfold on_eng, Engine_ApplyTransfer in *. rewrite no_alias_tx.
  destruct (ApplyTransfer _ _ _ _ _ (db (eng n))) as [[u|x] d] eqn:E; intros Hr.
  - eapply alone_next; [done|rewrite Hs; cbn [apply_step]; rewrite no_alias_tx, E; reflexivity|].
    eapply alone_next; [done|rewrite Hs; reflexivity|]. cbn [eng set_eng] in *. unfold saveStateMas in Hr.
    destruct wr; (eapply alone_next; [done|rewrite Hs; reflexivity|exact Hr]).
  - eapply alone_next; [done|rewrite Hs; cbn [apply_step]; rewrite no_alias_tx, E; reflexivity|exact Hr].
Qed.

Lemma jsonize_reply (mux : Handler) rq n w n' : mux rq n = (Replied w, n') ->
  jsonizeSigErrors mux rq n = jsonizeSigErrors (fun _ n => (Replied w, n)) rq n'.
Proof. intros E. unfold jsonizeSigErrors. by rewrite E. Qed.
Lemma tx_alone (other : Handler) cfg c rq n : is_tx rq = true ->
  let '(o, n') := root other cfg c rq n in
  rtc alone_step (T_tx cfg c rq TX_begin, n) (T_tx cfg c rq (TX_done o), n').
Proof.
  intros Ht. destruct (root other cfg c rq n) as [o n'] eqn:Er. unfold root in Er.
  pose proof (chain_refuse cfg c (mux other cfg c) (fun _ n => (Panicked, n)) rq n Ht) as Href.
  destruct (read_txPre (rq_Body rq)) as [i|] eqn:Hi; [destruct (admitted cfg c rq n i) eqn:Had|].
  2, 3: rewrite Href in Er by done; (eapply alone_next; [done| |apply rtc_refl]);
    cbn [thread_step tx_step]; rewrite Hi, ?Had, Er; reflexivity.
  rewrite (chain_pass cfg c _ rq n i Ht Hi Had) in Er.
  eapply alone_next; [done|cbn [thread_step tx_step]; rewrite Hi, Had; reflexivity|].
  apply (saving_alone (flag c "THOMAS_FEAT_ALIAS") (c_wr_state c) (transfer_of i)
    (fun pc => T_tx cfg c rq (TX_apply (transfer_of i) pc))
    (fun r _ => T_tx cfg c rq (match r with Ok _ => TX_receipt (transfer_of i)
       | Err e => TX_reject (transfer_of i) ("apply:" +:+ e) end))); [done| |].
  { intros pc m. cbn [thread_step tx_step]. by destruct (on_eng _ m) as [[| | |[]] m']. }
  pose proof (mux_tx other cfg c rq n Ht) as Em. unfold txPostHandler in Em. rewrite (is_tx_post rq Ht), Hi in Em.
  change (negb (String.eqb "POST" "POST")) with false in Em. cbn iota zeta in Em.
  destruct (on_eng (Engine_ApplyTransfer _ _ _) n) as [[u|e] n1];
    (eapply alone_next; [done| |apply rtc_refl]); cbn [thread_step tx_step];
    destruct (on_eng (StoreReceipt _ _ _ _ _) n1) as [rc n2]; apply jsonize_reply in Em;
    rewrite Em in Er; unfold tx_reply; by rewrite Er.
Qed.
Lemma approve_alone cfg c rq k pc n : (approve_rank pc <= k)%nat ->
  let '(o, n') := approve_run k cfg c rq pc n in
  rtc alone_step (T_approve cfg c rq (AP_at pc), n) (T_approve cfg c rq (AP_at (AP_done (default Panicked o))), n').
Proof.
  revert pc n. induction k as [|k IH]; intros pc n Hr; [destruct pc; cbn in Hr; try lia; apply rtc_refl|].
  destruct (Nat.eq_dec (approve_rank pc) 0%nat) as [E|Hne]; [destruct pc; cbn in E; try lia; apply rtc_refl|].
  rewrite approve_run_next by (intros o ->; by apply Hne).
  pose proof (approve_step_rank cfg c rq pc n ltac:(lia)) as Hlt.
  assert (Hgo : forall pc' n', approve_step cfg c rq pc n = (pc', n') ->
    let '(o, n2) := approve_run k cfg c rq pc' n' in
    rtc alone_step (T_approve cfg c rq (AP_at pc'), n') (T_approve cfg c rq (AP_at (AP_done (default Panicked o))), n2)).
  { intros pc' n' E. apply IH. rewrite E in Hlt. cbn in Hlt. lia. }
  destruct (approve_step cfg c rq pc n) as [pc' n'] eqn:E. specialize (Hgo pc' n' eq_refl).
  destruct (approve_run k cfg c rq pc' n') as [o n2].
  destruct pc; try by (eapply alone_next; [done|cbn [thread_step ap_step]; rewrite E; reflexivity|exact Hgo]).
  apply (alone_same (T_approve cfg c rq (AP_saving id l t EA_apply))); [done..|].
  apply (saving_alone (flag c "THOMAS_FEAT_ALIAS") (c_wr_state c) t
    (fun pc => T_approve cfg c rq (AP_saving id l t pc))
    (fun r n => T_approve cfg c rq (AP_at (approve_after c rq id l t r n)))); [done| |].
  { intros pc m. cbn [thread_step ap_step]. unfold ap_save. by destruct (on_eng _ m) as [[| | |r] m']. }
  rewrite approve_apply_step in E. destruct (on_eng _ n) as [r m].
  unfold approve_after. destruct r as [u|e]; [|destruct (_ && _)]; by injection E as <- <-.
Qed.

(** C5: refinement: the program of a submission, run without interruption, is the handler that
    is served: from any node it ends with the reply and the node of [root]; likewise the
    program of an approval ends with those of [r2p_approve]. *)
Theorem alone_is_handler (other : Handler) (cfg : Config) (c : Ctx) (rq : request) (n : Node) :
  (is_tx rq = true -> let '(o, n') := root other cfg c rq n in
     rtc alone_step (T_tx cfg c rq TX_begin, n) (T_tx cfg c rq (TX_done o), n')) /\
  (let '(o, n') := r2p_approve cfg c rq n in
     rtc alone_step (T_approve cfg c rq (AP_at AP_begin), n) (T_approve cfg c rq (AP_at (AP_done o)), n')).
Proof.
  split; [apply tx_alone|]. unfold r2p_approve. pose proof (approve_alone cfg c rq 5 AP_begin n ltac:(done)) as Ha.
  by destruct (approve_run 5 cfg c rq AP_begin n).
Qed.
End Alone.

(** ** Termination *)
Section Termination.
Context `{GoRuntime, GoSort, Blake3, Cbor, Ed25519, GoFloat, WalletKdf}.

Lemma on_eng_fst {A} (m : St Engine A) n : (on_eng m n).1 = (m (eng n)).1.
Proof. unfold on_eng. by destruct (m (eng n)). Qed.
Lemma finished_stays js n ev s : forallb finished js = true -> ~ moves ev (js, n) s.
Proof.
  intros Hf Hm. inversion Hm as [i th js0 n0 Hi Hn]; subst. rewrite forallb_forall in Hf.
  rewrite (Hf th) in Hn; [done|]. by apply list_elem_of_In, (list_elem_of_lookup_2 _ i).
Qed.
Lemma run_threads_runs sched s : exists tr, runs s tr (run_threads sched s).
Proof.
  assert (Hg : forall tr s1, runs s tr s1 -> exists tr', runs s tr' (run_threads sched s1)).
  { induction sched as [|i sched IH]; intros tr [js n] Hr; cbn [run_threads fst snd]; [by exists tr|].
    destruct (js !! i) as [th|] eqn:Hi; [|by eapply IH]. destruct (finished th) eqn:Hf; [by eapply IH|].
    eapply IH, runs_next; [exact Hr|by apply (moves_at i th js n)]. }
  exact (Hg [] s (runs_none s)).
Qed.

(** *** Every request is answered *)

(** Nobody has left the lock of the requests locked, and no record in the store is nil. *)
Definition r2p_live (n : Node) : Prop := r2p_stuck n = false /\ map_Forall (fun _ o => o <> None) (r2p_view n).
(** What a step may do to the store: nothing is freed, and it stays free to use. *)
Definition grows (n n' : Node) : Prop :=
  r2p_live n -> r2p_live n' /\ (length (r2p_heap n) <= length (r2p_heap n'))%nat.
#[global] Instance grows_preorder : PreOrder grows.
Proof.
  split; [by intros n Hn|]. intros a b d Hab Hbd Ha. destruct (Hab Ha) as [Hb ?]. destruct (Hbd Hb) as [Hd ?].
  split; [done|lia].
Qed.






End Termination.

(** ** Invariants of every schedule *)
Section Invariant.
Context `{GoRuntime, GoSort, Blake3, Cbor, Ed25519, GoFloat, WalletKdf}.

(** What a request knows of its own progress. *)
Definition thread_ok (th : thread) : Prop :=
  match th with
  | T_tx _ _ rq pc => is_tx rq = true /\ match pc with TX_apply t _ => payable t | _ => True end
  | T_approve _ _ _ (AP_at pc) => approve_funds pc
  | T_approve _ _ _ (AP_saving _ _ t _) => payable t
  | _ => True
  end.
(** Whether it may still log a receipt. *)
Definition pending (th : thread) : nat :=
  match th with
  | T_tx _ _ _ (TX_done _) | T_approve _ _ _ (AP_at (AP_mark _ _ _ | AP_done _)) => 0
  | T_tx _ _ _ _ | T_approve _ _ _ _ => 1
  | _ => 0
  end%nat.
Lemma arrived_ok th : arrived th -> thread_ok th.
Proof.
  destruct th as [cfg c rq pc|cfg c rq pc|k c rq pc|s c rq o]; cbn; [|by intros ->|done..].
  by intros [? ->].
Qed.
Lemma pending_bound th : (pending th <= 1)%nat.
Proof. destruct th as [? ? ? []|? ? ? [[]|? ? ? []]|? ? ? []|? ? ? []]; cbn; lia. Qed.

(** An access of [ApplyTransfer] changes the database by a transfer or not at all. *)
Lemma apply_step_db fa wr t pc e : let e' := (apply_step fa wr t pc e).2 in led e' = led e /\
  db e' = match pc with
          | EA_apply => (ApplyTransfer (t_From t) (t_To t) (t_AmountMas t) (t_FeeMas t) (t_Nonce t) (db e)).2
          | _ => db e
          end.
Proof.
  destruct pc; cbn [apply_step]; [|done| |done].
  - rewrite no_alias_tx. by destruct (ApplyTransfer _ _ _ _ _ (db e)) as [[] d].
  - by destruct wr.
Qed.
Lemma apply_step_ok fa wr t pc e : engine_ok e -> engine_ok (apply_step fa wr t pc e).2.
Proof.
  intros He. destruct pc; cbn [apply_step]; [|done| |done].
  - rewrite no_alias_tx. destruct (ApplyTransfer_ledger (t_From t) (t_To t) (t_AmountMas t) (t_FeeMas t)
      (t_Nonce t) (db e) (eo_db _ He) (eo_accounts _ He)) as [Hwf Hm].
    destruct (ApplyTransfer _ _ _ _ _ (db e)) as [[u|r] d]; by apply set_db_ok.
  - destruct wr; [|done]. by destruct He; split.
Qed.
Lemma apply_step_keeps fa wr t pc n : payable t -> keeps n (on_eng (apply_step fa wr t pc) n).2.
Proof.
  intros Hp. destruct (on_eng_frame (apply_step fa wr t pc) n) as (F1 & _ & _ & F4 & _).
  pose proof (apply_step_db fa wr t pc (eng n)) as [_ Hd]. rewrite <- F4 in Hd.
  destruct pc; [by apply (transfer_keeps t)|apply keeps_db; rewrite ?Hd, ?F1; done..].
Qed.
Lemma reply_core rq w n : core (tx_reply rq w n).2 = core n.
Proof.
  unfold tx_reply. pose proof (jsonize_core (fun _ n => (Replied w, n)) rq n) as Hc.
  by destruct (jsonizeSigErrors _ rq n).
Qed.
Lemma reply_done rq w n : exists o, (tx_reply rq w n).1 = TX_done o.
Proof. unfold tx_reply. destruct (jsonizeSigErrors _ rq n). by eexists. Qed.
(** The first step of a submission changes nothing but a counter. *)
Lemma tx_begin cfg c rq n : is_tx rq = true -> let '(pc, n') := tx_step cfg c rq TX_begin n in
  core n' = core n /\ match pc with
    | TX_apply t EA_apply => payable t
    | TX_done _ => True
    | _ => False
    end.
Proof.
  intros Ht. cbn [tx_step]. pose proof (tx_chain_core cfg c (fun _ n => (Panicked, n)) rq n Ht) as Hc.
  destruct (read_txPre (rq_Body rq)) as [i|] eqn:Hi; [destruct (admitted cfg c rq n i) eqn:Had|];
    [|by destruct (tx_chain _ _ _ _ n)..].
  split; [done|]. unfold admitted in Had. rewrite !andb_true_iff in Had. destruct Had as [[[Hp _] _] _].
  apply bool_decide_eq_true in Hp. destruct (read_txPre_range _ _ Hi) as (Ra & _ & _).
  destruct (precheck_ok _ _ i Ra Hp) as (_ & Ha & Hf & _). unfold in_i64 in Ra.
  pose proof (minFeeMas_range (tp_AmountMas i) (feeBps cfg)) as Hm. unfold in_u64 in Hm.
  eapply tx_payable; [done|done|lia].
Qed.
Lemma single_keeps s c rq n : keeps n (single_handler s c rq n).2.
Proof.
  destruct s; cbn [single_handler]; [apply create_keeps| |apply quiet_keeps..].
  - unfold round_commit. destruct (negb _); [done|]. pose proof (commit_keeps c n) as Hk.
    by destruct (on_eng _ n) as [[|] n'].
  - apply account_reader.
  - apply nonce_reader.
  - apply r2p_get_reader.
  - apply r2p_list_reader.
Qed.
Lemma close_step_keeps k c rq pc n : keeps n (close_step k c rq pc n).2.
Proof.
  destruct pc; [| |done].
  - pose proof (close_step_begin k c rq n) as Hb. destruct (close_step k c rq CL_begin n) as [pc n1].
    destruct Hb as (Eh & Ee & _ & _). cbn [snd]. by apply keeps_db; rewrite ?Ee, ?Eh.
  - cbn [close_step]. destruct (r2p_stuck n); [done|]. cbn [snd r2p_put]. apply set_asked_keeps.
    intros Hh. apply Forall_insert; [done|]. pose proof (heap_amount n l Hh). by destruct k.
Qed.
Lemma ap_save_keeps c rq id l t pc n : payable t -> let '(pc', n') := ap_save c rq id l t pc n in
  keeps n n' /\ match pc' with AP_at pc => approve_funds pc | AP_saving _ _ t _ => payable t end.
Proof.
  intros Hp. unfold ap_save. pose proof (apply_step_keeps (flag c "THOMAS_FEAT_ALIAS") (c_wr_state c) t pc n Hp) as Hk.
  destruct (on_eng _ n) as [pc' n']. cbn [snd] in Hk. destruct pc' as [| | |r]; (split; [exact Hk|]); try done.
  unfold approve_after. destruct r; [done|]. by destruct (_ && _).
Qed.
Lemma tx_receipt_keeps cfg c rq pc n : is_tx rq = true ->
  (exists t reason, pc = TX_reject t reason) \/ (exists t, pc = TX_receipt t) ->
  keeps n (thread_step (T_tx cfg c rq pc) n).2 /\ thread_ok (thread_step (T_tx cfg c rq pc) n).1.
Proof.
  intros Ht Hpc.
  assert (Hw : forall w n1, keeps n n1 -> let '(pc, n') := tx_reply rq w n1 in
    keeps n n' /\ match pc with TX_apply t _ => payable t | _ => True end).
  { intros w n1 Hk. pose proof (reply_core rq w n1) as Hc. destruct (reply_done rq w n1) as [o Ho].
    destruct (tx_reply rq w n1) as [pc' n']. cbn [fst snd] in *. subst pc'.
    split; [|done]. etransitivity; [exact Hk|by apply quiet_keeps, core_quiet]. }
  destruct Hpc as [(t & reason & ->)|[t ->]]; cbn [thread_step tx_step].
  - pose proof (receipt_keeps (c_now c) (c_wr_ledger c) t false reason n) as Hk.
    destruct (on_eng _ n) as [rc n1]. match goal with |- context [tx_reply rq ?w n1] => specialize (Hw w n1 Hk) end.
    destruct (tx_reply rq _ n1) as [pc' n']. destruct Hw. by split; [|split].
  - pose proof (receipt_keeps (c_now c) (c_wr_ledger c) t true "" n) as Hk.
    destruct (on_eng _ n) as [rc n1]. match goal with |- context [tx_reply rq ?w n1] => specialize (Hw w n1 Hk) end.
    destruct (tx_reply rq _ n1) as [pc' n']. destruct Hw. by split; [|split].
Qed.
Lemma thread_step_keeps th n : thread_ok th -> funds_ok n ->
  keeps n (thread_step th n).2 /\ thread_ok (thread_step th n).1.
Proof.
  intros Hth Hn. destruct th as [cfg c rq pc|cfg c rq pc|k c rq pc|s c rq o]; cbn [thread_step].
  - destruct Hth as [Ht Hp]. destruct pc as [|t pc|t|t reason|o].
    + pose proof (tx_begin cfg c rq n Ht) as Hb. destruct (tx_step cfg c rq TX_begin n) as [pc' n'].
      destruct Hb as [Hc Hb]. split; [by apply quiet_keeps, core_quiet|]. split; [done|].
      by destruct pc' as [|? []| | |].
    + cbn [tx_step]. pose proof (apply_step_keeps (flag c "THOMAS_FEAT_ALIAS") (c_wr_state c) t pc n Hp) as Hk.
      destruct (on_eng _ n) as [pc' n']. split; [done|]. split; [done|]. by destruct pc' as [| | |[]].
    + apply tx_receipt_keeps; eauto.
    + apply tx_receipt_keeps; eauto.
    + done.
  - destruct pc as [pc|id l t pc].
    + destruct pc as [| |id l t| | | |];
        try (pose proof (ap_save_keeps c rq id l t EA_apply n Hth) as Hs; cbn [ap_step];
             destruct (ap_save _ _ _ _ _ _ n) as [[] n']; exact Hs);
        (match goal with |- context [AP_at ?pc] => pose proof (approve_step_keeps cfg c rq pc n Hth Hn) as Hs end);
        cbn [ap_step]; by destruct (approve_step cfg c rq _ n) as [pc' n'].
    + cbn [ap_step]. pose proof (ap_save_keeps c rq id l t pc n Hth) as Hs.
      by destruct (ap_save _ _ _ _ _ _ n) as [[] n'].
  - pose proof (close_step_keeps k c rq pc n) as Hk. by destruct (close_step k c rq pc n).
  - pose proof (single_keeps s c rq n) as Hk. by destruct (single_handler s c rq n).
Qed.

(** The engine's invariant and the room in the log. *)
Definition room (th : thread) (n : Node) : Prop := leaves_count (eng n) + Z.of_nat (pending th) <= M64 - 2.
Definition logs (th : thread) (n : Node) (th' : thread) (n' : Node) : Prop :=
  engine_ok (eng n') /\
  leaves_count (eng n') + Z.of_nat (pending th') <= leaves_count (eng n) + Z.of_nat (pending th).
Lemma quiet_ok n n' : quiet n n' -> engine_ok (eng n) -> engine_ok (eng n') /\ leaves_count (eng n') = leaves_count (eng n).
Proof. intros Hq He. split; [eapply steps_ok; [apply Hq|done]|]. unfold leaves_count. by rewrite (q_led _ _ Hq). Qed.
Lemma receipt_logs now wr t ok reason n : engine_ok (eng n) -> leaves_count (eng n) < M64 - 2 ->
  let n' := (on_eng (StoreReceipt now wr t ok reason) n).2 in
  engine_ok (eng n') /\ leaves_count (eng n') = leaves_count (eng n) + 1.
Proof.
  intros He Hr. cbv zeta. destruct (on_eng_frame (StoreReceipt now wr t ok reason) n) as (_ & _ & _ & -> & _).
  split; [by apply StoreReceipt_ok|]. pose proof (StoreReceipt_spec now wr t ok reason (eng n)) as Hs.
  destruct (StoreReceipt now wr t ok reason (eng n)). apply Hs.
Qed.
Lemma commit_logs now wr e : engine_ok e ->
  engine_ok (CommitRound now wr e).2 /\ leaves_count (CommitRound now wr e).2 = leaves_count e.
Proof.
  intros He. split; [by apply CommitRound_ok|]. pose proof (CommitRound_spec now wr e (eo_led e He)) as Hs.
  destruct (CommitRound now wr e) as [[h|] e']; cbn [snd].
  - destruct Hs as (_ & _ & El & _). unfold leaves_count. by rewrite El.
  - by destruct Hs as [_ ->].
Qed.
Lemma single_logs s c rq n : engine_ok (eng n) -> let n' := (single_handler s c rq n).2 in
  engine_ok (eng n') /\ leaves_count (eng n') = leaves_count (eng n).
Proof.
  intros He. cbv zeta. destruct s; cbn [single_handler]; [| |apply quiet_ok; [|done]..].
  - by rewrite (proj2 (create_cells c rq n)).
  - unfold round_commit. destruct (negb _); [done|].
    pose proof (commit_logs (c_now c) (c_wr_ledger c) (eng n) He) as Hc. unfold on_eng.
    by destruct (CommitRound _ _ (eng n)) as [[|] e'].
  - apply account_reader.
  - apply nonce_reader.
  - apply r2p_get_reader.
  - apply r2p_list_reader.
Qed.
Lemma approve_begin_eng cfg c rq n : eng (approve_step cfg c rq AP_begin n).2 = eng n.
Proof. by rewrite (proj1 (approve_begin cfg c rq n)). Qed.
Lemma apply_logs fa wr t pc n : engine_ok (eng n) -> let n' := (on_eng (apply_step fa wr t pc) n).2 in
  engine_ok (eng n') /\ leaves_count (eng n') = leaves_count (eng n).
Proof.
  intros He. cbv zeta. destruct (on_eng_frame (apply_step fa wr t pc) n) as (_ & _ & _ & -> & _).
  split; [by apply apply_step_ok|]. unfold leaves_count. by rewrite (proj1 (apply_step_db fa wr t pc (eng n))).
Qed.
Lemma ap_save_logs cfg c rq id l t pc n : engine_ok (eng n) -> let '(pc', n') := ap_save c rq id l t pc n in
  engine_ok (eng n') /\ leaves_count (eng n') + Z.of_nat (pending (T_approve cfg c rq pc')) <= leaves_count (eng n) + 1.
Proof.
  intros He. unfold ap_save. pose proof (apply_logs (flag c "THOMAS_FEAT_ALIAS") (c_wr_state c) t pc n He) as [Hk El].
  destruct (on_eng _ n) as [pc' n']. cbn [snd] in *. split; [done|]. rewrite El.
  match goal with |- context [pending ?th] => pose proof (pending_bound th) end. lia.
Qed.
Lemma approve_step_logs cfg c rq pc n : engine_ok (eng n) -> (forall id l t, pc <> AP_apply id l t) ->
  room (T_approve cfg c rq (AP_at pc)) n -> let '(pc', n') := approve_step cfg c rq pc n in
  logs (T_approve cfg c rq (AP_at pc)) n (T_approve cfg c rq (AP_at pc')) n'.
Proof.
  intros He Hne Hr. unfold room, logs in *. destruct pc; [..|done].
  - pose proof (approve_begin_eng cfg c rq n) as Ee. destruct (approve_step cfg c rq AP_begin n) as [pc' n'].
    cbn [snd] in Ee. rewrite Ee. split; [done|].
    match goal with |- context [pending (T_approve cfg c rq (AP_at pc'))] =>
      pose proof (pending_bound (T_approve cfg c rq (AP_at pc'))) end. cbn [pending] in *. lia.
  - cbn [approve_step]. destruct (quiet_ok _ _ (quiet_account payerAddr n) He) as [Hk El].
    destruct (on_eng _ n) as [a n']. cbn [snd] in *. by rewrite El.
  - by destruct (Hne id l t).
  - cbn [approve_step]. cbn [pending] in Hr.
    destruct (receipt_logs (c_now c) (c_wr_ledger c) t true "" n He ltac:(lia)) as [Hk El].
    destruct (on_eng _ n) as [a n']. cbn [snd pending] in *. split; [done|lia].
  - cbn [approve_step]. cbn [pending] in Hr.
    destruct (receipt_logs (c_now c) (c_wr_ledger c) t false reason n He ltac:(lia)) as [Hk El].
    destruct (on_eng _ n) as [a n']. cbn [snd pending] in *. split; [done|lia].
  - cbn [approve_step]. destruct (r2p_stuck n); [done|].
    rewrite (proj1 (r2pSaveLocked_frame c _)). by cbn.
Qed.
Lemma tx_receipt_logs cfg c rq t ok reason w n : engine_ok (eng n) -> leaves_count (eng n) < M64 - 2 ->
  let '(rc, n1) := on_eng (StoreReceipt (c_now c) (c_wr_ledger c) t ok reason) n in
  let '(pc, n') := tx_reply rq (w rc) n1 in
  engine_ok (eng n') /\ leaves_count (eng n') + Z.of_nat (pending (T_tx cfg c rq pc)) <= leaves_count (eng n) + 1.
Proof.
  intros He Hr. destruct (receipt_logs (c_now c) (c_wr_ledger c) t ok reason n He Hr) as [Hk El].
  destruct (on_eng _ n) as [rc n1]. pose proof (reply_core rq (w rc) n1) as Hc. destruct (reply_done rq (w rc) n1) as [o Ho].
  destruct (tx_reply rq (w rc) n1) as [pc n']. cbn [fst snd] in *. subst pc. apply core_eng in Hc. rewrite Hc.
  split; [done|]. cbn [pending]. lia.
Qed.
Lemma thread_step_logs th n : thread_ok th -> engine_ok (eng n) -> room th n ->
  logs th n (thread_step th n).1 (thread_step th n).2.
Proof.
  intros Hth He Hr. destruct th as [cfg c rq pc|cfg c rq pc|k c rq pc|s c rq o]; cbn [thread_step].
  - destruct Hth as [Ht _]. destruct pc as [|t pc|t|t reason|o]; [| | | |done].
    + pose proof (tx_begin cfg c rq n Ht) as Hb. destruct (tx_step cfg c rq TX_begin n) as [pc' n'].
      destruct Hb as [Hc%core_eng _]. unfold logs. cbn [fst snd]. rewrite Hc. split; [done|].
      pose proof (pending_bound (T_tx cfg c rq pc')). cbn [pending] in *. lia.
    + cbn [tx_step]. destruct (apply_logs (flag c "THOMAS_FEAT_ALIAS") (c_wr_state c) t pc n He) as [Hk El].
      destruct (on_eng _ n) as [pc' n']. unfold logs. cbn [fst snd] in *. rewrite El. split; [done|].
      match goal with |- context [pending (T_tx cfg c rq ?q)] => pose proof (pending_bound (T_tx cfg c rq q)) end.
      cbn [pending] in *. lia.
    + unfold room in Hr. cbn [pending] in Hr. cbn [tx_step]. unfold logs.
      pose proof (tx_receipt_logs cfg c rq t true "" (fun rc => ok_json (gomap [("ok", JBool true);
        ("applied", JBool true); ("receipt", receipt_json rc)])) n He ltac:(lia)) as Hl.
      destruct (on_eng _ n) as [rc n1]. by destruct (tx_reply rq _ n1).
    + unfold room in Hr. cbn [pending] in Hr. cbn [tx_step]. unfold logs.
      pose proof (tx_receipt_logs cfg c rq t false reason (fun rc => fail StatusBadRequest (gomap [("ok", JBool false);
        ("applied", JBool false); ("reason", JStr reason); ("receipt", receipt_json rc)])) n He ltac:(lia)) as Hl.
      destruct (on_eng _ n) as [rc n1]. by destruct (tx_reply rq _ n1).
  - destruct pc as [pc|id l t pc].
    + destruct pc as [| |id l t| | | |];
        try (pose proof (ap_save_logs cfg c rq id l t EA_apply n He) as Hs; cbn [ap_step];
             by destruct (ap_save _ _ _ _ _ _ n));
        (match goal with |- context [AP_at ?pc] => pose proof (approve_step_logs cfg c rq pc n He ltac:(done) Hr) as Hs end);
        cbn [ap_step]; by destruct (approve_step cfg c rq _ n) as [pc' n'].
    + cbn [ap_step]. pose proof (ap_save_logs cfg c rq id l t pc n He) as Hs. by destruct (ap_save _ _ _ _ _ _ n).
  - assert (Ee : eng (close_step k c rq pc n).2 = eng n).
    { destruct pc; [|by cbn; destruct (r2p_stuck n)|done]. pose proof (close_step_begin k c rq n) as Hb.
      destruct (close_step k c rq CL_begin n). by destruct Hb as (_ & Ee & _). }
    destruct (close_step k c rq pc n) as [pc' n']. unfold logs. cbn [fst snd] in *. by rewrite Ee.
  - pose proof (single_logs s c rq n He) as Hs. destruct (single_handler s c rq n) as [o' n']. unfold logs.
    cbn [fst snd pending] in *. destruct Hs as [? ->]. by split.
Qed.
Lemma tx_log_done cfg c rq pc n : match pc with TX_receipt _ | TX_reject _ _ => True | _ => False end ->
  exists o, (tx_step cfg c rq pc n).1 = TX_done o.
Proof. destruct pc; try done; intros _; cbn [tx_step]; destruct (on_eng _ n); apply reply_done. Qed.
End Invariant.
(** A submission that logs its receipt is finished by the same step. *)
Ltac tx_logs := match goal with |- context [tx_step ?cfg ?c ?rq ?pc ?n] => let o := fresh "o" in let Ho := fresh "Ho" in
  destruct (tx_log_done cfg c rq pc n I) as [o Ho]; destruct (tx_step cfg c rq pc n); cbn [fst] in *; by subst end.

(** ** The ledger under every schedule *)

(** Two ledgers agree when every address has the same balance and nonce. *)
#[local] Instance ledger_equiv : Equiv (gmap string Account) | 0 := fun m m' => forall a, acct m a = acct m' a.
#[local] Instance ledger_equivalence : Equivalence (≡@{gmap string Account}).
Proof. split; [by intros m a|by intros m m' E a|by intros m1 m2 m3 E1 E2 a; rewrite E1]. Qed.
#[local] Instance debit_proper : Proper ((≡) ==> (=) ==> (=) ==> (≡)) debit.
Proof.
  intros m m' E a _ <- need _ <- b. unfold debit. rewrite (E a).
  destruct (decide (a = b)) as [->|]; [by rewrite !acct_insert_eq|by rewrite !acct_insert_ne].
Qed.
#[local] Instance credit_proper : Proper ((≡) ==> (=) ==> (=) ==> (≡)) credit.
Proof.
  intros m m' E a _ <- amt _ <- b. unfold credit. rewrite (E a).
  destruct (decide (a = b)) as [->|]; [by rewrite !acct_insert_eq|by rewrite !acct_insert_ne].
Qed.
Lemma touch_equiv m a : touch m a ≡ m.
Proof. intros b. apply acct_touch. Qed.
(** One transfer of the specification. *)
Definition spec_of (recv : string) (m : gmap string Account) (t : Transfer) : result unit * gmap string Account :=
  transfer_spec recv m (t_From t) (t_To t) (t_AmountMas t) (t_FeeMas t) (t_Nonce t).
Lemma spec_of_proper recv m m' t : m ≡ m' ->
  (spec_of recv m t).1 = (spec_of recv m' t).1 /\ (spec_of recv m t).2 ≡ (spec_of recv m' t).2.
Proof.
  intros E. unfold spec_of, transfer_spec. rewrite (E (t_From t)).
  destruct (negb _); [by rewrite !touch_equiv|]. destruct (_ <? _); [by rewrite !touch_equiv|].
  cbn [fst snd]. split; [done|]. destruct (bool_decide _); by rewrite E.
Qed.
(** Executing transfers one after the other; all must be accepted. *)
Fixpoint replay (recv : string) (m : gmap string Account) (ts : list Transfer) : option (gmap string Account) :=
  match ts with
  | [] => Some m
  | t :: ts => match spec_of recv m t with (Ok _, m') => replay recv m' ts | (Err _, _) => None end
  end.
Lemma replay_snoc recv ts m m1 t m2 : replay recv m ts = Some m1 -> spec_of recv m1 t = (Ok tt, m2) ->
  replay recv m (ts ++ [t]) = Some m2.
Proof.
  revert m; induction ts as [|s ts IH]; intros m Hm Ht; cbn [replay app] in *.
  - injection Hm as ->. by rewrite Ht.
  - destruct (spec_of recv m s) as [[u|x] m']; [|done]. by apply IH.
Qed.
(** The transfers that an address sends carry its next nonces in turn. *)
Definition sent_by (a : string) (ts : list Transfer) : list Z :=
  t_Nonce <$> filter (fun t => t_From t = a) ts.
Lemma replay_nonces recv a ts m m' : replay recv m ts = Some m' ->
  sent_by a ts = (fun k => u64 (Nonce (acct m a) + Z.of_nat k)) <$> seq 1 (length (sent_by a ts)).
Proof.
  revert m; induction ts as [|t ts IH]; intros m Hm; [done|]. cbn [replay] in Hm.
  destruct (spec_of recv m t) as [[[]|x] m1] eqn:Et; [|done]. specialize (IH m1 Hm).
  unfold spec_of in Et. apply transfer_spec_ok_inv in Et as (Hn & _ & Em).
  assert (Hcr : forall m r f, Nonce (acct (credit m r f) a) = Nonce (acct m a)).
  { intros m0 r f. unfold credit. destruct (decide (r = a)) as [->|]; [by rewrite acct_insert_eq|by rewrite acct_insert_ne]. }
  assert (Hd : Nonce (acct m1 a) = if decide (t_From t = a) then t_Nonce t else Nonce (acct m a)).
  { rewrite Em. cbn zeta. destruct (bool_decide _); rewrite ?Hcr; unfold debit;
      (case_decide as Ef; [rewrite Ef, acct_insert_eq; by subst a|by rewrite acct_insert_ne]). }
  unfold sent_by in *. rewrite filter_cons. rewrite Hd in IH. case_decide as Ef.
  - rewrite fmap_cons. cbn [length]. rewrite <- cons_seq, fmap_cons. f_equal; [by subst a|].
    rewrite IH at 1. rewrite <- (fmap_S_seq 1), <- list_fmap_compose. apply list_fmap_ext. intros i k _. cbn.
    rewrite <- Hn, Ef. rewrite u64_add_l. f_equal. lia.
  - done.
Qed.

Section Ledger.
Context `{GoRuntime, GoSort, Blake3, Cbor, Ed25519, GoFloat, WalletKdf}.

(** The submission that a thread serves. *)
Definition request_of (th : thread) : option request :=
  match th with T_tx _ _ rq _ => Some rq | _ => None end.
Lemma step_request th n : request_of (thread_step th n).1 = request_of th.
Proof.
  destruct th as [cfg c rq pc|cfg c rq pc|k c rq pc|s c rq o]; cbn [thread_step].
  - by destruct (tx_step _ _ _ _ n).
  - by destruct (ap_step _ _ _ _ n).
  - by destruct (close_step _ _ _ _ n).
  - by destruct (single_handler _ _ _ n).
Qed.
Definition submits (th : thread) : Prop := forall rq, request_of th = Some rq -> is_tx rq = true.
Lemma step_submits th n : submits th -> submits (thread_step th n).1.
Proof. unfold submits. by rewrite step_request. Qed.
Lemma arrived_submits th : arrived th -> submits th.
Proof. destruct th; [intros [? _] rq' [= <-]; done|done..]. Qed.

(** The ledger of a node, and what leaves it alone. *)
Definition book (n : Node) : gmap string Account := Snapshot (db (eng n)).
Definition same_ledger (n n' : Node) : Prop := db_wf (db (eng n)) ->
  db_wf (db (eng n')) /\ feeReceiver (db (eng n')) = feeReceiver (db (eng n)) /\ book n' ≡ book n.
Lemma same_ledger_quiet n n' : quiet n n' -> same_ledger n n'.
Proof.
  intros Hq Hwf. destruct (q_db _ _ Hq Hwf) as (? & ? & l & E). split; [done|]. split; [done|].
  unfold book. rewrite E. intros a. apply foldl_touch_acct.
Qed.
Lemma same_ledger_money n n' : same_money (db (eng n)) (db (eng n')) -> same_ledger n n'.
Proof. intros (E & ? & ?) Hwf. unfold book. rewrite E. auto. Qed.
Lemma same_ledger_db n n' : db (eng n') = db (eng n) -> same_ledger n n'.
Proof. intros E Hwf. unfold book. by rewrite E. Qed.
Lemma same_ledger_trans n n1 n' : same_ledger n n1 -> same_ledger n1 n' -> same_ledger n n'.
Proof.
  intros Ha Hb Hwf. destruct (Ha Hwf) as (Hwf1 & F1 & E1). destruct (Hb Hwf1) as (Hwf2 & F2 & E2).
  split; [done|]. split; [congruence|by rewrite E2].
Qed.
Lemma receipt_ledger now wr t ok reason n : same_ledger n (on_eng (StoreReceipt now wr t ok reason) n).2.
Proof.
  destruct (on_eng_frame (StoreReceipt now wr t ok reason) n) as (_ & _ & _ & F4 & _).
  apply same_ledger_money. rewrite F4. apply StoreReceipt_money.
Qed.
Lemma reply_ledger rq w n n1 : same_ledger n n1 -> same_ledger n (tx_reply rq w n1).2.
Proof.
  intros Hs. eapply same_ledger_trans; [exact Hs|]. apply same_ledger_db. by rewrite (core_eng _ _ (reply_core rq w n1)).
Qed.
Lemma single_ledger s c rq n : same_ledger n (single_handler s c rq n).2.
Proof.
  destruct s; cbn [single_handler]; [| |apply same_ledger_quiet..].
  - apply same_ledger_db. by rewrite (proj2 (create_cells c rq n)).
  - unfold round_commit. destruct (negb _); [by apply same_ledger_db|].
    pose proof (CommitRound_money (c_now c) (c_wr_ledger c) (eng n)) as Hm. unfold on_eng.
    by destruct (CommitRound _ _ (eng n)) as [[|] e']; apply same_ledger_money.
  - apply account_reader.
  - apply nonce_reader.
  - apply r2p_get_reader.
  - apply r2p_list_reader.
Qed.
(** The step at which a thread's transfer meets the database. *)
Lemma pay_step_db th t n : next_transfer th = Some t -> db (eng (thread_step th n).2) =
  (ApplyTransfer (t_From t) (t_To t) (t_AmountMas t) (t_FeeMas t) (t_Nonce t) (db (eng n))).2.
Proof.
  assert (Hd : forall fa wr, db (eng (on_eng (apply_step fa wr t EA_apply) n).2) =
    (ApplyTransfer (t_From t) (t_To t) (t_AmountMas t) (t_FeeMas t) (t_Nonce t) (db (eng n))).2).
  { intros fa wr. destruct (on_eng_frame (apply_step fa wr t EA_apply) n) as (_ & _ & _ & -> & _). apply apply_step_db. }
  destruct th as [cfg c rq pc|cfg c rq pc|k c rq pc|s c rq o]; cbn [next_transfer]; [| |done..].
  - destruct pc as [|u pc| | |]; try done. destruct pc; try done. intros [= ->].
    cbn [thread_step tx_step]. specialize (Hd (flag c "THOMAS_FEAT_ALIAS") (c_wr_state c)).
    by destruct (on_eng _ n) as [pc' n'].
  - assert (Hs : forall id l, db (eng (ap_save c rq id l t EA_apply n).2) =
      (ApplyTransfer (t_From t) (t_To t) (t_AmountMas t) (t_FeeMas t) (t_Nonce t) (db (eng n))).2).
    { intros id l. unfold ap_save. specialize (Hd (flag c "THOMAS_FEAT_ALIAS") (c_wr_state c)).
      by destruct (on_eng _ n) as [pc' n']. }
    destruct pc as [[| |id l u| | | |]|id l u []]; try done; intros [= ->];
      cbn [thread_step ap_step]; specialize (Hs id l); by destruct (ap_save _ _ _ _ _ _ n).
Qed.
Lemma other_step_ledger th n : submits th -> next_transfer th = None -> same_ledger n (thread_step th n).2.
Proof.
  intros Hth Hnone.
  assert (Hap : forall fa wr t pc, pc <> EA_apply -> same_ledger n (on_eng (apply_step fa wr t pc) n).2).
  { intros fa wr t pc Hpc. apply same_ledger_db. destruct (on_eng_frame (apply_step fa wr t pc) n) as (_ & _ & _ & -> & _).
    rewrite (proj2 (apply_step_db fa wr t pc (eng n))). by destruct pc. }
  destruct th as [cfg c rq pc|cfg c rq pc|k c rq pc|s c rq o]; cbn [thread_step].
  - specialize (Hth rq eq_refl). destruct pc as [|t pc|t|t reason|o]; [| | | |by apply same_ledger_db].
    + pose proof (tx_begin cfg c rq n Hth) as Hb. destruct (tx_step cfg c rq TX_begin n) as [pc' n'].
      destruct Hb as [Hc _]. by apply same_ledger_quiet, core_quiet.
    + cbn [tx_step]. specialize (Hap (flag c "THOMAS_FEAT_ALIAS") (c_wr_state c) t pc ltac:(by intros ->)).
      by destruct (on_eng _ n) as [pc' n'].
    + cbn [tx_step]. pose proof (receipt_ledger (c_now c) (c_wr_ledger c) t true "" n) as Hs.
      destruct (on_eng _ n) as [rc n1]. match goal with |- context [tx_reply rq ?w n1] =>
        pose proof (reply_ledger rq w n n1 Hs); by destruct (tx_reply rq w n1) end.
    + cbn [tx_step]. pose proof (receipt_ledger (c_now c) (c_wr_ledger c) t false reason n) as Hs.
      destruct (on_eng _ n) as [rc n1]. match goal with |- context [tx_reply rq ?w n1] =>
        pose proof (reply_ledger rq w n n1 Hs); by destruct (tx_reply rq w n1) end.
  - destruct pc as [pc|id l t pc].
    + destruct pc; try done; cbn [ap_step approve_step].
      * pose proof (approve_begin_eng cfg c rq n) as Ee. cbn [approve_step] in Ee.
        match goal with |- context [let '(pc, n0) := ?x in (AP_at pc, n0)] => destruct x as [pc' n'] end.
        cbn [snd] in *. apply same_ledger_db. by rewrite Ee.
      * pose proof (same_ledger_quiet _ _ (quiet_account payerAddr n)) as Hs. by destruct (on_eng _ n).
      * pose proof (receipt_ledger (c_now c) (c_wr_ledger c) t true "" n) as Hs. by destruct (on_eng _ n).
      * pose proof (receipt_ledger (c_now c) (c_wr_ledger c) t false reason n) as Hs. by destruct (on_eng _ n).
      * destruct (r2p_stuck n); [by apply same_ledger_db|]. apply same_ledger_db.
        cbn zeta iota. cbn [snd]. by rewrite (proj1 (r2pSaveLocked_frame c _)).
    + cbn [ap_step]. unfold ap_save.
      specialize (Hap (flag c "THOMAS_FEAT_ALIAS") (c_wr_state c) t pc ltac:(by intros ->)).
      by destruct (on_eng _ n) as [pc' n'].
  - apply same_ledger_db. f_equal. destruct pc; [|by cbn; destruct (r2p_stuck n)|done].
    pose proof (close_step_begin k c rq n) as Hb. destruct (close_step k c rq CL_begin n). by destruct Hb as (_ & Ee & _).
  - pose proof (single_ledger s c rq n) as Hs. by destruct (single_handler s c rq n).
Qed.
(** A step that pays is a transfer of the specification; any other leaves the ledger alone. *)
Lemma step_ledger th n : submits th -> db_wf (db (eng n)) -> let n' := (thread_step th n).2 in
  db_wf (db (eng n')) /\ feeReceiver (db (eng n')) = feeReceiver (db (eng n)) /\
  match pays th n with
  | [] => book n' ≡ book n
  | t :: _ => pays th n = [t] /\ spec_of (feeReceiver (db (eng n))) (book n) t = (Ok tt, book n')
  end.
Proof.
  intros Hth Hwf. cbv zeta. unfold pays. destruct (next_transfer th) as [t|] eqn:Hn.
  2: { exact (other_step_ledger th n Hth Hn Hwf). }
  unfold book, spec_of. rewrite (pay_step_db th t n Hn).
  destruct (ApplyTransfer_spec (db (eng n)) (t_From t) (t_To t) (t_AmountMas t) (t_FeeMas t) (t_Nonce t) Hwf)
    as (Hwf' & Hs & Hf & _).
  destruct (ApplyTransfer _ _ _ _ _ (db (eng n))) as [[[]|x] d]; cbn [fst snd is_ok] in *;
    (split; [done|]; split; [done|]); [by rewrite Hs|].
  assert (E : (transfer_spec (feeReceiver (db (eng n))) (Snapshot (db (eng n))) (t_From t) (t_To t) (t_AmountMas t)
    (t_FeeMas t) (t_Nonce t)).2 = Snapshot d) by by rewrite <- Hs.
  rewrite <- E. unfold transfer_spec in *. repeat case_match; simplify_eq; apply touch_equiv.
Qed.

(** ** The course of a request *)

(** A thread that has applied its transfer, or given it up. *)
Definition past (th : thread) : bool :=
  match th with
  | T_tx _ _ _ (TX_begin | TX_apply _ EA_apply) => false
  | T_approve _ _ _ (AP_at (AP_begin | AP_account _ _ _ _ | AP_apply _ _ _)) => false
  | T_approve _ _ _ (AP_saving _ _ _ EA_apply) => false
  | _ => true
  end.
Lemma next_not_past th t : next_transfer th = Some t -> past th = false.
Proof. by destruct th as [? ? ? [|? []| | |]|? ? ? [[]|? ? ? []]| |]. Qed.
Lemma apply_past fa wr t pc e : match pc with EA_apply => is_ok (ApplyTransfer (t_From t) (t_To t) (t_AmountMas t)
    (t_FeeMas t) (t_Nonce t) (db e)).1 = true | _ => True end ->
  (apply_step fa wr t pc e).1 <> EA_apply.
Proof.
  destruct pc; cbn [apply_step]; [|done| |done].
  - rewrite no_alias_tx. by destruct (ApplyTransfer _ _ _ _ _ (db e)) as [[] d].
  - by destruct wr.
Qed.
Lemma approve_past cfg c rq pc n : past (T_approve cfg c rq (AP_at pc)) = true ->
  past (T_approve cfg c rq (AP_at (approve_step cfg c rq pc n).1)) = true.
Proof.
  destruct pc; try done; intros _; cbn [approve_step]; first [by destruct (on_eng _ n)|by destruct (r2p_stuck n)].
Qed.
Lemma ap_save_past cfg c rq id l t pc n : match pc with EA_apply => is_ok (ApplyTransfer (t_From t) (t_To t)
    (t_AmountMas t) (t_FeeMas t) (t_Nonce t) (db (eng n))).1 = true | _ => True end ->
  past (T_approve cfg c rq (ap_save c rq id l t pc n).1) = true.
Proof.
  intros Hpc. unfold ap_save. pose proof (apply_past (flag c "THOMAS_FEAT_ALIAS") (c_wr_state c) t pc (eng n) Hpc) as Hp.
  rewrite <- on_eng_fst in Hp. destruct (on_eng _ n) as [pc' n']. cbn [fst] in *.
  destruct pc' as [| | |r]; try done. unfold approve_after. destruct r; [done|]. by destruct (_ && _).
Qed.
Lemma step_past th n : past th = true \/ pays th n <> [] -> past (thread_step th n).1 = true.
Proof.
  unfold pays. intros Hp. destruct th as [cfg c rq pc|cfg c rq pc|k c rq pc|s c rq o]; cbn [thread_step].
  - destruct pc as [|t pc|t|t reason|o]; [by destruct Hp| |tx_logs..|done]; cbn [tx_step].
    + pose proof (apply_past (flag c "THOMAS_FEAT_ALIAS") (c_wr_state c) t pc (eng n)) as Ha.
      rewrite <- on_eng_fst in Ha. destruct (on_eng _ n) as [pc' n']. cbn [fst] in *.
      destruct pc' as [| | |[]]; try done. exfalso. apply Ha; [|done]. destruct pc; try done.
      cbn [next_transfer past] in Hp. by destruct Hp as [|Hp]; [|destruct (is_ok _)].
  - assert (Hsave : forall id l t pc, match pc with EA_apply => is_ok (ApplyTransfer (t_From t) (t_To t)
      (t_AmountMas t) (t_FeeMas t) (t_Nonce t) (db (eng n))).1 = true | _ => True end ->
      past (let '(pc, n) := ap_save c rq id l t pc n in (T_approve cfg c rq pc, n)).1 = true).
    { intros id l t pc' Hpc. pose proof (ap_save_past cfg c rq id l t pc' n Hpc).
      by destruct (ap_save _ _ _ _ _ _ n). }
    destruct pc as [pc|id l t pc]; cbn [ap_step].
    + destruct pc as [| |id l t| | | |]; try (by destruct Hp);
        [apply Hsave; cbn [next_transfer past] in Hp; by destruct Hp as [|Hp]; [|destruct (is_ok _)]|..];
        (destruct Hp as [Hp|]; [|done]; pose proof (approve_past _ _ _ _ n Hp) as Ha;
         by destruct (approve_step _ _ _ _ n)).
    + apply Hsave. destruct pc; try done. cbn [next_transfer past] in Hp. by destruct Hp as [|Hp]; [|destruct (is_ok _)].
  - by destruct (close_step _ _ _ _ n).
  - by destruct (single_handler _ _ _ n).
Qed.
End Ledger.

(** ** Properties *)
Section Properties.
Context `{GoRuntime, GoSort, Blake3, Cbor, Ed25519, GoFloat, WalletKdf}.

Definition from_body (th : thread) : Prop :=
  match th with
  | T_tx _ _ rq (TX_apply t _) => exists i, read_txPre (rq_Body rq) = Some i /\ t = transfer_of i
  | _ => True
  end.
Lemma step_body th n : from_body th -> from_body (thread_step th n).1.
Proof.
  destruct th as [cfg c rq pc|cfg c rq pc|k c rq pc|s c rq o]; cbn [thread_step]; intros Hb.
  - destruct pc as [|t pc|t|t reason|o]; [| |tx_logs..|done]; cbn [tx_step].
    + destruct (read_txPre (rq_Body rq)) as [i|] eqn:Hi; [destruct (admitted _ _ _ _ _)|];
        [by exists i|by destruct (tx_chain _ _ _ _ n)..].
    + destruct (on_eng _ n) as [pc' n']. by destruct pc' as [| | |[]].
  - by destruct (ap_step _ _ _ _ n).
  - by destruct (close_step _ _ _ _ n).
  - by destruct (single_handler _ _ _ n).
Qed.

(** What holds in the course of a run from [(js, n)]. *)
Record on_course (js : list thread) (n : Node) (tr : list (nat * Transfer)) (js' : list thread) (n' : Node) : Prop := {
  oc_threads : Forall submits js'; oc_bodies : Forall from_body js';
  oc_requests : forall i, request_of <$> js' !! i = request_of <$> js !! i;
  oc_db : db_wf (db (eng n')); oc_fee : feeReceiver (db (eng n')) = feeReceiver (db (eng n));
  oc_replay : exists m, replay (feeReceiver (db (eng n))) (book n) (tr.*2) = Some m /\ m ≡ book n';
  oc_once : NoDup tr.*1;
  oc_past : forall i th, i ∈ tr.*1 -> js' !! i = Some th -> past th = true;
  oc_origin : forall i t rq, (i, t) ∈ tr -> request_of <$> js !! i = Some (Some rq) ->
    exists inp, read_txPre (rq_Body rq) = Some inp /\ t = transfer_of inp
}.
Lemma arrived_body th : arrived th -> from_body th.
Proof. destruct th; [by intros [_ ->]|done..]. Qed.
Lemma on_course_start js n : Forall arrived js -> db_wf (db (eng n)) -> on_course js n [] js n.
Proof.
  intros Hjs Hwf. split; try done.
  - eapply Forall_impl; [exact Hjs|apply arrived_submits].
  - eapply Forall_impl; [exact Hjs|apply arrived_body].
  - by exists (book n).
  - constructor.
  - by intros i th ?%elem_of_nil.
  - by intros i t rq ?%elem_of_nil.
Qed.
Lemma pays_body th n t rq : from_body th -> pays th n = [t] -> request_of th = Some rq ->
  exists inp, read_txPre (rq_Body rq) = Some inp /\ t = transfer_of inp.
Proof.
  intros Hb Hp Hr. unfold pays in Hp. destruct th as [cfg c rq' pc| | |]; try done. injection Hr as ->.
  destruct pc as [|u []| | |]; try done. cbn [next_transfer from_body] in *.
  destruct (is_ok _); [|done]. by injection Hp as <-.
Qed.
Lemma on_course_step js n tr js1 n1 i th : on_course js n tr js1 n1 -> js1 !! i = Some th ->
  on_course js n (tr ++ (pair i <$> pays th n1)) (<[i := (thread_step th n1).1]> js1) (thread_step th n1).2.
Proof.
  intros [Ht Hb Hrq Hwf Hf (m & Hm & Em) Hnd Hpast Horg] Hi.
  assert (Hth : submits th) by by eapply Forall_lookup_1 in Ht.
  assert (Hbody : from_body th) by by eapply Forall_lookup_1 in Hb.
  destruct (step_ledger th n1 Hth Hwf) as (Hwf' & Hf' & Hstep).
  assert (Hpays : pays th n1 = [] \/ exists t, pays th n1 = [t]).
  { destruct (pays th n1) as [|t ?]; [by left|right; exists t; apply Hstep]. }
  assert (Hev : (pair i <$> pays th n1).*2 = pays th n1).
  { rewrite <- list_fmap_compose. apply list_fmap_id. }
  split.
  - apply Forall_insert; [done|]. by apply step_submits.
  - apply Forall_insert; [done|]. by apply step_body.
  - intros k. rewrite <- Hrq. destruct (decide (k = i)) as [->|]; [|by rewrite list_lookup_insert_ne].
    rewrite list_lookup_insert_eq by by eapply lookup_lt_Some. rewrite Hi. cbn. by rewrite step_request.
  - done.
  - congruence.
  - rewrite fmap_app, Hev. destruct Hpays as [E|[t E]]; rewrite E in *.
    + rewrite app_nil_r. exists m. split; [done|]. by rewrite Hstep.
    + destruct Hstep as [_ Hs]. rewrite Hf in Hs.
      destruct (spec_of_proper (feeReceiver (db (eng n))) m (book n1) t Em) as [E1 E2]. rewrite Hs in E1, E2.
      destruct (spec_of _ m t) as [r m2] eqn:Es. cbn [fst snd] in *. subst r. exists m2.
      split; [by eapply replay_snoc|done].
  - rewrite fmap_app. destruct Hpays as [E|[t E]]; rewrite E; [by rewrite app_nil_r|]. cbn.
    apply NoDup_app. split; [done|]. split; [|by apply NoDup_singleton].
    intros k Hk ->%list_elem_of_singleton. specialize (Hpast _ _ Hk Hi). unfold pays in E.
    destruct (next_transfer th) eqn:Hn; [|done]. apply next_not_past in Hn. congruence.
  - intros k th' Hk Hl. rewrite fmap_app, elem_of_app in Hk. destruct (decide (k = i)) as [->|Hne].
    + rewrite list_lookup_insert_eq in Hl by by eapply lookup_lt_Some. injection Hl as <-. apply step_past.
      destruct Hk as [Hk|Hk]; [left; by eapply Hpast|right]. intros E. rewrite E in Hk. by apply elem_of_nil in Hk.
    + rewrite list_lookup_insert_ne in Hl by done. destruct Hk as [Hk|Hk]; [by eapply Hpast|].
      exfalso. destruct Hpays as [E|[t E]]; rewrite E in Hk; cbn in Hk; set_solver.
  - intros k t rq Hk Hl. apply elem_of_app in Hk as [Hk|Hk]; [by eapply Horg|].
    destruct Hpays as [E|[u E]]; rewrite E in Hk; [by apply elem_of_nil in Hk|]. cbn in Hk.
    apply list_elem_of_singleton in Hk. injection Hk as -> ->. rewrite <- Hrq, Hi in Hl. injection Hl as Hl.
    by eapply pays_body.
Qed.
Lemma runs_on_course js n tr s : runs (js, n) tr s -> Forall arrived js -> db_wf (db (eng n)) ->
  on_course js n tr s.1 s.2.
Proof.
  intros Hr Hjs Hwf. induction Hr as [|tr s1 ev s2 _ IH Hm]; [by apply on_course_start|].
  destruct Hm as [i th js1 n1 Hi _]. by apply on_course_step.
Qed.

(** C3: the ledger is serial under concurrency: however the steps of concurrent requests
    interleave, balances and nonces are those of executing, one after the other, the
    transfers that were applied; the transfers of each sender carry its next nonces
    without a gap or a repetition, every request applies at most one transfer, and a
    submission only the one in its body. *)
Theorem concurrent_ledger (js : list thread) (n : Node) (tr : list (nat * Transfer)) (js' : list thread) (n' : Node) :
  runs (js, n) tr (js', n') -> Forall arrived js -> db_wf (db (eng n)) ->
  (exists m, replay (feeReceiver (db (eng n))) (book n) (tr.*2) = Some m /\
             forall a, acct m a = acct (book n') a) /\
  (forall a, sent_by a (tr.*2) =
     (fun k => u64 (Nonce (acct (book n) a) + Z.of_nat k)) <$> seq 1 (length (sent_by a (tr.*2)))) /\
  NoDup tr.*1 /\
  (forall i t cfg c rq, (i, t) ∈ tr -> js !! i = Some (T_tx cfg c rq TX_begin) ->
     exists inp, read_txPre (rq_Body rq) = Some inp /\ t = transfer_of inp).
Proof.
  intros Hr Hjs Hwf. destruct (runs_on_course js n tr _ Hr Hjs Hwf) as [_ _ _ _ _ (m & Hm & Em) Hnd _ Horg].
  split; [by exists m|]. split; [intros a; by eapply replay_nonces|]. split; [done|].
  intros i t cfg c rq Hin Hi. eapply Horg; [done|]. by rewrite Hi.
Qed.

Lemma runs_safe js n tr s : runs (js, n) tr s -> Forall arrived js -> engine_ok (eng n) -> funds_ok n ->
  leaves_count (eng n) + Z.of_nat (length js) <= M64 - 2 ->
  Forall thread_ok s.1 /\ engine_ok (eng s.2) /\ keeps n s.2 /\
  leaves_count (eng s.2) + Z.of_nat (sum_list_with pending s.1) <= M64 - 2.
Proof.
  intros Hr Hjs He Hf Hroom. induction Hr as [|tr s1 ev s2 _ IH Hm].
  - split; [eapply Forall_impl; [exact Hjs|apply arrived_ok]|]. repeat (split; [done|]).
    pose proof (sum_list_bound pending 1 js pending_bound). cbn [fst snd]. lia.
  - destruct Hm as [i th js1 n1 Hi _]. cbn [fst snd] in *. destruct IH as (Ht & He1 & Hk1 & Hr1).
    assert (Hth : thread_ok th) by by eapply Forall_lookup_1 in Ht.
    pose proof (sum_insert pending js1 i th (thread_step th n1).1 Hi) as Hsum.
    assert (Hrm : room th n1). { unfold room. pose proof (sum_elem_le pending js1 i th Hi). lia. }
    destruct (thread_step_logs th n1 Hth He1 Hrm) as [He2 Hl2].
    destruct (thread_step_keeps th n1 Hth (proj1 (Hk1 Hf))) as [Hk2 Hth2].
    split; [by apply Forall_insert|]. split; [done|]. split; [by etransitivity|]. lia.
Qed.

(** C4: safety under concurrency: however the steps of concurrent requests interleave, the
    engine's invariant holds in every state they reach, and no money is created or
    destroyed. *)
Theorem concurrent_safe (js : list thread) (n : Node) (tr : list (nat * Transfer)) (js' : list thread) (n' : Node) :
  runs (js, n) tr (js', n') -> Forall arrived js -> engine_ok (eng n) -> funds_ok n ->
  leaves_count (eng n) + Z.of_nat (length js) <= M64 - 2 ->
  engine_ok (eng n') /\ funds_ok n' /\ supply_of n' = supply_of n.
Proof.
  intros Hr Hjs He Hf Hroom. destruct (runs_safe js n tr _ Hr Hjs He Hf Hroom) as (_ & Ho & Hk & _).
  split; [exact Ho|exact (Hk Hf)].
Qed.
End Properties.

(** ** What interleaving breaks *)
Section Witnesses.
#[local] Existing Instance runtime0.
#[local] Existing Instance gosort0.
#[local] Existing Instance blake3_0.
#[local] Existing Instance cbor0.
#[local] Existing Instance ed0.
#[local] Existing Instance float_amd64.
#[local] Existing Instance kdf0.

Definition tx1 : request := post0 "/tx" (pay_body 1000 10 2).
Definition submit_thread (rq : request) : thread := T_tx cfg0 ctx0 rq TX_begin.
(** The status a finished request was answered with. *)
Definition thread_status (th : thread) : option Z :=
  match th with
  | T_tx _ _ _ (TX_done (Replied w)) => Some (rs_status w)
  | T_approve _ _ _ (AP_at (AP_done (Replied w))) | T_close _ _ _ (CL_done (Replied w))
  | T_single _ _ _ (Some (Replied w)) => Some (bw_status w)
  | _ => None
  end.
Definition bob_has (e : Engine) : Z := Balance (acct (Snapshot (db e)) "tho1bob").

(** C39: a payment can be lost on disk: [ApplyTransfer] takes its snapshot and writes the state
    file under no common lock, so a submission may overwrite the file with an older
    snapshot.  Two payments of 1000 mas to tho1bob are both answered with status 200 and
    both in the ledger file, but an engine started from the files knows only one of them. *)
Theorem state_file_lost :
  let '(js, n') := run_threads [0; 0; 0; 1; 1; 1; 1; 1; 0; 0]%nat ([submit_thread tx0; submit_thread tx1], asked0) in
  let e' := NewEngine (h32 9) (h32 9) true (files (eng n')) in
  (exists tr, runs ([submit_thread tx0; submit_thread tx1], asked0) tr (js, n')) /\
  thread_status <$> js = [Some StatusOK; Some StatusOK] /\
  bob_has (eng n') = 2000 /\ bob_has e' = 1000 /\
  leaves (led e') = leaves (led (eng n')) /\ leaves_count e' = 2.
Proof.
  set (sched := [0; 0; 0; 1; 1; 1; 1; 1; 0; 0]%nat). set (s := ([submit_thread tx0; submit_thread tx1], asked0)).
  pose proof (run_threads_runs sched s) as Hrun.
  destruct (run_threads sched s) as [js n'] eqn:E. split; [done|].
  assert (Ejs : (run_threads sched s).1 = js) by by rewrite E.
  assert (En : (run_threads sched s).2 = n') by by rewrite E.
  rewrite <- Ejs, <- En. clear. split; [|split; [|split; [|split]]]; vm_compute; reflexivity.
Qed.

(** a paid request can end as declined: when a decline is looked up before an approval
    marks the record, both are answered with success; the payer has paid the amount and
    the fee, and the record says declined and names no transaction. *)
Theorem paid_then_declined :
  let s := ([T_approve cfg0 ctx0 approve0 (AP_at AP_begin); T_close Decline ctx0 decline0 CL_begin], asked0) in
  let '(js, n') := run_threads [0; 1; 0; 0; 0; 0; 0; 0; 1]%nat s in
  (exists tr, runs s tr (js, n')) /\
  thread_status <$> js = [Some StatusOK; Some StatusOK] /\
  bob_has (eng n') = 100 /\ Balance (acct (book n') "tho1alice") = Balance (acct (book asked0) "tho1alice") - 107 /\
  (fun r => (rp_Status r, rp_TxHash r)) <$> (r2p_heap n' !! 0%nat) = Some ("declined", "").
Proof.
  set (s := ([T_approve cfg0 ctx0 approve0 (AP_at AP_begin); T_close Decline ctx0 decline0 CL_begin], asked0)).
  set (sched := [0; 1; 0; 0; 0; 0; 0; 0; 1]%nat). cbv zeta. pose proof (run_threads_runs sched s) as Hrun.
  destruct (run_threads sched s) as [js n'] eqn:E. split; [done|].
  assert (Ejs : (run_threads sched s).1 = js) by by rewrite E.
  assert (En : (run_threads sched s).2 = n') by by rewrite E.
  rewrite <- Ejs, <- En. clear. split; [|split; [|split]]; vm_compute; reflexivity.
Qed.

Definition crowd0 : list thread :=
  [submit_thread tx0; T_approve cfg0 ctx0 approve0 (AP_at AP_begin); T_single S_commit ctx0 commit0 None].
Lemma crowd0_arrived : Forall arrived crowd0.
Proof. unfold crowd0. repeat constructor. Qed.
Lemma alone_is_handler_witness :
  let '(o, n') := root other0 cfg0 ctx0 tx0 asked0 in
  rtc alone_step (T_tx cfg0 ctx0 tx0 TX_begin, asked0) (T_tx cfg0 ctx0 tx0 (TX_done o), n').
Proof.
  destruct (alone_is_handler other0 cfg0 ctx0 tx0 asked0) as [Ha _]. specialize (Ha eq_refl).
  destruct (root other0 cfg0 ctx0 tx0 asked0) as [o n']. exact Ha.
Defined.
(** Why the store must hold no nil record: a list request panics on one with the lock held,
    and an approval that arrives later waits for the lock and is never answered. *)
Lemma nil_record_blocks :
  let nil0 := set_r2p (r2p_heap asked0) (<["zz" := None]> (r2pStore asked0)) asked0 in
  let s := ([T_single S_list ctx0 list0 None; T_approve cfg0 ctx0 approve0 (AP_at AP_begin)], nil0) in
  let '(js, n') := run_threads [0; 1]%nat s in
  (exists tr, runs s tr (js, n')) /\ (forall ev s', ~ moves ev (js, n') s') /\ r2p_stuck n' = true /\
  js = [T_single S_list ctx0 list0 (Some Panicked); T_approve cfg0 ctx0 approve0 (AP_at (AP_done Blocked))].
Proof.
  cbv zeta. set (s := ([T_single S_list ctx0 list0 None; _], _)).
  pose proof (run_threads_runs [0; 1]%nat s) as Hrun.
  assert (Ejs : (run_threads [0; 1]%nat s).1 = [T_single S_list ctx0 list0 (Some Panicked);
    T_approve cfg0 ctx0 approve0 (AP_at (AP_done Blocked))]) by (vm_compute; reflexivity).
  assert (En : r2p_stuck (run_threads [0; 1]%nat s).2 = true) by (vm_compute; reflexivity).
  destruct (run_threads _ s) as [js n']. cbn [fst snd] in *. split; [done|]. split; [|done].
  intros ev s'. apply finished_stays. by rewrite Ejs.
Qed.
Lemma concurrent_ledger_witness : exists tr,
  runs (crowd0, asked0) tr (run_threads [0; 0; 1; 1; 1; 2; 0]%nat (crowd0, asked0)) /\ NoDup tr.*1.
Proof.
  destruct (run_threads_runs [0; 0; 1; 1; 1; 2; 0]%nat (crowd0, asked0)) as [tr Hr]. exists tr. split; [exact Hr|].
  destruct (run_threads _ _) as [js' n']. 
  exact (proj1 (proj2 (proj2 (concurrent_ledger crowd0 asked0 tr js' n' Hr crowd0_arrived eng0_wf)))).
Defined.
Lemma concurrent_safe_witness :
  supply_of (run_threads [0; 0; 1; 1; 1; 2; 0]%nat (crowd0, asked0)).2 = supply_of asked0.
Proof.
  destruct (run_threads_runs [0; 0; 1; 1; 1; 2; 0]%nat (crowd0, asked0)) as [tr Hr].
  destruct (run_threads _ _) as [js' n'].
  refine (proj2 (proj2 (concurrent_safe crowd0 asked0 tr js' n' Hr crowd0_arrived eng0_ok asked0_funds _))).
  vm_compute. discriminate.
Defined.
End Witnesses.
