(* ===== verification/Events.v ===== *)
(** * internal/app/engine.go, internal/rpc/router.go: the event hub.

    Every receipt and every round is broadcast to the streams of server-sent events.  A
    broadcast is a goroutine of its own: it copies the set of subscribed channels under the
    engine's lock and sends to them after it has released it.  A stream is the loop of the
    route /events/stream behind a writer that can flush; it closes its channel when the
    client goes away.  (Behind router.go's own middleware no writer can flush, and the
    route answers 500, see RpcRead.events_stream.) *)
From S2P Require Export Http.

(** ** Channels *)
Definition chan_cap : nat := 32.
Record Chan := mkChan { ch_buf : list bytes; ch_closed : bool }.
(** The engine's field [subs], and the cells of the channels made so far. *)
Record Hub := mkHub { subs : gset loc; chans : list Chan }.

Definition SubscribeForSSE : St Hub loc := fun h =>
  let ch := length (chans h) in (ch, mkHub ({[ch]} ∪ subs h) (chans h ++ [mkChan [] false])).
Definition close (ch : loc) (cs : list Chan) : list Chan :=
  alter (fun c => mkChan (ch_buf c) true) ch cs.
Definition UnsubscribeForSSE (ch : loc) : St Hub unit := fun h =>
  if bool_decide (ch ∈ subs h) then (tt, mkHub (subs h ∖ {[ch]}) (close ch (chans h))) else (tt, h).
(** [select { case ch <- b: default: }]; [None] is the panic of a send on a closed channel. *)
Definition select_send (ch : loc) (b : bytes) (h : Hub) : option Hub :=
  match chans h !! ch with
  | None => Some h
  | Some c =>
      if ch_closed c then None
      else if (length (ch_buf c) <? chan_cap)%nat
      then Some (mkHub (subs h) (<[ch := mkChan (ch_buf c ++ [b]) (ch_closed c)]> (chans h)))
      else Some h
  end.
(** A message received from an open channel. *)
Definition receive (ch : loc) (h : Hub) : option (bytes * Hub) :=
  c ← chans h !! ch;
  match ch_buf c with
  | [] => None
  | b :: rest => Some (b, mkHub (subs h) (<[ch := mkChan rest (ch_closed c)]> (chans h)))
  end.

(** ** Goroutines *)

(** [broadcastAsync]: before the copy of [subs], and with the channels still to serve. *)
Inductive task_pc := TK_start | TK_send (cs : list loc).
Record task := mkTask { tk_msg : bytes; tk_pc : task_pc }.
Definition broadcastAsync (payload : json) : task := mkTask (json_marshal payload) TK_start.
(** The handler: the messages it has received are what it has written, framed. *)
Inductive stream_pc := SS_start | SS_loop (ch : loc) | SS_done.
Record stream := mkStream { ss_pc : stream_pc; ss_got : list bytes }.
Definition frame (msg : bytes) : bytes :=
  to_bytes ("event: push" +:+ newline) ++ to_bytes "data: " ++ msg ++ to_bytes (newline +:+ newline).
Definition written (s : stream) : bytes := concat (frame <$> ss_got s).

Record World := mkWorld { w_hub : Hub; w_tasks : list task; w_streams : list stream; w_crashed : bool }.
Definition quiet_world : World := mkWorld (mkHub ∅ []) [] [] false.
Definition set_hub (h : Hub) (w : World) : World := mkWorld h (w_tasks w) (w_streams w) (w_crashed w).
Definition set_task (i : nat) (t : task) (w : World) : World :=
  mkWorld (w_hub w) (<[i := t]> (w_tasks w)) (w_streams w) (w_crashed w).
Definition set_stream (j : nat) (s : stream) (w : World) : World :=
  mkWorld (w_hub w) (w_tasks w) (<[j := s]> (w_streams w)) (w_crashed w).

Inductive event :=
  | E_publish (payload : json)              (* the engine broadcasts *)
  | E_connect                               (* a client opens the stream *)
  | E_subscribe (j : nat)
  | E_receive (j : nat)
  | E_leave (j : nat)                       (* the client is gone: the deferred Unsubscribe *)
  | E_snapshot (i : nat) (cs : list loc)    (* the copy of [subs], in the order of iteration *)
  | E_send (i : nat).
(** What an event does; [None] where it cannot happen. *)
Definition do_event (ev : event) (w : World) : option World :=
  if w_crashed w then None else
  match ev with
  | E_publish payload =>
      Some (mkWorld (w_hub w) (w_tasks w ++ [broadcastAsync payload]) (w_streams w) false)
  | E_connect => Some (mkWorld (w_hub w) (w_tasks w) (w_streams w ++ [mkStream SS_start []]) false)
  | E_subscribe j =>
      s ← w_streams w !! j;
      match ss_pc s with
      | SS_start => let '(ch, h) := SubscribeForSSE (w_hub w) in
                    Some (set_stream j (mkStream (SS_loop ch) (ss_got s)) (set_hub h w))
      | _ => None
      end
  | E_receive j =>
      s ← w_streams w !! j;
      match ss_pc s with
      | SS_loop ch => '(b, h) ← receive ch (w_hub w);
                      Some (set_stream j (mkStream (SS_loop ch) (ss_got s ++ [b])) (set_hub h w))
      | _ => None
      end
  | E_leave j =>
      s ← w_streams w !! j;
      match ss_pc s with
      | SS_loop ch => let '(_, h) := UnsubscribeForSSE ch (w_hub w) in
                      Some (set_stream j (mkStream SS_done (ss_got s)) (set_hub h w))
      | _ => None
      end
  | E_snapshot i cs =>
      t ← w_tasks w !! i;
      match tk_pc t with
      | TK_start => if bool_decide (NoDup cs /\ list_to_set cs = subs (w_hub w))
                    then Some (set_task i (mkTask (tk_msg t) (TK_send cs)) w) else None
      | _ => None
      end
  | E_send i =>
      t ← w_tasks w !! i;
      match tk_pc t with
      | TK_send (ch :: cs) =>
          match select_send ch (tk_msg t) (w_hub w) with
          | None => Some (mkWorld (w_hub w) (w_tasks w) (w_streams w) true)
          | Some h => Some (set_task i (mkTask (tk_msg t) (TK_send cs)) (set_hub h w))
          end
      | _ => None
      end
  end.
Fixpoint do_events (evs : list event) (w : World) : option World :=
  match evs with [] => Some w | ev :: evs => w ← do_event ev w; do_events evs w end.

(** ** Invariant *)
Definition backlog (w : World) (s : stream) : list bytes :=
  match ss_pc s with SS_loop ch => default [] (ch_buf <$> chans (w_hub w) !! ch) | _ => [] end.
(** Task [i] will not send to [ch] any more. *)
Definition served (w : World) (ch : loc) (i : nat) : Prop :=
  exists msg cs, w_tasks w !! i = Some (mkTask msg (TK_send cs)) /\ ch ∉ cs.
Definition messages (w : World) (ids : list nat) : list (option bytes) := (fun i => tk_msg <$> w_tasks w !! i) <$> ids.
(** What a stream has received and what waits for it are the messages of distinct tasks. *)
Definition delivered (w : World) (s : stream) : Prop :=
  exists ids, NoDup ids /\ messages w ids = Some <$> (ss_got s ++ backlog w s) /\
  forall ch i, ss_pc s = SS_loop ch -> i ∈ ids -> served w ch i.
Record hub_ok (w : World) : Prop := {
  ho_loop : forall j s ch, w_streams w !! j = Some s -> ss_pc s = SS_loop ch -> (ch < length (chans (w_hub w)))%nat;
  ho_own : forall j k s s' ch, w_streams w !! j = Some s -> w_streams w !! k = Some s' ->
    ss_pc s = SS_loop ch -> ss_pc s' = SS_loop ch -> j = k;
  ho_subs : forall ch, ch ∈ subs (w_hub w) -> exists c, chans (w_hub w) !! ch = Some c /\ ch_closed c = false;
  ho_cap : Forall (fun c => (length (ch_buf c) <= chan_cap)%nat) (chans (w_hub w));
  ho_tasks : forall i msg cs, w_tasks w !! i = Some (mkTask msg (TK_send cs)) ->
    NoDup cs /\ forall ch, ch ∈ cs -> (ch < length (chans (w_hub w)))%nat;
  ho_new : forall j s, w_streams w !! j = Some s -> ss_pc s = SS_start -> ss_got s = [];
  ho_delivered : forall j s, w_streams w !! j = Some s -> delivered w s
}.
Lemma quiet_world_ok : hub_ok quiet_world.
Proof.
  split; cbn; done.
Qed.
Lemma messages_ext w w' ids : (forall i t, w_tasks w !! i = Some t -> exists t', w_tasks w' !! i = Some t' /\ tk_msg t' = tk_msg t) ->
  forall l, messages w ids = Some <$> l -> messages w' ids = Some <$> l.
Proof.
  intros Hx. induction ids as [|i ids IH]; intros [|b l] Hl; try done. cbn in *. injection Hl as Hb Hl.
  unfold messages in *. f_equal; [|by apply IH]. destruct (w_tasks w !! i) as [t|] eqn:Ht; [|done].
  destruct (Hx i t Ht) as (t' & -> & Em). cbn in *. congruence.
Qed.
(** A delivery survives when the tasks keep their messages and do not go back to the channel. *)
Lemma delivered_ext w w' s : delivered w s ->
  (forall i t, w_tasks w !! i = Some t -> exists t', w_tasks w' !! i = Some t' /\ tk_msg t' = tk_msg t) ->
  (forall ch i, ss_pc s = SS_loop ch -> served w ch i -> served w' ch i) ->
  backlog w' s = backlog w s -> delivered w' s.
Proof.
  intros (ids & Hnd & Hm & Hs) Ht Hserved Hb. exists ids. split; [done|]. rewrite Hb.
  split; [by eapply messages_ext|]. eauto.
Qed.
Lemma same_tasks_ext w w' s : delivered w s -> w_tasks w' = w_tasks w -> backlog w' s = backlog w s -> delivered w' s.
Proof.
  intros Hd Ht Hb. eapply delivered_ext; [done| | |done].
  - intros i t Hi. exists t. by rewrite Ht.
  - intros ch i _ (msg & cs & Hi & ?). exists msg, cs. by rewrite Ht.
Qed.

(** The accesses to the hub, as facts on its cells. *)
Lemma select_send_spec ch b h h' : select_send ch b h = Some h' ->
  subs h' = subs h /\ length (chans h') = length (chans h) /\
  forall k, chans h' !! k = (fun c => if decide (k = ch /\ (length (ch_buf c) < chan_cap)%nat)
                                      then mkChan (ch_buf c ++ [b]) (ch_closed c) else c) <$> chans h !! k.
Proof.
  unfold select_send. intros Hs. destruct (chans h !! ch) as [c|] eqn:Hc.
  - destruct (ch_closed c) eqn:Hcl; [done|]. destruct (Nat.ltb_spec (length (ch_buf c)) chan_cap); injection Hs as <-; cbn.
    + split; [done|]. split; [apply length_insert|]. intros k. destruct (decide (k = ch)) as [->|Hne].
      * rewrite list_lookup_insert_eq by by eapply lookup_lt_Some. rewrite Hc. cbn [fmap option_fmap option_map].
        rewrite decide_True; [by rewrite Hcl|]. split; [done|lia].
      * rewrite list_lookup_insert_ne by done. destruct (chans h !! k); [|done]. cbn [fmap option_fmap option_map].
        rewrite decide_False; [done|tauto].
    + split; [done|]. split; [done|]. intros k. destruct (chans h !! k) as [c'|] eqn:Hk; [|done]. cbn [fmap option_fmap option_map].
      rewrite decide_False; [done|]. intros [-> ?]. rewrite Hc in Hk. injection Hk as <-. lia.
  - injection Hs as <-. split; [done|]. split; [done|]. intros k. destruct (chans h !! k) as [c'|] eqn:Hk; [|done]. cbn [fmap option_fmap option_map].
    rewrite decide_False; [done|]. intros [-> ?]. congruence.
Qed.
Lemma receive_spec ch h b h' : receive ch h = Some (b, h') ->
  subs h' = subs h /\ length (chans h') = length (chans h) /\
  exists rest cl, chans h !! ch = Some (mkChan (b :: rest) cl) /\
    forall k, chans h' !! k = if decide (k = ch) then Some (mkChan rest cl) else chans h !! k.
Proof.
  unfold receive. intros ([buf cl] & Hc & Hr)%bind_Some. cbn [ch_buf ch_closed] in Hr. destruct buf as [|x rest]; [done|].
  injection Hr as <- <-. cbn. split; [done|]. split; [apply length_insert|]. exists rest, cl. split; [done|].
  intros k. case_decide as Hk; [subst k; by rewrite list_lookup_insert_eq by by eapply lookup_lt_Some|].
  by rewrite list_lookup_insert_ne.
Qed.
Lemma unsubscribe_spec ch h : let h' := (UnsubscribeForSSE ch h).2 in
  subs h' = subs h ∖ {[ch]} /\ length (chans h') = length (chans h) /\
  forall k, chans h' !! k = (fun c => mkChan (ch_buf c) (ch_closed c || bool_decide (k = ch /\ ch ∈ subs h))) <$> chans h !! k.
Proof.
  unfold UnsubscribeForSSE, close. case_bool_decide as Hin; cbn.
  - split; [done|]. split; [apply length_alter|]. intros k. destruct (decide (k = ch)) as [->|Hne].
    + rewrite list_lookup_alter_eq. destruct (chans h !! ch) as [c|]; [|done]. cbn.
      by rewrite bool_decide_true, orb_true_r.
    + rewrite list_lookup_alter_ne by done. destruct (chans h !! k) as [c|]; [|done]. cbn.
      rewrite bool_decide_false, orb_false_r by tauto. by destruct c.
  - split; [set_solver|]. split; [done|]. intros k. destruct (chans h !! k) as [c|]; [|done]. cbn.
    rewrite bool_decide_false, orb_false_r by tauto. by destruct c.
Qed.

(** Where the hub's channels stay as they are, so does everything that waits in them. *)
Lemma hub_ok_tasks w ts (ok : hub_ok w) :
  (forall i t, w_tasks w !! i = Some t -> exists t', ts !! i = Some t' /\ tk_msg t' = tk_msg t) ->
  (forall ch i, served w ch i -> served (mkWorld (w_hub w) ts (w_streams w) (w_crashed w)) ch i) ->
  (forall i msg cs, ts !! i = Some (mkTask msg (TK_send cs)) ->
    NoDup cs /\ forall ch, ch ∈ cs -> (ch < length (chans (w_hub w)))%nat) ->
  hub_ok (mkWorld (w_hub w) ts (w_streams w) (w_crashed w)).
Proof.
  intros Hmsg Hsv Hts. destruct ok as [Hl Ho Hsb Hcap _ Hn Hd]. split; cbn; [done..| |done|]; [done|].
  intros j s Hj. eapply delivered_ext; [by eapply Hd|done| |done]. intros. by apply Hsv.
Qed.
Lemma served_set_task w i t t' ch k : w_tasks w !! i = Some t -> tk_msg t' = tk_msg t ->
  (forall cs, tk_pc t = TK_send cs -> exists cs', tk_pc t' = TK_send cs' /\ cs' ⊆ cs) ->
  served w ch k -> served (set_task i t' w) ch k.
Proof.
  intros Hi Hm Hpc (msg & cs & Hk & Hc). unfold served. cbn. destruct (decide (i = k)) as [->|Hne].
  - rewrite Hi in Hk. injection Hk as ->. destruct (Hpc cs eq_refl) as (cs' & Hcs' & Hsub). destruct t' as [msg' pc'].
    cbn in *. subst. exists msg, cs'. rewrite list_lookup_insert_eq by by eapply lookup_lt_Some. split; [done|]. set_solver.
  - exists msg, cs. by rewrite list_lookup_insert_ne.
Qed.
Lemma set_task_messages w i t t' : w_tasks w !! i = Some t -> tk_msg t' = tk_msg t ->
  forall k u, w_tasks w !! k = Some u -> exists u', <[i := t']> (w_tasks w) !! k = Some u' /\ tk_msg u' = tk_msg u.
Proof.
  intros Hi Hm k u Hk. destruct (decide (i = k)) as [->|Hne].
  - exists t'. rewrite list_lookup_insert_eq by by eapply lookup_lt_Some. split; congruence.
  - exists u. by rewrite list_lookup_insert_ne.
Qed.
Lemma publish_ok w payload : hub_ok w ->
  hub_ok (mkWorld (w_hub w) (w_tasks w ++ [broadcastAsync payload]) (w_streams w) (w_crashed w)).
Proof.
  intros ok. apply hub_ok_tasks; [done|..].
  - intros i t Hi. exists t. by rewrite lookup_app_l by by eapply lookup_lt_Some.
  - intros ch i (msg & cs & Hi & ?). exists msg, cs. split; [|done]. cbn.
    by rewrite lookup_app_l by by eapply lookup_lt_Some.
  - intros i msg cs [Hi|(? & Hi)]%lookup_app_Some; [by eapply ho_tasks|].
    apply list_lookup_singleton_Some in Hi as [_ Hi]. discriminate Hi.
Qed.
Lemma snapshot_ok w i t cs : hub_ok w -> w_tasks w !! i = Some t -> tk_pc t = TK_start ->
  NoDup cs -> list_to_set cs = subs (w_hub w) -> hub_ok (set_task i (mkTask (tk_msg t) (TK_send cs)) w).
Proof.
  intros ok Hi Hpc Hnd Hcs. apply hub_ok_tasks; [done|..].
  - by eapply set_task_messages.
  - intros ch k. eapply served_set_task; [done|done|]. rewrite Hpc. done.
  - intros k msg cs' Hk. destruct (decide (i = k)) as [->|Hne].
    + rewrite list_lookup_insert_eq in Hk by by eapply lookup_lt_Some. injection Hk as <- <-. split; [done|].
      intros ch Hch. destruct (ho_subs w ok ch) as (c & Hc & _); [rewrite <- Hcs; by apply elem_of_list_to_set|].
      by eapply lookup_lt_Some.
    + rewrite list_lookup_insert_ne in Hk by done. by eapply ho_tasks.
Qed.

(** The hub and a stream change together. *)
Lemma lookup_set_stream (ss : list stream) j s' k u : <[j := s']> ss !! k = Some u ->
  (k = j /\ u = s') \/ (k <> j /\ ss !! k = Some u).
Proof. intros [(-> & -> & _)|[? ?]]%list_lookup_insert_Some; [by left|right; split; [congruence|done]]. Qed.
Lemma connect_ok w : hub_ok w ->
  hub_ok (mkWorld (w_hub w) (w_tasks w) (w_streams w ++ [mkStream SS_start []]) (w_crashed w)).
Proof.
  intros [Hl Ho Hsb Hcap Ht Hn Hd].
  assert (Hnew : forall j s, (w_streams w ++ [mkStream SS_start []]) !! j = Some s ->
    w_streams w !! j = Some s \/ s = mkStream SS_start []).
  { intros j s [?|(_ & Hs)]%lookup_app_Some; [by left|right]. apply list_lookup_singleton_Some in Hs as [_ <-]. done. }
  split; cbn; [| |done|done|done| |].
  - intros j s ch [Hj| ->]%Hnew Hpc; [by eapply Hl|done].
  - intros j k s s' ch Hj Hk Hs Hs'. assert (forall i u, (w_streams w ++ [mkStream SS_start []]) !! i = Some u ->
      ss_pc u = SS_loop ch -> w_streams w !! i = Some u) as Hold by (intros i u [?| ->]%Hnew ?; done).
    eapply Ho; eauto.
  - intros j s [Hj| ->]%Hnew Hpc; [by eapply Hn|done].
  - intros j s [Hj| ->]%Hnew; [|exists []; split; [constructor|split; [done|set_solver]]].
    eapply same_tasks_ext; [by eapply Hd|done|done].
Qed.
Lemma subscribe_ok w j s : hub_ok w -> w_streams w !! j = Some s -> ss_pc s = SS_start ->
  let '(ch, h) := SubscribeForSSE (w_hub w) in hub_ok (set_stream j (mkStream (SS_loop ch) (ss_got s)) (set_hub h w)).
Proof.
  intros [Hl Ho Hsb Hcap Ht Hn Hd] Hj Hpc. cbn. set (ch := length (chans (w_hub w))). rewrite (Hn j s Hj Hpc).
  assert (Hup : forall k u c, k <> j -> w_streams w !! k = Some u -> ss_pc u = SS_loop c -> (c < ch)%nat) by eauto.
  split; cbn; rewrite ?length_app.
  - intros k u c [(-> & ->)|(Hk & Hu)]%lookup_set_stream Hc; cbn in *; [injection Hc as <-; lia|]. specialize (Hup k u c Hk Hu Hc). lia.
  - intros k k' u u' c [(-> & ->)|(Hk & Hu)]%lookup_set_stream [(-> & ->)|(Hk' & Hu')]%lookup_set_stream Hc Hc'; [done|..].
    + injection Hc as <-. specialize (Hup k' u' ch Hk' Hu' Hc'). lia.
    + injection Hc' as <-. specialize (Hup k u ch Hk Hu Hc). lia.
    + by eapply Ho.
  - intros c [->%elem_of_singleton|Hc]%elem_of_union.
    + exists (mkChan [] false). by rewrite lookup_app_r, Nat.sub_diag by done.
    + destruct (Hsb c Hc) as (x & Hx & ?). exists x. by rewrite lookup_app_l by by eapply lookup_lt_Some.
  - apply Forall_app. split; [done|]. constructor; [cbn; lia|constructor].
  - intros i msg cs Hi. destruct (Ht i msg cs Hi) as [Hnd Hcs]. split; [done|]. intros c Hc. specialize (Hcs c Hc). lia.
  - intros k u [(-> & ->)|(Hk & Hu)]%lookup_set_stream Hc; [done|by eapply Hn].
  - intros k u [(-> & ->)|(Hk & Hu)]%lookup_set_stream.
    + exists []. split; [constructor|]. unfold backlog. cbn. subst ch. rewrite lookup_app_r, Nat.sub_diag by done. split; [done|set_solver].
    + eapply same_tasks_ext; [by eapply Hd|done|]. unfold backlog. cbn. destruct (ss_pc u) as [|c|] eqn:Hc; [done| |done].
      by rewrite lookup_app_l by by eapply Hup.
Qed.
Lemma receive_ok w j s ch b h : hub_ok w -> w_streams w !! j = Some s -> ss_pc s = SS_loop ch ->
  receive ch (w_hub w) = Some (b, h) -> hub_ok (set_stream j (mkStream (SS_loop ch) (ss_got s ++ [b])) (set_hub h w)).
Proof.
  intros [Hl Ho Hsb Hcap Ht Hn Hd] Hj Hpc Hr. apply receive_spec in Hr as (Hs & Hlen & rest & cl & Hch & Hlk).
  assert (Hsame : forall k u c, <[j := mkStream (SS_loop ch) (ss_got s ++ [b])]> (w_streams w) !! k = Some u -> ss_pc u = SS_loop c ->
    exists u', w_streams w !! k = Some u' /\ ss_pc u' = SS_loop c).
  { intros k u c [(-> & ->)|(Hk & Hu)]%lookup_set_stream Hc; [|by exists u]. exists s. injection Hc as <-. done. }
  split; cbn; rewrite ?Hlen.
  - intros k u c Hu Hc. destruct (Hsame k u c Hu Hc) as (? & ? & ?). by eapply Hl.
  - intros k k' u u' c Hu Hu' Hc Hc'. destruct (Hsame k u c Hu Hc) as (? & ? & ?), (Hsame k' u' c Hu' Hc') as (? & ? & ?). by eapply Ho.
  - intros c Hc. rewrite Hs in Hc. destruct (Hsb c Hc) as (x & Hx & Hcl). rewrite Hlk.
    case_decide as Heq; [|by exists x]. subst c. rewrite Hch in Hx. injection Hx as <-. by eexists.
  - apply Forall_lookup. intros c x Hx. rewrite Hlk in Hx. rewrite Forall_lookup in Hcap. case_decide as Heq; [|by eapply Hcap].
    injection Hx as <-. specialize (Hcap _ _ Hch). cbn in *. lia.
  - done.
  - intros k u [(-> & ->)|(Hk & Hu)]%lookup_set_stream Hc; [done|by eapply Hn].
  - intros k u [(-> & ->)|(Hk & Hu)]%lookup_set_stream.
    + destruct (Hd j s Hj) as (ids & Hnd & Hm & Hsv). exists ids. split; [done|]. unfold backlog in *. rewrite Hpc in *. cbn.
      rewrite Hlk, decide_True by done. cbn. rewrite Hch in Hm. cbn in Hm. rewrite <- app_assoc. split; [done|]. by eauto.
    + eapply same_tasks_ext; [by eapply Hd|done|]. unfold backlog. cbn. destruct (ss_pc u) as [|c|] eqn:Hc; [done| |done].
      rewrite Hlk, decide_False; [done|]. intros ->. apply Hk. by eapply Ho.
Qed.
Lemma leave_ok w j s ch : hub_ok w -> w_streams w !! j = Some s -> ss_pc s = SS_loop ch ->
  hub_ok (set_stream j (mkStream SS_done (ss_got s)) (set_hub (UnsubscribeForSSE ch (w_hub w)).2 w)).
Proof.
  intros [Hl Ho Hsb Hcap Ht Hn Hd] Hj Hpc. destruct (unsubscribe_spec ch (w_hub w)) as (Hs & Hlen & Hlk).
  split; cbn; rewrite ?Hlen.
  - intros k u c [(-> & ->)|(Hk & Hu)]%lookup_set_stream Hc; [done|by eapply Hl].
  - intros k k' u u' c [(-> & ->)|(Hk & Hu)]%lookup_set_stream [(-> & ->)|(Hk' & Hu')]%lookup_set_stream Hc Hc'; [done..|by eapply Ho].
  - intros c Hc. rewrite Hs in Hc. apply elem_of_difference in Hc as [Hc Hne%not_elem_of_singleton].
    destruct (Hsb c Hc) as (x & Hx & Hcl). rewrite Hlk, Hx. eexists. split; [done|]. cbn. rewrite Hcl, bool_decide_false by tauto. done.
  - apply Forall_lookup. intros c x Hx. rewrite Hlk in Hx. apply fmap_Some in Hx as (y & Hy & ->). cbn. rewrite Forall_lookup in Hcap. eauto.
  - done.
  - intros k u [(-> & ->)|(Hk & Hu)]%lookup_set_stream Hc; [done|by eapply Hn].
  - intros k u [(-> & ->)|(Hk & Hu)]%lookup_set_stream.
    + destruct (Hd j s Hj) as (ids & Hnd & Hm & _). exists (take (length (ss_got s)) ids).
      split; [eapply sublist_NoDup; [done|apply sublist_take]|]. split; [|done]. unfold backlog, messages in *. cbn. rewrite app_nil_r.
      rewrite fmap_take, Hm, fmap_app, take_app_length'; [done|by rewrite length_fmap].
    + eapply same_tasks_ext; [by eapply Hd|done|]. unfold backlog. cbn. destruct (ss_pc u) as [|c|] eqn:Hc; [done| |done].
      rewrite Hlk. by destruct (chans (w_hub w) !! c).
Qed.
Lemma send_delivered w i t ch cs h k u : hub_ok w -> w_tasks w !! i = Some t -> tk_pc t = TK_send (ch :: cs) ->
  select_send ch (tk_msg t) (w_hub w) = Some h -> w_streams w !! k = Some u ->
  delivered (set_task i (mkTask (tk_msg t) (TK_send cs)) (set_hub h w)) u.
Proof.
  intros ok Hi Hpc Hsend Hu. apply select_send_spec in Hsend as (_ & _ & Hlk). set (w' := set_task _ _ _).
  assert (Hnd : NoDup (ch :: cs)) by (destruct t; cbn in *; subst; by eapply ho_tasks). apply NoDup_cons in Hnd as [Hch _].
  assert (Hsv : forall c m, served w c m -> served w' c m).
  { intros c m Hc. apply (served_set_task w i t (mkTask (tk_msg t) (TK_send cs)) c m Hi eq_refl) in Hc; [exact Hc|].
    intros cs' Hcs'. rewrite Hpc in Hcs'. injection Hcs' as <-. exists cs. set_solver. }
  assert (Hmsg : forall m v, w_tasks w !! m = Some v -> exists v', w_tasks w' !! m = Some v' /\ tk_msg v' = tk_msg v)
    by exact (set_task_messages w i t (mkTask (tk_msg t) (TK_send cs)) Hi eq_refl).
  destruct (ho_delivered w ok k u Hu) as (ids & Hids & Hm & Hserved).
  assert (backlog w' u = backlog w u \/ (ss_pc u = SS_loop ch /\ backlog w' u = backlog w u ++ [tk_msg t])) as [Hb|[Hloop Hb]].
  { unfold backlog. cbn. destruct (ss_pc u) as [|c|]; [by left| |by left]. rewrite Hlk. destruct (chans (w_hub w) !! c) as [x|]; [|by left].
    cbn. case_decide as Hcase; [|by left]. destruct Hcase as [-> _]. by right. }
  - eapply delivered_ext; [by exists ids|done|eauto|done].
  - exists (ids ++ [i]). assert (Hold : i ∉ ids).
    { intros Hin. destruct (Hserved ch i Hloop Hin) as (msg & cs' & Hi' & Hnot). rewrite Hi in Hi'. injection Hi' as ->.
      cbn in Hpc. injection Hpc as ->. set_solver. }
    assert (Hi' : w_tasks w' !! i = Some (mkTask (tk_msg t) (TK_send cs))) by (by apply list_lookup_insert_eq; eapply lookup_lt_Some).
    split; [apply NoDup_app; split; [done|]; split; [set_solver|apply NoDup_singleton]|]. split.
    + rewrite Hb, app_assoc, fmap_app. unfold messages. rewrite fmap_app. f_equal; [by eapply messages_ext|].
      cbn [fmap list_fmap]. by rewrite Hi'.
    + intros c m Hc [Hin| ->%list_elem_of_singleton]%elem_of_app; [eauto|]. rewrite Hloop in Hc. injection Hc as <-. by exists (tk_msg t), cs.
Qed.
Lemma send_ok w i t ch cs h : hub_ok w -> w_tasks w !! i = Some t -> tk_pc t = TK_send (ch :: cs) ->
  select_send ch (tk_msg t) (w_hub w) = Some h -> hub_ok (set_task i (mkTask (tk_msg t) (TK_send cs)) (set_hub h w)).
Proof.
  intros ok Hi Hpc Hsend. pose proof (select_send_spec _ _ _ _ Hsend) as (Hs & Hlen & Hlk). pose proof ok as [Hl Ho Hsb Hcap Ht Hn Hd].
  split; cbn; rewrite ?Hlen; [done|done| | | |done|].
  - intros c Hc. rewrite Hs in Hc. destruct (Hsb c Hc) as (x & Hx & Hcl). rewrite Hlk, Hx. eexists. split; [done|]. by case_decide.
  - apply Forall_lookup. intros c x Hx. rewrite Hlk in Hx. apply fmap_Some in Hx as (y & Hy & ->). rewrite Forall_lookup in Hcap.
    specialize (Hcap _ _ Hy). case_decide as Hcase; [|done]. cbn. rewrite length_app. cbn. unfold chan_cap in *. lia.
  - intros k msg cs' Hk. apply list_lookup_insert_Some in Hk as [(-> & Heq & _)|[_ Hk]]; [|by eapply Ht]. injection Heq as <- <-.
    destruct t as [msg pc]. cbn in *. subst. destruct (Ht k msg (ch :: cs) Hi) as [[_ Hnd]%NoDup_cons Hin]. split; [done|].
    intros c Hc. apply Hin. by right.
  - intros j s Hj. by eapply send_delivered.
Qed.

Lemma do_event_ok ev w w' : hub_ok w -> do_event ev w = Some w' -> w_crashed w' = false -> hub_ok w'.
Proof.
  intros ok Hdo Hcr. unfold do_event in Hdo. destruct (w_crashed w) eqn:Hw; [done|]. destruct ev as [payload| |j|j|j|i cs|i].
  - injection Hdo as <-. rewrite <- Hw. by apply publish_ok.
  - injection Hdo as <-. rewrite <- Hw. by apply connect_ok.
  - apply bind_Some in Hdo as (s & Hj & Hdo). destruct (ss_pc s) eqn:Hpc; [|done|done]. injection Hdo as <-. by apply (subscribe_ok w j s).
  - apply bind_Some in Hdo as (s & Hj & Hdo). destruct (ss_pc s) as [|ch|] eqn:Hpc; [done| |done].
    apply bind_Some in Hdo as ([b h] & Hr & Hdo). injection Hdo as <-. by eapply receive_ok.
  - apply bind_Some in Hdo as (s & Hj & Hdo). destruct (ss_pc s) as [|ch|] eqn:Hpc; [done| |done].
    pose proof (leave_ok w j s ch ok Hj Hpc) as Hok. destruct (UnsubscribeForSSE ch (w_hub w)) as [u h]. by injection Hdo as <-.
  - apply bind_Some in Hdo as (t & Hi & Hdo). destruct (tk_pc t) eqn:Hpc; [|done]. case_bool_decide as Hcs; [|done].
    injection Hdo as <-. destruct Hcs. by apply snapshot_ok.
  - apply bind_Some in Hdo as (t & Hi & Hdo). destruct (tk_pc t) as [|[|ch cs]] eqn:Hpc; [done|done|].
    destruct (select_send ch (tk_msg t) (w_hub w)) as [h|] eqn:Hs; injection Hdo as <-; [by eapply send_ok|done].
Qed.
Lemma crashed_stays evs w w' : w_crashed w = true -> do_events evs w = Some w' -> w_crashed w' = true.
Proof. destruct evs as [|ev evs]; cbn; [by intros ? [= <-]|]. unfold do_event. by intros ->. Qed.
Lemma do_events_ok evs w w' : hub_ok w -> do_events evs w = Some w' -> w_crashed w' = false -> hub_ok w'.
Proof.
  revert w. induction evs as [|ev evs IH]; intros w ok Hdo Hcr; cbn in Hdo; [by injection Hdo as <-|].
  apply bind_Some in Hdo as (v & Hv & Hdo). destruct (w_crashed v) eqn:Hcv.
  - pose proof (crashed_stays _ _ _ Hcv Hdo). congruence.
  - eapply IH; [by eapply do_event_ok|done|done].
Qed.

(** ** Streams, broadcasts and their interleavings *)

(** C34: from the engine's start, and whatever the order in which broadcasts, subscriptions,
    deliveries and departures are interleaved, what a stream has written is the framed
    messages of distinct broadcasts, each once at most, and no channel ever holds more than
    its 32 messages. *)
Theorem streams_once evs w j s : do_events evs quiet_world = Some w -> w_crashed w = false ->
  w_streams w !! j = Some s ->
  Forall (fun c => (length (ch_buf c) <= 32)%nat) (chans (w_hub w)) /\
  exists ts : list (nat * task), NoDup (fst <$> ts) /\ Forall (fun it => w_tasks w !! it.1 = Some it.2) ts /\
    written s = concat (frame <$> (tk_msg <$> (snd <$> ts))).
Proof.
  intros Hdo Hcr Hj. pose proof (do_events_ok _ _ _ quiet_world_ok Hdo Hcr) as ok. split; [by apply ho_cap|].
  destruct (ho_delivered w ok j s Hj) as (ids & Hnd & Hm & _). unfold written. revert Hm. generalize (backlog w s) (ss_got s).
  intros rest got Hm. enough (exists ts : list (nat * task), NoDup (fst <$> ts) /\
    Forall (fun it => w_tasks w !! it.1 = Some it.2) ts /\ tk_msg <$> (snd <$> ts) = got /\ (fst <$> ts) ⊆ ids)
    as (ts & ? & ? & <- & _) by by exists ts.
  revert got Hm. induction Hnd as [|i ids Hi Hnd IH]; intros [|b got] Hm; try by (exists []; split; [constructor|split; [constructor|split; [done|set_solver]]]).
  unfold messages in *. cbn in Hm. injection Hm as Hb Hm. destruct (IH got Hm) as (ts & Hnd' & Hall & Hgot & Hsub).
  destruct (w_tasks w !! i) as [t|] eqn:Ht; [|done]. injection Hb as <-. exists ((i, t) :: ts). cbn.
  split; [constructor; set_solver|]. split; [by constructor|]. split; [by rewrite Hgot|set_solver].
Qed.
(** Two clients and two rounds; the second round's goroutine overtakes the first's on one
    channel, and the clients see the rounds in different orders. *)
Definition overtaking : list event :=
  [E_connect; E_connect; E_subscribe 0; E_subscribe 1; E_publish (JInt 1); E_publish (JInt 2);
   E_snapshot 0 [0; 1]; E_snapshot 1 [1; 0]; E_send 0; E_send 1; E_send 1; E_send 0;
   E_receive 0; E_receive 0; E_receive 1; E_receive 1; E_leave 0]%nat.
Lemma streams_once_witness :
  (exists w s s', do_events overtaking quiet_world = Some w /\ w_crashed w = false /\
    w_streams w !! 0%nat = Some s /\ w_streams w !! 1%nat = Some s' /\
    ss_got s = [to_bytes "1"; to_bytes "2"] /\ ss_got s' = [to_bytes "2"; to_bytes "1"]) /\
  forall w s, do_events overtaking quiet_world = Some w -> w_crashed w = false -> w_streams w !! 0%nat = Some s ->
    Forall (fun c => (length (ch_buf c) <= 32)%nat) (chans (w_hub w)).
Proof.
  split.
  - do 3 eexists. split; [vm_compute; reflexivity|]. split; [vm_compute; reflexivity|]. split; [vm_compute; reflexivity|].
    split; [vm_compute; reflexivity|]. split; vm_compute; reflexivity.
  - intros w s Hw Hc Hs. apply (streams_once overtaking w 0 s Hw Hc Hs).
Defined.

(** Without departures every channel stays open. *)
Definition all_open (w : World) : Prop := Forall (fun c => ch_closed c = false) (chans (w_hub w)).
Lemma do_event_open ev w w' : (forall j, ev <> E_leave j) -> all_open w -> w_crashed w = false ->
  do_event ev w = Some w' -> all_open w' /\ w_crashed w' = false.
Proof.
  unfold all_open. intros Hev Ho Hw. unfold do_event. rewrite Hw. destruct ev as [payload| |j|j|j|i cs|i]; intros Hdo.
  - by injection Hdo as <-.
  - by injection Hdo as <-.
  - apply bind_Some in Hdo as (s & Hj & Hdo). destruct (ss_pc s); [|done|done]. injection Hdo as <-. split; [|done]. cbn.
    apply Forall_app. split; [done|]. by repeat constructor.
  - apply bind_Some in Hdo as (s & Hj & Hdo). destruct (ss_pc s) as [|ch|]; [done| |done].
    apply bind_Some in Hdo as ([b h] & Hr & Hdo). injection Hdo as <-. split; [|done].
    apply receive_spec in Hr as (_ & _ & rest & cl & Hch & Hlk). apply Forall_lookup. cbn. intros k c Hk. rewrite Hlk in Hk.
    rewrite Forall_lookup in Ho. case_decide; [|by eapply Ho]. injection Hk as <-. apply (Ho _ _ Hch).
  - by destruct (Hev j).
  - apply bind_Some in Hdo as (t & Hi & Hdo). destruct (tk_pc t); [|done]. case_bool_decide; [|done]. by injection Hdo as <-.
  - apply bind_Some in Hdo as (t & Hi & Hdo). destruct (tk_pc t) as [|[|ch cs]]; [done|done|]. rewrite Forall_lookup in Ho.
    destruct (select_send ch (tk_msg t) (w_hub w)) as [h|] eqn:Hs; injection Hdo as <-; cbn.
    + split; [|done]. apply select_send_spec in Hs as (_ & _ & Hlk). apply Forall_lookup. intros k c Hk. rewrite Hlk in Hk.
      apply fmap_Some in Hk as (x & Hx & ->). case_decide; cbn; by eapply Ho.
    + unfold select_send in Hs. destruct (chans (w_hub w) !! ch) as [c|] eqn:Hc; [|done]. rewrite (Ho _ _ Hc) in Hs. by destruct (_ <? _)%nat.
Qed.
(** as long as no client leaves, no interleaving of broadcasts, subscriptions and
    deliveries sends on a closed channel. *)
Theorem no_leave_no_crash evs w : (forall j, E_leave j ∉ evs) -> do_events evs quiet_world = Some w ->
  w_crashed w = false.
Proof.
  intros Hev. assert (Hstart : all_open quiet_world /\ w_crashed quiet_world = false) by (split; [constructor|done]).
  revert Hstart. generalize quiet_world. induction evs as [|ev evs IH]; intros v [Ho Hc] Hdo; cbn in Hdo; [by injection Hdo as <-|].
  apply bind_Some in Hdo as (u & Hu & Hdo). eapply IH; [|eapply do_event_open; [|done..|done]|done].
  - intros j Hj. apply (Hev j). by right.
  - intros j ->. apply (Hev j). by left.
Qed.
Lemma no_leave_no_crash_witness :
  (exists w, do_events (take 16 overtaking) quiet_world = Some w) /\
  forall w, do_events (take 16 overtaking) quiet_world = Some w -> w_crashed w = false.
Proof.
  split; [eexists; vm_compute; reflexivity|]. intros w Hw. apply (no_leave_no_crash (take 16 overtaking) w); [|exact Hw].
  intros j Hin. cbn in Hin. repeat (apply elem_of_cons in Hin as [Hin|Hin]; [discriminate Hin|]). by apply elem_of_nil in Hin.
Defined.
(** a client that leaves between a broadcast's copy of the subscriptions and its send makes
    the goroutine send on a closed channel: the node panics, whatever the message. *)
Theorem leave_crashes payload :
  w_crashed <$> do_events [E_publish payload; E_connect; E_subscribe 0; E_snapshot 0 [0%nat]; E_leave 0; E_send 0] quiet_world
    = Some true.
Proof. reflexivity. Qed.

(** *** A broadcast on its own *)
Lemma sends_alone cs : forall w i msg, w_crashed w = false -> w_tasks w !! i = Some (mkTask msg (TK_send cs)) -> NoDup cs ->
  (forall ch, ch ∈ cs -> exists c, chans (w_hub w) !! ch = Some c /\ ch_closed c = false) ->
  exists h, do_events (replicate (length cs) (E_send i)) w = Some (set_task i (mkTask msg (TK_send [])) (set_hub h w)) /\
    subs h = subs (w_hub w) /\
    forall k, chans h !! k = (fun c => if decide (k ∈ cs /\ (length (ch_buf c) < chan_cap)%nat)
                                       then mkChan (ch_buf c ++ [msg]) (ch_closed c) else c) <$> chans (w_hub w) !! k.
Proof.
  induction cs as [|ch cs IH]; intros w i msg Hw Hi Hnd Hopen.
  - exists (w_hub w). cbn. split; [|split; [done|]].
    + unfold set_task, set_hub. cbn. rewrite list_insert_id by done. by destruct w as [? ? ? []].
    + intros k. destruct (chans (w_hub w) !! k); [|done]. cbn. rewrite decide_False; [done|]. set_solver.
  - apply NoDup_cons in Hnd as [Hch Hnd]. destruct (Hopen ch) as (c & Hc & Hcl); [by left|].
    assert (exists h, select_send ch msg (w_hub w) = Some h) as (h & Hh).
    { unfold select_send. rewrite Hc, Hcl. destruct (_ <? _)%nat; by eexists. }
    pose proof (select_send_spec _ _ _ _ Hh) as (Hs & Hlen & Hlk).
    destruct (IH (set_task i (mkTask msg (TK_send cs)) (set_hub h w)) i msg) as (h' & Hdo & Hs' & Hlk').
    + done.
    + cbn. apply list_lookup_insert_eq. by eapply lookup_lt_Some.
    + done.
    + intros k Hk. destruct (Hopen k) as (x & Hx & Hxc); [by right|]. cbn. rewrite Hlk, Hx. eexists. split; [done|]. by case_decide.
    + exists h'. split; [|split; [by rewrite Hs', <- Hs|]].
      * cbn [length replicate do_events]. unfold do_event at 1. rewrite Hw, Hi. cbn [mbind option_bind tk_pc tk_msg]. rewrite Hh.
        cbn [mbind option_bind]. rewrite Hdo. unfold set_task, set_hub. cbn. by rewrite list_insert_insert_eq.
      * intros k. rewrite Hlk'. cbn [w_hub set_task set_hub]. rewrite Hlk. destruct (chans (w_hub w) !! k) as [x|]; [|done].
        cbn [fmap option_fmap option_map]. f_equal. destruct (decide (k = ch)) as [->|Hne].
        -- rewrite (decide_False (P := ch ∈ cs /\ _)) by tauto. apply decide_ext. set_solver.
        -- rewrite (decide_False (P := k = ch /\ _)) by tauto. apply decide_ext. set_solver.
Qed.
(** a broadcast that nothing interrupts reaches every subscribed channel: whatever the
    order in which the subscriptions are iterated over, each of them that has room ends with
    the message, those whose 32 places are taken keep what they have, and no other channel
    changes. *)
Theorem broadcast_alone w i msg cs : hub_ok w -> w_crashed w = false -> w_tasks w !! i = Some (mkTask msg TK_start) ->
  NoDup cs -> list_to_set cs = subs (w_hub w) ->
  exists w', do_events (E_snapshot i cs :: replicate (length cs) (E_send i)) w = Some w' /\ w_crashed w' = false /\
    w_tasks w' !! i = Some (mkTask msg (TK_send [])) /\ subs (w_hub w') = subs (w_hub w) /\ w_streams w' = w_streams w /\
    forall k, chans (w_hub w') !! k =
      (fun c => if decide (k ∈ subs (w_hub w) /\ (length (ch_buf c) < 32)%nat)
                then mkChan (ch_buf c ++ [msg]) (ch_closed c) else c) <$> chans (w_hub w) !! k.
Proof.
  intros ok Hw Hi Hnd Hcs. set (v := set_task i (mkTask msg (TK_send cs)) w).
  destruct (sends_alone cs v i msg) as (h & Hdo & Hs & Hlk).
  - done.
  - cbn. apply list_lookup_insert_eq. by eapply lookup_lt_Some.
  - done.
  - intros ch Hch. apply (ho_subs w ok). rewrite <- Hcs. by apply elem_of_list_to_set.
  - exists (set_task i (mkTask msg (TK_send [])) (set_hub h v)). split; [|split; [done|split; [|split; [done|split; [done|]]]]].
    + cbn [do_events]. unfold do_event at 1. rewrite Hw, Hi. cbn [mbind option_bind tk_pc tk_msg].
      rewrite bool_decide_true by done. exact Hdo.
    + cbn. apply list_lookup_insert_eq. rewrite length_insert. by eapply lookup_lt_Some.
    + intros k. cbn [w_hub set_task set_hub]. rewrite Hlk. destruct (chans (w_hub v) !! k) as [x|] eqn:Hk; cbn in Hk; rewrite Hk; [|done].
      cbn [fmap option_fmap option_map]. f_equal. apply decide_ext. rewrite <- Hcs, elem_of_list_to_set. done.
Qed.
Lemma broadcast_alone_witness :
  let w := default quiet_world (do_events (take 6 overtaking) quiet_world) in
  exists w', do_events (E_snapshot 1 [1; 0] :: replicate 2 (E_send 1))%nat w = Some w' /\ w_crashed w' = false.
Proof.
  intros w. assert (Hw : do_events (take 6 overtaking) quiet_world = Some w) by reflexivity.
  assert (ok : hub_ok w) by (apply (do_events_ok (take 6 overtaking) quiet_world); [exact quiet_world_ok|exact Hw|reflexivity]).
  destruct (broadcast_alone w 1 (to_bytes "2") [1; 0]%nat ok) as (w' & H & Hc & _).
  - reflexivity.
  - reflexivity.
  - apply (bool_decide_unpack _); vm_compute; exact I.
  - vm_compute. reflexivity.
  - exists w'. split; [exact H|exact Hc].
Defined.
