(* ===== verification/LightRouter.v ===== *)
(** * internal/rpc/router_lightclient.go: the stub node for light clients.

    Built under the tag [light_client] in place of router.go.  It checks no signatures and
    keeps no accounts: a nonce per sender, the hashes it has seen, and for every height a
    header and a bundle with the same root. *)
From S2P Require Export Router GoNum.
From Stdlib Require Import Ascii.

(** ** State *)
Record lcHeader := mkLcHeader { lch_Root : bytes }.
Record lcBundle := mkLcBundle { lcb_CommitRoot : bytes }.
Record lcReceipt := mkLcReceipt { lcr_TxHash : string }.
Record Light := mkLight {
  lcHeight : Z; lcNonces : gmap string Z; lcReceipts : gmap string lcReceipt;
  lcHeaders : gmap Z lcHeader; lcBundles : gmap Z lcBundle
}.
Definition light_start : Light := mkLight 0 ∅ ∅ ∅ ∅.
Definition lcChainID : Z := 777.
Definition lcH256 (b : bytes) : bytes := sha256 b.

Definition LightHandler : Type := request -> St Light (outcome response).
Definition lcWriteJSON (status : Z) (v : json) : response :=
  rs_Encode v (rs_WriteHeader status (rs_headers (h_Set "Content-Type" "application/json") rs_new)).
Definition lcWriteErr (status : Z) (key : string) : response := lcWriteJSON status (err_json key).
Definition http_NotFound : response := relay notFound rs_new.
Definition lreply (w : response) (s : Light) : outcome response * Light := (Replied w, s).

(** A mux of exact patterns and of subtrees, whose root without its slash is redirected. *)
Definition subtree_mux {S} (exact subtrees : list (string * (request -> St S (outcome response)))) (rq : request)
    : St S (outcome response) := fun s =>
  let p := rq_Path rq in
  if unclean p then (Redirected, s) else
  match List.find (fun r => String.eqb r.1 p) exact with
  | Some (_, h) => h rq s
  | None =>
      match List.find (fun r => has_prefix p r.1) subtrees with
      | Some (_, h) => h rq s
      | None => if existsb (fun r => String.eqb (p +:+ "/") r.1) subtrees then (Redirected, s)
                else (Replied http_NotFound, s)
      end
  end.
(** The state after a request is the one before, or what one of the routes makes of it. *)
Lemma subtree_mux_cases {S} (exact subtrees : list (string * (request -> St S (outcome response)))) rq s :
  (subtree_mux exact subtrees rq s).2 = s \/
  exists r, r ∈ exact ++ subtrees /\ (subtree_mux exact subtrees rq s).2 = (r.2 rq s).2.
Proof.
  unfold subtree_mux. destruct (unclean _); [by left|].
  destruct (List.find _ exact) as [[p h]|] eqn:Ef; [apply List.find_some in Ef as [Hin%list_elem_of_In _]; right; exists (p, h); set_solver|].
  destruct (List.find _ subtrees) as [[p h]|] eqn:Ep; [apply List.find_some in Ep as [Hin%list_elem_of_In _]; right; exists (p, h); set_solver|].
  by destruct (existsb _ _); left.
Qed.
Lemma subtree_mux_keeps {S} (P : S -> Prop) (exact subtrees : list (string * (request -> St S (outcome response)))) rq s :
  Forall (fun r => forall rq s, P s -> P (r.2 rq s).2) exact -> Forall (fun r => forall rq s, P s -> P (r.2 rq s).2) subtrees ->
  P s -> P (subtree_mux exact subtrees rq s).2.
Proof.
  rewrite !Forall_forall. intros He Hp Hs. destruct (subtree_mux_cases exact subtrees rq s) as [->|(r & Hr & ->)]; [done|].
  apply elem_of_app in Hr as [Hr|Hr]; eauto.
Qed.

(** ** Handlers *)
Section Handlers.
Context `{GoRuntime, GoFloat}.

Definition light_ping : LightHandler := fun rq s =>
  lreply (rs_Write (to_bytes "pong") (rs_WriteHeader StatusOK rs_new)) s.
Definition light_health (time_utc : string) : LightHandler := fun rq s =>
  if negb (is_get rq) then lreply (lcWriteErr StatusMethodNotAllowed "method") s else
  lreply (lcWriteJSON StatusOK (gomap [("ok", JBool true); ("ts", JStr time_utc)])) s.
Definition light_policy : LightHandler := fun rq s =>
  if negb (is_get rq) then lreply (lcWriteErr StatusMethodNotAllowed "method") s else
  lreply (lcWriteJSON StatusOK (gomap [("allowed_chain_id", JInt lcChainID)])) s.
Definition light_nonce : LightHandler := fun rq s =>
  if negb (is_get rq) then lreply (lcWriteErr StatusMethodNotAllowed "method") s else
  let addr := trim_prefix (rq_Path rq) "/nonce/" in
  if bool_decide (addr = "") then lreply (lcWriteErr StatusBadRequest "bad_addr") s else
  lreply (lcWriteJSON StatusOK (gomap [("expected_nonce", JUint (default 0 (lcNonces s !! addr)))])) s.

(** [json.NewDecoder(r.Body).Decode(&tx)] into a map: the first value of the body; [null]
    leaves the map nil. *)
Definition decode_any_map (b : bytes) : option (list (string * json)) :=
  let s := of_bytes b in
  r ← parse_value (S (String.length s)) s;
  match r.1 with
  | JNull => Some []
  | JObj l => j ← any_json (merge_sort key_le) (JObj l);
              match j with JObj l => Some l | _ => None end
  | _ => None
  end.
Definition any_string (k : string) (l : list (string * json)) : string :=
  match List.find (fun kv => String.eqb kv.1 k) l with Some (_, JStr s) => s | _ => "" end.
Definition any_float (k : string) (l : list (string * json)) : spec_float :=
  match List.find (fun kv => String.eqb kv.1 k) l with
  | Some (_, JNum lit) => default (S754_zero false) (parse_float lit)
  | _ => S754_zero false
  end.
Definition light_tx : LightHandler := fun rq s =>
  if negb (is_post rq) then lreply (lcWriteErr StatusMethodNotAllowed "method") s else
  match decode_any_map (rq_Body rq) with
  | None => lreply (lcWriteErr StatusBadRequest "bad_json") s
  | Some tx =>
      let from := any_string "from" tx in
      if negb (int_of (any_float "chain_id" tx) =? lcChainID)
      then lreply (lcWriteErr StatusBadRequest "bad_chain_id") s else
      let exp := default 0 (lcNonces s !! from) in
      if negb (uint64_of (any_float "nonce" tx) =? exp)
      then lreply (lcWriteErr StatusConflict "bad_nonce") s else
      let hashHex := hex_encode (lcH256 (json_marshal (JObj tx))) in
      let s := mkLight (lcHeight s) (<[from := exp +u 1]> (lcNonces s))
                 (<[hashHex := mkLcReceipt hashHex]> (lcReceipts s)) (lcHeaders s) (lcBundles s) in
      lreply (lcWriteJSON StatusOK (gomap [("tx_hash", JStr hashHex); ("receipt", gomap [("tx_hash", JStr hashHex)])])) s
  end.
Definition light_commit : LightHandler := fun rq s =>
  if negb (is_post rq) then lreply (lcWriteErr StatusMethodNotAllowed "method") s else
  let h := lcHeight s +u 1 in
  let root := lcH256 (to_bytes ("h:" +:+ fmt_uint h)) in
  let s := mkLight h (lcNonces s) (lcReceipts s) (<[h := mkLcHeader root]> (lcHeaders s))
             (<[h := mkLcBundle root]> (lcBundles s)) in
  lreply (lcWriteJSON StatusOK (gomap [("to_height", JUint h)])) s.
Definition light_latest : LightHandler := fun rq s =>
  if negb (is_get rq) then lreply (lcWriteErr StatusMethodNotAllowed "method") s else
  lreply (lcWriteJSON StatusOK (gomap [("from_height", JUint (lcHeight s)); ("to_height", JUint (lcHeight s))])) s.
Definition light_receipt : LightHandler := fun rq s =>
  if negb (is_get rq) then lreply (lcWriteErr StatusMethodNotAllowed "method") s else
  let q := Query_Get "hash" rq in
  if bool_decide (q = "") then lreply (lcWriteErr StatusBadRequest "bad_hash") s else
  match lcReceipts s !! q with
  | None => lreply (lcWriteErr StatusNotFound "not_found") s
  | Some rc => lreply (lcWriteJSON StatusOK (JObj [("tx_hash", JStr (lcr_TxHash rc))])) s
  end.
Definition light_proof : LightHandler := fun rq s =>
  if negb (is_get rq) then lreply (lcWriteErr StatusMethodNotAllowed "method") s else
  if negb (has_suffix (rq_Path rq) "/light-proof") then lreply http_NotFound s else
  match parse_uint (trim_slashes (trim_suffix (trim_prefix (rq_Path rq) "/block/") "/light-proof")) with
  | None => lreply (lcWriteErr StatusBadRequest "bad_height") s
  | Some h =>
      match lcHeaders s !! h with
      | None => lreply (lcWriteErr StatusNotFound "header_not_found") s
      | Some hdr =>
          match lcBundles s !! h with
          | None => lreply (lcWriteErr StatusNotFound "bundle_not_found") s
          | Some bun =>
              let okEq := bool_decide (lch_Root hdr = lcb_CommitRoot bun) in
              let resp := gomap [("ok", JBool okEq); ("height", JUint h);
                ("header_commit_root", JStr (hex_encode (lch_Root hdr)));
                ("bundle_root", JStr (hex_encode (lcb_CommitRoot bun)))] in
              if negb okEq then lreply (lcWriteJSON StatusConflict resp) s
              else lreply (lcWriteJSON StatusOK resp) s
          end
      end
  end.

(** [installLightRoutes], the mux it fills. *)
Definition light_exact (time_utc : string) : list (string * LightHandler) :=
  [("/ping", light_ping); ("/health", light_health time_utc); ("/policy", light_policy); ("/tx", light_tx);
   ("/round/commit", light_commit); ("/round/latest", light_latest); ("/receipt/get", light_receipt)].
Definition light_prefix : list (string * LightHandler) := [("/nonce/", light_nonce); ("/block/", light_proof)].
Definition light_mux (time_utc : string) : LightHandler := subtree_mux (light_exact time_utc) light_prefix.
End Handlers.

(** ** What light clients rely on *)
Section Spec.
Context `{GoRuntime, GoFloat}.

Definition light_root (h : Z) : bytes := lcH256 (to_bytes ("h:" +:+ fmt_uint h)).
(** One request served by the mux; the clock is an argument. *)
Inductive light_served : Light -> Light -> Prop :=
  | light_request t rq s : light_served s (light_mux t rq s).2.
Record light_inv (s : Light) : Prop := {
  li_headers : map_Forall (fun h x => lch_Root x = light_root h) (lcHeaders s);
  li_bundles : map_Forall (fun h x => lcb_CommitRoot x = light_root h) (lcBundles s);
  li_known : forall h, 1 <= h <= lcHeight s -> is_Some (lcHeaders s !! h) /\ is_Some (lcBundles s !! h);
  li_height : in_u64 (lcHeight s)
}.
Lemma light_start_inv : light_inv light_start.
Proof. split; try (by apply map_Forall_empty); [cbn; lia|unfold in_u64; cbn; lia]. Qed.
Lemma light_commit_inv rq s : light_inv s -> light_inv (light_commit rq s).2.
Proof.
  intros Hs. unfold light_commit. destruct (negb _); [done|]. destruct Hs as [Hh Hb Hk Hr]. cbn [lreply snd].
  set (h := lcHeight s +u 1). split; cbn [lcHeaders lcBundles lcHeight].
  - by apply map_Forall_insert_2.
  - by apply map_Forall_insert_2.
  - intros k Hlt. destruct (decide (k = h)) as [->|Hne].
    + rewrite !lookup_insert_eq. eauto.
    + rewrite !lookup_insert_ne by done. apply Hk. unfold in_u64 in Hr. subst h.
      pose proof (Z.mod_le (lcHeight s + 1) M64 ltac:(lia) ltac:(lia)) as Hle. unfold u64 in *. lia.
  - apply u64_range.
Qed.
Lemma light_tx_inv rq s : light_inv s -> light_inv (light_tx rq s).2.
Proof.
  intros Hs. unfold light_tx. destruct (negb _); [done|]. destruct (decode_any_map _) as [tx|]; [|done].
  destruct (negb _); [done|]. destruct (negb _); [done|]. by destruct Hs.
Qed.
(** Every other handler leaves the state alone. *)
Lemma light_exact_inv t : Forall (fun r : string * LightHandler => forall rq s, light_inv s -> light_inv (r.2 rq s).2) (light_exact t).
Proof.
  unfold light_exact. repeat (apply Forall_cons; split); cbn [snd]; try apply Forall_nil; try done; intros rq s Hs;
  first [ by apply light_tx_inv | by apply light_commit_inv
        | unfold light_health, light_policy, light_latest, light_receipt; by repeat case_match ].
Qed.
Lemma light_prefix_inv : Forall (fun r : string * LightHandler => forall rq s, light_inv s -> light_inv (r.2 rq s).2) light_prefix.
Proof.
  unfold light_prefix. repeat (apply Forall_cons; split); cbn [snd]; try apply Forall_nil; try done; intros rq s Hs;
  unfold light_nonce, light_proof; by repeat case_match.
Qed.
Lemma light_mux_inv t rq s : light_inv s -> light_inv (light_mux t rq s).2.
Proof. apply subtree_mux_keeps; [apply light_exact_inv|apply light_prefix_inv]. Qed.
Lemma light_reachable s : rtc light_served light_start s -> light_inv s.
Proof.
  assert (Hr : forall a b, rtc light_served a b -> light_inv a -> light_inv b).
  { induction 1 as [|a b d Hs _ IH]; [done|]. intros Ha. apply IH. destruct Hs. by apply light_mux_inv. }
  intros Hs. eapply Hr; [exact Hs|apply light_start_inv].
Qed.

(** in the stub node every height that has been committed has a light proof that checks: in
    every reachable state the proof of a height up to the latest is answered with status
    200 and [ok] true, its two roots equal; a conflict is never reported. *)
Theorem light_proofs_hold (s : Light) (rq : request) (h : Z) : rtc light_served light_start s ->
  rq_Method rq = "GET" -> has_suffix (rq_Path rq) "/light-proof" = true ->
  parse_uint (trim_slashes (trim_suffix (trim_prefix (rq_Path rq) "/block/") "/light-proof")) = Some h ->
  (1 <= h <= lcHeight s -> light_proof rq s =
     (Replied (lcWriteJSON StatusOK (gomap [("ok", JBool true); ("height", JUint h);
        ("header_commit_root", JStr (hex_encode (light_root h))); ("bundle_root", JStr (hex_encode (light_root h)))])), s)) /\
  forall w, (light_proof rq s).1 = Replied w -> rs_status w <> StatusConflict.
Proof.
  intros Hs Hm Hsuf Hp. destruct (light_reachable s Hs) as [Hh Hb Hk _].
  assert (Heq : forall x y, lcHeaders s !! h = Some x -> lcBundles s !! h = Some y ->
    lch_Root x = light_root h /\ lcb_CommitRoot y = light_root h).
  { intros x y Hx Hy. split; [exact (Hh h x Hx)|exact (Hb h y Hy)]. }
  unfold light_proof, is_get. rewrite Hm, Hsuf, Hp. change (negb (String.eqb "GET" "GET")) with false.
  cbn [negb]. cbn iota. split.
  - intros Hle. destruct (Hk h Hle) as [[x Hx] [y Hy]]. rewrite Hx, Hy.
    destruct (Heq x y Hx Hy) as [-> ->]. by rewrite bool_decide_true.
  - intros w. destruct (lcHeaders s !! h) as [x|]; [|by intros [= <-]].
    destruct (lcBundles s !! h) as [y|]; [|by intros [= <-]].
    destruct (Heq x y eq_refl eq_refl) as [-> ->]. rewrite bool_decide_true by done. by intros [= <-].
Qed.

(** a transaction is accepted by the stub node with the sender's expected nonce only,
    advances it by one and nothing else's, and the same request again is a conflict. *)
Theorem light_tx_once (rq : request) (s : Light) (w : response) (s' : Light) :
  light_tx rq s = (Replied w, s') -> rs_status w = StatusOK ->
  exists tx, decode_any_map (rq_Body rq) = Some tx /\
    let n := uint64_of (any_float "nonce" tx) in
    default 0 (lcNonces s !! any_string "from" tx) = n /\
    lcNonces s' = <[any_string "from" tx := n +u 1]> (lcNonces s) /\
    light_tx rq s' = (Replied (lcWriteErr StatusConflict "bad_nonce"), s').
Proof.
  intros E Hw. unfold light_tx in E. destruct (negb (is_post rq)) eqn:Hpost; [by injection E as <- _|].
  destruct (decode_any_map (rq_Body rq)) as [tx|] eqn:Hd; [|by injection E as <- _].
  destruct (negb (int_of _ =? _)) eqn:Hc; [by injection E as <- _|].
  destruct (Z.eqb_spec (uint64_of (any_float "nonce" tx)) (default 0 (lcNonces s !! any_string "from" tx))) as [En|];
    [|by injection E as <- _].
  exists tx. split; [done|]. cbn [negb] in E. cbv zeta. split; [done|].
  pose proof (f_equal snd E) as Es. cbn [snd lreply] in Es. subst s'. cbn [lcNonces]. rewrite <- En. split; [done|].
  unfold light_tx. rewrite Hpost, Hd, Hc. cbn [lcNonces]. rewrite lookup_insert_eq. cbn [default Datatypes.id].
  pose proof (uint64_of_range (any_float "nonce" tx)) as Hr. unfold in_u64 in Hr.
  destruct (Z.eqb_spec (uint64_of (any_float "nonce" tx)) (uint64_of (any_float "nonce" tx) +u 1)) as [Eq|]; [|done].
  exfalso. destruct (Z.eq_dec (uint64_of (any_float "nonce" tx)) (M64 - 1)) as [Em|Hne].
  - rewrite Em in Eq. done.
  - rewrite u64_small in Eq by (unfold in_u64; lia). lia.
Qed.
End Spec.

Section Witnesses.
#[local] Existing Instance runtime0.
#[local] Existing Instance float_amd64.
Definition lreq (m p : string) (body : list (string * json)) : request :=
  mkRequest m p [] [] (json_marshal (JObj body)) "127.0.0.1:5000".
Definition ltx0 : request := lreq "POST" "/tx" [("from", JStr "a"); ("nonce", JInt 0); ("chain_id", JInt 777)].
Definition lproof0 : request := lreq "GET" "/block/1/light-proof" [].
Definition lstate1 : Light := (light_mux "t" (lreq "POST" "/round/commit" []) light_start).2.
Lemma light_proofs_hold_witness : exists w, light_proof lproof0 lstate1 = (Replied w, lstate1).
Proof.
  eexists. refine (proj1 (light_proofs_hold lstate1 lproof0 1 _ eq_refl eq_refl _) _).
  - apply rtc_once. exact (light_request "t" (lreq "POST" "/round/commit" []) light_start).
  - vm_compute. reflexivity.
  - assert (E : lcHeight lstate1 = 1) by (vm_compute; reflexivity). rewrite E. lia.
Defined.
Lemma light_tx_once_witness : exists w s, light_tx ltx0 light_start = (Replied w, s) /\
  light_tx ltx0 s = (Replied (lcWriteErr StatusConflict "bad_nonce"), s).
Proof.
  destruct (light_tx ltx0 light_start) as [o s] eqn:E. destruct o as [w| | |].
  2, 3, 4: exfalso; apply (f_equal fst) in E; revert E; vm_compute; discriminate.
  exists w, s. split; [reflexivity|].
  assert (Hw : rs_status w = StatusOK).
  { apply (f_equal (fun x => match x.1 with Replied w => rs_status w | _ => 0 end)) in E. cbn [fst] in E.
    rewrite <- E. vm_compute. reflexivity. }
  destruct (light_tx_once ltx0 light_start w s E Hw) as (tx & _ & _ & _ & Hagain). exact Hagain.
Defined.
End Witnesses.
