(* ===== verification/Standalone.v ===== *)
(** * tmp_light_router_standalone.go: the stub node in one file.

    The handlers of router_lightclient.go without their checks: no method is refused, a
    transaction is answered with its hash and forgotten, any hash has a receipt.  Every
    handler takes the mutex once, except that [/round/commit] reads [height] again, without
    the mutex, after it has released it: it is a program of two steps. *)
From S2P Require Export LightRouter.

(** ** State *)
Record Standalone := mkStandalone {
  sa_height : Z; sa_nonces : gmap string Z; sa_headers : gmap Z bytes; sa_bundles : gmap Z bytes
}.
Definition sa_start : Standalone := mkStandalone 0 ∅ ∅ ∅.
Definition SAHandler : Type := request -> St Standalone (outcome response).
Definition j (code : Z) (v : json) : response :=
  rs_Encode v (rs_WriteHeader code (rs_headers (h_Set "Content-Type" "application/json") rs_new)).
Definition sa_reply (w : response) (s : Standalone) : outcome response * Standalone := (Replied w, s).

(** ** Handlers *)
Definition sa_ping : SAHandler := fun _ s => sa_reply (rs_Write (to_bytes "pong") (rs_WriteHeader 200 rs_new)) s.
Definition sa_health (time_utc : string) : SAHandler := fun _ s =>
  sa_reply (j 200 (gomap [("ok", JBool true); ("ts", JStr time_utc)])) s.
Definition sa_policy : SAHandler := fun _ s => sa_reply (j 200 (gomap [("allowed_chain_id", JInt 777)])) s.
Definition sa_nonce : SAHandler := fun rq s =>
  let addr := trim_prefix (rq_Path rq) "/nonce/" in
  let n := default 0 (sa_nonces s !! addr) in
  sa_reply (j 200 (gomap [("expected_nonce", JUint n)])) s.
(** The map decoded and marshalled again; a [null] body is the nil map. *)
Definition remarshal (b : bytes) : option bytes :=
  let s := of_bytes b in
  r ← parse_value (S (String.length s)) s;
  match r.1 with
  | JNull => Some (json_marshal JNull)
  | JObj l => tx ← any_json (merge_sort key_le) (JObj l); Some (json_marshal tx)
  | _ => None
  end.
Definition sa_tx : SAHandler := fun rq s =>
  match remarshal (rq_Body rq) with
  | None => sa_reply (j 400 (gomap [("error", JStr "bad_json")])) s
  | Some raw =>
      let hx := hex_encode (sha256 raw) in
      sa_reply (j 200 (gomap [("tx_hash", JStr hx); ("receipt", gomap [("tx_hash", JStr hx)])])) s
  end.
Definition sa_latest : SAHandler := fun _ s =>
  let h := sa_height s in
  sa_reply (j 200 (gomap [("from_height", JUint h); ("to_height", JUint h)])) s.
Definition sa_receipt : SAHandler := fun rq s =>
  let q := Query_Get "hash" rq in
  if bool_decide (q = "") then sa_reply (j 400 (gomap [("error", JStr "bad_hash")])) s
  else sa_reply (j 200 (gomap [("tx_hash", JStr q)])) s.
Definition sa_proof : SAHandler := fun rq s =>
  if negb (has_suffix (rq_Path rq) "/light-proof") then sa_reply http_NotFound s else
  let trim := trim_slashes (trim_suffix (trim_prefix (rq_Path rq) "/block/") "/light-proof") in
  match parse_uint trim with
  | None => sa_reply (j 400 (gomap [("error", JStr "bad_height")])) s
  | Some h =>
      match sa_headers s !! h with
      | None => sa_reply (j 404 (gomap [("error", JStr "header_not_found")])) s
      | Some hr =>
          match sa_bundles s !! h with
          | None => sa_reply (j 404 (gomap [("error", JStr "bundle_not_found")])) s
          | Some br =>
              let okEq := bool_decide (hr = br) in
              let resp := gomap [("ok", JBool okEq); ("height", JUint h);
                ("header_commit_root", JStr (hex_encode hr)); ("bundle_root", JStr (hex_encode br))] in
              if negb okEq then sa_reply (j 409 resp) s else sa_reply (j 200 resp) s
          end
      end
  end.

(** ** [/round/commit]: under the mutex, then after it *)
Definition sa_root (h : Z) : bytes := sha256 (to_bytes (fmt_uint h)).
Definition sa_commit_locked (s : Standalone) : Standalone :=
  let h := sa_height s +u 1 in
  let root := sa_root h in
  mkStandalone h (sa_nonces s) (<[h := root]> (sa_headers s)) (<[h := root]> (sa_bundles s)).
Definition sa_commit_answer (s : Standalone) : response := j 200 (gomap [("to_height", JUint (sa_height s))]).
Inductive sa_pc := SA_lock | SA_answer | SA_done (w : response).
Definition sa_step (pc : sa_pc) : St Standalone sa_pc := fun s =>
  match pc with
  | SA_lock => (SA_answer, sa_commit_locked s)
  | SA_answer => (SA_done (sa_commit_answer s), s)
  | SA_done w => (SA_done w, s)
  end.
(** A commit that nothing interrupts. *)
Definition sa_commit : SAHandler := fun _ s => let s := sa_commit_locked s in sa_reply (sa_commit_answer s) s.
Definition sa_exact (time_utc : string) : list (string * SAHandler) :=
  [("/ping", sa_ping); ("/health", sa_health time_utc); ("/policy", sa_policy); ("/tx", sa_tx);
   ("/round/commit", sa_commit); ("/round/latest", sa_latest); ("/receipt/get", sa_receipt)].
Definition sa_subtrees : list (string * SAHandler) := [("/nonce/", sa_nonce); ("/block/", sa_proof)].
Definition sa_mux (time_utc : string) : SAHandler := subtree_mux (sa_exact time_utc) sa_subtrees.

(** ** Commits and other requests, interleaved *)
Inductive sa_event := SE_request (time_utc : string) (rq : request) | SE_commit (i : nat).
Definition sa_event_step (ev : sa_event) (w : list sa_pc * Standalone) : list sa_pc * Standalone :=
  match ev with
  | SE_request t rq => (w.1, (sa_mux t rq w.2).2)
  | SE_commit i => match w.1 !! i with
                   | Some pc => let '(pc, s) := sa_step pc w.2 in (<[i := pc]> w.1, s)
                   | None => w
                   end
  end.
Definition sa_run (n : nat) (evs : list sa_event) : list sa_pc * Standalone :=
  foldl (fun w ev => sa_event_step ev w) (replicate n SA_lock, sa_start) evs.

Record sa_inv (s : Standalone) : Prop := {
  si_headers : map_Forall (fun h r => r = sa_root h) (sa_headers s);
  si_bundles : map_Forall (fun h r => r = sa_root h) (sa_bundles s);
  si_known : forall h, 1 <= h <= sa_height s -> is_Some (sa_headers s !! h) /\ is_Some (sa_bundles s !! h);
  si_height : in_u64 (sa_height s);
  si_nonces : sa_nonces s = ∅
}.
Lemma sa_start_inv : sa_inv sa_start.
Proof. split; try (by apply map_Forall_empty); [cbn; lia|unfold in_u64; cbn; lia|done]. Qed.
Lemma sa_commit_inv s : sa_inv s -> sa_inv (sa_commit_locked s).
Proof.
  intros [Hh Hb Hk Hr Hn]. unfold sa_commit_locked. set (h := sa_height s +u 1). split; cbn [sa_headers sa_bundles sa_height sa_nonces].
  - by apply map_Forall_insert_2.
  - by apply map_Forall_insert_2.
  - intros k Hlt. destruct (decide (k = h)) as [->|Hne]; [rewrite !lookup_insert_eq; eauto|].
    rewrite !lookup_insert_ne by done. apply Hk. unfold in_u64 in Hr. subst h.
    pose proof (Z.mod_le (sa_height s + 1) M64 ltac:(lia) ltac:(lia)) as Hle. unfold u64 in *. lia.
  - apply u64_range.
  - done.
Qed.
Lemma sa_mux_inv t rq s : sa_inv s -> sa_inv (sa_mux t rq s).2.
Proof.
  apply subtree_mux_keeps; unfold sa_exact, sa_subtrees; repeat (apply Forall_cons; split); try apply Forall_nil; try done;
    intros rq' s' Hs; cbn [snd]; first [by apply sa_commit_inv | unfold sa_tx, sa_receipt, sa_proof; by repeat case_match].
Qed.
Lemma sa_run_inv n evs : sa_inv (sa_run n evs).2.
Proof.
  unfold sa_run. assert (Hw : sa_inv (replicate n SA_lock, sa_start).2) by apply sa_start_inv. revert Hw.
  generalize (replicate n SA_lock, sa_start). induction evs as [|ev evs IH]; intros [pcs s] Hs; [done|]. cbn [foldl]. apply IH.
  destruct ev as [t rq|i]; cbn [sa_event_step fst snd]; [by apply sa_mux_inv|]. destruct (pcs !! i) as [[]|]; cbn; [by apply sa_commit_inv|done..].
Qed.

(** The heights that commits in progress have seen or answered. *)
Definition to_height (h : Z) : response := j 200 (gomap [("to_height", JUint h)]).
Definition seen (s : Standalone) (pc : sa_pc) : Prop :=
  match pc with
  | SA_lock => True
  | SA_answer => 1 <= sa_height s
  | SA_done w => exists h, 1 <= h <= sa_height s /\ w = to_height h
  end.
Lemma seen_grows s s' pc : sa_height s <= sa_height s' -> seen s pc -> seen s' pc.
Proof. intros Hs. destruct pc as [| |w]; cbn; [done|lia|]. intros (h & Hh & ->). exists h. split; [lia|done]. Qed.
Lemma sa_mux_height t rq s k : sa_height s <= k -> k + 1 < M64 -> 0 <= sa_height s ->
  sa_height s <= sa_height (sa_mux t rq s).2 <= k + 1.
Proof.
  intros Hk Hb H0'. pose (P := fun s' => s' = s \/ s' = sa_commit_locked s).
  enough (P (sa_mux t rq s).2) as [->| ->]; [lia|unfold sa_commit_locked; cbn [sa_height]; rewrite u64_small by (unfold in_u64; lia); lia|].
  destruct (subtree_mux_cases (sa_exact t) sa_subtrees rq s) as [E|(r & Hr & E)]; unfold sa_mux; rewrite E; [by left|].
  cbn [sa_exact sa_subtrees app] in Hr.
  repeat (apply elem_of_cons in Hr as [->|Hr]; [first [by left | by right | left; cbn [snd]; unfold sa_tx, sa_receipt, sa_proof; by repeat case_match]|]).
  by apply elem_of_nil in Hr.
Qed.
Lemma sa_run_seen n evs : Z.of_nat (length evs) < M64 -> let w := sa_run n evs in
  0 <= sa_height w.2 <= Z.of_nat (length evs) /\ Forall (seen w.2) w.1.
Proof.
  cbn zeta. induction evs as [|ev evs IH] using rev_ind; intros Hl.
  { cbn. split; [lia|]. apply Forall_replicate. done. }
  rewrite length_app in Hl |- *. cbn [length] in Hl |- *. destruct IH as [Hh Hseen]; [lia|]. unfold sa_run in *. rewrite foldl_app. cbn [foldl].
  destruct (foldl _ _ evs) as [pcs s]. cbn [fst snd] in *. rewrite Nat2Z.inj_add. destruct ev as [t rq|i]; cbn [sa_event_step fst snd].
  - pose proof (sa_mux_height t rq s (Z.of_nat (length evs)) ltac:(lia) ltac:(lia) ltac:(lia)) as Hm. split; [lia|].
    eapply Forall_impl; [exact Hseen|]. intros pc. apply seen_grows. lia.
  - destruct (pcs !! i) as [pc|] eqn:Hpc; [|cbn; split; [lia|done]]. pose proof (Forall_lookup_1 _ _ _ _ Hseen Hpc) as Hi.
    destruct pc as [| |w]; cbn [sa_step fst snd seen] in *.
    + assert (Hg : sa_height (sa_commit_locked s) = sa_height s + 1)
        by (unfold sa_commit_locked; cbn [sa_height]; apply u64_small; unfold in_u64; lia).
      rewrite Hg. split; [lia|]. apply Forall_insert; [|cbn [seen]; lia]. eapply Forall_impl; [exact Hseen|]. intros pc. apply seen_grows. lia.
    + split; [lia|]. apply Forall_insert; [done|]. exists (sa_height s). split; [lia|done].
    + split; [lia|]. by apply Forall_insert.
Qed.

(** however commits and other requests are interleaved, a height that a commit reports has
    been committed, and every committed height has a light proof that checks from then on. *)
Theorem standalone_commits n evs i w : Z.of_nat (length evs) < M64 -> (sa_run n evs).1 !! i = Some (SA_done w) ->
  exists h, w = to_height h /\ 1 <= h <= sa_height (sa_run n evs).2 /\
  forall rq, has_suffix (rq_Path rq) "/light-proof" = true ->
    parse_uint (trim_slashes (trim_suffix (trim_prefix (rq_Path rq) "/block/") "/light-proof")) = Some h ->
    sa_proof rq (sa_run n evs).2 =
      (Replied (j 200 (gomap [("ok", JBool true); ("height", JUint h); ("header_commit_root", JStr (hex_encode (sa_root h)));
                              ("bundle_root", JStr (hex_encode (sa_root h)))])), (sa_run n evs).2).
Proof.
  intros Hl Hi. destruct (sa_run_seen n evs Hl) as [_ Hseen]. destruct (Forall_lookup_1 _ _ _ _ Hseen Hi) as (h & Hh & ->).
  exists h. split; [done|]. split; [done|]. intros rq Hsuf Hp. destruct (sa_run_inv n evs) as [Hhd Hbd Hk _ _].
  unfold sa_proof. rewrite Hsuf, Hp. cbn [negb]. cbn iota. destruct (Hk h Hh) as [[x Hx] [y Hy]]. rewrite Hx, Hy.
  rewrite (Hhd h x Hx), (Hbd h y Hy). by rewrite bool_decide_true.
Qed.
(** the height is read again after the mutex is released, so two commits can both report
    the second height, and none the first. *)
Theorem standalone_same_height :
  (sa_run 2 [SE_commit 0; SE_commit 1; SE_commit 0; SE_commit 1]).1 = [SA_done (to_height 2); SA_done (to_height 2)].
Proof. reflexivity. Qed.
Lemma standalone_commits_witness : exists h,
  to_height 2 = to_height h /\ 1 <= h <= sa_height (sa_run 2 [SE_commit 0; SE_commit 1; SE_commit 0; SE_commit 1]).2.
Proof.
  destruct (standalone_commits 2 [SE_commit 0; SE_commit 1; SE_commit 0; SE_commit 1] 0 (to_height 2)) as (h & Hw & Hh & _).
  - reflexivity.
  - vm_compute. reflexivity.
  - exists h. split; [exact Hw|exact Hh].
Defined.
