(* ===== verification/Docs.v ===== *)
(** * server/docs_routes.go: the OpenAPI document, merged from its parts.

    The files below the working directory are a function from path to content.  Go maps are
    association lists with one entry per key; marshalling sorts them. *)
From S2P Require Export Http GoNum.
From Stdlib Require Import Ascii.

Definition obj : Type := list (string * json).
Definition obj_get (k : string) (m : obj) : option json := snd <$> List.find (fun kv => String.eqb kv.1 k) m.
Definition obj_set (k : string) (v : json) (m : obj) : obj := set_member k v m.
Definition as_obj (o : option json) : option obj := match o with Some (JObj l) => Some l | _ => None end.
(** [getMap] returns a reference into [m], or a new map that it stores there; the callers
    store what they change back under the same key. *)
Definition getMap (m : obj) (key : string) : obj := default [] (as_obj (obj_get key m)).

Definition stripBOM (b : bytes) : bytes :=
  match b with
  | x :: y :: z :: rest => if bool_decide ([x; y; z] = [z2b 239; z2b 187; z2b 191]) then rest else b
  | _ => b
  end.

(** ** Merging *)
Definition set_all (dst src : obj) : obj := foldl (fun d kv => obj_set kv.1 kv.2 d) dst src.
Definition mergePathsAndSchemas (dst src : obj) : obj :=
  let dst := match as_obj (obj_get "paths" src) with
             | Some sp => obj_set "paths" (JObj (set_all (getMap dst "paths") sp)) dst
             | None => dst
             end in
  match as_obj (obj_get "components" src) with
  | Some sc =>
      match as_obj (obj_get "schemas" sc) with
      | Some ss =>
          let dc := getMap dst "components" in
          let ds := set_all (getMap dc "schemas") ss in
          obj_set "components" (JObj (obj_set "schemas" (JObj ds) dc)) dst
      | None => dst
      end
  | None => dst
  end.
Definition healthSchema : json :=
  JObj [("type", JStr "object"); ("required", JArr [JStr "status"]);
        ("properties", JObj [("status", JObj [("type", JStr "string"); ("enum", JArr [JStr "ok"; JStr "degraded"]);
                                              ("example", JStr "ok")])])].
Definition healthPath : json :=
  JObj [("get", JObj [("summary", JStr "Health");
    ("responses", JObj [("200", JObj [("description", JStr "OK");
      ("content", JObj [("application/json", JObj [
         ("schema", JObj [("$ref", JStr "#/components/schemas/HealthResponse")]);
         ("examples", JObj [("ok", JObj [("value", JObj [("status", JStr "ok")])])])])])])])])].
Definition ensureHealth (doc : obj) : obj :=
  let paths := getMap doc "paths" in
  match obj_get "/health" paths with
  | Some _ => obj_set "paths" (JObj paths) doc
  | None =>
      let components := getMap doc "components" in
      let schemas := getMap components "schemas" in
      let schemas := match obj_get "HealthResponse" schemas with
                     | Some _ => schemas | None => obj_set "HealthResponse" healthSchema schemas end in
      let doc := obj_set "components" (JObj (obj_set "schemas" (JObj schemas) components)) doc in
      obj_set "paths" (JObj (obj_set "/health" healthPath paths)) doc
  end.
Definition skeleton : obj :=
  [("openapi", JStr "3.0.3"); ("info", JObj [("title", JStr "THO Node API"); ("version", JStr "0.1.0")]);
   ("servers", JArr [JObj [("url", JStr "/")]]); ("paths", JObj []); ("components", JObj [("schemas", JObj [])])].

(** [json.MarshalIndent(v, "", "  ")] of maps: sorted keys, two blanks per level. *)
Fixpoint sort_json (j : json) : json :=
  match j with
  | JArr l => JArr (map sort_json l)
  | JObj l => gomap (map (fun kv => (kv.1, sort_json kv.2)) l)
  | j => j
  end.
Fixpoint pad (d : nat) : string := match d with O => newline | S d => pad d +:+ "  " end.
Fixpoint indent_print (d : nat) (j : json) : string :=
  match j with
  | JArr (x :: l) =>
      "[" +:+ pad (S d) +:+ String.concat ("," +:+ pad (S d)) (map (indent_print (S d)) (x :: l)) +:+ pad d +:+ "]"
  | JObj (kv :: l) =>
      "{" +:+ pad (S d) +:+
      String.concat ("," +:+ pad (S d))
        (map (fun kv => print_string kv.1 +:+ ": " +:+ indent_print (S d) kv.2) (kv :: l)) +:+ pad d +:+ "}"
  | j => json_print j
  end.
Definition MarshalIndent (j : json) : bytes := to_bytes (indent_print 0 (sort_json j)).

(** ** Files *)
Section Files.
Context (files : string -> option bytes).  (* os.ReadFile *)

Definition openAPIDirs : list string := ["server/static/openapi"; "server/docs/openapi"].
(** [filepath.Join] of a directory and a name that the mux has cleaned: a trailing slash goes. *)
Definition file_join (d name : string) : string := d +:+ "/" +:+ trim_suffix name "/".
Definition readOpenAPIPart (name : string) : option bytes :=
  (fix go (ds : list string) : option bytes :=
     match ds with
     | [] => None
     | d :: ds => match files (file_join d name) with Some b => Some b | None => go ds end
     end) openAPIDirs.
(** A part as the map it decodes to; [null] is the nil map. *)
Definition decode_map (b : bytes) : option obj :=
  j ← json_unmarshal b;
  match j with
  | JNull => Some []
  | JObj _ => j ← any_json (merge_sort key_le) j; as_obj (Some j)
  | _ => None
  end.
Definition part_names : list string := ["tx.json"; "rounds.json"; "policy.json"; "health.json"; "wallet.json"].
(** The parts that are there and decode, in order. *)
Definition parts : list obj := omap (fun p => raw ← readOpenAPIPart p; decode_map (stripBOM raw)) part_names.
Definition merged : obj := ensureHealth (foldl mergePathsAndSchemas skeleton parts).
(** Marshalling cannot fail on decoded values. *)
Definition buildMergedOpenAPI : result bytes := Ok (MarshalIndent (JObj merged)).

(** ** Routes *)
Definition allowCORS (w : response) : response :=
  rs_headers (fun h => h_Set "Access-Control-Allow-Headers" "Content-Type"
    (h_Set "Access-Control-Allow-Methods" "GET,OPTIONS" (h_Set "Access-Control-Allow-Origin" "*" h))) w.
Definition no_store (ct : string) (w : response) : response :=
  rs_headers (fun h => h_Set "Cache-Control" "no-store" (h_Set "Content-Type" ct h)) w.
Definition docs_writeJSONError (status : Z) (code msg : string) (w : response) : response :=
  rs_Encode (gomap [("applied", JBool false); ("ok", JBool false);
                    ("error", gomap [("code", JStr code); ("message", JStr msg)])])
    (rs_WriteHeader status (no_store "application/json; charset=utf-8" w)).
Definition is_options (rq : request) : bool := String.eqb (rq_Method rq) "OPTIONS".
(** [openapiJSON] is the embedded file static/openapi.json. *)
Definition docs_openapi (openapiJSON : bytes) (w : response) (rq : request) : response :=
  let w := allowCORS w in
  if is_options rq then rs_WriteHeader StatusNoContent w else
  let w := no_store "application/json; charset=utf-8" w in
  match buildMergedOpenAPI with Ok data => rs_Write data w | Err _ => rs_Write openapiJSON w end.
(** [strings.Contains(name, "..")] *)
Fixpoint has_dots (s : string) : bool :=
  has_prefix s ".." || match s with "" => false | String _ s => has_dots s end.
Definition docs_part (w : response) (rq : request) : response :=
  let w := allowCORS w in
  if is_options rq then rs_WriteHeader StatusNoContent w else
  let name := trim_prefix (rq_Path rq) "/openapi/" in
  if bool_decide (name = "") || has_dots name
  then docs_writeJSONError StatusBadRequest "bad_request" "invalid name" w else
  if String.eqb name "merged.json" then
    match buildMergedOpenAPI with
    | Err e => docs_writeJSONError StatusInternalServerError "merge_failed" e w
    | Ok data => rs_Write data (no_store "application/json; charset=utf-8" w)
    end
  else
    match readOpenAPIPart name with
    | Some b => rs_Write b (no_store "application/json; charset=utf-8" w)
    | None => docs_writeJSONError StatusNotFound "bad_request" "404 page not found" w
    end.
End Files.
(** The page; a tilde below stands for the double quote. *)
Definition docsHTML : string := str_map (fun c => if Ascii.eqb c "~"%char then dquote else c)
"<!doctype html>
<html lang=~en~>
<head>
<meta charset=~utf-8~/>
<title>THO Node API Docs</title>
<meta name=~viewport~ content=~width=device-width, initial-scale=1~/>
<link rel=~stylesheet~ href=~https://unpkg.com/swagger-ui-dist@5/swagger-ui.css~>
<style>html,body{margin:0;padding:0}.topbar{display:none}</style>
</head>
<body>
<div id=~swagger-ui~></div>
<script src=~https://unpkg.com/swagger-ui-dist@5/swagger-ui-bundle.js~></script>
<script>
window.onload = () => {
  const ui = SwaggerUIBundle({
    url: '/openapi.json',
    dom_id: '#swagger-ui',
    presets: [SwaggerUIBundle.presets.apis],
    layout: 'BaseLayout',
  });
  window.ui = ui;
};
</script>
</body>
</html>".
Definition docsHTMLHandler (w : response) (rq : request) : response :=
  let w := allowCORS w in
  if is_options rq then rs_WriteHeader StatusNoContent w else
  rs_Write (to_bytes docsHTML) (no_store "text/html; charset=utf-8" w).

(** ** Maps keep one entry per key *)
Lemma obj_get_set k k' v m : obj_get k (obj_set k' v m) = if String.eqb k' k then Some v else obj_get k m.
Proof.
  unfold obj_get, obj_set. induction m as [|[a x] m IH]; cbn; [by destruct (String.eqb_spec k' k)|].
  destruct (String.eqb_spec k' a) as [->|Hne]; cbn.
  - by destruct (String.eqb_spec a k).
  - destruct (String.eqb_spec a k) as [->|]; cbn; [|done].
    destruct (String.eqb_spec k' k) as [->|]; done.
Qed.
Lemma obj_get_None k m : k ∉ m.*1 -> obj_get k m = None.
Proof.
  unfold obj_get. induction m as [|[a x] m IH]; [done|]. cbn. intros [Hne Hin]%not_elem_of_cons.
  destruct (String.eqb_spec a k); [congruence|]. by apply IH.
Qed.
Lemma obj_get_set_all k dst src : NoDup src.*1 ->
  obj_get k (set_all dst src) = match obj_get k src with Some v => Some v | None => obj_get k dst end.
Proof.
  unfold set_all. revert dst. induction src as [|[a x] src IH]; intros dst Hnd; [done|].
  cbn [foldl fst snd]. apply NoDup_cons in Hnd as [Ha Hnd]. cbn in Ha. rewrite IH by done. rewrite obj_get_set.
  unfold obj_get at 3. cbn [List.find fst].
  destruct (String.eqb_spec a k) as [->|Hne].
  - by rewrite obj_get_None.
  - done.
Qed.
Lemma getMap_set_eq k l m : getMap (obj_set k (JObj l) m) k = l.
Proof. unfold getMap. by rewrite obj_get_set, String.eqb_refl. Qed.
Lemma getMap_set_ne k k' v m : k' <> k -> getMap (obj_set k' v m) k = getMap m k.
Proof. unfold getMap. rewrite obj_get_set. intros Hne. by apply String.eqb_neq in Hne as ->. Qed.

Fixpoint nodup_json (j : json) : Prop :=
  match j with
  | JArr l => foldr (fun x P => nodup_json x /\ P) True l
  | JObj l => NoDup l.*1 /\ foldr (fun kv P => nodup_json kv.2 /\ P) True l
  | _ => True
  end.
Lemma nodup_obj l : nodup_json (JObj l) <-> NoDup l.*1 /\ Forall (fun kv => nodup_json kv.2) l.
Proof.
  cbn [nodup_json]. split; intros [Hn Hl]; (split; [done|]).
  - clear Hn. induction l as [|kv l IH]; [done|]. destruct Hl. constructor; auto.
  - clear Hn. induction Hl; cbn; auto.
Qed.
Lemma set_member_keys k v l : (set_member k v l).*1 = if bool_decide (k ∈ l.*1) then l.*1 else l.*1 ++ [k].
Proof.
  induction l as [|[a x] l IH]; [done|]. cbn [set_member].
  destruct (String.eqb_spec k a) as [->|Hne]; cbn [fmap list_fmap fst].
  - rewrite bool_decide_true by apply list_elem_of_here. done.
  - rewrite IH. repeat case_bool_decide; rewrite elem_of_cons in *; naive_solver.
Qed.
Lemma set_member_values (P : json -> Prop) k v l : P v -> Forall (fun kv => P kv.2) l ->
  Forall (fun kv => P kv.2) (set_member k v l).
Proof.
  intros Hv Hl. induction Hl as [|[a x] l Hx Hl IH]; cbn [set_member]; [by repeat constructor|].
  destruct (String.eqb k a); by constructor.
Qed.
Lemma dedup_ok l : Forall (fun kv => nodup_json kv.2) l ->
  NoDup (dedup l).*1 /\ Forall (fun kv => nodup_json kv.2) (dedup l).
Proof.
  unfold dedup. intros Hl. assert (Hg : forall acc : list (string * json), NoDup acc.*1 -> Forall (fun kv => nodup_json kv.2) acc ->
    let r := foldl (fun acc kv => set_member kv.1 kv.2 acc) acc l in NoDup r.*1 /\ Forall (fun kv => nodup_json kv.2) r).
  { induction Hl as [|[k v] l Hv _ IH]; intros acc Hn Ha; [done|]. cbn [foldl fst snd]. apply IH.
    - rewrite set_member_keys. case_bool_decide; [done|]. apply NoDup_app. split; [done|]. split; [|apply NoDup_singleton].
      intros x Hx ->%list_elem_of_singleton. done.
    - by apply set_member_values. }
  apply Hg; constructor.
Qed.
Lemma any_json_nodup j : forall j', any_json (merge_sort key_le) j = Some j' -> nodup_json j'.
Proof.
  induction j as [|b|n|s|l IH|l IH] using json_nested_ind; intros j' E; cbn [any_json] in E.
  - by injection E as <-.
  - by injection E as <-.
  - apply bind_Some in E as (f & _ & [= <-]). done.
  - by injection E as <-.
  - apply bind_Some in E as (r & Hr & [= <-]). cbn [nodup_json]. revert r Hr.
    induction IH as [|x l Hx _ IHl]; intros r Hr; [by injection Hr as <-|].
    apply bind_Some in Hr as (y & Hy & Hr). apply bind_Some in Hr as (r' & Hr & [= <-]). cbn. auto.
  - apply bind_Some in E as (r & Hr & [= <-]).
    assert (Hv : Forall (fun kv => nodup_json kv.2) r).
    { revert r Hr. induction IH as [|[k x] l Hx _ IHl]; intros r Hr; [by injection Hr as <-|].
      apply bind_Some in Hr as (y & Hy & Hr). apply bind_Some in Hr as (r' & Hr & [= <-]).
      constructor; [by apply Hx|by apply IHl]. }
    apply nodup_obj. destruct (dedup_ok r Hv) as [Hn Ha]. rewrite merge_sort_Permutation. done.
Qed.
Lemma nodup_member k m l : Forall (fun kv => nodup_json kv.2) m -> as_obj (obj_get k m) = Some l ->
  NoDup l.*1 /\ Forall (fun kv => nodup_json kv.2) l.
Proof.
  intros Hm. unfold obj_get. destruct (List.find _ m) as [[a x]|] eqn:Ef; [|done]. cbn.
  apply List.find_some in Ef as [Hin _]. rewrite List.Forall_forall in Hm. specialize (Hm _ Hin). cbn in Hm.
  destruct x; intros [= <-]. by apply nodup_obj.
Qed.

(** ** The merged document *)
Section Spec.
Context (files : string -> option bytes).

Lemma parts_ok : Forall (fun m => Forall (fun kv : string * json => nodup_json kv.2) m) (parts files).
Proof.
  apply Forall_forall. intros m. unfold parts. rewrite list_elem_of_omap. intros (p & _ & Hp).
  apply bind_Some in Hp as (raw & _ & Hd). unfold decode_map in Hd.
  apply bind_Some in Hd as (j & _ & Hd). destruct j as [| | | | |l]; try done; [by injection Hd as <-|].
  apply bind_Some in Hd as (j' & Hj & Hd). apply any_json_nodup in Hj. destruct j'; try done.
  injection Hd as <-. exact (proj2 (proj1 (nodup_obj _) Hj)).
Qed.
(** What a part says about a path. *)
Definition part_path (p : string) (m : obj) : option json := sp ← as_obj (obj_get "paths" m); obj_get p sp.
Lemma merge_path p dst m : Forall (fun kv : string * json => nodup_json kv.2) m ->
  obj_get p (getMap (mergePathsAndSchemas dst m) "paths") =
  match part_path p m with Some v => Some v | None => obj_get p (getMap dst "paths") end.
Proof.
  intros Hm. unfold mergePathsAndSchemas, part_path.
  assert (Hrest : forall d : obj, obj_get p (getMap (match as_obj (obj_get "components" m) with
     | Some sc => match as_obj (obj_get "schemas" sc) with
        | Some ss => obj_set "components" (JObj (obj_set "schemas" (JObj (set_all (getMap (getMap d "components") "schemas") ss)) (getMap d "components"))) d
        | None => d end
     | None => d end) "paths") = obj_get p (getMap d "paths")).
  { intros d. destruct (as_obj (obj_get "components" m)) as [sc|]; [|done].
    destruct (as_obj (obj_get "schemas" sc)); [|done]. by rewrite getMap_set_ne. }
  cbv zeta. rewrite Hrest. clear Hrest.
  destruct (as_obj (obj_get "paths" m)) as [sp|] eqn:Ep; cbn [mbind option_bind]; [|done].
  rewrite getMap_set_eq, obj_get_set_all; [done|]. by eapply nodup_member.
Qed.
Lemma merge_paths ms dst p : Forall (fun m => Forall (fun kv : string * json => nodup_json kv.2) m) ms ->
  obj_get p (getMap (foldl mergePathsAndSchemas dst ms) "paths") =
  match last (omap (part_path p) ms) with Some v => Some v | None => obj_get p (getMap dst "paths") end.
Proof.
  intros Hms. revert dst. induction ms as [|m ms IH] using rev_ind; intros dst; [done|].
  apply Forall_app in Hms as [Hms Hm]. rewrite Forall_singleton in Hm.
  rewrite foldl_app, omap_app. cbn [foldl omap list_omap]. rewrite (merge_path p _ m Hm), (IH Hms).
  destruct (part_path p m) as [v|]; [by rewrite last_snoc|]. by rewrite app_nil_r.
Qed.

(** the merged API document is complete: whatever files are missing or broken, it describes
    exactly the paths of the parts that decode, each as the last part that has it says,
    and [/health], for which a default stands in when no part has it. *)
Theorem merged_paths (p : string) :
  obj_get p (getMap (merged files) "paths") =
  match last (omap (part_path p) (parts files)) with
  | Some v => Some v
  | None => if String.eqb p "/health" then Some healthPath else None
  end.
Proof.
  unfold merged. pose proof (merge_paths (parts files) skeleton) as Hm.
  set (doc := foldl mergePathsAndSchemas skeleton (parts files)) in *. unfold ensureHealth.
  assert (Hskel : forall q, obj_get q (getMap skeleton "paths") = None) by done.
  pose proof (Hm "/health" parts_ok) as Hh. rewrite Hskel in Hh. specialize (Hm p parts_ok). rewrite Hskel in Hm.
  destruct (obj_get "/health" (getMap doc "paths")) as [v|] eqn:E.
  - rewrite getMap_set_eq, Hm. destruct (last _) eqn:El; [done|].
    destruct (String.eqb_spec p "/health") as [->|]; [|done]. by rewrite El in Hh.
  - rewrite getMap_set_eq, obj_get_set, Hm, (String.eqb_sym p).
    destruct (String.eqb_spec "/health" p) as [<-|]; [|by destruct (last _)].
    by destruct (last _).
Qed.
End Spec.
