(* ===== verification/Main.v ===== *)
(** * cmd/thomasd/main.go: the process around the RPC handler.

    CORS, the rate limit on [/wallet/restore], the mux that joins the documentation routes
    with the RPC handler, and the checks before start-up.  Handlers here receive the
    response writer that the outer ones have already written headers to.  The RPC handler's
    reply is replayed onto that writer: the headers it sets and the CORS headers have
    different names. *)
From S2P Require Export Router Docs.
From Stdlib Require Import Ascii.

Record rateBucket := mkBucket { tokens : Z; b_last : option Z }.  (* nanoseconds; [None] is the zero time *)
Record Server := mkServer { srv_node : Node; rl : gmap string rateBucket }.
Definition WHandler : Type := response -> request -> St Server (outcome response).
Definition wreply (w : response) (s : Server) : outcome response * Server := (Replied w, s).

(** ** CORS *)
Definition allowed_origin (o : string) : bool := String.eqb o "http://localhost:5174".
Definition cors_headers (o : string) (h : header) : header :=
  h_Set "Access-Control-Allow-Credentials" "true"
    (h_Set "Access-Control-Allow-Headers" "Content-Type, Authorization, X-PubKey, X-Sig"
      (h_Set "Access-Control-Allow-Methods" "GET, POST, OPTIONS"
        (h_Set "Vary" "Origin" (h_Set "Access-Control-Allow-Origin" o h)))).
Definition withCORS (h : WHandler) : WHandler := fun w rq s =>
  let o := Header_Get "Origin" rq in
  if negb (bool_decide (o = "")) && allowed_origin o then
    let w := rs_headers (cors_headers o) w in
    if is_options rq then wreply (rs_WriteHeader StatusNoContent w) s else h w rq s
  else if is_options rq then wreply (rs_WriteHeader StatusNoContent w) s
  else h w rq s.

(** ** Rate limit *)

(** [net.SplitHostPort]: the host, when the address is well-formed. *)
Fixpoint index_char (c : ascii) (s : string) : option nat :=
  match s with
  | "" => None
  | String d s => if Ascii.eqb c d then Some 0%nat else i ← index_char c s; Some (S i)
  end.
Fixpoint last_index (c : ascii) (s : string) : option nat :=
  match s with
  | "" => None
  | String d s => match last_index c s with
                  | Some i => Some (S i)
                  | None => if Ascii.eqb c d then Some 0%nat else None
                  end
  end.
Definition str_from (n : nat) (s : string) : string := String.substring n (String.length s - n) s.
Definition occurs (c : ascii) (s : string) : bool := match index_char c s with Some _ => true | None => false end.
Definition SplitHostPort (s : string) : option string :=
  i ← last_index ":"%char s;
  match s with
  | String "["%char _ =>
      e ← index_char "]"%char s;
      if negb (S e =? i)%nat then None
      else if occurs "["%char (str_from 1 s) || occurs "]"%char (str_from (S e) s) then None
      else Some (String.substring 1 (e - 1) s)
  | _ =>
      let host := String.substring 0 i s in
      if occurs ":"%char host then None
      else if occurs "["%char s || occurs "]"%char s then None
      else Some host
  end.
Definition clientIP (rq : request) : string := default (rq_RemoteAddr rq) (SplitHostPort (rq_RemoteAddr rq)).

(** [Duration.Minutes]: whole minutes plus the fraction. *)
Definition Minute : Z := 60 * 10 ^ 9.
Definition Minutes (d : Z) : spec_float :=
  fadd (float64 (Z.quot d Minute)) (SFdiv F_prec F_emax (float64 (Z.rem d Minute)) (float64 Minute)).
(** [Time.Sub] saturates. *)
Definition time_Sub (a b : Z) : Z := Z.max (- M63) (Z.min (M63 - 1) (a - b)).
Definition refill `{GoFloat} (rpm now : Z) (b : rateBucket) : rateBucket :=
  match b_last b with
  | None => mkBucket (tokens b) (Some now)
  | Some last =>
      let elapsed := time_Sub now last in
      let add := int_of (fmul (Minutes elapsed) (float64 rpm)) in
      if 0 <? add then
        mkBucket (if rpm <? i64 (tokens b + add) then rpm else i64 (tokens b + add)) (Some now)
      else b
  end.
Definition rate_limited : bytes :=
  json_marshal (JObj [("ok", JBool false); ("error", JStr "rate_limited")]).
Definition set_rl (m : gmap string rateBucket) (s : Server) : Server := mkServer (srv_node s) m.
(** [now] is what the clock says while the limiter holds its lock. *)
Definition withRateLimitRestore `{GoFloat} (now : Z) (h : WHandler) (rpm : Z) : WHandler := fun w rq s =>
  if has_prefix (rq_Path rq) "/wallet/restore" then
    let ip := clientIP rq in
    let b := default (mkBucket rpm (Some now)) (rl s !! ip) in
    let b := refill rpm now b in
    if tokens b <=? 0 then
      wreply (rs_Write rate_limited (rs_WriteHeader StatusTooManyRequests w)) (set_rl (<[ip := b]> (rl s)) s)
    else h w rq (set_rl (<[ip := mkBucket (tokens b - 1) (b_last b)]> (rl s)) s)
  else h w rq s.

(** ** The server *)
Section Server.
Context `{GoRuntime, GoSort, Blake3, Cbor, Ed25519, GoFloat, WalletKdf}.
Context (other : Handler).

(** Replaying a reply onto a writer that has headers already. *)
Definition onto (w r : response) : response :=
  rs_Write (rs_body r) (rs_WriteHeader (rs_status r) (rs_headers (fun h => copyHeader h (rs_header r)) w)).
Definition rpc_Handler (cfg : Config) (c : Ctx) : WHandler := fun w rq s =>
  let '(o, n) := root other cfg c rq (srv_node s) in (outcome_map (onto w) o, mkServer n (rl s)).
Definition docs_route (files : string -> option bytes) (openapiJSON : bytes) (p : string)
    : option (response -> request -> response) :=
  if String.eqb p "/openapi.json" then Some (docs_openapi files openapiJSON)
  else if String.eqb p "/docs" then Some docsHTMLHandler
  else if has_prefix p "/openapi/" then Some (docs_part files)
  else if has_prefix p "/docs/" then Some docsHTMLHandler
  else None.
(** The mux of [main]: the documentation routes, and "/" for the RPC handler with its own
    rate limit and CORS. *)
Definition main_mux (files : string -> option bytes) (openapiJSON : bytes) (cfg : Config) (c : Ctx) (now : Z)
    : WHandler := fun w rq s =>
  let p := rq_Path rq in
  if unclean p then (Redirected, s) else
  match docs_route files openapiJSON p with
  | Some h => wreply (h w rq) s
  | None => if String.eqb p "/openapi" then (Redirected, s)
            else withCORS (withRateLimitRestore now (rpc_Handler cfg c) 5) w rq s
  end.
Definition main_root (files : string -> option bytes) (openapiJSON : bytes) (cfg : Config) (c : Ctx) (now : Z)
    : WHandler := withCORS (withRateLimitRestore now (main_mux files openapiJSON cfg c now) 5).

(** Start-up: [None] is [log.Fatal]. *)
Definition refuses_to_start (env : string -> string) (releaseBuild : string) : bool :=
  (String.eqb (env "THOMAS_ENV") "prod" && String.eqb (env "THOMAS_DEV_FREE_R2P") "1") ||
  (String.eqb releaseBuild "prod" && String.eqb (env "THOMAS_DEV_FREE_R2P") "1").
Definition main_start (env : string -> string) (releaseBuild : string) (e : Engine) (base : string)
    (files : string -> option bytes) : option Server :=
  if refuses_to_start env releaseBuild then None else
  let n := mkNode e [] ∅ "" None false 0 0 in
  let p1 := path_join (path_join base "data") "r2p.json" in
  let n := SetR2PStorage p1 (files p1) n in
  let n := SetR2PStorage "data/r2p.json" (files "data/r2p.json") n in
  Some (mkServer n ∅).
End Server.

(** ** What the middleware does *)
Section Spec.
Context `{GoRuntime, GoSort, Blake3, Cbor, Ed25519, GoFloat, WalletKdf}.
Context (other : Handler).

(** CORS lets every request but a preflight through, at most with more headers. *)
Lemma withCORS_pass h w rq s : is_options rq = false ->
  exists w', withCORS h w rq s = h w' rq s /\ rs_status w' = rs_status w.
Proof.
  intros Ho. unfold withCORS. rewrite Ho. destruct (_ && _); [|by eexists].
  eexists. split; [reflexivity|]. unfold rs_headers. by destruct (rs_status w =? 0) eqn:E; [apply Z.eqb_eq in E|].
Qed.
Lemma refill_now now t : refill 5 now (mkBucket t (Some now)) = mkBucket t (Some now).
Proof.
  unfold refill. cbn [b_last tokens]. replace (time_Sub now now) with 0 by (unfold time_Sub; lia).
  assert (Hz : fmul (Minutes 0) (float64 5) = S754_zero false) by (vm_compute; reflexivity).
  by rewrite Hz.
Qed.
(** The second limiter finds the bucket as the first has left it. *)
Lemma refill_twice now b t : refill 5 now (mkBucket t (b_last (refill 5 now b))) = mkBucket t (b_last (refill 5 now b)).
Proof.
  unfold refill at 2 3. destruct (b_last b) as [l|] eqn:El; [|apply refill_now].
  destruct (0 <? _) eqn:Ea; [apply refill_now|]. rewrite El. unfold refill. cbn [b_last tokens]. by rewrite Ea.
Qed.
Lemma limit_restore now h rpm w rq s : has_prefix (rq_Path rq) "/wallet/restore" = true ->
  let b := refill rpm now (default (mkBucket rpm (Some now)) (rl s !! clientIP rq)) in
  withRateLimitRestore now h rpm w rq s =
    if tokens b <=? 0 then
      wreply (rs_Write rate_limited (rs_WriteHeader StatusTooManyRequests w)) (set_rl (<[clientIP rq := b]> (rl s)) s)
    else h w rq (set_rl (<[clientIP rq := mkBucket (tokens b - 1) (b_last b)]> (rl s)) s).
Proof. intros Hp. unfold withRateLimitRestore. by rewrite Hp. Qed.
Lemma too_many w : rs_status w = 0 ->
  rs_status (rs_Write rate_limited (rs_WriteHeader StatusTooManyRequests w)) = StatusTooManyRequests.
Proof. intros E. unfold rs_WriteHeader. by rewrite E. Qed.

(** the limit on [/wallet/restore] counts every request twice, because [main] wraps the
    handler and the mux around it: after refilling, a client needs two tokens of the five
    to be served, and a client with fewer is answered with 429 and changes nothing in the
    node, so that a new client is served twice and not five times in a minute. *)
Theorem restore_costs_two (files : string -> option bytes) (openapiJSON : bytes) (cfg : Config) (c : Ctx) (now : Z)
    (w : response) (rq : request) (s : Server) :
  rq_Path rq = "/wallet/restore" -> is_options rq = false -> rs_status w = 0 ->
  let b := refill 5 now (default (mkBucket 5 (Some now)) (rl s !! clientIP rq)) in
  let r := main_root other files openapiJSON cfg c now w rq s in
  if tokens b <=? 1
  then (exists w', r.1 = Replied w' /\ rs_status w' = StatusTooManyRequests) /\ srv_node r.2 = srv_node s
  else rl r.2 !! clientIP rq = Some (mkBucket (tokens b - 2) (b_last b)) /\
       srv_node r.2 = (root other cfg c rq (srv_node s)).2.
Proof.
  intros Hp Ho Hw b r. subst r. unfold main_root.
  destruct (withCORS_pass (withRateLimitRestore now (main_mux other files openapiJSON cfg c now) 5) w rq s Ho)
    as (w1 & -> & Hw1).
  assert (Hpre : has_prefix (rq_Path rq) "/wallet/restore" = true) by by rewrite Hp.
  rewrite limit_restore by done. fold b.
  destruct (Z.leb_spec (tokens b) 0) as [Hle|Hgt].
  { rewrite (proj2 (Z.leb_le _ _)) by lia. split; [|done]. eexists. split; [reflexivity|]. apply too_many. congruence. }
  set (s1 := set_rl _ s). unfold main_mux. rewrite Hp.
  change (unclean "/wallet/restore") with false. cbn iota.
  change (docs_route files openapiJSON "/wallet/restore") with (@None (response -> request -> response)). cbn iota.
  change (String.eqb "/wallet/restore" "/openapi") with false. cbn iota.
  destruct (withCORS_pass (withRateLimitRestore now (rpc_Handler other cfg c) 5) w1 rq s1 Ho) as (w2 & -> & Hw2).
  rewrite limit_restore by done.
  assert (E1 : rl s1 !! clientIP rq = Some (mkBucket (tokens b - 1) (b_last b))) by apply lookup_insert_eq.
  assert (E2 : refill 5 now (mkBucket (tokens b - 1) (b_last b)) = mkBucket (tokens b - 1) (b_last b)) by apply refill_twice.
  rewrite E1. cbv zeta. cbn [default Datatypes.id]. rewrite !E2. cbn [tokens b_last].
  destruct (Z.leb_spec (tokens b) 1) as [Hle|Hgt1].
  - rewrite (proj2 (Z.leb_le _ _)) by lia. split; [|done]. eexists. split; [reflexivity|]. apply too_many. congruence.
  - rewrite (proj2 (Z.leb_gt _ _)) by lia. unfold rpc_Handler. cbn [srv_node set_rl].
    change (srv_node s1) with (srv_node s). destruct (root other cfg c rq (srv_node s)) as [o n]. cbn [snd rl srv_node].
    split; [|done]. cbn [set_rl rl]. rewrite lookup_insert_eq. do 2 f_equal. lia.
Qed.

Lemma has_prefix_app s p : has_prefix s p = true -> exists r, s = p +:+ r.
Proof.
  unfold has_prefix. revert s. induction p as [|c p IH]; intros s Hs; [by exists s|].
  destruct s as [|d s]; [done|]. cbn in Hs. destruct (ascii_dec c d) as [->|]; [|done].
  destruct (IH s Hs) as [r ->]. by exists r.
Qed.

(** preflight requests and documentation never reach the node: an [OPTIONS] request is
    answered with 204, and both leave the whole server as it was; in production the server
    with free payment requests does not start at all. *)
Theorem preflight_harmless (files : string -> option bytes) (openapiJSON : bytes) (cfg : Config) (c : Ctx) (now : Z)
    (w : response) (rq : request) (s : Server) : rs_status w = 0 ->
  (is_options rq = true -> exists w', main_root other files openapiJSON cfg c now w rq s = (Replied w', s) /\
     rs_status w' = StatusNoContent) /\
  (is_Some (docs_route files openapiJSON (rq_Path rq)) -> (main_root other files openapiJSON cfg c now w rq s).2 = s) /\
  forall env build e base, env "THOMAS_DEV_FREE_R2P" = "1" -> env "THOMAS_ENV" = "prod" \/ build = "prod" ->
    main_start env build e base files = None.
Proof.
  intros Hw. split; [|split].
  - intros Ho. unfold main_root, withCORS. rewrite Ho. destruct (_ && _); eexists; (split; [reflexivity|]);
      unfold rs_headers, rs_WriteHeader; rewrite ?Hw; cbn; by rewrite ?Hw.
  - intros [h Hd].
    assert (Hpre : has_prefix (rq_Path rq) "/wallet/restore" = false).
    { destruct (has_prefix (rq_Path rq) "/wallet/restore") eqn:E; [|done]. exfalso.
      apply has_prefix_app in E as [r E]. by rewrite E in Hd. }
    unfold main_root, withCORS. destruct (_ && _); destruct (is_options rq); try done;
      unfold withRateLimitRestore; rewrite Hpre; unfold main_mux; rewrite Hd; by destruct (unclean _).
  - intros env build e base Hf [He|He]; unfold main_start, refuses_to_start; rewrite He, Hf; [done|].
    by rewrite orb_true_r.
Qed.
End Spec.

(** A new client asks three times in the same instant. *)
Section Witnesses.
#[local] Existing Instance runtime0.
#[local] Existing Instance gosort0.
#[local] Existing Instance blake3_0.
#[local] Existing Instance cbor0.
#[local] Existing Instance ed0.
#[local] Existing Instance float_amd64.
#[local] Existing Instance kdf0.
Definition other_main : Handler := fun rq n => done notFound n.
Definition env_main (name : string) : string := "".
Definition server0 : Server := mkServer (mkNode (boot (h32 9) (h32 9) true no_files) [] ∅ "" None false 0 0) ∅.
Definition ctx_main : Ctx :=
  mkCtx env_main 100 101 "1970-01-01T00:01:40Z" (take 8 (h32 3)) true true SaveOk None None
    (fun _ => false) (fun _ _ => false) 9 ("go1.22", "linux", "amd64") (h32 5) 12 4000000.
Definition restore_rq : request :=
  mkRequest "POST" "/wallet/restore" [] [] (json_marshal (JObj [("mnemonic", JStr "abc")])) "10.0.0.1:5000".
Definition ask (s : Server) : outcome response * Server :=
  main_root other_main (fun _ => None) [] (init_config env_main) ctx_main 1000 rs_new restore_rq s.
Definition status_of (o : outcome response) : Z := match o with Replied w => rs_status w | _ => 0 end.
Lemma restore_costs_two_witness :
  rl (ask server0).2 !! "10.0.0.1" = Some (mkBucket 3 (Some 1000)) /\
  status_of (ask (ask (ask server0).2).2).1 = StatusTooManyRequests.
Proof.
  split.
  - pose proof (restore_costs_two other_main (fun _ => None) [] (init_config env_main) ctx_main 1000 rs_new restore_rq
      server0 eq_refl eq_refl eq_refl) as Hr. cbv zeta in Hr.
    assert (E : refill 5 1000 (default (mkBucket 5 (Some 1000)) (rl server0 !! clientIP restore_rq)) = mkBucket 5 (Some 1000))
      by (vm_compute; reflexivity).
    rewrite E in Hr. exact (proj1 Hr).
  - pose proof (restore_costs_two other_main (fun _ => None) [] (init_config env_main) ctx_main 1000 rs_new restore_rq
      (ask (ask server0).2).2 eq_refl eq_refl eq_refl) as Hr. cbv zeta in Hr.
    assert (E : refill 5 1000 (default (mkBucket 5 (Some 1000)) (rl (ask (ask server0).2).2 !! clientIP restore_rq))
      = mkBucket 1 (Some 1000)) by (vm_compute; reflexivity).
    rewrite E in Hr. destruct Hr as [(w & Hw & Hs) _]. unfold ask at 1. rewrite Hw. exact Hs.
Defined.
Lemma preflight_harmless_witness :
  (main_root other_main (fun _ => None) [] (init_config env_main) ctx_main 1000 rs_new
     (mkRequest "GET" "/docs" [] [] [] "") server0).2 = server0.
Proof.
  refine (proj1 (proj2 (preflight_harmless other_main (fun _ => None) [] (init_config env_main) ctx_main 1000 rs_new
    (mkRequest "GET" "/docs" [] [] [] "") server0 eq_refl)) _).
  exists docsHTMLHandler. reflexivity.
Defined.
End Witnesses.
