(* ===== verification/Eternity.v ===== *)
(** * internal/rpc: signed headers over HTTP (eternity_handlers.go, round_handlers.go,
    attach.go, provider_export.go).

    The two families of endpoints read signed headers from a provider.  The decoder of
    github.com/fxamacker/cbor is a parameter, the class [CborDec]: it inverts the encoder
    on arrays of scalars; [cbor_dec0] is a concrete decoder that satisfies it. *)
From S2P Require Export Router.
From Stdlib Require Import Ascii.

(** ** Decoding CBOR arrays *)

(** A scalar of the kinds that [cbor.Unmarshal] delivers in an [[]any]; text is ASCII. *)
Definition scalar (v : gval) : Prop :=
  match v with
  | GNil | GBool _ | GNum _ | GBytes _ => True
  | GStr s => str_forall is_ascii s = true
  | _ => False
  end.
Class CborDec `{Cbor} := {
  cbor_unmarshal : bytes -> result (list gval);
  cbor_unmarshal_marshal : forall l b, plain (GSlice l) -> Forall scalar l ->
    cbor_marshal (GSlice l) = Ok b -> cbor_unmarshal b = Ok l
}.

(** ** The provider *)
Record EternityProvider := mkProvider {
  LatestSignedHeader : result SignedHeader; SignedHeaderByHeight : Z -> result SignedHeader
}.
(** [eternityProvider] starts nil. *)
Definition SetEternityProvider (p : EternityProvider) : St (option EternityProvider) unit := fun _ => (tt, Some p).
Definition GetEternityProvider (v : option EternityProvider) : option EternityProvider := v.

(** ** JSON forms *)
Definition hex32 (b : bytes) : string := hex_encode b.
Definition b64 (b : bytes) : string := b64_encode false b.
Definition toCommitBundleJSON (cb : option CommitBundle) : option json :=
  cb ← cb;
  Some (JObj ([("round", JUint (cb_Round cb)); ("quorum_hash", JStr (hex32 (cb_QuorumHash cb)));
               ("bitmap", JStr (b64 (cb_Bitmap cb))); ("step", JUint (cb_Step cb))] ++
              omit_str "aggregate_sig" (if (0 <? Z.of_nat (length (cb_AggregateSig cb))) then b64 (cb_AggregateSig cb) else ""))).
Definition toSignedHeaderJSON (sh : SignedHeader) : json :=
  JObj ([("header_cbor", JStr (b64 (sh_HeaderCBOR sh))); ("header_hash", JStr (hex_encode (sh_HeaderHash sh)));
         ("proposer_pubkey", JStr (b64 (sh_ProposerPubKey sh))); ("signature", JStr (b64 (sh_Signature sh)))] ++
        match toCommitBundleJSON (sh_CommitBundle sh) with Some j => [("commit_bundle", j)] | None => [] end).
Record eternityHeaderJSON := mkEhj {
  ej_Version : Z; ej_ChainID : string; ej_Height : Z; ej_Round : Z; ej_TimeUTCUnix : Z; ej_PrevHash : string;
  ej_StateRoot : string; ej_TxRoot : string; ej_ReceiptsRoot : string; ej_CommitRoot : string;
  ej_ProposerPubKey : string; ej_EmissionEpoch : Z; ej_ConsensusParamsHash : string; ej_FeeRoot : string;
  ej_ExtraData : string
}.
Definition ehj_json (h : eternityHeaderJSON) : json :=
  JObj ([("version", JUint (ej_Version h)); ("chain_id", JStr (ej_ChainID h)); ("height", JUint (ej_Height h));
         ("round", JUint (ej_Round h)); ("time_utc_unix", JInt (ej_TimeUTCUnix h)); ("prev_hash", JStr (ej_PrevHash h));
         ("state_root", JStr (ej_StateRoot h)); ("tx_root", JStr (ej_TxRoot h));
         ("receipts_root", JStr (ej_ReceiptsRoot h)); ("commit_root", JStr (ej_CommitRoot h));
         ("proposer_pubkey", JStr (ej_ProposerPubKey h)); ("emission_epoch", JUint (ej_EmissionEpoch h));
         ("consensus_params_hash", JStr (ej_ConsensusParamsHash h)); ("fee_root", JStr (ej_FeeRoot h))] ++
        omit_str "extra_data" (ej_ExtraData h)).

(** A non-negative number of the array is a [uint64], a negative one an [int64]. *)
Definition asUint64 (arr : list gval) (i : nat) : Z :=
  match arr !! i with Some (GNum z) => if z <? 0 then 0 else z | _ => 0 end.
Definition asInt64 (arr : list gval) (i : nat) : Z :=
  match arr !! i with Some (GNum z) => if z <? 0 then z else i64 z | _ => 0 end.
Definition asString (arr : list gval) (i : nat) : string :=
  match arr !! i with Some (GStr s) => s | _ => "" end.
Definition getB32 (arr : list gval) (i : nat) : string :=
  match arr !! i with
  | Some (GBytes b) => if bool_decide (length b = 32%nat) then hex_encode b else ""
  | _ => ""
  end.
Section Eternity.
Context `{CborDec}.

Definition cborToEternityHeaderJSON (cborBytes : bytes) : result eternityHeaderJSON :=
  arr ← cbor_unmarshal cborBytes;
  Ok (mkEhj (u32 (asUint64 arr 0)) (asString arr 1) (asUint64 arr 2) (u32 (asUint64 arr 3)) (asInt64 arr 4)
        (getB32 arr 5) (getB32 arr 6) (getB32 arr 7) (getB32 arr 8) (getB32 arr 9) (getB32 arr 10)
        (asUint64 arr 11) (getB32 arr 12) (getB32 arr 13)
        (match arr !! 14%nat with
         | Some (GBytes b) => if (0 <? Z.of_nat (length b)) then b64 b else ""
         | _ => ""
         end)).

(** ** Routes *)
Definition writeJSON (v : json) : response :=
  rs_Encode v (rs_headers (h_Set "Content-Type" "application/json") rs_new).
(** [strings.Split(s, "/")] *)
Fixpoint split_slash (s : string) : list string :=
  match s with
  | "" => [""]
  | String c s =>
      match split_slash s with
      | x :: l => if Ascii.eqb c "/"%char then "" :: x :: l else String c x :: l
      | [] => []
      end
  end.
Definition header_reply (sh : result SignedHeader) : response :=
  match sh with
  | Err e => http_Error e StatusNotFound
  | Ok sh =>
      match cborToEternityHeaderJSON (sh_HeaderCBOR sh) with
      | Err e => http_Error ("decode_error:" +:+ e) StatusInternalServerError
      | Ok h => writeJSON (ehj_json h)
      end
  end.
Definition signed_json_reply (sh : result SignedHeader) : response :=
  match sh with
  | Err e => http_Error e StatusNotFound
  | Ok sh => writeJSON (toSignedHeaderJSON sh)
  end.
Definition eternity_latest_signed (p : EternityProvider) (rq : request) : response :=
  signed_json_reply (LatestSignedHeader p).
Definition eternity_round (p : EternityProvider) (rq : request) : response :=
  let parts := split_slash (trim_slashes (trim_prefix (rq_Path rq) "/eternity/round/")) in
  match parts with
  | [] => http_Error "404 page not found" StatusNotFound
  | p0 :: rest =>
      if String.eqb p0 "latest" && bool_decide (rest = ["header"]) then header_reply (LatestSignedHeader p) else
      match parse_uint p0 with
      | None => http_Error "invalid height" StatusBadRequest
      | Some h64 =>
          if bool_decide (rest = ["signed"]) then signed_json_reply (SignedHeaderByHeight p h64)
          else if bool_decide (rest = ["header"]) then header_reply (SignedHeaderByHeight p h64)
          else http_Error "404 page not found" StatusNotFound
      end
  end.

(** ** round_handlers.go: the signed header as it is

    [encoding/json] writes a byte slice in base64 (nil as [null]) and an array of bytes as
    an array of numbers. *)
Definition slice_json (b : bytes) : json := match b with [] => JNull | _ => JStr (b64 b) end.
Definition array_json (b : bytes) : json := JArr ((fun x => JUint (b2z x)) <$> b).
Definition bundle_struct_json (c : CommitBundle) : json :=
  JObj ([("round", JUint (cb_Round c)); ("quorum_hash", array_json (cb_QuorumHash c)); ("bitmap", slice_json (cb_Bitmap c));
         ("step", JUint (cb_Step c))] ++
        match cb_AggregateSig c with [] => [] | g => [("aggregate_sig", slice_json g)] end).
Definition signed_header_json (sh : SignedHeader) : json :=
  JObj ([("header_cbor", slice_json (sh_HeaderCBOR sh)); ("header_hash", array_json (sh_HeaderHash sh));
         ("proposer_pubkey", slice_json (sh_ProposerPubKey sh)); ("signature", slice_json (sh_Signature sh))] ++
        match sh_CommitBundle sh with Some c => [("commit_bundle", bundle_struct_json c)] | None => [] end).
Definition round_latest_signed_http (p : EternityProvider) (rq : request) : response :=
  match LatestSignedHeader p with
  | Err e => http_Error e StatusInternalServerError
  | Ok sh => writeJSON (signed_header_json sh)
  end.
Definition round_signed_http (p : EternityProvider) (rq : request) : response :=
  let path := trim_prefix (rq_Path rq) "/round/" in
  if negb (has_suffix path "/signed") then http_Error "404 page not found" StatusNotFound else
  match parse_uint (trim_slashes (trim_suffix path "/signed")) with
  | None => http_Error "invalid height" StatusBadRequest
  | Some h =>
      match SignedHeaderByHeight p h with
      | Err e => http_Error e StatusNotFound
      | Ok sh => writeJSON (signed_header_json sh)
      end
  end.
(** [NewEternityHTTPHandler]: both families in one mux. *)
Definition eternity_mux (p : EternityProvider) (rq : request) : outcome response :=
  let path := rq_Path rq in
  if unclean path then Redirected
  else if String.eqb path "/round/latest/signed" then Replied (round_latest_signed_http p rq)
  else if String.eqb path "/eternity/round/latest/signed" then Replied (eternity_latest_signed p rq)
  else if has_prefix path "/round/" then Replied (round_signed_http p rq)
  else if has_prefix path "/eternity/round/" then Replied (eternity_round p rq)
  else if String.eqb path "/round" || String.eqb path "/eternity/round" then Redirected
  else Replied (http_Error "404 page not found" StatusNotFound).
End Eternity.

(** ** A concrete decoder *)
Definition dec_scalar (b : bytes) : option (gval * bytes) :=
  '(m, n, r) ← dec_head b;
  if m =? 0 then Some (GNum n, r)
  else if m =? 1 then Some (GNum (- n - 1), r)
  else if m =? 2 then Some (GBytes (take (Z.to_nat n) r), drop (Z.to_nat n) r)
  else if m =? 3 then Some (GStr (of_bytes (take (Z.to_nat n) r)), drop (Z.to_nat n) r)
  else if n =? 21 then Some (GBool true, r)
  else if n =? 20 then Some (GBool false, r)
  else Some (GNil, r).
Fixpoint dec_scalars (k : nat) (b : bytes) : option (list gval) :=
  match k with
  | O => match b with [] => Some [] | _ => None end
  | S k => '(v, r) ← dec_scalar b; l ← dec_scalars k r; Some (v :: l)
  end.
Definition dec_array (b : bytes) : result (list gval) :=
  match dec_head b with
  | Some (m, n, r) => if m =? 4 then match dec_scalars (Z.to_nat n) r with Some l => Ok l | None => Err "cbor" end
                      else Err "cbor"
  | None => Err "cbor"
  end.
Lemma dec_scalar_enc v r : plain v -> scalar v -> dec_scalar (cbor_enc v ++ r) = Some (v, r).
Proof.
  intros Hp Hs. pose proof (cbor_tag_ok v Hp) as [Ht Hn]. unfold dec_scalar.
  assert (Hh : forall body, dec_head ((cbor_head (cbor_tag v).1 (cbor_tag v).2 ++ body) ++ r) =
    Some ((cbor_tag v).1, (cbor_tag v).2, body ++ r)) by (intros body; rewrite <- app_assoc; by apply dec_head_enc).
  destruct v as [|b|z| |s|b| | | |]; try done; cbn [cbor_enc]; rewrite Hh; cbn.
  - by destruct b.
  - destruct (Z.ltb_spec z 0); cbn; [|done]. do 3 f_equal. lia.
  - rewrite Nat2Z.id, take_app_length, drop_app_length, of_to_bytes. done.
  - rewrite Nat2Z.id, take_app_length, drop_app_length. done.
Qed.
Lemma dec_scalars_enc l : Forall plain l -> Forall scalar l -> dec_scalars (length l) (concat (map cbor_enc l)) = Some l.
Proof.
  induction l as [|v l IH]; intros Hp Hs; [done|]. apply Forall_cons in Hp as [Hv Hp], Hs as [Sv Hs].
  cbn [length dec_scalars map concat]. rewrite dec_scalar_enc by done. cbn [mbind option_bind].
  by rewrite (IH Hp Hs).
Qed.
Lemma plain_slice l : plain (GSlice l) -> Z.of_nat (length l) < M64 /\ Forall plain l.
Proof. cbn [plain]. intros [Hl Hp]. split; [done|]. clear Hl. induction l; constructor; naive_solver. Qed.
Lemma dec_array_ok l b : plain (GSlice l) -> Forall scalar l -> @cbor_marshal cbor0 (GSlice l) = Ok b -> dec_array b = Ok l.
Proof.
  intros Hp Hs [= <-]. unfold dec_array. pose proof (cbor_tag_ok _ Hp) as [Ht Hn].
  destruct (plain_slice l Hp) as [_ Hpl]. cbn [cbor_tag fst snd] in *.
  rewrite dec_head_enc by done. cbn. rewrite Nat2Z.id. by rewrite dec_scalars_enc.
Qed.
Definition cbor_dec0 : @CborDec cbor0 := {|
  cbor_unmarshal := dec_array; cbor_unmarshal_marshal := dec_array_ok
|}.

(** ** What a client reads is the header that was signed *)
Section Spec.
Context `{CborDec}.

Definition header_view (h : EternityHeader) : eternityHeaderJSON :=
  mkEhj (eh_Version h) (eh_ChainID h) (eh_Height h) (eh_Round h) (eh_TimeUTCUnix h) (hex_encode (eh_PrevHash h))
    (hex_encode (eh_StateRoot h)) (hex_encode (eh_TxRoot h)) (hex_encode (eh_ReceiptsRoot h))
    (hex_encode (eh_CommitRoot h)) (hex_encode (eh_ProposerPubKey h)) (eh_EmissionEpoch h)
    (hex_encode (eh_ConsensusParamsHash h)) (hex_encode (eh_FeeRoot h))
    (match eh_ExtraData h with [] => "" | b => b64 b end).
Lemma getB32_hash arr i b : arr !! i = Some (GBytes b) -> hash32 b -> getB32 arr i = hex_encode b.
Proof. intros E Hb. unfold getB32. rewrite E. by rewrite bool_decide_true. Qed.
Lemma asUint64_num arr i z : arr !! i = Some (GNum z) -> 0 <= z -> asUint64 arr i = z.
Proof. intros E Hz. unfold asUint64. rewrite E. destruct (Z.ltb_spec z 0); lia. Qed.
Lemma asInt64_num arr i z : arr !! i = Some (GNum z) -> in_i64 z -> asInt64 arr i = z.
Proof. intros E Hz. unfold asInt64. rewrite E. destruct (Z.ltb_spec z 0); [done|by apply i64_small]. Qed.
Lemma canonical_scalars h : str_forall is_ascii (eh_ChainID h) = true ->
  forall l, eh_canonicalFields h = GSlice l -> Forall scalar l.
Proof. intros Ha l [= <-]. repeat constructor; [exact Ha|]. by destruct (eh_ExtraData h). Qed.
Lemma decode_header h b : header_ok h -> str_forall is_ascii (eh_ChainID h) = true -> eh_CanonicalCBOR h = Ok b ->
  cborToEternityHeaderJSON b = Ok (header_view h).
Proof.
  intros Hh Ha Hb. unfold eh_CanonicalCBOR, EncodeCBORCanonical in Hb.
  rewrite plain_no_float in Hb by by apply header_plain.
  pose proof (header_plain h Hh) as Hp. pose proof (canonical_scalars h Ha) as Hs.
  destruct (eh_canonicalFields h) as [| | | | | | | |arr|] eqn:Ef; try discriminate.
  unfold cborToEternityHeaderJSON. rewrite (cbor_unmarshal_marshal arr b Hp (Hs arr eq_refl) Hb).
  cbn [mbind result_bind]. unfold eh_canonicalFields in Ef. injection Ef as <-. destruct Hh. f_equal.
  unfold header_view. f_equal; try (by apply getB32_hash); try done.
  - rewrite (asUint64_num _ _ (eh_Version h)) by (done || unfold in_u32 in *; lia). by apply u32_small.
  - apply asUint64_num; [done|unfold in_u64 in *; lia].
  - rewrite (asUint64_num _ _ (eh_Round h)) by (done || unfold in_u32 in *; lia). by apply u32_small.
  - by apply asInt64_num.
  - apply asUint64_num; [done|unfold in_u64 in *; lia].
  - cbn. by destruct (eh_ExtraData h).
Qed.
Lemma b64_inj a b : b64 a = b64 b -> a = b.
Proof. intros E. apply (f_equal (b64_decode false)) in E. unfold b64 in E. rewrite !b64_roundtrip in E. congruence. Qed.
Lemma header_view_inj h k : header_view h = header_view k -> h = k.
Proof.
  intros E. destruct h as [v c t r u p s x y z q e m f d], k as [v' c' t' r' u' p' s' x' y' z' q' e' m' f' d'].
  unfold header_view in E.
  cbn [eh_Version eh_ChainID eh_Height eh_Round eh_TimeUTCUnix eh_PrevHash eh_StateRoot eh_TxRoot eh_ReceiptsRoot
       eh_CommitRoot eh_ProposerPubKey eh_EmissionEpoch eh_ConsensusParamsHash eh_FeeRoot eh_ExtraData] in E.
  injection E as -> -> -> -> -> E1 E2 E3 E4 E5 E6 -> E7 E8 E9.
  apply hex_encode_inj in E1, E2, E3, E4, E5, E6, E7, E8. subst. f_equal.
  apply b64_inj. destruct d, d'; exact E9.
Qed.

(** C24: what a client reads is the header that was signed: when the provider's latest header was
    encoded canonically, [/eternity/round/latest/header] is answered with a JSON object
    that states each field of that header, and two different headers never read alike. *)
Theorem header_served (p : EternityProvider) (rq : request) (sh : SignedHeader) (h : EternityHeader) :
  header_ok h -> str_forall is_ascii (eh_ChainID h) = true ->
  LatestSignedHeader p = Ok sh -> eh_CanonicalCBOR h = Ok (sh_HeaderCBOR sh) ->
  rq_Path rq = "/eternity/round/latest/header" ->
  eternity_mux p rq = Replied (writeJSON (ehj_json (header_view h))) /\
  forall k, header_view h = header_view k -> h = k.
Proof.
  intros Hh Ha Hp Hc Hr. split; [|intros k; apply header_view_inj].
  assert (Hm : eternity_mux p rq = Replied (header_reply (LatestSignedHeader p)))
    by (unfold eternity_mux, eternity_round; rewrite Hr; reflexivity).
  rewrite Hm, Hp. cbn [header_reply]. by rewrite (decode_header h _ Hh Ha Hc).
Qed.
End Spec.

Section Witnesses.
#[local] Existing Instance cbor0.
#[local] Existing Instance cbor_dec0.
Definition served0 : SignedHeader :=
  mkSignedHeader (match eh_CanonicalCBOR header0 with Ok b => b | Err _ => [] end) (h32 1) (h32 2) [] None.
Definition provider0 : EternityProvider := mkProvider (Ok served0) (fun _ => Err "not_found").
Definition latest_rq : request := mkRequest "GET" "/eternity/round/latest/header" [] [] [] "".
Lemma header_served_witness : eternity_mux provider0 latest_rq = Replied (writeJSON (ehj_json (header_view header0))).
Proof.
  exact (proj1 (header_served provider0 latest_rq served0 header0 header0_ok eq_refl eq_refl eq_refl eq_refl)).
Defined.
End Witnesses.
