(* ===== verification/Binding.v ===== *)
(** * internal/rpc: the binding configuration and the snapshot provider.

    binding_config.go reads a file once and answers which public key an address is bound
    to; [snapProvider] of router.go shows the engine to the invariants report. *)
From S2P Require Export Node GoNum.

(** ** binding_config.go *)
Section Binding.
Context `{GoRuntime}.

Definition string_member (kv : string * json) : option (string * string) :=
  match kv.2 with JStr s => Some (kv.1, trim_space s) | _ => None end.
(** [json.Unmarshal] into [map[string]any]. *)
Definition any_map (b : bytes) : option (list (string * json)) :=
  j ← json_unmarshal b;
  match j with
  | JNull => Some []
  | JObj l => j ← any_json (merge_sort key_le) (JObj l); match j with JObj l => Some l | _ => None end
  | _ => None
  end.
(** [loadBindingConfig]; [file] is the content of the file [path], if it can be read. *)
Definition loadBindingConfig (path : string) (file : option bytes) : gmap string string :=
  if bool_decide (trim_space path = "") then ∅ else
  match file with
  | None => ∅
  | Some b =>
      let inner := match any_map b with
                   | Some g => match List.find (fun kv => String.eqb kv.1 "pubkey_by_from") g with
                               | Some (_, JObj inner) => Some inner | _ => None end
                   | None => None
                   end in
      match inner with
      | Some inner => list_to_map (omap string_member inner)
      | None => match j ← json_unmarshal b; dec_map dec_string_elem j with
                | Some m => trim_space <$> m
                | None => ∅
                end
      end
  end.
(** [cfgOnce]: [None] until the first call. *)
Definition lookupPubForFrom (path : string) (file : option bytes) (env : string -> option string) (from : string)
    : St (option (gmap string string)) (string * bool) := fun once =>
  let cfgMap := default (loadBindingConfig path file) once in
  let from_env := match env ("THOMAS_PUBKEY_" +:+ from) with
                  | Some v => if negb (bool_decide (trim_space v = "")) then (trim_space v, true) else ("", false)
                  | None => ("", false)
                  end in
  let answer :=
    if bool_decide (from = "") then ("", false) else
    match cfgMap !! from with
    | Some v => if negb (bool_decide (trim_space v = "")) then (trim_space v, true) else from_env
    | None => from_env
    end in
  (answer, Some cfgMap).

(** The file is read once: later calls answer from the first reading, whatever the file
    and the path have become. *)
Lemma lookup_once path file env from once path' file' from' :
  let m := (lookupPubForFrom path file env from once).2 in
  (lookupPubForFrom path' file' env from' m).2 = m.
Proof. reflexivity. Qed.
(** The configuration is asked before the environment. *)
Lemma lookup_config path file env from v m : from <> "" -> m !! from = Some v -> trim_space v <> "" ->
  (lookupPubForFrom path file env from (Some m)).1 = (trim_space v, true).
Proof. intros Hf Hv Hne. unfold lookupPubForFrom. cbn. by rewrite !bool_decide_false, Hv, bool_decide_false. Qed.
End Binding.

(** ** router.go: an integer of the query, or the default *)
Definition extractInt64Query (rq : request) (key : string) (def : Z) : Z :=
  let q := Query_Get key rq in
  if bool_decide (q = "") then def else default def (parse_int q).

(** ** snapProvider *)

(** What an interface assertion on [*app.Engine] finds: the engine has [CurrentHeight] and a
    [ReceiptCount] that returns an [int], and none of the others; [None] is a nil engine. *)
Definition snap_CurrentValSet (e : option Engine) : option (list Validator) := None.
Definition snap_AdvertisedValidatorsRoot (e : option Engine) : bytes := zero32.
Definition snap_CurrentHeight (e : option Engine) : Z :=
  match e with None => 0 | Some e => CurrentHeight e end.
Definition snap_ReceiptCount (e : option Engine) : Z :=
  match e with None => 0 | Some e => u64 (ReceiptCount e) end.
