(* ===== verification/Client.v ===== *)
(** * pkg/r2pclient and cmd/r2p-list: the client of the payment requests.

    [FetchAllR2P] and the [Pager] read [/r2p/list] page by page.  The HTTP client and the
    server behind it are the argument [get] of the first section: from a query to a status
    and a body, over a state.  [node_get] is the server of this repository, and the last
    section shows what the client sees of it. *)
From S2P Require Export RouterSpec.
From Stdlib Require Import Ascii.

Record R2PRecord := mkR2PRecord {
  cr_ID : string; cr_From : string; cr_To : string; cr_Status : string; cr_CreatedUTC : Z; cr_UpdatedUTC : Z;
  cr_PaidUTC : Z; cr_DeclinedUTC : Z; cr_CanceledUTC : Z
}.
Definition R2PRecord_of_json : json -> option R2PRecord :=
  dec_struct (mkR2PRecord "" "" "" "" 0 0 0 0 0) (fun fs =>
    id ← dec_field dec_string "id" "" fs; from ← dec_field dec_string "from" "" fs;
    to ← dec_field dec_string "to" "" fs; st ← dec_field dec_string "status" "" fs;
    cr ← dec_field dec_int64 "created_utc" 0 fs; up ← dec_field dec_int64 "updated_utc" 0 fs;
    pd ← dec_field dec_int64 "paid_utc" 0 fs; de ← dec_field dec_int64 "declined_utc" 0 fs;
    ca ← dec_field dec_int64 "canceled_utc" 0 fs;
    Some (mkR2PRecord id from to st cr up pd de ca)).

(** [Cursor.UnmarshalJSON]: [null] is the empty cursor, a number its literal. *)
Definition Cursor_UnmarshalJSON (j : json) : option string :=
  match j with JNull => Some "" | JStr s => Some s | JNum lit => Some lit | _ => None end.
(** The member with a method of its own: every occurrence is decoded, [null] too. *)
Definition dec_cursor (fs : list (string * json)) : option string :=
  foldl (fun acc kv => a ← acc;
    if bool_decide (fold_key kv.1 = fold_key "next_cursor") then Cursor_UnmarshalJSON kv.2 else Some a) (Some "") fs.

Record listResp := mkListResp { lr_OK : bool; lr_Records : list R2PRecord; lr_NextCursor : string }.
(** [json.NewDecoder(resp.Body).Decode]: the first value of the body. *)
Definition first_value (b : bytes) : option json :=
  let s := of_bytes b in r ← parse_value (S (String.length s)) s; Some r.1.
Definition listResp_of_json : json -> option listResp :=
  dec_struct (mkListResp false [] "") (fun fs =>
    ok ← dec_field dec_bool "ok" false fs; rs ← dec_field (dec_list R2PRecord_of_json) "records" [] fs;
    cur ← dec_cursor fs; Some (mkListResp ok rs cur)).
(** The struct that [Next] decodes into has a plain string for a cursor. *)
Definition pageResp_of_json : json -> option listResp :=
  dec_struct (mkListResp false [] "") (fun fs =>
    ok ← dec_field dec_bool "ok" false fs; rs ← dec_field (dec_list R2PRecord_of_json) "records" [] fs;
    cur ← dec_field dec_string "next_cursor" "" fs; Some (mkListResp ok rs cur)).

(** [q.Encode()] writes the keys in order; an empty cursor, status or role is not set. *)
Definition opt_param (k v : string) : list (string * string) := if bool_decide (v = "") then [] else [(k, v)].
Definition list_query (owner status role : string) (limit : Z) (cursor : string) : list (string * string) :=
  opt_param "cursor" cursor ++ [("limit", fmt_int limit); ("owner", owner)] ++ opt_param "role" role ++
  opt_param "status" status.
Definition default_limit (limit : Z) : Z := if limit <=? 0 then 50 else limit.

Section Client.
Context {S : Type} (get : list (string * string) -> St S (result (Z * bytes))).

(** ** FetchAllR2P *)
Definition page_of (dec : json -> option listResp) (status_prefix : string) (r : result (Z * bytes)) : result listResp :=
  match r with
  | Err e => Err e
  | Ok (code, body) =>
      if negb (code =? 200) then Err (status_prefix +:+ fmt_int code) else
      match first_value body ≫= dec with
      | None => Err "json"
      | Some lr => if lr_OK lr then Ok lr else Err "ok=false"
      end
  end.
Fixpoint fetch_loop (i : nat) (owner status role : string) (limit : Z) (cursor : string) (all : list R2PRecord)
    : St S (result (list R2PRecord)) := fun s =>
  match i with
  | O => (Ok all, s)
  | Datatypes.S i =>
      let '(r, s) := get (list_query owner status role limit cursor) s in
      match page_of listResp_of_json "bad status " r with
      | Err e => (Err e, s)
      | Ok lr =>
          let all := all ++ lr_Records lr in
          if bool_decide (lr_NextCursor lr = "") then (Ok all, s)
          else fetch_loop i owner status role limit (lr_NextCursor lr) all s
      end
  end.
Definition FetchAllR2P (owner status role : string) (limit : Z) : St S (result (list R2PRecord)) :=
  let role := if bool_decide (role = "") then "payee" else role in
  fetch_loop 100 owner status role (default_limit limit) "" [].

(** ** Pager *)
Record Pager := mkPager {
  pg_Owner : string; pg_Role : string; pg_Status : string; pg_Limit : Z; pg_cursor : string; pg_done : bool
}.
Definition NewPager (owner role status : string) (limit : Z) : Pager :=
  mkPager owner role status (default_limit limit) "" false.
(** The records and the flag, or the error; the pager and the server after the call. *)
Definition Pager_Next (p : Pager) : St S (result (list R2PRecord * bool) * Pager) := fun s =>
  if pg_done p then ((Ok ([], true), p), s) else
  let '(r, s) := get (list_query (pg_Owner p) (pg_Status p) (pg_Role p) (pg_Limit p) (pg_cursor p)) s in
  match page_of pageResp_of_json "http " r with
  | Err e => ((Err e, p), s)
  | Ok lr =>
      let last := bool_decide (lr_NextCursor lr = "") in
      ((Ok (lr_Records lr, last),
        mkPager (pg_Owner p) (pg_Role p) (pg_Status p) (pg_Limit p)
          (if last then pg_cursor p else lr_NextCursor lr) last), s)
  end.

(** ** cmd/r2p-list *)
Definition updatedOf (r : R2PRecord) : Z :=
  if negb (cr_PaidUTC r =? 0) then cr_PaidUTC r else
  if negb (cr_DeclinedUTC r =? 0) then cr_DeclinedUTC r else
  if negb (cr_CanceledUTC r =? 0) then cr_CanceledUTC r else
  if negb (cr_UpdatedUTC r =? 0) then cr_UpdatedUTC r else cr_CreatedUTC r.
Definition list_line (r : R2PRecord) : string :=
  cr_ID r +:+ "  " +:+ cr_From r +:+ "  " +:+ cr_To r +:+ "  " +:+ cr_Status r +:+ "  updated=" +:+
  fmt_int (updatedOf r) +:+ newline.
(** What the command prints; [Err] is a panic with the error. *)
Definition r2p_list_main (owner status role : string) (limit : Z) : St S (result string) := fun s =>
  match FetchAllR2P owner status role limit s with
  | (Err e, s) => (Err e, s)
  | (Ok recs, s) =>
      (Ok ("total=" +:+ fmt_uint (Z.of_nat (length recs)) +:+ newline +:+ String.concat "" (list_line <$> recs)), s)
  end.
Definition list_main_flags : string * string * string * Z := ("@alice", "paid", "payee", 2).

(** The loop ends: at most a hundred requests, whatever the server answers. *)
Lemma fetch_loop_requests (m : S -> nat) : (forall q s, m (get q s).2 = Datatypes.S (m s)) ->
  forall i owner status role limit cursor all s,
    (m (fetch_loop i owner status role limit cursor all s).2 <= i + m s)%nat.
Proof.
  intros Hm i owner status role limit. induction i as [|i IH]; intros cursor all s; cbn [fetch_loop]; [cbn; lia|].
  pose proof (Hm (list_query owner status role limit cursor) s) as Hs.
  destruct (get _ s) as [r s1]. cbn [snd] in Hs. destruct (page_of _ _ r) as [lr|e]; cbn [snd]; [|lia].
  case_bool_decide; cbn [snd]; [lia|]. pose proof (IH (lr_NextCursor lr) (all ++ lr_Records lr) s1). lia.
Qed.
End Client.

(** ** The server of this repository behind the client *)
Section Served.
Context `{GoRuntime, GoSort, Blake3, Cbor, Ed25519, GoFloat, WalletKdf}.
Context (other : Handler).

(** [GET /r2p/list] with a query.  A handler that panics or hangs gives an error; the path
    is clean, so there is no redirect. *)
Definition list_request (q : list (string * string)) : request := mkRequest "GET" "/r2p/list" q [] [] "".
Definition status_seen (w : response) : Z := if rs_status w =? 0 then StatusOK else rs_status w.
Definition node_get (cfg : Config) (c : Ctx) (q : list (string * string)) : St Node (result (Z * bytes)) := fun n =>
  let '(o, n) := root other cfg c (list_request q) n in
  (match o with
   | Replied w => Ok (status_seen w, rs_body w)
   | Panicked => Err "EOF" | Blocked => Err "timeout" | Redirected => Err "redirect"
   end, n).

(** A record as the client has it. *)
Definition client_view (r : r2pRecord) : R2PRecord :=
  mkR2PRecord (rp_ID r) (rp_From r) (rp_To r) (rp_Status r) (rp_CreatedUTC r) 0 (rp_PaidUTC r) (rp_DeclinedUTC r)
    (rp_CanceledUTC r).
Lemma client_decodes r : record_ok r -> R2PRecord_of_json (r2p_json r) = Some (client_view r).
Proof.
  intros [? ? ? ? ? ? _]. unfold R2PRecord_of_json, r2p_json, dec_struct.
  rewrite <- (app_nil_r (omit_int "alias_version" _)). cbn [app]. repeat omit_field. done.
Qed.
(** The time the command prints is the server's time of the last change, for a record that
    was closed at most once and not before it was created. *)
Lemma updated_agrees r : 0 <= rp_CreatedUTC r ->
  (rp_PaidUTC r = 0 \/ rp_CreatedUTC r <= rp_PaidUTC r) -> (rp_DeclinedUTC r = 0 \/ rp_CreatedUTC r <= rp_DeclinedUTC r) ->
  (rp_CanceledUTC r = 0 \/ rp_CreatedUTC r <= rp_CanceledUTC r) ->
  (rp_PaidUTC r = 0 /\ rp_DeclinedUTC r = 0) \/ (rp_PaidUTC r = 0 /\ rp_CanceledUTC r = 0) \/
    (rp_DeclinedUTC r = 0 /\ rp_CanceledUTC r = 0) ->
  updatedOf (client_view r) = r2pUpdatedAt r.
Proof.
  intros. unfold updatedOf, r2pUpdatedAt, client_view.
  cbn [cr_PaidUTC cr_DeclinedUTC cr_CanceledUTC cr_UpdatedUTC cr_CreatedUTC].
  destruct (Z.eqb_spec (rp_PaidUTC r) 0); cbn [negb]; [|bool_cases; lia].
  destruct (Z.eqb_spec (rp_DeclinedUTC r) 0); cbn [negb]; [|bool_cases; lia].
  destruct (Z.eqb_spec (rp_CanceledUTC r) 0); cbn [negb]; [|bool_cases; lia].
  change (negb (0 =? 0)) with false. cbn iota. bool_cases; lia.
Qed.
Lemma mapM_view {A B} (enc : A -> json) (dec : json -> option B) (f : A -> B) (ok : A -> Prop) l :
  (forall x, ok x -> dec (enc x) = Some (f x)) -> Forall ok l -> mapM dec (enc <$> l) = Some (f <$> l).
Proof.
  intros Hd Hl. induction Hl as [|x l Hx Hl IH]; [done|]. cbn. rewrite Hd by done. cbn.
  change (mapM dec (enc <$> l) ≫= (fun k => mret (f x :: k)) = Some (f x :: (f <$> l))). by rewrite IH.
Qed.
Lemma mux_list cfg c q n : mux other cfg c (list_request q) n = r2pListHandlerOpaque c (list_request q) n.
Proof.
  unfold mux. change (rq_Path (list_request q)) with "/r2p/list". change (unclean "/r2p/list") with false. cbn iota.
  change (List.find (fun r : string * Handler => String.eqb r.1 "/r2p/list") (exact_routes other cfg c))
    with (Some ("/r2p/list", r2pListHandlerOpaque c)). done.
Qed.
Lemma node_get_replied cfg c q n w n' : r2pListHandlerOpaque c (list_request q) n = (Replied w, n') ->
  node_get cfg c q n = (Ok (status_seen (relay w rs_new), rs_body (relay w rs_new)), n').
Proof.
  intros Hl. unfold node_get. rewrite (root_plain other cfg c _ n w n'); [done|done|by rewrite mux_list].
Qed.

(** What the client asks of the server. *)
Definition asked (owner status role : string) (limit : Z) : request :=
  list_request (list_query owner status role (default_limit limit) "").
Definition listing (out : list r2pRecord) : json := gomap [("ok", JBool true); ("records", JArr (r2p_json <$> out))].
Lemma listing_members out : listing out = JObj [("ok", JBool true); ("records", JArr (r2p_json <$> out))].
Proof. reflexivity. Qed.
Lemma first_value_encoded j : json_ok j -> first_value (encoded j) = Some j.
Proof.
  intros Hj. unfold first_value, encoded, json_marshal, nl. rewrite <- to_bytes_app, of_to_bytes.
  rewrite json_ok_parses; [done|done| |done].
  pose proof (weight_length j Hj). rewrite length_app_str. lia.
Qed.
Lemma listing_decodes out : Forall record_ok out ->
  (first_value (encoded (listing out)) ≫= listResp_of_json) = Some (mkListResp true (client_view <$> out) "") /\
  (first_value (encoded (listing out)) ≫= pageResp_of_json) = Some (mkListResp true (client_view <$> out) "").
Proof.
  intros Ho.
  assert (Hok : json_ok (listing out)).
  { unfold listing. gomap_solve. apply (json_ok_arr r2p_json record_ok); [apply r2p_json_ok|done]. }
  rewrite (first_value_encoded _ Hok), listing_members. cbn [mbind option_bind].
  assert (Hrs : dec_list R2PRecord_of_json (JArr (r2p_json <$> out)) = Some (client_view <$> out)).
  { exact (mapM_view r2p_json R2PRecord_of_json client_view record_ok out client_decodes Ho). }
  unfold listResp_of_json, pageResp_of_json, dec_struct. split; json_fields; done.
Qed.
Lemma node_get_listing cfg c q n out :
  r2pListHandlerOpaque c (list_request q) n = (Replied (Encode (listing out) bw_new), n) ->
  node_get cfg c q n = (Ok (200, encoded (listing out)), n).
Proof. intros Hl. by rewrite (node_get_replied cfg c q n _ n Hl). Qed.
Lemma query_role owner status role limit : role <> "" ->
  Query_Get "role" (asked owner status role limit) = role.
Proof.
  intros Hr. unfold asked, list_request, list_query, opt_param. rewrite (bool_decide_false _ Hr).
  change (bool_decide ("" = "")) with true. done.
Qed.
Lemma bad_role_refused c owner status role limit n : flag c "THOMAS_FEAT_R2P" = true ->
  role ∈ ["payee"; "payer"; "any"] ->
  exists e, r2pListHandlerOpaque c (asked owner status role limit) n =
    (Replied (fail StatusBadRequest (ok_false "error" e)), n).
Proof.
  intros Hf Hr. unfold r2pListHandlerOpaque. rewrite Hf.
  change (negb (String.eqb (rq_Method (asked owner status role limit)) "GET")) with false. cbn [negb]. cbn iota.
  assert (He : exists e, list_filter c (asked owner status role limit) = Err e).
  { unfold list_filter. destruct (bool_decide (_ = "")); [by eexists|].
    destruct (resolveAddressMaybeAlias _ _) as [[[? ?] ?]|]; [|by eexists].
    assert (Hl : lower_query "role" (asked owner status role limit) = role).
    { assert (Hne : role <> "") by (intros ->; set_solver).
      unfold lower_query. rewrite (query_role owner status role limit Hne). unfold to_lower.
      repeat (apply elem_of_cons in Hr as [->|Hr]; [vm_compute; reflexivity|]). set_solver. }
    rewrite Hl. exists "bad_role".
    repeat (apply elem_of_cons in Hr as [->|Hr]; [reflexivity|]). set_solver. }
  destruct He as [e ->]. by exists e.
Qed.

(** A client that names no status gets the server's default, the open records. *)
Lemma empty_status_open c owner role limit f : list_filter c (asked owner "" role limit) = Ok f -> fl_status f = "open".
Proof.
  assert (Es : lower_query "status" (asked owner "" role limit) = "" /\ lower_query "state" (asked owner "" role limit) = "").
  { unfold lower_query, asked, list_request, list_query, opt_param. by destruct (bool_decide (role = "")). }
  unfold list_filter. destruct (bool_decide (_ = "")); [done|].
  destruct (resolveAddressMaybeAlias _ _) as [[[? ?] ?]|]; [|done]. destruct (_ && negb (String.eqb _ "all")); [done|].
  destruct Es as [-> ->]. by intros [= <-].
Qed.
Lemma match_status f r : r2p_match f r = true -> fl_status f <> "" -> rp_Status r = fl_status f.
Proof.
  unfold r2p_match. rewrite !andb_true_iff. intros [[[_ Hs] _] _] Hne. rewrite (bool_decide_false _ Hne) in Hs.
  by case_bool_decide.
Qed.

(** C28: the client reads what the server holds: of a node with the feature on, the lock of the
    requests free, no nil record and only ASCII text and numbers in range in its records,
    and with an owner, role and status that the server accepts, [FetchAllR2P]
    returns after one request all the records the owner, role and status select, newest
    first, and changes nothing, and so does the pager, which is then done.  An empty status
    selects the open records only: a record that is paid, declined or canceled is not
    returned, although the client's comment says that an empty status means all.  With a role that
    the client documents and uses by default ([payee], [payer], [any]) the server refuses
    every query, whatever the owner. *)
Theorem client_reads_server (cfg : Config) (c : Ctx) (owner status role : string) (limit : Z) (n : Node) :
  flag c "THOMAS_FEAT_R2P" = true ->
  (forall f, role <> "" -> list_filter c (asked owner status role limit) = Ok f -> r2p_stuck n = false ->
     map_Forall (fun _ o => o <> None) (r2p_view n) -> view_ok (r2p_view n) ->
     exists out, FetchAllR2P (node_get cfg c) owner status role limit n = (Ok (client_view <$> out), n) /\
       Pager_Next (node_get cfg c) (NewPager owner role status limit) n =
         ((Ok (client_view <$> out, true), mkPager owner role status (default_limit limit) "" true), n) /\
       Sorted created_ge out /\
       (forall r, r ∈ out <-> exists id, r2p_view n !! id = Some (Some r) /\ r2p_match f r = true) /\
       (status = "" -> Forall (fun r => rp_Status r = "open") out)) /\
  (role ∈ [""; "payee"; "payer"; "any"] ->
     FetchAllR2P (node_get cfg c) owner status role limit n = (Err "bad status 400", n)).
Proof.
  intros Hf. split.
  - intros f Hr Hl Hs Hnil Hv.
    destruct (r2p_list_correct c (asked owner status role limit) n f eq_refl Hf Hl Hs Hnil) as (out & Ho & Hsort & Hin).
    apply (node_get_listing cfg) in Ho. exists out.
    assert (Hok : Forall record_ok out).
    { apply Forall_forall. intros r (id & Hid & _)%Hin. apply (Hv id (Some r) Hid). }
    destruct (listing_decodes out Hok) as [Hd1 Hd2].
    assert (Hp : forall dec pre, first_value (encoded (listing out)) ≫= dec = Some (mkListResp true (client_view <$> out) "") ->
      page_of dec pre (Ok (200, encoded (listing out))) = Ok (mkListResp true (client_view <$> out) "")).
    { intros dec pre E. unfold page_of. change (negb (200 =? 200)) with false. cbn iota. by rewrite E. }
    split; [|split; [|split; [done|split; [done|]]]].
    + unfold FetchAllR2P. rewrite (bool_decide_false _ Hr). cbn [fetch_loop]. rewrite Ho, (Hp _ _ Hd1). done.
    + unfold Pager_Next, NewPager. cbn [pg_done pg_Owner pg_Status pg_Role pg_Limit pg_cursor]. rewrite Ho, (Hp _ _ Hd2). done.
    + intros ->. apply Forall_forall. intros r (id & _ & Hm)%Hin. apply empty_status_open in Hl.
      rewrite (match_status f r Hm); [done|by rewrite Hl].
  - intros Hr.
    set (role' := if bool_decide (role = "") then "payee" else role).
    assert (Hr' : role' ∈ ["payee"; "payer"; "any"]).
    { subst role'. repeat (apply elem_of_cons in Hr as [->|Hr]; [cbn; set_solver|]). set_solver. }
    destruct (bad_role_refused c owner status role' limit n Hf Hr') as [e He].
    apply (node_get_replied cfg) in He. unfold FetchAllR2P. fold role'. cbn [fetch_loop].
    unfold asked in He. rewrite He. done.
Qed.
End Served.

(** The node of RouterSpec.v with one request: tho1bob asks tho1alice for 100 mas. *)
Section Witnesses.
#[local] Existing Instance runtime0.
#[local] Existing Instance gosort0.
#[local] Existing Instance blake3_0.
#[local] Existing Instance cbor0.
#[local] Existing Instance ed0.
#[local] Existing Instance float_amd64.
#[local] Existing Instance kdf0.
(** The same node once the request is paid. *)
Definition paid0 : r2pRecord := mark_paid ctx0 "ab" rec0.
Definition settled0 : Node := mkNode eng0 [paid0] {["a1" := Some 0%nat]} "data/r2p.json" None false 0 0.
Lemma settled0_view : r2p_view settled0 = {["a1" := Some paid0]} /\ view_ok (r2p_view settled0).
Proof.
  assert (E : r2p_view settled0 = {["a1" := Some paid0]}) by (vm_compute; reflexivity).
  split; [exact E|]. rewrite E. apply map_Forall_singleton. split; [done|]. cbn.
  split; unfold in_u64, in_i64; cbn; try lia. repeat constructor.
Qed.
Lemma client_reads_server_witness :
  (exists out, FetchAllR2P (node_get other0 cfg0 ctx0) "tho1alice" "open" "inbox" 2 asked0 = (Ok (client_view <$> out), asked0) /\
     rec0 ∈ out) /\
  (exists out, FetchAllR2P (node_get other0 cfg0 ctx0) "tho1alice" "" "inbox" 2 settled0 = (Ok (client_view <$> out), settled0) /\
     paid0 ∉ out) /\
  FetchAllR2P (node_get other0 cfg0 ctx0) "@alice" "paid" "payee" 2 asked0 = (Err "bad status 400", asked0).
Proof.
  split; [|split].
  - assert (E : r2p_view asked0 = {["a1" := Some rec0]}) by (vm_compute; reflexivity).
    destruct (proj1 (client_reads_server other0 cfg0 ctx0 "tho1alice" "open" "inbox" 2 asked0 eq_refl)
      (mkFilter "tho1alice" "inbox" "open" "" "")) as (out & Ho & _ & _ & Hin & _).
    + discriminate.
    + vm_compute. reflexivity.
    + reflexivity.
    + rewrite E. by apply map_Forall_singleton.
    + exact view0_ok.
    + exists out. split; [exact Ho|]. apply Hin. exists "a1". split; [vm_compute; reflexivity|vm_compute; reflexivity].
  - destruct (proj1 (client_reads_server other0 cfg0 ctx0 "tho1alice" "" "inbox" 2 settled0 eq_refl)
      (mkFilter "tho1alice" "inbox" "open" "" "")) as (out & Ho & _ & _ & _ & Hop).
    + discriminate.
    + vm_compute. reflexivity.
    + reflexivity.
    + rewrite (proj1 settled0_view). by apply map_Forall_singleton.
    + exact (proj2 settled0_view).
    + exists out. split; [exact Ho|]. intros Hin. pose proof (proj1 (Forall_forall _ _) (Hop eq_refl) _ Hin) as E.
      vm_compute in E. discriminate E.
  - exact (proj2 (client_reads_server other0 cfg0 ctx0 "@alice" "paid" "payee" 2 asked0 eq_refl)
      (list_elem_of_further _ _ _ (list_elem_of_here _ _))).
Defined.
End Witnesses.
