(* ===== verification/Proxy.v ===== *)
(** * tools/signedmsg_proxy: a proxy that checks the signatures of round headers.

    The proxy fetches [/round/{n}/signed] from a node, rebuilds the message it takes to be
    signed and reports whether the signature is valid.  The HTTP client is the argument
    [http_get]; [reaches] says that the server of this repository is behind it. *)
From S2P Require Export Client Eternity.
From Stdlib Require Import Ascii.

Record hdr := mkHdr {
  hd_Round : Z; hd_FromHeight : Z; hd_ToHeight : Z; hd_TxCount : Z; hd_Root : string; hd_TimeUTC : Z
}.
Record signedResp := mkSignedResp { sr_Algo : string; sr_Header : hdr; sr_PubHex : string; sr_SigHex : string }.
Record outMsg := mkOutMsg {
  om_Algo : string; om_Header : hdr; om_MessageHex : string; om_MessageB64 : string; om_PubKeyHex : string;
  om_SignatureHex : string; om_SignatureValid : bool
}.
Definition hdr_zero : hdr := mkHdr 0 0 0 0 "" 0.

(** The members of an embedded struct: a later object of the same name overwrites the
    fields it has, [null] changes nothing. *)
Definition dec_nested (name : string) (fs : list (string * json)) : option (list (string * json)) :=
  foldl (fun acc kv => l ← acc;
    if bool_decide (fold_key kv.1 = fold_key name)
    then match kv.2 with JNull => Some l | JObj m => Some (l ++ m) | _ => None end else Some l) (Some []) fs.
Definition hdr_of_members (fs : list (string * json)) : option hdr :=
  r ← dec_field dec_int64 "round" 0 fs; f ← dec_field dec_int64 "from_height" 0 fs;
  t ← dec_field dec_int64 "to_height" 0 fs; n ← dec_field dec_int64 "tx_count" 0 fs;
  root ← dec_field dec_string "root" "" fs; tm ← dec_field dec_int64 "time_utc" 0 fs;
  Some (mkHdr r f t n root tm).
Definition signedResp_of_json : json -> option signedResp :=
  dec_struct (mkSignedResp "" hdr_zero "" "") (fun fs =>
    algo ← dec_field dec_string "algo" "" fs; hs ← dec_nested "header" fs; h ← hdr_of_members hs;
    pub ← dec_field dec_string "pubkey_hex" "" fs; sig ← dec_field dec_string "signature_hex" "" fs;
    Some (mkSignedResp algo h pub sig)).
Definition hdr_json (h : hdr) : json :=
  JObj [("round", JInt (hd_Round h)); ("from_height", JInt (hd_FromHeight h)); ("to_height", JInt (hd_ToHeight h));
        ("tx_count", JInt (hd_TxCount h)); ("root", JStr (hd_Root h)); ("time_utc", JInt (hd_TimeUTC h))].
Definition outMsg_json (o : outMsg) : json :=
  JObj ([("algo", JStr (om_Algo o)); ("header", hdr_json (om_Header o))] ++ omit_str "message_hex" (om_MessageHex o) ++
        omit_str "message_b64" (om_MessageB64 o) ++
        [("pubkey_hex", JStr (om_PubKeyHex o)); ("signature_hex", JStr (om_SignatureHex o));
         ("signature_valid", JBool (om_SignatureValid o))]).

Definition firstNonEmpty (a b : string) : string := if bool_decide (trim_space a = "") then b else a.

(** [w.WriteHeader] panics on a code that has not three digits. *)
Definition proxy_writeJSON (code : Z) (body : bytes) : outcome response :=
  if (code <? 100) || (999 <? code) then Panicked else
  Replied (rs_Write body (rs_WriteHeader code (rs_headers (h_Set "Content-Type" "application/json; charset=utf-8") rs_new))).
Definition proxy_writeErr (code : Z) (codeStr detail : string) : outcome response :=
  proxy_writeJSON code (json_marshal (JObj [("applied", JBool false);
    ("error", JObj ([("code", JStr codeStr); ("message", JStr "")] ++ omit_str "detail" detail)); ("ok", JBool false)])).
Definition mustJSON (j : json) : bytes := json_marshal j.
Definition StatusBadGateway : Z := 502.

(** What becomes of [proxyGET url]: body and status; no answer; or a URL that
    [http.NewRequest] refuses, whose nil request the function dereferences. *)
Inductive fetched := Got (body : bytes) (code : Z) | NoAnswer (err : string) | BadURL.

Section Proxy.
Context `{Ed25519}.

Definition verifySig (pubHex sigHex : string) (msg : bytes) : bool * option string :=
  match hex_decode (trim_space pubHex) with
  | None => (false, Some "bad pubkey_hex")
  | Some pub =>
      match hex_decode (trim_space sigHex) with
      | None => (false, Some "bad signature_hex")
      | Some sig =>
          if negb (bool_decide (length pub = 32%nat)) || negb (bool_decide (length sig = 64%nat))
          then (false, Some "invalid key/signature length")
          else (ed_verify pub msg sig, None)
      end
  end.
Lemma proxy_writeJSON_200 b : exists w, proxy_writeJSON 200 b = Replied w /\ rs_status w = 200.
Proof. by eexists. Qed.
(** The message the proxy checks a signature against. *)
Definition signed_text (h : hdr) : bytes := to_bytes "THOMAS|hdr|v1|" ++ json_marshal (hdr_json h).
Definition check_signed (s : signedResp) : outMsg :=
  let msg := signed_text (sr_Header s) in
  mkOutMsg (firstNonEmpty (sr_Algo s) "ed25519") (sr_Header s) (hex_encode msg) (b64_encode false msg)
    (sr_PubHex s) (sr_SigHex s) (verifySig (sr_PubHex s) (sr_SigHex s) msg).1.

Section Handlers.
Context (http_get : string -> fetched) (base : string).

Definition handleSignedMsg (round : string) : outcome response :=
  match http_get (base +:+ "/round/" +:+ round +:+ "/signed") with
  | BadURL => Panicked
  | NoAnswer e => proxy_writeErr StatusBadGateway "bad_gateway" e
  | Got j code =>
      if negb (code =? 200) then proxy_writeJSON code j else
      match json_unmarshal j ≫= signedResp_of_json with
      | None => proxy_writeErr StatusBadGateway "bad_gateway" "unmarshal backend signed"
      | Some s => proxy_writeJSON 200 (mustJSON (outMsg_json (check_signed s)))
      end
  end.
(** [/health]: the error is ignored, so without an answer the code is 0. *)
Definition proxy_health : outcome response :=
  match http_get (base +:+ "/health") with
  | BadURL => Panicked
  | NoAnswer _ => proxy_writeJSON 0 []
  | Got j code => proxy_writeJSON code j
  end.
Definition proxy_round (path : string) : outcome response :=
  match split_slash (trim_prefix path "/round/") with
  | [p0; p1] =>
      if String.eqb p1 "signed_msg" then
        if String.eqb p0 "latest" then handleSignedMsg "latest" else
        match parse_int p0 with
        | None => proxy_writeErr StatusBadRequest "bad_request" "round must be integer or 'latest'"
        | Some n => handleSignedMsg (fmt_int n)
        end
      else proxy_writeErr StatusNotFound "not_found" "unknown path"
  | _ => proxy_writeErr StatusNotFound "not_found" "unknown path"
  end.
Definition proxy_tx (path : string) : outcome response :=
  let hash := trim_prefix path "/tx/" in
  if bool_decide (hash = "") then proxy_writeErr StatusBadRequest "bad_request" "missing tx hash" else
  match http_get (base +:+ "/tx/" +:+ hash) with
  | BadURL => Panicked
  | NoAnswer e => proxy_writeErr StatusBadGateway "bad_gateway" e
  | Got j code => proxy_writeJSON code j
  end.
(** [main]'s mux; [logMiddleware] only logs. *)
Definition logMiddleware {A} (next : A) : A := next.
Definition proxy_mux (rq : request) : outcome response :=
  let p := rq_Path rq in
  if unclean p then Redirected
  else if String.eqb p "/health" then proxy_health
  else if String.eqb p "/round/latest/signed_msg" then handleSignedMsg "latest"
  else if has_prefix p "/round/" then proxy_round p
  else if has_prefix p "/tx/" then proxy_tx p
  else if String.eqb p "/round" || String.eqb p "/tx" then Redirected
  else Replied (http_Error "404 page not found" StatusNotFound).
End Handlers.
End Proxy.

(** [base] of [main]: the flag, else the environment; the program stops without one. *)
Definition proxy_base (flag env : string) : option string :=
  let base := firstNonEmpty flag env in if bool_decide (base = "") then None else Some base.

(** ** In front of a node *)
Section Spec.
Context `{GoRuntime, GoSort, Blake3, Cbor, Ed25519, GoFloat, WalletKdf}.
Context (other : Handler).

(** [http_get] reaches the node behind [base]: a GET of a path gives what [root] replies. *)
Definition proxy_request (p : string) : request := mkRequest "GET" p [] [("Accept", "application/json")] [] "".
Definition reaches (http_get : string -> fetched) (base : string) (cfg : Config) (c : Ctx) (n : Node) : Prop :=
  forall p w n', str_forall graph p = true -> root other cfg c (proxy_request p) n = (Replied w, n') ->
    http_get (base +:+ p) = Got (rs_body w) (status_seen w).

Definition hdr_of (h : RoundHeader) : hdr :=
  mkHdr (rh_Round h) (rh_FromHeight h) (rh_ToHeight h) (rh_TxCount h) (rh_Root h) (rh_TimeUTC h).
(** The numbers of a header fit into the proxy's [int]s. *)
Definition small_round (h : RoundHeader) : Prop :=
  0 <= rh_Round h < M63 /\ 0 <= rh_FromHeight h < M63 /\ 0 <= rh_ToHeight h < M63 /\ 0 <= rh_TxCount h < M63.
Lemma JInt_nat z : 0 <= z -> JInt z = JUint z.
Proof. intros Hz. unfold JInt, JUint, fmt_int. destruct (Z.ltb_spec z 0); [lia|done]. Qed.
(** The proxy prints the six fields as the node does when it signs. *)
Lemma hdr_json_canonical h : small_round h -> hdr_json (hdr_of h) = JObj (canon_fields h).
Proof. intros (? & ? & ? & ?). unfold hdr_json, canon_fields, hdr_of. cbn. by rewrite !JInt_nat by lia. Qed.
Lemma dec_int64_JUint z : 0 <= z < M63 -> dec_int64 (JUint z) = Some z.
Proof. intros Hz. rewrite <- JInt_nat by lia. apply dec_int64_JInt. unfold in_i64. lia. Qed.
#[local] Hint Resolve dec_int64_JUint : go.
Lemma hdr_of_round h : small_round h -> round_ok h ->
  exists l, round_json h = JObj l /\ hdr_of_members l = Some (hdr_of h).
Proof.
  intros (? & ? & ? & ?) (? & ? & ? & ? & ? & _). eexists. split; [reflexivity|].
  unfold hdr_of_members, canon_fields, hdr_of. case_bool_decide; cbn [app]; json_fields; done.
Qed.
Lemma signed_decodes h pk sg : small_round h -> round_ok h ->
  str_forall is_ascii pk = true -> str_forall is_ascii sg = true ->
  (json_unmarshal (encoded (gomap [("header", round_json h); ("algo", JStr "ed25519"); ("pubkey_hex", JStr pk);
     ("signature_hex", JStr sg)])) ≫= signedResp_of_json) = Some (mkSignedResp "ed25519" (hdr_of h) pk sg).
Proof.
  intros Hs Hr Hp Hg. rewrite encoded_parses by (gomap_solve; by apply round_json_ok).
  destruct (hdr_of_round h Hs Hr) as (l & -> & Hl).
  change (gomap _) with (JObj [("algo", JStr "ed25519"); ("header", JObj l); ("pubkey_hex", JStr pk); ("signature_hex", JStr sg)]).
  cbn [mbind option_bind]. unfold signedResp_of_json, dec_struct. json_fields.
  change (dec_nested "header" _) with (Some l). cbn [mbind option_bind]. rewrite Hl. cbn [mbind option_bind].
  json_fields. done.
Qed.

(** The node's answer to [/round/latest/signed]. *)
Definition genuine (h : RoundHeader) (e : Engine) : bytes := ed_sign (priv e) (CanonicalRoundHeaderBytes h).
Definition signed_members (h : RoundHeader) (e : Engine) : json :=
  gomap [("header", round_json h); ("algo", JStr "ed25519"); ("pubkey_hex", JStr (hex_encode (pub e)));
         ("signature_hex", JStr (hex_encode (genuine h e)))].
Lemma signed_reply_genuine h e : length (priv e) = 64%nat -> pub e = ed_public (priv e) ->
  rh_SignatureHex h = "" \/ rh_SignatureHex h = hex_encode (genuine h e) ->
  signed_reply h e = ok_json (signed_members h e).
Proof.
  intros Hpriv Hpub Hsig. unfold signed_reply, signed_members, PubKeyHex, SignRoundHeader.
  assert (Hl : length (pub e) = 32%nat) by (rewrite Hpub; by apply ed_public_length).
  rewrite (bool_decide_false (length (pub e) = 0%nat)), (bool_decide_false (length (priv e) = 0%nat)) by lia.
  destruct Hsig as [-> | ->]; [by rewrite bool_decide_true|].
  rewrite bool_decide_false; [done|]. intros E. apply (f_equal String.length) in E.
  rewrite hex_encode_length in E. unfold genuine in E. rewrite ed_sign_length in E by done. done.
Qed.
Lemma relay_ok_json j : rs_body (relay (ok_json j) rs_new) = encoded j /\ status_seen (relay (ok_json j) rs_new) = 200.
Proof. done. Qed.
Lemma node_signed cfg c n h : LatestRound (eng n) = Some h ->
  root other cfg c (proxy_request "/round/latest/signed") n = (Replied (relay (signed_reply h (eng n)) rs_new), n).
Proof.
  intros Hh. apply root_plain; [done|]. unfold mux. change (rq_Path _) with "/round/latest/signed".
  change (unclean "/round/latest/signed") with false. cbn iota.
  change (List.find (fun r : string * Handler => String.eqb r.1 "/round/latest/signed") (exact_routes other cfg c))
    with (Some ("/round/latest/signed", round_latest_signed)). cbn iota.
  unfold round_latest_signed. change (negb (is_get _)) with false. cbn iota. by rewrite Hh.
Qed.

(** the proxy checks the wrong message: the node signs the six fields of a round header,
    the proxy checks the signature against the same fields behind the prefix "THOMAS|hdr|v1|".
    So although every signature of the node is genuine, the proxy reports what the signature
    scheme says of another message, which the node has not signed. *)
Theorem proxy_checks_other_message (http_get : string -> fetched) (base : string) (cfg : Config) (c : Ctx)
    (n : Node) (h : RoundHeader) (rq : request) :
  reaches http_get base cfg c n -> rq_Path rq = "/round/latest/signed_msg" ->
  LatestRound (eng n) = Some h -> small_round h -> round_ok h ->
  length (priv (eng n)) = 64%nat -> pub (eng n) = ed_public (priv (eng n)) ->
  rh_SignatureHex h = "" \/ rh_SignatureHex h = hex_encode (genuine h (eng n)) ->
  let sig := genuine h (eng n) in
  let msg := to_bytes "THOMAS|hdr|v1|" ++ CanonicalRoundHeaderBytes h in
  ed_verify (pub (eng n)) (CanonicalRoundHeaderBytes h) sig = true /\ msg <> CanonicalRoundHeaderBytes h /\
  proxy_mux http_get base rq = proxy_writeJSON 200 (json_marshal (outMsg_json
    (mkOutMsg "ed25519" (hdr_of h) (hex_encode msg) (b64_encode false msg) (hex_encode (pub (eng n)))
       (hex_encode sig) (ed_verify (pub (eng n)) msg sig)))).
Proof.
  intros Hg Hp Hh Hs Hr Hpriv Hpub Hsig sig msg. split; [|split].
  - rewrite Hpub. by apply ed_sign_verify.
  - intros E. apply (f_equal length) in E. subst msg. rewrite length_app in E. cbn in E. lia.
  - unfold proxy_mux. rewrite Hp. change (unclean _) with false.
    change (String.eqb "/round/latest/signed_msg" "/health") with false.
    change (String.eqb "/round/latest/signed_msg" "/round/latest/signed_msg") with true. cbn iota.
    unfold handleSignedMsg. change ("/round/" +:+ "latest" +:+ "/signed") with "/round/latest/signed".
    rewrite (Hg "/round/latest/signed" _ _ eq_refl (node_signed cfg c n h Hh)).
    rewrite (signed_reply_genuine h (eng n) Hpriv Hpub Hsig). destruct (relay_ok_json (signed_members h (eng n))) as [-> ->].
    change (negb (200 =? 200)) with false. cbn iota. unfold signed_members.
    rewrite signed_decodes by (done || apply hex_ascii). fold sig.
    unfold check_signed. cbn [sr_Algo sr_Header sr_PubHex sr_SigHex].
    unfold signed_text. rewrite (hdr_json_canonical h Hs). change (json_marshal (JObj (canon_fields h))) with (CanonicalRoundHeaderBytes h).
    fold msg. unfold verifySig. rewrite !trim_space_graph by apply hex_graph. rewrite !hex_roundtrip.
    rewrite Hpub, (bool_decide_true _ (ed_public_length _ Hpriv)), (bool_decide_true (length sig = 64%nat)) by by apply ed_sign_length.
    cbn [negb orb fst]. rewrite <- Hpub. done.
Qed.
End Spec.

(** The node of RouterSpec.v with one round, whose header it signs when asked. *)
Section Witnesses.
#[local] Existing Instance runtime0.
#[local] Existing Instance gosort0.
#[local] Existing Instance blake3_0.
#[local] Existing Instance cbor0.
#[local] Existing Instance ed0.
#[local] Existing Instance float_amd64.
#[local] Existing Instance kdf0.
Definition round1 : RoundHeader := mkRoundHeader 1 1 1 1 "ab" 100 "".
Definition signing0 : Node := set_eng (set_led (mkLedger ∅ [] 1 [round1] 1) eng0) asked0.
Definition http0 (url : string) : fetched :=
  if has_prefix url "http://n" then
    match (root other0 cfg0 ctx0 (proxy_request (str_drop 8 url)) signing0).1 with
    | Replied w => Got (rs_body w) (status_seen w)
    | _ => NoAnswer "EOF"
    end
  else NoAnswer "no such host".
Lemma has_prefix_self a b : has_prefix (a +:+ b) a = true.
Proof.
  unfold has_prefix. induction a as [|c a IH]; [by destruct b|]. str_norm. cbn. by destruct (ascii_dec c c).
Qed.
Lemma http0_reaches : reaches other0 http0 "http://n" cfg0 ctx0 signing0.
Proof.
  intros p w n' _ Hr. unfold http0. rewrite has_prefix_self.
  change 8%nat with (String.length "http://n"). by rewrite str_drop_app, Hr.
Qed.
Lemma proxy_checks_other_message_witness :
  ed_verify (pub (eng signing0)) (CanonicalRoundHeaderBytes round1) (genuine round1 (eng signing0)) = true /\
  exists w, proxy_mux http0 "http://n" (mkRequest "GET" "/round/latest/signed_msg" [] [] [] "") = Replied w /\
            rs_status w = 200.
Proof.
  destruct (proxy_checks_other_message other0 http0 "http://n" cfg0 ctx0 signing0 round1
    (mkRequest "GET" "/round/latest/signed_msg" [] [] [] "") http0_reaches eq_refl eq_refl) as (Hv & _ & Hm).
  - unfold small_round, round1. cbn. lia.
  - unfold round_ok, round1, in_u64, in_i64. cbn. repeat split; lia.
  - vm_compute. reflexivity.
  - vm_compute. reflexivity.
  - left. reflexivity.
  - split; [exact Hv|]. match type of Hm with _ = proxy_writeJSON 200 ?b =>
      destruct (proxy_writeJSON_200 b) as (w & Hw & Hs); exists w; split; [rewrite <- Hw; exact Hm|exact Hs] end.
Defined.
End Witnesses.
