(* ===== verification/SignTools.v ===== *)
(** * Signing tools: tools/ed25519sign, cmd/ed25519tool, sig_util.go and sig_once.go.

    Command-line programs as functions from their arguments, the key file and the random
    seed to what they print and how they exit.  [Ed25519Keys] adds to the scheme of Types.v
    the documented layout of a Go private key: the seed, then the public key. *)
From S2P Require Export Client.
From Stdlib Require Import Ascii.

Class Ed25519Keys `{Ed25519} := {
  ed_seed_of_key : forall seed, length seed = 32%nat -> take 32 (ed_key_from_seed seed) = seed;
  ed_public_of_key : forall priv, length priv = 64%nat -> ed_public priv = drop 32 priv
}.

(** How a program ends: its output, the code of an exit, or a panic. *)
Inductive run := Done (out : string) | Exit (code : Z) (out : string) | Panic (msg : string).
Definition println (s : string) : string := s +:+ newline.
Definition StdEncoding (b : bytes) : string := b64_encode false b.

(** ** tools/ed25519sign *)
Section Sign.
Context `{Ed25519}.

Definition is_blank (x : Byte.byte) : bool :=
  let z := b2z x in (z =? 32) || (z =? 10) || (z =? 13) || (z =? 9).
Fixpoint trim_front (b : bytes) : bytes :=
  match b with [] => [] | x :: b' => if is_blank x then trim_front b' else b end.
Definition bytesTrimSpace (b : bytes) : bytes := reverse (trim_front (reverse (trim_front b))).

(** The private key, and its public key, in the content of a key file. *)
Definition key_of_bytes (dec : bytes) : result (bytes * bytes) :=
  if bool_decide (length dec = 32%nat) then let priv := ed_key_from_seed dec in Ok (priv, ed_public priv)
  else if bool_decide (length dec = 64%nat) then Ok (dec, ed_public dec)
  else Err ("unexpected key length: " +:+ fmt_uint (Z.of_nat (length dec))).
Definition readKey (file : option bytes) : result (bytes * bytes) :=
  match file with
  | None => Err "open"
  | Some b =>
      let text := of_bytes (bytesTrimSpace b) in
      match b64_decode false text with
      | Some dec => key_of_bytes dec
      | None =>
          match hex_decode text with
          | Some dec => key_of_bytes dec
          | None => Err "key decode failed (b64/hex)"
          end
      end
  end.
Definition fatal (msg : string) : run := Exit 1 ("ERR: " +:+ msg +:+ newline).

Record sign_args := mkSignArgs {
  sa_gen : bool; sa_out : string; sa_pub : bool; sa_msghex : string; sa_msgb64 : string; sa_sign : bool
}.
(** [seed] is the random seed of a generated key, [wr] whether the output file can be
    written; the second component is what is written to it. *)
Definition ed25519sign (seed : bytes) (wr : bool) (keyfile : option bytes) (a : sign_args) : run * option bytes :=
  if sa_gen a then
    let priv := ed_key_from_seed seed in
    let data := StdEncoding (take 32 priv) in
    if bool_decide (sa_out a = "") then (Done (println data), None)
    else if wr then (Done (println ("wrote seed(base64): " +:+ sa_out a)), Some (to_bytes data))
    else (fatal "write", None)
  else
    match readKey keyfile with
    | Err e => (fatal e, None)
    | Ok (priv, pubKey) =>
        if sa_pub a then (Done (println (StdEncoding pubKey)), None)
        else if sa_sign a then
          if negb (bool_decide (sa_msghex a = "")) then
            match hex_decode (sa_msghex a) with
            | None => (fatal "hex", None)
            | Some msg => (Done (println (StdEncoding (ed_sign priv msg))), None)
            end
          else if negb (bool_decide (sa_msgb64 a = "")) then
            match b64_decode false (sa_msgb64 a) with
            | None => (fatal "base64", None)
            | Some msg => (Done (println (StdEncoding (ed_sign priv msg))), None)
            end
          else (fatal "provide -msghex or -msgb64", None)
        else (Done (println "nothing to do; use -gen / -pub / -sign"), None)
    end.

(** ** cmd/ed25519tool *)
Record tool_args := mkToolArgs { ta_gen : bool; ta_sk : string; ta_msg : string; ta_hex : bool }.
Definition ed25519tool (seed : bytes) (a : tool_args) : run :=
  if ta_gen a then
    let sk := ed_key_from_seed seed in
    Done ("PK:" +:+ StdEncoding (ed_public sk) +:+ newline +:+ "SK:" +:+ StdEncoding sk +:+ newline)
  else if bool_decide (ta_sk a = "") || bool_decide (ta_msg a = "") then
    Exit 2 (println "usage: ed25519tool -sk <b64-or-hex> [-hex] -m <message>   or   ed25519tool -gen")
  else
    match (if ta_hex a then hex_decode (ta_sk a) else b64_decode false (ta_sk a)) with
    | None => Exit 2 (println "bad private key encoding")
    | Some raw =>
        if bool_decide (length raw = 64%nat) || bool_decide (length raw = 32%nat) then
          let sk := if bool_decide (length raw = 64%nat) then raw else ed_key_from_seed raw in
          Done ("PK:" +:+ StdEncoding (ed_public sk) +:+ newline +:+
                "SIG:" +:+ StdEncoding (ed_sign sk (to_bytes (ta_msg a))) +:+ newline)
        else Exit 2 (println "bad private key length")
    end.

(** ** sig_util.go and sig_once.go *)
Definition usage : run :=
  Exit 2 (println "usage:" +:+ println "  go run sig_util.go gen" +:+ println "  go run sig_util.go pub  <sk_b64>" +:+
          println "  go run sig_util.go sign <sk_b64> <message>").
(** [sk[32:]]: slicing a shorter key panics; [ed25519.Sign] panics unless the key has 64 bytes. *)
Definition sig_util (seed : bytes) (args : list string) : run :=
  match args with
  | "gen" :: _ =>
      let sk := ed_key_from_seed seed in
      Done (println (StdEncoding (drop 32 sk)) +:+ println (StdEncoding sk))
  | "pub" :: sk :: _ =>
      match b64_decode false sk with
      | None => Exit 2 (println "bad sk")
      | Some skb => if (length skb <? 32)%nat then Panic "slice bounds out of range"
                    else Done (println (StdEncoding (drop 32 skb)))
      end
  | "sign" :: sk :: msg :: _ =>
      match b64_decode false sk with
      | None => Exit 2 (println "bad sk")
      | Some skb =>
          if negb (bool_decide (length skb = 64%nat)) then Panic "ed25519: bad private key length"
          else Done (println (StdEncoding (drop 32 skb)) +:+ println (StdEncoding (ed_sign skb (to_bytes msg))))
      end
  | _ => usage
  end.
Definition sig_once (seed : bytes) (args : list string) : run :=
  match args with
  | [] => Panic "index out of range"
  | m :: _ =>
      let sk := ed_key_from_seed seed in
      Done (println (StdEncoding (drop 32 sk)) +:+ println (StdEncoding (ed_sign sk (to_bytes m))))
  end.
End Sign.

(** ** Text without blanks *)
Lemma b64_graph url b : str_forall graph (b64_encode url b) = true.
Proof. by apply b64_forall; [destruct url; vm_compute|vm_compute]. Qed.
Definition unblank (x : Byte.byte) : Prop := is_blank x = false.
Lemma graph_unblank s : str_forall graph s = true -> Forall unblank (to_bytes s).
Proof.
  unfold to_bytes. induction s as [|c s IH]; [constructor|]. cbn. intros [Hc Hs]%andb_true_iff. constructor; [|by apply IH].
  clear -Hc. destruct c as [[] [] [] [] [] [] [] []]; vm_compute in Hc |- *; done.
Qed.
Lemma trim_front_unblank b : Forall unblank b -> trim_front b = b.
Proof. intros [|x l Hx _]; [done|]. cbn. by rewrite Hx. Qed.
Lemma trim_unblank b : Forall unblank b -> bytesTrimSpace b = b.
Proof.
  intros Hb. unfold bytesTrimSpace. rewrite (trim_front_unblank b Hb).
  rewrite trim_front_unblank by by rewrite reverse_Permutation. apply reverse_involutive.
Qed.
(** A file with nothing but text is read as that text. *)
Lemma readKey_text `{Ed25519} s : str_forall graph s = true ->
  readKey (Some (to_bytes s)) =
    match b64_decode false s with
    | Some dec => key_of_bytes dec
    | None => match hex_decode s with Some dec => key_of_bytes dec | None => Err "key decode failed (b64/hex)" end
    end.
Proof. intros Hs. unfold readKey. by rewrite trim_unblank, of_to_bytes by by apply graph_unblank. Qed.

(** ** Hexadecimal text is base64 text *)
Definition is_hex (c : ascii) : bool := match hexval c with Some _ => true | None => false end.
Lemma hex_b64_val c : is_hex c = true -> is_Some (b64_val false c).
Proof. destruct c as [[] [] [] [] [] [] [] []]; vm_compute; intros E; (discriminate E || by eexists). Qed.
Lemma is_hex_graph c : is_hex c = true -> graph c = true.
Proof. destruct c as [[] [] [] [] [] [] [] []]; vm_compute; intros E; (discriminate E || done). Qed.
Lemma hex_decode_text s key : hex_decode s = Some key ->
  str_forall is_hex s = true /\ String.length s = (2 * length key)%nat.
Proof.
  revert key. induction s as [s IH] using (induction_ltof1 _ String.length); unfold ltof in IH.
  destruct s as [|c [|d s]]; intros key; [by intros [= <-]|done|]. cbn [hex_decode str_forall].
  intros E. apply bind_Some in E as (h & Hh & E). apply bind_Some in E as (l & Hl & E).
  apply bind_Some in E as (b & Hb & E). injection E as <-.
  destruct (IH s ltac:(cbn; lia) b Hb) as [Hs Hlen]. unfold is_hex at 1 2. rewrite Hh, Hl, Hs. split; [done|]. cbn in *. lia.
Qed.
Lemma hex_as_b64 s k : str_forall is_hex s = true -> String.length s = (4 * k)%nat ->
  exists d, b64_decode false s = Some d /\ length d = (3 * k)%nat.
Proof.
  intros Hs Hlen.
  assert (Hst : strip_newlines s = s).
  { clear Hlen. induction s as [|c s IH]; [done|]. cbn in Hs. apply andb_true_iff in Hs as [Hc Hs].
    destruct (hex_b64_val c Hc) as [v Hv]. by rewrite (strip_cons c s false v Hv), IH. }
  unfold b64_decode. rewrite Hst. clear Hst. revert s Hs Hlen. induction k as [|k IH]; intros s Hs Hlen.
  { destruct s; [|done]. by exists []. }
  destruct s as [|c [|d [|e [|f s]]]]; try (cbn in Hlen; lia).
  cbn [str_forall] in Hs. repeat (apply andb_true_iff in Hs as [? Hs]).
  destruct (IH s Hs) as (t & Ht & Hl). { cbn in Hlen. lia. }
  repeat match goal with Hc : is_hex _ = true |- _ => apply hex_b64_val in Hc as [? ?] end.
  eexists. split; [by apply b64_groups_full|]. cbn. rewrite Hl. lia.
Qed.

(** ** What the tools promise *)
Section Spec.
Context `{Ed25519Keys}.
Definition gen_args (out : string) : sign_args := mkSignArgs true out false "" "" false.
Definition pub_args : sign_args := mkSignArgs false "" true "" "" false.
Definition hex_args (msg : bytes) : sign_args := mkSignArgs false "" false (hex_encode msg) "" true.

Lemma hex_key_refused s key : hex_decode s = Some key -> length key = 32%nat \/ length key = 64%nat ->
  readKey (Some (to_bytes s)) = Err ("unexpected key length: " +:+ fmt_uint (Z.of_nat (3 * length key / 2))).
Proof.
  intros Hd Hk. destruct (hex_decode_text s key Hd) as [Hs Hlen].
  rewrite readKey_text by (apply (str_forall_impl is_hex graph); [apply is_hex_graph|done]).
  destruct (hex_as_b64 s (length key / 2) Hs) as (d & -> & Hl); [rewrite Hlen; by destruct Hk as [-> | ->]|].
  unfold key_of_bytes. rewrite Hl. by destruct Hk as [-> | ->].
Qed.

(** a generated key is a working key: the file that [-gen] writes is read back as the key of
    its seed; with it [-pub] and [-sign] print a public key and a signature that belong
    together, and a transaction that carries them in its headers passes the server's
    signature check.  A key in hexadecimal, which the tool says it accepts, is always
    refused: such a text is valid base64, of a wrong length. *)
Theorem generated_key_works (seed : bytes) (out : string) : length seed = 32%nat -> out <> "" ->
  let key := ed_key_from_seed seed in
  exists data, ed25519sign seed true None (gen_args out) = (Done (println ("wrote seed(base64): " +:+ out)), Some data) /\
    readKey (Some data) = Ok (key, ed_public key) /\
    ed25519sign seed true (Some data) pub_args = (Done (println (StdEncoding (ed_public key))), None) /\
    (forall msg, msg <> [] -> ed25519sign seed true (Some data) (hex_args msg) =
       (Done (println (StdEncoding (ed_sign key msg))), None)) /\
    (forall cfg rq i, Header_Get "X-PubKey" rq = StdEncoding (ed_public key) ->
       Header_Get "X-Sig" rq = StdEncoding (ed_sign key (to_bytes (calcCommit i))) -> sig_ok cfg rq i = true) /\
    readKey (Some (to_bytes (hex_encode seed))) = Err "unexpected key length: 48" /\
    readKey (Some (to_bytes (hex_encode key))) = Err "unexpected key length: 96".
Proof.
  intros Hseed Hout key. pose proof (ed_key_length seed Hseed) as Hkey. fold key in Hkey.
  pose proof (ed_public_length key Hkey) as Hp.
  set (data := to_bytes (StdEncoding seed)).
  assert (Hread : readKey (Some data) = Ok (key, ed_public key)).
  { unfold data. rewrite readKey_text by apply b64_graph. unfold StdEncoding. rewrite b64_roundtrip.
    unfold key_of_bytes. by rewrite (bool_decide_true _ Hseed). }
  exists data. split; [|split; [exact Hread|split; [|split; [|split; [|split]]]]].
  - unfold ed25519sign, gen_args. cbn [sa_gen sa_out]. rewrite ed_seed_of_key by done. by rewrite bool_decide_false.
  - unfold ed25519sign, pub_args. cbn [sa_gen sa_pub]. by rewrite Hread.
  - intros msg Hm. unfold ed25519sign, hex_args. cbn [sa_gen sa_pub sa_sign sa_msghex]. rewrite Hread.
    rewrite bool_decide_false by (by destruct msg). cbn [negb]. by rewrite hex_roundtrip.
  - intros cfg rq i Hpk Hsg. unfold sig_ok, body_sig. rewrite Hpk, Hsg.
    assert (Hne : forall b, b <> [] -> StdEncoding b <> "").
    { intros b Hb E. apply (f_equal (b64_decode false)) in E. unfold StdEncoding in E.
      rewrite b64_roundtrip in E. by injection E. }
    rewrite !(bool_decide_false (StdEncoding _ = "")) by (apply Hne; intros E; apply (f_equal length) in E;
      rewrite ?ed_sign_length, ?Hp in E by done; done).
    cbn [orb]. unfold StdEncoding. rewrite !b64_roundtrip, ed_sign_length, Hp by done. by rewrite ed_sign_verify.
  - by rewrite (hex_key_refused _ seed), Hseed by (rewrite ?hex_roundtrip; auto).
  - by rewrite (hex_key_refused _ key), Hkey by (rewrite ?hex_roundtrip; auto).
Qed.

(** The other tools print the same public key and signature for the same key. *)
Lemma tools_agree (seed key : bytes) (msg : string) : length key = 64%nat -> msg <> "" ->
  ed25519tool seed (mkToolArgs false (StdEncoding key) msg false) =
    Done ("PK:" +:+ StdEncoding (ed_public key) +:+ newline +:+
          "SIG:" +:+ StdEncoding (ed_sign key (to_bytes msg)) +:+ newline) /\
  sig_util seed ["sign"; StdEncoding key; msg] =
    Done (println (StdEncoding (ed_public key)) +:+ println (StdEncoding (ed_sign key (to_bytes msg)))).
Proof.
  intros Hk Hm. pose proof (b64_roundtrip false key) as Hb. fold (StdEncoding key) in Hb.
  assert (Hne : StdEncoding key <> "") by (intros E; rewrite E in Hb; by destruct key). split.
  - unfold ed25519tool. cbn [ta_gen ta_sk ta_msg ta_hex]. rewrite !bool_decide_false by done. cbn [orb].
    rewrite Hb. by rewrite (bool_decide_true _ Hk).
  - unfold sig_util. rewrite Hb, (bool_decide_true _ Hk). cbn [negb]. by rewrite ed_public_of_key.
Qed.
End Spec.

Section Witnesses.
#[local] Existing Instance ed0.
Lemma toy_seed_of_key seed : length seed = 32%nat -> take 32 (ed_key_from_seed seed) = seed.
Proof. intros Hl. cbn [ed_key_from_seed ed0]. rewrite <- Hl. apply take_app_length. Qed.
Lemma toy_public_of_key priv : length priv = 64%nat -> ed_public priv = drop 32 priv.
Proof. done. Qed.
Definition keys0 : @Ed25519Keys ed0 :=
  {| ed_seed_of_key := toy_seed_of_key; ed_public_of_key := toy_public_of_key |}.
#[local] Existing Instance keys0.
Lemma generated_key_works_witness : exists data,
  ed25519sign (h32 5) true None (gen_args "node.key") = (Done (println "wrote seed(base64): node.key"), Some data) /\
  readKey (Some (to_bytes (hex_encode (h32 5)))) = Err "unexpected key length: 48".
Proof.
  destruct (generated_key_works (h32 5) "node.key" eq_refl ltac:(done)) as (data & Hg & _ & _ & _ & _ & Hh & _).
  exists data. split; [exact Hg|exact Hh].
Defined.
End Witnesses.
